(** * ItemSync: the directory synchroniser of CopyQ

    A shallow embedding of [plugins/itemsync/itemsync.cpp]: the format
    registry, the base-name allocator, the manifest reader, the directory
    scanner, the item/file materialiser, the [FileWatcher] engine with its two
    reconciliation passes and the loader facade, followed by the properties of
    the specification that concern them.

    Conventions of the embedding.
    - [QString] is [string]: the characters are the code points below 256, on
      which [QChar::isDigit] holds of ['0'..'9'] only and [QString]'s order is
      [String.compare].
    - [QByteArray] is [list byte].
    - [QMap<QString, T>] is an association list kept sorted by key, so that
      [keys] and [values] enumerate in the order of the C++ iteration.
    - [QMultiMap<Hash, QString>] is a list of pairs.
    - The file system is an explicit value threaded through the passes. *)

From Stdlib Require Import ZArith List String Ascii Bool Lia DecimalString.
From Stdlib Require Import Strings.Byte.
From Stdlib Require Import Permutation.
Import ListNotations.

Local Open Scope string_scope.
Local Open Scope list_scope.
Local Open Scope Z_scope.

Set Implicit Arguments.

(** String concatenation, written apart from the [++] of lists. *)
Infix "+++" := String.append (at level 60, right associativity).

Definition QString := string.
Definition QStringList := list QString.
Definition QByteArray := list byte.

(** ** QString operations used by the plugin *)

Module QStr.

Definition size (s : QString) : Z := Z.of_nat (String.length s).

Definition isEmpty (s : QString) : bool :=
  match s with EmptyString => true | String _ _ => false end.

Definition startsWith (s p : QString) : bool := String.prefix p s.

Definition endsWith (s x : QString) : bool :=
  let n := String.length s in
  let k := String.length x in
  (k <=? n)%nat && String.eqb (substring (n - k) k s) x.

(** [QString::left(n)]: the whole string when [n] is negative or not below
    the size. *)
Definition left (s : QString) (n : Z) : QString :=
  if (n <? 0) || (size s <=? n) then s else substring 0 (Z.to_nat n) s.

(** [QString::mid(pos)] with the default length. *)
Definition mid (s : QString) (pos : Z) : QString :=
  if size s <? pos then EmptyString
  else substring (Z.to_nat pos) (String.length s - Z.to_nat pos) s.

(** [QString::mid(pos, n)]. *)
Definition mid2 (s : QString) (pos n : Z) : QString :=
  substring (Z.to_nat pos) (Z.to_nat n) s.

Fixpoint lastIndexOf_from (s : QString) (c : ascii) (pos acc : Z) : Z :=
  match s with
  | EmptyString => acc
  | String a s' =>
      lastIndexOf_from s' c (pos + 1) (if Ascii.eqb a c then pos else acc)
  end.

(** [QString::lastIndexOf(c)], -1 when [c] does not occur. *)
Definition lastIndexOf (s : QString) (c : ascii) : Z :=
  lastIndexOf_from s c 0 (-1).

(** [QString::chop(1)]. *)
Definition chop1 (s : QString) : QString :=
  substring 0 (String.length s - 1) s.

Definition isDigit (c : ascii) : bool :=
  let n := N_of_ascii c in ((48 <=? n) && (n <=? 57))%N.

Fixpoint allDigits (s : QString) : bool :=
  match s with
  | EmptyString => true
  | String c s' => isDigit c && allDigits s'
  end.

(** [re.cap(0)] after [baseName.indexOf(QRegExp("\\d+$"))]: the leftmost
    position from which the rest of the string is a non-empty run of digits,
    that is the maximal trailing run; empty when the search fails. *)
Fixpoint trailingDigits (s : QString) : QString :=
  match s with
  | EmptyString => EmptyString
  | String c s' =>
      if isDigit c && allDigits s' then s else trailingDigits s'
  end.

Fixpoint digitsValue (s : QString) (acc : Z) : Z :=
  match s with
  | EmptyString => acc
  | String c s' => digitsValue s' (10 * acc + (Z.of_N (N_of_ascii c) - 48))
  end.

(** [QString::toInt()] on a run of digits: 0 when the value does not fit an
    [int]. *)
Definition toInt (s : QString) : Z :=
  if isEmpty s || negb (allDigits s) then 0
  else let v := digitsValue s 0 in if v >? 2147483647 then 0 else v.

Fixpoint zeros (n : nat) : QString :=
  match n with
  | O => EmptyString
  | S n' => String "0" (zeros n')
  end.

Definition decimal (i : Z) : QString :=
  NilEmpty.string_of_uint (N.to_uint (Z.to_N i)).

(** [QString("%1").arg(i, fieldWidth, 10, QChar('0'))] for [0 <= i]. *)
Definition arg (i fieldWidth : Z) : QString :=
  let d := decimal i in
  zeros (Z.to_nat fieldWidth - String.length d) +++ d.

Definition isUnsafe (c : ascii) : bool :=
  Ascii.eqb c "/" || Ascii.eqb c "\".

Fixpoint replaceSeparators (s : QString) : QString :=
  match s with
  | EmptyString => EmptyString
  | String c s' =>
      String (if isUnsafe c then "_"%char else c) (replaceSeparators s')
  end.

(** [name->replace(QRegExp("/|\\\\|^\\."), "_")]: every slash and backslash,
    and a dot at offset 0. *)
Definition replaceUnsafe (s : QString) : QString :=
  match s with
  | EmptyString => EmptyString
  | String c s' =>
      String (if isUnsafe c || Ascii.eqb c "." then "_"%char else c)
             (replaceSeparators s')
  end.

Definition isNewline (c : ascii) : bool :=
  Ascii.eqb c "010" || Ascii.eqb c "013".

(** [name->remove(QRegExp("\\n|\\r"))]. *)
Fixpoint removeNewlines (s : QString) : QString :=
  match s with
  | EmptyString => EmptyString
  | String c s' =>
      if isNewline c then removeNewlines s' else String c (removeNewlines s')
  end.

(** [QStringList::contains]. *)
Definition contains (l : QStringList) (s : QString) : bool :=
  existsb (String.eqb s) l.

End QStr.

(** ** QMap with QString keys: an association list sorted by key *)

Module QMap.

Section WithValues.
Variable V : Type.

Definition t := list (QString * V).

Definition empty : t := [].

Fixpoint insert (k : QString) (v : V) (m : t) : t :=
  match m with
  | [] => [(k, v)]
  | (k', v') :: m' =>
      match String.compare k k' with
      | Lt => (k, v) :: m
      | Eq => (k, v) :: m'
      | Gt => (k', v') :: insert k v m'
      end
  end.

Fixpoint find (k : QString) (m : t) : option V :=
  match m with
  | [] => None
  | (k', v') :: m' => if String.eqb k k' then Some v' else find k m'
  end.

Definition contains (m : t) (k : QString) : bool :=
  match find k m with Some _ => true | None => false end.

Fixpoint remove (k : QString) (m : t) : t :=
  match m with
  | [] => []
  | (k', v') :: m' =>
      if String.eqb k k' then remove k m' else (k', v') :: remove k m'
  end.

Definition keys (m : t) : list QString := map fst m.

Definition values (m : t) : list V := map snd m.

Definition isEmpty (m : t) : bool :=
  match m with [] => true | _ :: _ => false end.

End WithValues.

Arguments empty {V}.
Arguments insert {V} k v m.
Arguments find {V} k m.
Arguments contains {V} m k.
Arguments remove {V} k m.
Arguments keys {V} m.
Arguments values {V} m.
Arguments isEmpty {V} m.

End QMap.

(** ** QVariant and its conversions *)

#[warnings="-register-all"]
Inductive QVariant : Type :=
| VInvalid
| VInt (z : Z)
| VBool (b : bool)
| VString (s : QString)
| VByteArray (b : QByteArray)
| VStringList (l : QStringList)
| VMap (m : list (QString * QVariant)).

Definition QVariantMap := QMap.t QVariant.

Definition toMap (v : QVariant) : QVariantMap :=
  match v with VMap m => m | _ => QMap.empty end.

Definition toString (v : QVariant) : QString :=
  match v with
  | VString s => s
  | VByteArray b => string_of_list_byte b
  | VInt z => QStr.decimal z
  | _ => EmptyString
  end.

Definition toByteArray (v : QVariant) : QByteArray :=
  match v with
  | VByteArray b => b
  | VString s => list_byte_of_string s
  | _ => []
  end.

Definition toStringList (v : QVariant) : QStringList :=
  match v with
  | VStringList l => l
  | VString s => [s]
  | _ => []
  end.

(** [QVariantMap::value(key)]: a default-constructed variant when absent. *)
Definition value (m : QVariantMap) (k : QString) : QVariant :=
  match QMap.find k m with Some v => v | None => VInvalid end.

Definition byte_eqb (a b : byte) : bool := Byte.eqb a b.

Fixpoint bytes_eqb (a b : QByteArray) : bool :=
  match a, b with
  | [], [] => true
  | x :: a', y :: b' => Byte.eqb x y && bytes_eqb a' b'
  | _, _ => false
  end.

Fixpoint strings_eqb (a b : QStringList) : bool :=
  match a, b with
  | [], [] => true
  | x :: a', y :: b' => String.eqb x y && strings_eqb a' b'
  | _, _ => false
  end.

(** Equality of variants of the same type, as [QVariantMap::operator!=] needs
    it for the extension maps the plugin builds. *)
Fixpoint variant_eqb (a b : QVariant) {struct a} : bool :=
  match a, b with
  | VInvalid, VInvalid => true
  | VInt x, VInt y => x =? y
  | VBool x, VBool y => Bool.eqb x y
  | VString x, VString y => String.eqb x y
  | VByteArray x, VByteArray y => bytes_eqb x y
  | VStringList x, VStringList y => strings_eqb x y
  | VMap x, VMap y =>
      (fix go (x y : list (QString * QVariant)) {struct x} : bool :=
         match x, y with
         | [], [] => true
         | (k, v) :: x', (k', v') :: y' =>
             String.eqb k k' && variant_eqb v v' && go x' y'
         | _, _ => false
         end) x y
  | _, _ => false
  end.

Definition map_eqb (a b : QVariantMap) : bool := variant_eqb (VMap a) (VMap b).

(** ** Constants of the plugin *)

Definition currentVersion : Z := 1.
Definition dataFileHeader : QString := "CopyQ_itemsync_tab".
Definition configVersion : QString := "copyq_itemsync_version".
Definition configSyncTabs : QString := "sync_tabs".
Definition tabConfigSavedFiles : QString := "saved_files".
Definition dataFileSuffix : QString := "_copyq.dat".

(** Modelled from the spec: [common/common.h], which defines the reserved
    prefix of internal MIME types and the names [mimeText], [mimeHtml],
    [mimeUriList] and [mimeItemNotes], is not among the sources.  The
    specification calls the reserved namespace [sys:] and lists the built-in
    types as text/plain, html, text/uri-list and notes; the values below are
    the ones of the application. *)
Definition MIME_PREFIX : QString := "application/x-copyq-".
Definition mimeText : QString := "text/plain".
Definition mimeHtml : QString := "text/html".
Definition mimeUriList : QString := "text/uri-list".
Definition mimeItemNotes : QString := MIME_PREFIX +++ "item-notes".

Definition MIME_PREFIX_ITEMSYNC : QString := MIME_PREFIX +++ "itemsync-".
Definition mimeExtensionMap : QString :=
  MIME_PREFIX_ITEMSYNC +++ "mime-to-extension-map".
Definition mimeBaseName : QString := MIME_PREFIX_ITEMSYNC +++ "basename".
Definition mimeNoSave : QString := MIME_PREFIX_ITEMSYNC +++ "no-save".
Definition mimeSyncPath : QString := MIME_PREFIX_ITEMSYNC +++ "sync-path".

(** [const qint64 sizeLimit = 10 << 20]. *)
Definition sizeLimit : Z := Z.shiftl 10 20.

Definition Hash := QByteArray.

(** ** Format registry *)

Record FileFormat : Type := mkFileFormat {
  extensions : QStringList;
  itemMime : QString;
  icon : QString
}.

Definition noFileFormat : FileFormat := mkFileFormat [] "" "".

Definition isValid (f : FileFormat) : bool :=
  match extensions f with [] => false | _ :: _ => true end.

Record Ext : Type := mkExt {
  extension : QString;
  format : QString
}.

Definition noExt : Ext := mkExt "" "".

(** The inner [foreach] of [getFormatSettingsFromFileName]. *)
Fixpoint firstMatchingExtension (fileName : QString) (exts : QStringList)
  : option QString :=
  match exts with
  | [] => None
  | ext :: exts' =>
      if QStr.endsWith fileName ext then Some ext
      else firstMatchingExtension fileName exts'
  end.

(** Returns the format and the value left in [*foundExt], which the callers
    initialise to the empty string. *)
Fixpoint getFormatSettingsFromFileName (fileName : QString)
  (formatSettings : list FileFormat) : FileFormat * QString :=
  match formatSettings with
  | [] => (noFileFormat, "")
  | fmt :: rest =>
      match firstMatchingExtension fileName (extensions fmt) with
      | Some ext => (fmt, ext)
      | None => getFormatSettingsFromFileName fileName rest
      end
  end.

Definition fileExtensionsAndFormats : list Ext :=
  [ mkExt "_note.txt" mimeItemNotes;
    mkExt ".bmp" "image/bmp";
    mkExt ".gif" "image/gif";
    mkExt ".html" mimeHtml;
    mkExt "_inkscape.svg" "image/x-inkscape-svg-compressed";
    mkExt ".jpg" "image/jpeg";
    mkExt ".jpg" "image/jpeg";
    mkExt ".png" "image/png";
    mkExt ".txt" mimeText;
    mkExt ".uri" mimeUriList;
    mkExt ".xml" "application/xml";
    mkExt "_xml.svg" "image/svg+xml";
    mkExt ".xml" "text/xml";
    mkExt dataFileSuffix "" ].

Fixpoint findByFormatIn (fmt : QString) (exts : list Ext) : Ext :=
  match exts with
  | [] => noExt
  | ext :: exts' =>
      if String.eqb (format ext) fmt then ext else findByFormatIn fmt exts'
  end.

Definition findByFormat (fmt : QString) (exts : list Ext)
  (userExtension : QVariantMap) : Ext :=
  if QMap.contains userExtension fmt
  then mkExt (toString (value userExtension fmt)) fmt
  else findByFormatIn fmt exts.

Fixpoint findByExtension (fileName : QString) (exts : list Ext) : Ext :=
  match exts with
  | [] => mkExt "" ""
  | ext :: exts' =>
      if QStr.endsWith fileName (extension ext) then ext
      else findByExtension fileName exts'
  end.

(** ** Base-name allocator *)

(** The [do ... while] loop of [renameToUnique]: [None] is [return false].
    Every turn raises [i], and the loop leaves at [i >= 99999], so
    [S (99999 - i)] turns of fuel are never used up. *)
Fixpoint nextFreeName (fuel : nat) (baseName ext : QString) (fieldWidth : Z)
  (usedNames : QStringList) (i : Z) : option QString :=
  match fuel with
  | O => None
  | S fuel' =>
      if i >=? 99999 then None
      else
        let i' := i + 1 in
        let newName := baseName +++ QStr.arg i' fieldWidth +++ ext in
        if QStr.contains usedNames newName
        then nextFreeName fuel' baseName ext fieldWidth usedNames i'
        else Some newName
  end.

(** First lines of [renameToUnique]: the default name, or the name with its
    unsafe characters replaced and removed. *)
Definition safeName (name : QString) : QString :=
  if QStr.isEmpty name then "copyq_0000"
  else QStr.removeNewlines (QStr.replaceUnsafe name).

(** The extension split off a name that is taken, and what is left of it. *)
Definition splitExtension (name : QString) (formatSettings : list FileFormat)
  : QString * QString :=
  let '(fileFormat, ext0) := getFormatSettingsFromFileName name formatSettings in
  let ext :=
    if negb (isValid fileFormat) then
      let i := QStr.lastIndexOf name "." in
      if negb (i =? -1) then QStr.mid name i else ext0
    else ext0 in
  let baseName := QStr.left name (QStr.size name - QStr.size ext) in
  if QStr.endsWith baseName "."
  then (QStr.chop1 baseName, String "." ext)
  else (baseName, ext).

(** The counter found at the end of the base name: the stem, the counter and
    its field width. *)
Definition splitCounter (baseName : QString) : QString * Z * Z :=
  let num := QStr.trailingDigits baseName in
  if negb (QStr.isEmpty num) then
    let fieldWidth := QStr.size num in
    (QStr.mid2 baseName 0 (QStr.size baseName - fieldWidth),
     QStr.toInt num, fieldWidth)
  else (baseName +++ "-", 0, 0).

(** [bool renameToUnique(QString *name, QStringList *usedNames, ...)]: the
    result, and the values left in [*name] and [*usedNames]. *)
Definition renameToUnique (name : QString) (usedNames : QStringList)
  (formatSettings : list FileFormat) : bool * QString * QStringList :=
  let name := safeName name in
  if negb (QStr.contains usedNames name) then (true, name, usedNames ++ [name])
  else
    let '(baseName, ext) := splitExtension name formatSettings in
    let '(baseName, i, fieldWidth) := splitCounter baseName in
    match nextFreeName (S (Z.to_nat (99999 - i))) baseName ext fieldWidth
                       usedNames i with
    | None => (false, name, usedNames)
    | Some newName => (true, newName, usedNames ++ [newName])
    end.

(** ** Services of the platform

    Functions of Qt and of the host application that the plugin calls and
    whose code is outside the plugin. *)

Class Platform : Type := {
  (** [QCryptographicHash::hash(bytes, QCryptographicHash::Sha1)] *)
  sha1 : QByteArray -> Hash;
  (** [serializeData] of [item/serialize.h] *)
  serializeData : QVariantMap -> QByteArray;
  (** [deserializeData(&map, bytes)]: the result and the value left in
      the map *)
  deserializeData : QVariantMap -> QByteArray -> bool * QVariantMap;
  (** [QUrl::fromLocalFile(path).toEncoded()] *)
  localFileUrl : QString -> QByteArray;
  (** [QDataStream >> QString]: the string and the rest of the stream *)
  readString : QByteArray -> QString * QByteArray;
  (** [QDataStream >> QVariantMap] *)
  readVariantMap : QByteArray -> QVariantMap * QByteArray;
  (** [QVariant::toInt()] *)
  variantToInt : QVariant -> Z
}.

(** ** File system *)

Record FileNode : Type := mkFileNode {
  contents : QByteArray;
  hidden : bool;
  readable : bool;
  writable : bool
}.

(** [files] maps absolute paths to files, the least recently modified first;
    [readOnlyDirs] are the directories in which nothing can be created, and
    [faulty] the paths on which [QFile::write] reports an error. *)
Record FileSystem : Type := mkFileSystem {
  files : list (QString * FileNode);
  readOnlyDirs : QStringList;
  faulty : QStringList
}.

Module FS.

Fixpoint lookup (path : QString) (l : list (QString * FileNode))
  : option FileNode :=
  match l with
  | [] => None
  | (p, n) :: l' => if String.eqb path p then Some n else lookup path l'
  end.

Definition erase (path : QString) (l : list (QString * FileNode))
  : list (QString * FileNode) :=
  filter (fun e => negb (String.eqb path (fst e))) l.

(** [QFile::size()]. *)
Definition size (n : FileNode) : Z := Z.of_nat (List.length (contents n)).

(** [QFile f(path); f.open(QIODevice::ReadOnly)]. *)
Definition openRead (fs : FileSystem) (path : QString) : option FileNode :=
  match lookup path (files fs) with
  | Some n => if readable n then Some n else None
  | None => None
  end.

Definition parentDir (path : QString) : QString :=
  QStr.left path (QStr.lastIndexOf path "/").

(** [f.open(QIODevice::WriteOnly)] followed by [f.write(bytes)]: opening
    truncates the file or creates it, either way it becomes the most recently
    modified one.  The flag is false when either call fails. *)
Definition writeFile (fs : FileSystem) (path : QString) (bytes : QByteArray)
  : bool * FileSystem :=
  let opened :=
    match lookup path (files fs) with
    | Some n =>
        if writable n
        then Some (mkFileNode [] (hidden n) (readable n) (writable n))
        else None
    | None =>
        if QStr.contains (readOnlyDirs fs) (parentDir path) then None
        else Some (mkFileNode [] false true true)
    end in
  match opened with
  | None => (false, fs)
  | Some n =>
      let rest := erase path (files fs) in
      if QStr.contains (faulty fs) path
      then (false, mkFileSystem (rest ++ [(path, n)])
                                (readOnlyDirs fs) (faulty fs))
      else (true,
            mkFileSystem
              (rest ++ [(path, mkFileNode bytes (hidden n) (readable n)
                                          (writable n))])
              (readOnlyDirs fs) (faulty fs))
  end.

(** [QFile::remove(path)]. *)
Definition remove (fs : FileSystem) (path : QString) : FileSystem :=
  mkFileSystem (erase path (files fs)) (readOnlyDirs fs) (faulty fs).

Fixpoint renameIn (oldPath newPath : QString) (l : list (QString * FileNode))
  : list (QString * FileNode) :=
  match l with
  | [] => []
  | (p, n) :: l' =>
      if String.eqb oldPath p then (newPath, n) :: l'
      else (p, n) :: renameIn oldPath newPath l'
  end.

(** [QFile::rename(oldPath, newPath)]: nothing happens when the source is
    missing or the target exists. *)
Definition rename (fs : FileSystem) (oldPath newPath : QString) : FileSystem :=
  match lookup oldPath (files fs), lookup newPath (files fs) with
  | Some _, None =>
      mkFileSystem (renameIn oldPath newPath (files fs))
                   (readOnlyDirs fs) (faulty fs)
  | _, _ => fs
  end.

(** [QFile::copy(oldPath, newPath)]: nothing happens when the source cannot
    be read or the target exists. *)
Definition copy (fs : FileSystem) (oldPath newPath : QString) : FileSystem :=
  match openRead fs oldPath, lookup newPath (files fs) with
  | Some n, None =>
      if QStr.contains (readOnlyDirs fs) (parentDir newPath) then fs
      else mkFileSystem (files fs ++ [(newPath, n)])
                        (readOnlyDirs fs) (faulty fs)
  | _, _ => fs
  end.

(** [dir.mkpath(".")]. *)
Definition mkpath (fs : FileSystem) (dir : QString) : bool :=
  negb (QStr.contains (readOnlyDirs fs) dir).

(** [dir.absoluteFilePath(fn)] for a directory given by its absolute path. *)
Definition absoluteFilePath (dir fn : QString) : QString :=
  if QStr.startsWith fn "/" then fn
  else if QStr.isEmpty fn then dir
  else if String.eqb dir "/" then dir +++ fn
  else dir +++ "/" +++ fn.

(** [QFileInfo(path).fileName()]. *)
Definition fileName (path : QString) : QString :=
  QStr.mid path (QStr.lastIndexOf path "/" + 1).

(** The name under which [path] is an entry of [dir], if it is one. *)
Definition nameInDir (dir path : QString) : option QString :=
  let name := fileName path in
  if negb (QStr.isEmpty name) && String.eqb (absoluteFilePath dir name) path
  then Some name else None.

(** [itemFileFilter()]: [QDir::Files | QDir::Readable | QDir::Writable],
    which leaves hidden files out. *)
Definition itemFileFilter (n : FileNode) : bool :=
  negb (hidden n) && readable n && writable n.

(** [dir.entryList(itemFileFilter(), QDir::Time | QDir::Reversed)]: the
    entries of the directory, the least recently modified first. *)
Definition entryList (fs : FileSystem) (dir : QString) : QStringList :=
  flat_map (fun e =>
              match nameInDir dir (fst e) with
              | Some name => if itemFileFilter (snd e) then [name] else []
              | None => []
              end) (files fs).

End FS.

(** ** The host collection *)

(** Modelled from the spec: the collection is an external collaborator, "an
    ordered, observable sequence of maps" with the properties [tabName],
    [maxItems], [disabled] and [dirty] and the row operations "insert row at
    index, remove row at index, set data at index (two merge modes: replace
    and merge/update), read data at index".  [rowId] is the identity of a row,
    which a [QPersistentModelIndex] follows when rows move. *)
Record Row : Type := mkRow {
  rowId : Z;
  rowData : QVariantMap
}.

Record Model : Type := mkModel {
  rows : list Row;
  tabName : QString;
  maxItems : Z;
  disabled : bool;
  dirty : bool;
  nextRowId : Z
}.

Module ItemModel.

Definition rowCount (m : Model) : Z := Z.of_nat (List.length (rows m)).

Definition withRows (m : Model) (rs : list Row) : Model :=
  mkModel rs (tabName m) (maxItems m) (disabled m) (dirty m) (nextRowId m).

Definition setDisabled (m : Model) (b : bool) : Model :=
  mkModel (rows m) (tabName m) (maxItems m) b (dirty m) (nextRowId m).

(** [model->index(row, 0)]: the row, when there is one. *)
Definition index (m : Model) (row : Z) : option Row :=
  if row <? 0 then None else nth_error (rows m) (Z.to_nat row).

(** [index.data(contentType::data).toMap()]: empty for an invalid index. *)
Definition data (i : option Row) : QVariantMap :=
  match i with Some r => rowData r | None => QMap.empty end.

Fixpoint setRowData (id : Z) (d : QVariantMap) (rs : list Row) : list Row :=
  match rs with
  | [] => []
  | r :: rs' =>
      if rowId r =? id then mkRow id d :: rs' else r :: setRowData id d rs'
  end.

(** [model->setData(index, map, contentType::data)]: replaces the data of the
    row; nothing happens for an invalid index. *)
Definition setData (m : Model) (i : option Row) (d : QVariantMap) : Model :=
  match i with
  | Some r => withRows m (setRowData (rowId r) d (rows m))
  | None => m
  end.

(** The merge mode, [contentType::updateData]. *)
Definition mergeData (old new : QVariantMap) : QVariantMap :=
  fold_left (fun acc kv => QMap.insert (fst kv) (snd kv) acc) new old.

(** [model->insertRow(0)]: the flag and the new first row. *)
Definition insertRow0 (m : Model) : bool * Model :=
  (true,
   mkModel (mkRow (nextRowId m) QMap.empty :: rows m) (tabName m)
           (maxItems m) (disabled m) (dirty m) (nextRowId m + 1)).

End ItemModel.

(** [getBaseName(index)]. *)
Definition getBaseName (i : option Row) : QString :=
  toString (value (ItemModel.data i) mimeBaseName).

(** [fixUserExtensions]: the list left in [*exts]. *)
Definition fixUserExtensions (exts : QStringList) : QStringList :=
  map (fun ext => if negb (QStr.startsWith ext ".") then String "." ext else ext)
      exts.

(** ** Loops with an early [return] *)

(** Runs [body] on the elements in turn, threading the state; stops at the
    first element on which [body] answers false, and answers false then. *)
Fixpoint forEachWhile (A S : Type) (body : A -> S -> bool * S) (l : list A)
  (s : S) : bool * S :=
  match l with
  | [] => (true, s)
  | a :: l' =>
      let '(ok, s') := body a s in
      if ok then forEachWhile body l' s' else (false, s')
  end.

Fixpoint rowRange (first : Z) (count : nat) : list Z :=
  match count with
  | O => []
  | S n => first :: rowRange (first + 1) n
  end.

(** The rows visited by [for (row = first; row <= last; ++row)]. *)
Definition rowsBetween (first last : Z) : list Z :=
  rowRange first (Z.to_nat (last - first + 1)).

(** ** Scanner, hashes and item files *)

Record BaseNameExtensions : Type := mkBaseNameExtensions {
  baseName : QString;
  exts : list Ext
}.

Definition BaseNameExtensionsList := list BaseNameExtensions.

Definition MultiMap := list (Hash * QString).

Module MMap.

(** [QMultiMap::values(hash)]. *)
Definition values (m : MultiMap) (h : Hash) : QStringList :=
  map snd (filter (fun e => bytes_eqb (fst e) h) m).

(** [QMultiMap::remove(hash, path)]. *)
Definition remove (h : Hash) (path : QString) (m : MultiMap) : MultiMap :=
  filter (fun e => negb (bytes_eqb (fst e) h && String.eqb (snd e) path)) m.

End MMap.

Record QFileSystemWatcher : Type := mkQFileSystemWatcher {
  watchedFiles : QStringList;
  watchedDirectories : QStringList
}.

(** [FileWatcher::watchPath]. *)
Definition watchPath (w : QFileSystemWatcher) (path : QString)
  : QFileSystemWatcher :=
  if negb (QStr.contains (watchedFiles w) path)
  then mkQFileSystemWatcher (watchedFiles w ++ [path]) (watchedDirectories w)
  else w.

(** [fileList[i].exts.append(ext)]. *)
Fixpoint appendExtAt (i : nat) (ext : Ext) (fileList : BaseNameExtensionsList)
  : BaseNameExtensionsList :=
  match fileList, i with
  | [], _ => []
  | b :: l, O => mkBaseNameExtensions (baseName b) (exts b ++ [ext]) :: l
  | b :: l, S i' => b :: appendExtAt i' ext l
  end.

(** The extensions of the user's formats, in order. *)
Definition userExtensions (formatSettings : list FileFormat) : list Ext :=
  flat_map (fun fmt => map (fun ext => mkExt ext (itemMime fmt))
                           (extensions fmt))
           formatSettings.

(** The extension and MIME type [listFiles] settles on for a path; [None]
    where the loop [continue]s. *)
Definition resolveExt (filePath : QString) (userExts : list Ext) : option Ext :=
  let ext := findByExtension filePath userExts in
  if QStr.isEmpty (extension ext) then
    let ext := findByExtension filePath fileExtensionsAndFormats in
    if QStr.isEmpty (format ext) then None else Some ext
  else
    if String.eqb (format ext) "-" then None
    else if QStr.isEmpty (format ext)
         then Some (findByExtension filePath fileExtensionsAndFormats)
         else Some (mkExt "" (format ext)).

(** [info.isHidden() || info.fileName().startsWith('.') || !info.isReadable()]
    for [QFileInfo info(filePath)]. *)
Definition skipFile (fs : FileSystem) (filePath : QString) : bool :=
  match FS.lookup filePath (files fs) with
  | Some n =>
      hidden n || QStr.startsWith (FS.fileName filePath) "." || negb (readable n)
  | None => true
  end.

(** One turn of the loop of [listFiles] over the paths; the state is
    [fileList] and [fileMap]. *)
Definition listFilesStep (fs : FileSystem) (userExts : list Ext)
  (st : BaseNameExtensionsList * QMap.t Z) (filePath : QString)
  : BaseNameExtensionsList * QMap.t Z :=
  let '(fileList, fileMap) := st in
  if skipFile fs filePath then st
  else
    match resolveExt filePath userExts with
    | None => st
    | Some ext =>
        let fileName := FS.fileName filePath in
        let baseName :=
          QStr.left fileName (QStr.size fileName - QStr.size (extension ext)) in
        let i := match QMap.find baseName fileMap with
                 | Some i => i
                 | None => -1
                 end in
        let '(i, fileList, fileMap) :=
          if i =? -1
          then (Z.of_nat (List.length fileList),
                fileList ++ [mkBaseNameExtensions baseName []],
                QMap.insert baseName (Z.of_nat (List.length fileList)) fileMap)
          else (i, fileList, fileMap) in
        (appendExtAt (Z.to_nat i) ext fileList, fileMap)
    end.

(** [listFiles(const QStringList &, const QList<FileFormat> &)]. *)
Definition listFiles (fs : FileSystem) (paths : QStringList)
  (formatSettings : list FileFormat) : BaseNameExtensionsList :=
  fst (fold_left (listFilesStep fs (userExtensions formatSettings)) paths
                 ([], QMap.empty)).

(** [writeConfiguration]: the header and the map streamed to the file. *)
Definition writeConfiguration (savedFiles : QStringList)
  : QString * QVariantMap :=
  (dataFileHeader,
   QMap.insert tabConfigSavedFiles (VStringList savedFiles)
     (QMap.insert configVersion (VInt currentVersion) QMap.empty)).

(** [removeFormatFiles], [moveFormatFiles], [copyFormatFiles]. *)
Definition removeFormatFiles (path : QString) (mimeToExtension : QVariantMap)
  (fs : FileSystem) : FileSystem :=
  fold_left (fun fs fmt =>
               FS.remove fs (path +++ toString (value mimeToExtension fmt)))
            (QMap.keys mimeToExtension) fs.

Definition moveFormatFiles (oldPath newPath : QString)
  (mimeToExtension : QVariantMap) (fs : FileSystem) : FileSystem :=
  fold_left (fun fs fmt =>
               let ext := toString (value mimeToExtension fmt) in
               FS.rename fs (oldPath +++ ext) (newPath +++ ext))
            (QMap.keys mimeToExtension) fs.

Definition copyFormatFiles (oldPath newPath : QString)
  (mimeToExtension : QVariantMap) (fs : FileSystem) : FileSystem :=
  fold_left (fun fs fmt =>
               let ext := toString (value mimeToExtension fmt) in
               FS.copy fs (oldPath +++ ext) (newPath +++ ext))
            (QMap.keys mimeToExtension) fs.

Section Plugin.

Context {P : Platform}.

(** [readConfigHeader]: the answer and the rest of the stream. *)
Definition readConfigHeader (stream : QByteArray) : bool * QByteArray :=
  let '(header, rest) := readString stream in
  (String.eqb header dataFileHeader, rest).

(** [readConfig(file, &config)], for a [config] that is empty on entry. *)
Definition readConfig (file : QByteArray) : bool * QVariantMap :=
  let '(ok, rest) := readConfigHeader file in
  if negb ok then (false, QMap.empty)
  else
    let '(config, _) := readVariantMap rest in
    let version := match QMap.find configVersion config with
                   | Some v => v
                   | None => VInt 0
                   end in
    (variantToInt version =? currentVersion, config).

(** [calculateHash(const QByteArray &)]. *)
Definition calculateHash (bytes : QByteArray) : Hash := sha1 bytes.

(** [calculateHash] of an open [QFile]: oversized files hash to nothing. *)
Definition calculateHashOfFile (f : FileNode) : Hash :=
  if FS.size f >? sizeLimit then [] else sha1 (contents f).

(** [saveItemFile]: the answer, [*existingFiles] and the file system. *)
Definition saveItemFile (filePath : QString) (bytes : QByteArray)
  (existingFiles : MultiMap) (fs : FileSystem)
  : bool * MultiMap * FileSystem :=
  let hash := calculateHash bytes in
  let fileNames := MMap.values existingFiles hash in
  if QStr.contains fileNames filePath
  then (true, MMap.remove hash filePath existingFiles, fs)
  else
    let '(ok, fs') := FS.writeFile fs filePath bytes in
    (ok, existingFiles, fs').

(** [listFiles(const QDir &)]: the hash of every file of the directory that
    can be opened.  The multimap is only asked whether it holds a pair, and
    reduced by [remove]; the list keeps the pairs in listing order. *)
Definition listFilesOfDir (fs : FileSystem) (dir : QString) : MultiMap :=
  flat_map (fun fileName =>
              let path := FS.absoluteFilePath dir fileName in
              match FS.openRead fs path with
              | Some f => [(calculateHashOfFile f, path)]
              | None => []
              end)
           (FS.entryList fs dir).

(** One turn of the loop of [updateDataAndWatchFile]; the state is
    [*dataMap], [*mimeToExtension] and the watch set. *)
Definition updateDataStep (fs : FileSystem) (dir basePath : QString)
  (st : QVariantMap * QVariantMap * QFileSystemWatcher) (ext : Ext)
  : QVariantMap * QVariantMap * QFileSystemWatcher :=
  let '(dataMap, mimeToExtension, watcher) := st in
  let fileName := basePath +++ extension ext in
  match FS.openRead fs (FS.absoluteFilePath dir fileName) with
  | None => st
  | Some f =>
      let isDataFile := QStr.endsWith fileName dataFileSuffix in
      let '(decoded, dataMap) :=
        if isDataFile then deserializeData dataMap (contents f)
        else (false, dataMap) in
      if decoded
      then (dataMap,
            QMap.insert "" (VString dataFileSuffix) mimeToExtension,
            watchPath watcher fileName)
      else if (FS.size f >? sizeLimit) || QStr.isEmpty (format ext)
      then (dataMap,
            QMap.insert "" (VString "") mimeToExtension,
            watchPath watcher fileName)
      else
        (* a second [readAll] finds the file at its end *)
        let bytes := if isDataFile then [] else contents f in
        (QMap.insert (format ext) (VByteArray bytes) dataMap,
         QMap.insert (format ext) (VString (extension ext)) mimeToExtension,
         watchPath watcher fileName)
  end.

(** [FileWatcher::updateDataAndWatchFile]. *)
Definition updateDataAndWatchFile (fs : FileSystem) (dir : QString)
  (baseNameWithExts : BaseNameExtensions)
  (st : QVariantMap * QVariantMap * QFileSystemWatcher)
  : QVariantMap * QVariantMap * QFileSystemWatcher :=
  let basePath := FS.absoluteFilePath dir (baseName baseNameWithExts) in
  fold_left (updateDataStep fs dir basePath) (exts baseNameWithExts) st.

End Plugin.

(** ** FileWatcher *)

Definition IndexMap := list (Z * QString).

Module IndexMap.

(** [QMap<QPersistentModelIndex, QString>], keyed by the identity of the
    row. *)
Definition remove (id : Z) (m : IndexMap) : IndexMap :=
  filter (fun e => negb (fst e =? id)) m.

Definition insert (id : Z) (name : QString) (m : IndexMap) : IndexMap :=
  (id, name) :: remove id m.

Fixpoint value (m : IndexMap) (id : Z) : QString :=
  match m with
  | [] => ""
  | (k, v) :: m' => if k =? id then v else value m' id
  end.

End IndexMap.

Record FileWatcher : Type := mkFileWatcher {
  m_watcher : QFileSystemWatcher;
  m_model : Model;
  m_formatSettings : list FileFormat;
  m_path : QString;
  m_valid : bool;
  m_indexToBaseName : IndexMap
}.

Module Watcher.

Definition setWatcher (w : FileWatcher) (x : QFileSystemWatcher) : FileWatcher :=
  mkFileWatcher x (m_model w) (m_formatSettings w) (m_path w) (m_valid w)
                (m_indexToBaseName w).

Definition setModel (w : FileWatcher) (x : Model) : FileWatcher :=
  mkFileWatcher (m_watcher w) x (m_formatSettings w) (m_path w) (m_valid w)
                (m_indexToBaseName w).

Definition setIndexToBaseName (w : FileWatcher) (x : IndexMap) : FileWatcher :=
  mkFileWatcher (m_watcher w) (m_model w) (m_formatSettings w) (m_path w)
                (m_valid w) x.

Definition setValid (w : FileWatcher) (x : bool) : FileWatcher :=
  mkFileWatcher (m_watcher w) (m_model w) (m_formatSettings w) (m_path w) x
                (m_indexToBaseName w).

(** [connectModel] and [disconnectModel]: of the connections only the flag
    is kept, the passes run to their end before any signal is served. *)
Definition connectModel (w : FileWatcher) : FileWatcher := setValid w true.

Definition disconnectModel (w : FileWatcher) : FileWatcher := setValid w false.

(** [m_indexToBaseName.insert(index, baseName)] for an index that may be
    invalid. *)
Definition rememberBaseName (i : option Row) (name : QString) (w : FileWatcher)
  : FileWatcher :=
  match i with
  | Some r =>
      setIndexToBaseName w (IndexMap.insert (rowId r) name (m_indexToBaseName w))
  | None => w
  end.

(** [createItem]. *)
Definition createItem (dataMap : QVariantMap) (w : FileWatcher)
  : bool * FileWatcher :=
  let '(ok, m) := ItemModel.insertRow0 (m_model w) in
  if ok then
    let index := ItemModel.index m 0 in
    let m := ItemModel.setData m index
               (ItemModel.mergeData (ItemModel.data index) dataMap) in
    let index := ItemModel.index m 0 in
    let baseName := getBaseName index in
    (true, rememberBaseName index baseName (setModel w m))
  else (false, w).

(** First loop of [renameToUnique(first, last)]: the names of the rows
    outside the range. *)
Fixpoint usedBaseNames (first last i : Z) (rs : list Row) : QStringList :=
  match rs with
  | [] => []
  | r :: rs' =>
      if (first <=? i) && (i <=? last)
      then usedBaseNames first last (i + 1) rs'
      else getBaseName (Some r) :: usedBaseNames first last (i + 1) rs'
  end.

(** Body of the second loop of [renameToUnique(first, last)]. *)
Definition renameRow (i : Z) (st : QStringList * FileWatcher * FileSystem)
  : bool * (QStringList * FileWatcher * FileSystem) :=
  let '(used, w, fs) := st in
  let index := ItemModel.index (m_model w) i in
  let oldBaseName := getBaseName index in
  let '(ok, baseName, used) :=
    renameToUnique oldBaseName used (m_formatSettings w) in
  if negb ok then (false, (used, w, fs))
  else
    let itemData := ItemModel.data index in
    let syncPath := toString (value itemData mimeSyncPath) in
    let copyFilesFromOtherTab :=
      negb (QStr.isEmpty syncPath) && negb (String.eqb syncPath (m_path w)) in
    if copyFilesFromOtherTab || negb (String.eqb baseName oldBaseName) then
      let mimeToExtension := toMap (value itemData mimeExtensionMap) in
      let newBasePath := m_path w +++ "/" +++ baseName in
      let '(w, fs) :=
        if negb (QStr.isEmpty syncPath)
        then (w, copyFormatFiles (syncPath +++ "/" +++ oldBaseName)
                                 newBasePath mimeToExtension fs)
        else
          let olderBaseName :=
            match index with
            | Some r => IndexMap.value (m_indexToBaseName w) (rowId r)
            | None => ""
            end in
          (rememberBaseName index baseName w,
           if negb (QStr.isEmpty olderBaseName)
           then moveFormatFiles (m_path w +++ "/" +++ olderBaseName)
                                newBasePath mimeToExtension fs
           else fs) in
      let itemData := QMap.remove mimeSyncPath itemData in
      let itemData := QMap.insert mimeBaseName (VString baseName) itemData in
      (true, (used, setModel w (ItemModel.setData (m_model w) index itemData),
              fs))
    else (true, (used, w, fs)).

(** [FileWatcher::renameToUnique(first, last)]. *)
Definition renameToUnique (first last : Z) (w : FileWatcher) (fs : FileSystem)
  : bool * FileWatcher * FileSystem :=
  let used := usedBaseNames first last 0 (rows (m_model w)) in
  let '(ok, (_, w, fs)) :=
    forEachWhile renameRow (rowsBetween first last) (used, w, fs) in
  (ok, w, fs).

Section Passes.

Context {P : Platform}.

(** Body of the loop of [createItemsFromFiles]; false when the function
    returns from inside the loop. *)
Fixpoint createItemsLoop (fs : FileSystem) (dir : QString) (maxItems : Z)
  (fileList : BaseNameExtensionsList) (w : FileWatcher) : bool * FileWatcher :=
  match fileList with
  | [] => (true, w)
  | baseNameWithExts :: rest =>
      let '(dataMap, mimeToExtension, watcher) :=
        updateDataAndWatchFile fs dir baseNameWithExts
          (QMap.empty, QMap.empty, m_watcher w) in
      let w := setWatcher w watcher in
      if negb (QMap.isEmpty mimeToExtension) then
        let dataMap :=
          QMap.insert mimeBaseName
            (VString (FS.fileName (baseName baseNameWithExts))) dataMap in
        let dataMap :=
          QMap.insert mimeExtensionMap (VMap mimeToExtension) dataMap in
        let '(ok, w) := createItem dataMap w in
        if negb ok then (false, w)
        else if ItemModel.rowCount (m_model w) >=? maxItems then (true, w)
        else createItemsLoop fs dir maxItems rest w
      else createItemsLoop fs dir maxItems rest w
  end.

(** [createItemsFromFiles]. *)
Definition createItemsFromFiles (fs : FileSystem) (dir : QString)
  (fileList : BaseNameExtensionsList) (w : FileWatcher) : bool * FileWatcher :=
  let w := disconnectModel w in
  let '(ok, w) := createItemsLoop fs dir (maxItems (m_model w)) fileList w in
  if ok then (true, connectModel w) else (false, w).

(** The search of [updateItems] for the bucket of a row, with the
    [removeAt] that follows it. *)
Fixpoint takeBucket (name : QString) (fileList : BaseNameExtensionsList)
  : option (BaseNameExtensions * BaseNameExtensionsList) :=
  match fileList with
  | [] => None
  | b :: l =>
      if String.eqb (baseName b) name then Some (b, l)
      else match takeBucket name l with
           | Some (x, l') => Some (x, b :: l')
           | None => None
           end
  end.

(** The loop of [updateItems] over the rows.  A row without files is
    removed; [rowsRemoved] stays connected during the pass, and
    [onRowsRemoved] then forgets the prior name of the row that moved into
    the place of the removed one. *)
Fixpoint updateRows (fs : FileSystem) (dir : QString) (rs : list Row)
  (st : BaseNameExtensionsList * QFileSystemWatcher * IndexMap)
  : list Row * (BaseNameExtensionsList * QFileSystemWatcher * IndexMap) :=
  match rs with
  | [] => ([], st)
  | r :: rest =>
      let '(fileList, watcher, idx) := st in
      let baseName := getBaseName (Some r) in
      let '(dataMap, mimeToExtension, watcher, fileList) :=
        match takeBucket baseName fileList with
        | Some (b, fileList') =>
            let '(d, m, x) :=
              updateDataAndWatchFile fs dir b (QMap.empty, QMap.empty, watcher) in
            (d, m, x, fileList')
        | None => (QMap.empty, QMap.empty, watcher, fileList)
        end in
      if QMap.isEmpty mimeToExtension then
        let idx := IndexMap.remove (rowId r) idx in
        let idx := match rest with
                   | r' :: _ => IndexMap.remove (rowId r') idx
                   | [] => idx
                   end in
        updateRows fs dir rest (fileList, watcher, idx)
      else
        let dataMap := QMap.insert mimeBaseName (VString baseName) dataMap in
        let dataMap :=
          QMap.insert mimeExtensionMap (VMap mimeToExtension) dataMap in
        let '(rest', st') := updateRows fs dir rest (fileList, watcher, idx) in
        (mkRow (rowId r) dataMap :: rest', st')
  end.

(** [FileWatcher::updateItems] once the directory and its listing are
    known. *)
Definition updateItemsFrom (dir : QString) (files : QStringList)
  (w : FileWatcher) (fs : FileSystem) : FileWatcher :=
  let w := disconnectModel w in
  let w := setModel w (ItemModel.setDisabled (m_model w) true) in
  let fileList := listFiles fs files (m_formatSettings w) in
  let '(rs, (fileList, watcher, idx)) :=
    updateRows fs dir (rows (m_model w))
               (fileList, m_watcher w, m_indexToBaseName w) in
  let w := setIndexToBaseName
             (setWatcher (setModel w (ItemModel.withRows (m_model w) rs))
                         watcher) idx in
  let '(_, w) := createItemsFromFiles fs dir fileList w in
  let w := setWatcher w
             (fold_left (fun x fileName =>
                           watchPath x (FS.absoluteFilePath dir fileName))
                        files (m_watcher w)) in
  let w := setModel w (ItemModel.setDisabled (m_model w) false) in
  connectModel w.

(** [FileWatcher::updateItems]: direction R. *)
Definition updateItems (w : FileWatcher) (fs : FileSystem) : FileWatcher :=
  let dir := nth 0 (watchedDirectories (m_watcher w)) "" in
  let files := map (FS.absoluteFilePath dir) (FS.entryList fs dir) in
  updateItemsFrom dir files w fs.

(** Body of the loop of [saveItems] over the formats of a row; the state is
    [itemData], [mimeToExtension], [dataMapUnknown], [existingFiles] and the
    file system. *)
Definition saveFormat (filePath : QString)
  (oldMimeToExtension noSaveData : QVariantMap) (fmt : QString)
  (st : QVariantMap * QVariantMap * QVariantMap * MultiMap * FileSystem)
  : bool * (QVariantMap * QVariantMap * QVariantMap * MultiMap * FileSystem) :=
  let '(itemData, mimeToExtension, dataMapUnknown, existingFiles, fs) := st in
  if QStr.startsWith fmt MIME_PREFIX_ITEMSYNC then (true, st)
  else
    let bytes := toByteArray (value itemData fmt) in
    if QMap.contains noSaveData fmt
       && bytes_eqb (toByteArray (value noSaveData fmt)) (calculateHash bytes)
    then (true, (QMap.remove fmt itemData, mimeToExtension, dataMapUnknown,
                 existingFiles, fs))
    else
      let hasFile := QMap.contains oldMimeToExtension fmt in
      let ext :=
        extension (findByFormat fmt fileExtensionsAndFormats
                                oldMimeToExtension) in
      if negb hasFile && QStr.isEmpty ext
      then (true, (itemData, mimeToExtension,
                   QMap.insert fmt (VByteArray bytes) dataMapUnknown,
                   existingFiles, fs))
      else
        let mimeToExtension := QMap.insert fmt (VString ext) mimeToExtension in
        let '(ok, existingFiles, fs) :=
          saveItemFile (filePath +++ ext) bytes existingFiles fs in
        (ok, (itemData, mimeToExtension, dataMapUnknown, existingFiles, fs)).

(** Body of the loop of [saveItems] over the rows. *)
Definition saveRow (dir : QString) (row : Z)
  (st : FileWatcher * MultiMap * FileSystem)
  : bool * (FileWatcher * MultiMap * FileSystem) :=
  let '(w, existingFiles, fs) := st in
  let index := ItemModel.index (m_model w) row in
  let baseName := getBaseName index in
  let filePath := FS.absoluteFilePath dir baseName in
  let itemData := ItemModel.data index in
  let oldMimeToExtension := toMap (value itemData mimeExtensionMap) in
  let noSaveData := toMap (value itemData mimeNoSave) in
  let '(ok, (itemData, mimeToExtension, dataMapUnknown, existingFiles, fs)) :=
    forEachWhile (saveFormat filePath oldMimeToExtension noSaveData)
                 (QMap.keys itemData)
                 (itemData, QMap.empty, QMap.empty, existingFiles, fs) in
  if negb ok then (false, (w, existingFiles, fs))
  else
    let mimeToExtension :=
      if QMap.isEmpty mimeToExtension
      then QMap.insert "" (VString "") mimeToExtension
      else mimeToExtension in
    let '(ok, mimeToExtension, existingFiles, fs) :=
      if negb (QMap.isEmpty dataMapUnknown) then
        let mimeToExtension :=
          QMap.insert "" (VString dataFileSuffix) mimeToExtension in
        let '(ok, existingFiles, fs) :=
          saveItemFile (filePath +++ dataFileSuffix)
                       (serializeData dataMapUnknown) existingFiles fs in
        (ok, mimeToExtension, existingFiles, fs)
      else (true, mimeToExtension, existingFiles, fs) in
    if negb ok then (false, (w, existingFiles, fs))
    else if negb (QMap.isEmpty noSaveData)
            || negb (map_eqb mimeToExtension oldMimeToExtension)
    then
      let itemData := QMap.remove mimeNoSave itemData in
      let oldMimeToExtension :=
        fold_left (fun old fmt => QMap.remove fmt old)
                  (QMap.keys mimeToExtension) oldMimeToExtension in
      let itemData :=
        QMap.insert mimeExtensionMap (VMap mimeToExtension) itemData in
      let w := setModel w (ItemModel.setData (m_model w) index itemData) in
      let fs := removeFormatFiles filePath oldMimeToExtension fs in
      (true, (rememberBaseName index baseName w, existingFiles, fs))
    else (true, (w, existingFiles, fs)).

(** [FileWatcher::saveItems(first, last)]: direction W. *)
Definition saveItems (first last : Z) (w : FileWatcher) (fs : FileSystem)
  : FileWatcher * FileSystem :=
  let w := disconnectModel w in
  let '(ok, w, fs) := renameToUnique first last w fs in
  if negb ok then (w, fs)
  else if QStr.isEmpty (m_path w) then (w, fs)
  else
    let dir := m_path w in
    if negb (FS.mkpath fs dir) then (w, fs)
    else
      let existingFiles := listFilesOfDir fs dir in
      let '(ok, (w, _, fs)) :=
        forEachWhile (saveRow dir) (rowsBetween first last)
                     (w, existingFiles, fs) in
      if negb ok then (w, fs) else (connectModel w, fs).

(** The constructor of [FileWatcher]. *)
Definition create (path : QString) (paths : QStringList) (model : Model)
  (formatSettings : list FileFormat) (fs : FileSystem)
  : FileWatcher * FileSystem :=
  let w := mkFileWatcher (mkQFileSystemWatcher paths [path]) model
                         formatSettings path false [] in
  let w := connectModel w in
  let '(_, w) :=
    createItemsFromFiles fs path (listFiles fs paths formatSettings) w in
  let itemCount := ItemModel.rowCount (m_model w) in
  if itemCount >? 0 then saveItems 0 (itemCount - 1) w fs else (w, fs).

End Passes.

End Watcher.

(** ** ItemSyncLoader *)

Module Loader.

(** [ItemSyncLoader::tabPath]. *)
Definition tabPath (m_tabPaths : QMap.t QString) (model : Model) : QString :=
  match QMap.find (tabName model) m_tabPaths with
  | Some p => p
  | None => ""
  end.

(** [ItemSyncLoader::shouldSyncTab]. *)
Definition shouldSyncTab (m_tabPaths : QMap.t QString) (model : Model) : bool :=
  QMap.contains m_tabPaths (tabName model).

(** The files of a row, prepended one by one to [savedFiles]. *)
Definition savedFilesOfRow (path : QString) (savedFiles : QStringList) (r : Row)
  : QStringList :=
  let itemData := rowData r in
  let mimeToExtension := toMap (value itemData mimeExtensionMap) in
  let filePath := FS.absoluteFilePath path (getBaseName (Some r)) in
  fold_left (fun saved ext => (filePath +++ toString ext) :: saved)
            (QMap.values mimeToExtension) savedFiles.

(** [ItemSyncLoader::saveItems(model, file)]: the answer and what is written
    to the file.  [watcher] is [m_watchers.value(&model, NULL)]. *)
Definition saveItems (watcher : option FileWatcher) (model : Model)
  : bool * option (QString * QVariantMap) :=
  match watcher with
  | None => (false, None)
  | Some w =>
      let path := m_path w in
      if negb (QStr.isEmpty path) then
        if negb (m_valid w) then (false, None)
        else
          let savedFiles := fold_left (savedFilesOfRow path) (rows model) [] in
          (true, Some (writeConfiguration savedFiles))
      else (true, Some (writeConfiguration []))
  end.

(** [QString(filePath).replace('\\', "\\\\").replace('\n', "\\n")
    .replace('\r', "\\r")]. *)
Fixpoint escapePath (s : QString) : QString :=
  match s with
  | EmptyString => EmptyString
  | String c s' =>
      if Ascii.eqb c "\" then String "\" (String "\" (escapePath s'))
      else if Ascii.eqb c "010" then String "\" (String "n" (escapePath s'))
      else if Ascii.eqb c "013" then String "\" (String "r" (escapePath s'))
      else String c (escapePath s')
  end.

Definition newline : QByteArray := [x0a].

Section CopyItem.

Context {P : Platform}.

(** Body of the loop of [copyItem] over the extension map; the state is
    [uriData] and [textData]. *)
Definition copyItemStep (updateUriData updateTextData : bool)
  (basePath : QString) (mimeToExtension : QVariantMap)
  (st : QByteArray * QByteArray) (fmt : QString) : QByteArray * QByteArray :=
  let '(uriData, textData) := st in
  let ext := toString (value mimeToExtension fmt) in
  let filePath := basePath +++ ext in
  let uriData :=
    if updateUriData then
      (match uriData with [] => uriData | _ :: _ => uriData ++ newline end)
        ++ localFileUrl filePath
    else uriData in
  let textData :=
    if updateTextData then
      (match textData with [] => textData | _ :: _ => textData ++ newline end)
        ++ list_byte_of_string (escapePath filePath)
    else textData in
  (uriData, textData).

(** [ItemSyncLoader::copyItem(model, itemData)]. *)
Definition copyItem (m_tabPaths : QMap.t QString) (model : Model)
  (itemData : QVariantMap) : QVariantMap :=
  let copiedItemData := itemData in
  let syncPath := tabPath m_tabPaths model in
  let copiedItemData :=
    QMap.insert mimeSyncPath (VString syncPath) copiedItemData in
  let updateUriData := negb (QMap.contains copiedItemData mimeUriList) in
  let updateTextData := negb (QMap.contains copiedItemData mimeText) in
  if updateUriData || updateTextData then
    let mimeToExtension := toMap (value itemData mimeExtensionMap) in
    let basePath :=
      syncPath +++ "/" +++ toString (value itemData mimeBaseName) in
    let '(uriData, textData) :=
      fold_left (copyItemStep updateUriData updateTextData basePath
                              mimeToExtension)
                (QMap.keys mimeToExtension) ([], []) in
    let noSaveData : QVariantMap := QMap.empty in
    let '(noSaveData, copiedItemData) :=
      if updateUriData
      then (QMap.insert mimeUriList (VByteArray (calculateHash uriData))
                        noSaveData,
            QMap.insert mimeUriList (VByteArray uriData) copiedItemData)
      else (noSaveData, copiedItemData) in
    let '(noSaveData, copiedItemData) :=
      if updateTextData
      then (QMap.insert mimeText (VByteArray (calculateHash textData))
                        noSaveData,
            QMap.insert mimeText (VByteArray textData) copiedItemData)
      else (noSaveData, copiedItemData) in
    QMap.insert mimeNoSave (VMap noSaveData) copiedItemData
  else copiedItemData.

End CopyItem.

(** The first loop of [loadSettings], over the list stored under
    [configSyncTabs]: tab names at the even places, each followed by its
    path; [tabPaths.value(i + 1)] is empty past the end. *)
Fixpoint insertTabPaths (tabPaths : QStringList) (m_tabPaths : QMap.t QString)
  : QMap.t QString :=
  match tabPaths with
  | [] => m_tabPaths
  | [tabName] => QMap.insert tabName "" m_tabPaths
  | tabName :: tabPath :: rest =>
      insertTabPaths rest (QMap.insert tabName tabPath m_tabPaths)
  end.

(** [m_tabPaths] after [loadSettings(settings)]. *)
Definition loadTabPaths (settings : QVariantMap) : QMap.t QString :=
  insertTabPaths (toStringList (value settings configSyncTabs)) QMap.empty.

(** The rows [for (int row = 0, i = 0; i < t->rowCount(); ++row, i += 2)]
    visits: [i] advances by two while [row] advances by one, so the loop
    stops after the first half of the rows, rounded up. *)
Definition visitedRows (A : Type) (table : list A) : list A :=
  firstn (Nat.div2 (S (List.length table))) table.

(** The first loop of [applySettings], over the rows of the table of
    synchronised tabs, each a tab name and a path, with the [insert] into
    [m_settings] that follows: the settings and [m_tabPaths]. *)
Definition applyTabPaths (table : list (QString * QString))
  (m_settings : QVariantMap) : QVariantMap * QMap.t QString :=
  let '(tabPaths, m_tabPaths) :=
    fold_left (fun (st : QStringList * QMap.t QString)
                   (row : QString * QString) =>
                 let '(tabPaths, m_tabPaths) := st in
                 let '(tabName, tabPath) := row in
                 if negb (QStr.isEmpty tabName)
                 then (tabPaths ++ [tabName; tabPath],
                       QMap.insert tabName tabPath m_tabPaths)
                 else st)
              (visitedRows table) ([], QMap.empty) in
  (QMap.insert configSyncTabs (VStringList tabPaths) m_settings, m_tabPaths).

(** Body of the loop of [itemsRemovedByUser].  An index is invalid, and then
    has no model, or is a row of its model. *)
Definition removeFilesOfItem (m_tabPaths : QMap.t QString) (fs : FileSystem)
  (index : option (Model * Row)) : FileSystem :=
  match index with
  | None => fs
  | Some (model, r) =>
      let path := tabPath m_tabPaths model in
      if QStr.isEmpty path then fs
      else
        let baseName := getBaseName (Some r) in
        if QStr.isEmpty baseName then fs
        else
          let remove :=
            negb (existsb (fun index2 =>
                             negb (rowId index2 =? rowId r)
                             && String.eqb baseName (getBaseName (Some index2)))
                          (rows model)) in
          if negb remove then fs
          else
            let itemData := rowData r in
            let mimeToExtension := toMap (value itemData mimeExtensionMap) in
            if QMap.isEmpty mimeToExtension
            then FS.remove fs (path +++ "/" +++ baseName)
            else removeFormatFiles (path +++ "/" +++ baseName)
                                   mimeToExtension fs
  end.

(** [ItemSyncLoader::itemsRemovedByUser]. *)
Definition itemsRemovedByUser (m_tabPaths : QMap.t QString)
  (indexList : list (option (Model * Row))) (fs : FileSystem) : FileSystem :=
  fold_left (removeFilesOfItem m_tabPaths) indexList fs.

End Loader.

(** * Vocabulary of the properties *)

(** The name the allocator tries for the counter value [j]. *)
Definition candidate (stem : QString) (fieldWidth : Z) (ext : QString) (j : Z)
  : QString :=
  stem +++ QStr.arg j fieldWidth +++ ext.

Definition endsWithDigit (s : QString) : bool :=
  negb (QStr.isEmpty (QStr.trailingDigits s)).

(** Outcome of the allocator on a taken name whose stem is [stem], whose
    counter stands at [i] in a field of [fieldWidth] characters and whose
    extension is [ext]: the first candidate above [i] that is not used, up to
    99999, appended to the used names; or failure when all of them are
    used. *)
Inductive Disambiguated (usedNames : QStringList) (stem : QString)
  (fieldWidth : Z) (ext : QString) (i : Z)
  : bool * QString * QStringList -> Prop :=
| Renamed (j : Z) :
    i < j <= 99999 ->
    QStr.contains usedNames (candidate stem fieldWidth ext j) = false ->
    (forall k, i < k < j ->
               QStr.contains usedNames (candidate stem fieldWidth ext k) = true) ->
    Disambiguated usedNames stem fieldWidth ext i
      (true, candidate stem fieldWidth ext j,
       usedNames ++ [candidate stem fieldWidth ext j])
| Exhausted (name : QString) :
    (forall k, i < k <= 99999 ->
               QStr.contains usedNames (candidate stem fieldWidth ext k) = true) ->
    Disambiguated usedNames stem fieldWidth ext i (false, name, usedNames).

(** A platform whose services answer with fixed values, for evaluating the
    plugin on inputs on which the answers of the real services play no
    part. *)
Definition stubPlatform : Platform := {|
  sha1 := fun _ => repeat x00 20;
  serializeData := fun _ => [];
  deserializeData := fun m _ => (false, m);
  localFileUrl := fun path => list_byte_of_string path;
  readString := fun stream => ("", stream);
  readVariantMap := fun stream => (QMap.empty, stream);
  variantToInt := fun v => match v with VInt z => z | _ => 0 end
|}.

Section ManifestVocabulary.

Context {P : Platform}.

(** The header string at the front of a manifest stream. *)
Definition manifestHeader (file : QByteArray) : QString :=
  fst (readString file).

(** The map that follows the header. *)
Definition manifestMap (file : QByteArray) : QVariantMap :=
  fst (readVariantMap (snd (readString file))).

(** Its version as an integer, 0 when the map has none. *)
Definition manifestVersion (file : QByteArray) : Z :=
  variantToInt (match QMap.find configVersion (manifestMap file) with
                | Some v => v
                | None => VInt 0
                end).

End ManifestVocabulary.

(** [copyItem] synthesises an entry for [k]: one of the two text types,
    absent from the item. *)
Definition synthesized (itemData : QVariantMap) (k : QString) : bool :=
  (String.eqb k mimeText || String.eqb k mimeUriList)
  && negb (QMap.contains itemData k).

(** The content of a file of 10 MiB and one byte. *)
Definition oversizedContents : QByteArray := repeat x00 (N.to_nat 10485761).

(** A directory holding one file, readable, writable and not hidden. *)
Definition oneFile (path : QString) (bytes : QByteArray) : FileSystem :=
  mkFileSystem [(path, mkFileNode bytes false true true)] [] [].

(** A watcher of the directory [dir] whose tab holds [rs], with no user
    formats. *)
Definition watcherOf (dir : QString) (rs : list Row) : FileWatcher :=
  mkFileWatcher (mkQFileSystemWatcher [] [dir])
                (mkModel rs "tab" 200 false false (Z.of_nat (List.length rs)))
                [] dir true [].

(** ** Vocabulary of the round trip *)

(** A MIME type outside the namespace of the plugin. *)
Definition userKey (k : QString) : bool :=
  negb (QStr.startsWith k MIME_PREFIX_ITEMSYNC).

(** The extension direction W gives the file of the type [k] of a row whose
    extension map is [old]. *)
Definition extensionFor (old : QVariantMap) (k : QString) : QString :=
  extension (findByFormat k fileExtensionsAndFormats old).

(** The file direction W writes for it. *)
Definition itemFilePath (dir base : QString) (old : QVariantMap) (k : QString)
  : QString :=
  FS.absoluteFilePath dir base +++ extensionFor old k.

Definition sameExt (a : option Ext) (b : Ext) : bool :=
  match a with
  | Some e =>
      String.eqb (extension e) (extension b) && String.eqb (format e) (format b)
  | None => false
  end.

Definition sameName (a : option QString) (b : QString) : bool :=
  match a with
  | Some n => String.eqb n b
  | None => false
  end.

(** The payload [bytes] of type [k] reads back from its file: the type has a
    file of its own and is not left to the data file, the file is an entry of
    the directory under the name base + extension, is not hidden by its name
    and is not taken for a data file, the scanner resolves it to the same
    extension and type, and the payload is within the size limit. *)
Definition readsBack (dir : QString) (userExts : list Ext) (base : QString)
  (old : QVariantMap) (k : QString) (bytes : QByteArray) : bool :=
  let ext := extensionFor old k in
  let path := itemFilePath dir base old k in
  (QMap.contains old k || negb (QStr.isEmpty ext))
  && negb (QStr.isEmpty k)
  && sameName (FS.nameInDir dir path) (base +++ ext)
  && QStr.startsWith path "/"
  && negb (QStr.startsWith (base +++ ext) ".")
  && negb (QStr.endsWith path dataFileSuffix)
  && sameExt (resolveExt path userExts) (mkExt ext k)
  && (Z.of_nat (List.length bytes) <=? sizeLimit).

Definition payloadOf (r : Row) (k : QString) : QByteArray :=
  toByteArray (value (rowData r) k).

Definition extensionMapOf (r : Row) : QVariantMap :=
  toMap (value (rowData r) mimeExtensionMap).

(** A row direction R recovers after direction W: it carries no no-save map
    and no sync path, holds at least one payload, every payload reads back,
    and its extension map names no type the row does not hold. *)
Definition recoverableRow (dir : QString) (userExts : list Ext) (r : Row) : bool :=
  QMap.isEmpty (toMap (value (rowData r) mimeNoSave))
  && QStr.isEmpty (toString (value (rowData r) mimeSyncPath))
  && forallb (fun k =>
                negb (userKey k)
                || readsBack dir userExts (getBaseName (Some r))
                             (extensionMapOf r) k (payloadOf r k))
             (QMap.keys (rowData r))
  && existsb userKey (QMap.keys (rowData r))
  && forallb (fun k => userKey k && QMap.contains (rowData r) k)
             (QMap.keys (extensionMapOf r)).

(** A base name the allocator accepts as it is. *)
Definition validBaseName (name : QString) : bool :=
  negb (QStr.isEmpty name) && String.eqb (safeName name) name.

(** A file that is listed and can be read and written. *)
Definition regularFile (n : FileNode) : bool :=
  negb (hidden n) && readable n && writable n.

(** [name] is the file of a payload of one of the rows. *)
Definition ownedBy (rs : list Row) (name : QString) : bool :=
  existsb (fun r =>
             existsb (fun k =>
                        userKey k
                        && String.eqb name
                             (getBaseName (Some r)
                              +++ extensionFor (extensionMapOf r) k))
                     (QMap.keys (rowData r)))
          rs.

(** The rows hold the same user data: the same MIME types outside the
    namespace of the plugin, each with the same bytes. *)
Definition samePayloads (d d' : QVariantMap) : Prop :=
  forall k, userKey k = true ->
            QMap.contains d' k = QMap.contains d k
            /\ toByteArray (value d' k) = toByteArray (value d k).

Definition sameItem (r r' : Row) : Prop :=
  rowId r' = rowId r
  /\ getBaseName (Some r') = getBaseName (Some r)
  /\ samePayloads (rowData r) (rowData r').

Section RoundTripVocabulary.

Context {P : Platform}.

(** What the round trip asks of a tab and its directory.  The directory is
    given by an absolute path; the rows have distinct identities and distinct
    base names that the allocator accepts, and are recoverable; nothing
    hinders writing; every file of the directory is a regular file of one of
    the rows; and a file that has the hash of the payload due at its path has
    its content. *)
Record RoundTripReady (w : FileWatcher) (fs : FileSystem) : Prop := {
  ready_dir : nth 0 (watchedDirectories (m_watcher w)) "" = m_path w;
  ready_absolute : QStr.startsWith (m_path w) "/" = true;
  ready_ids : NoDup (map rowId (rows (m_model w)));
  ready_names : NoDup (map (fun r => getBaseName (Some r)) (rows (m_model w)));
  ready_valid :
    forallb (fun r => validBaseName (getBaseName (Some r))) (rows (m_model w))
    = true;
  ready_rows :
    forallb (recoverableRow (m_path w) (userExtensions (m_formatSettings w)))
            (rows (m_model w)) = true;
  ready_writable : readOnlyDirs fs = [] /\ faulty fs = [];
  ready_regular : forallb (fun e => regularFile (snd e)) (files fs) = true;
  ready_owned :
    forallb (fun e =>
               match FS.nameInDir (m_path w) (fst e) with
               | Some name => ownedBy (rows (m_model w)) name
               | None => true
               end) (files fs) = true;
  ready_hashes :
    forall r k f,
      In r (rows (m_model w)) ->
      In k (QMap.keys (rowData r)) -> userKey k = true ->
      FS.lookup (itemFilePath (m_path w) (getBaseName (Some r))
                              (extensionMapOf r) k) (files fs) = Some f ->
      calculateHashOfFile f = calculateHash (payloadOf r k) ->
      contents f = payloadOf r k
}.

(** Direction W over all rows, then direction R. *)
Definition writeThenRead (w : FileWatcher) (fs : FileSystem) : FileWatcher :=
  let '(w1, fs1) :=
    Watcher.saveItems 0 (ItemModel.rowCount (m_model w) - 1) w fs in
  Watcher.updateItems w1 fs1.

End RoundTripVocabulary.

(** The tabs and the directory of the examples of the round trip. *)
Definition itemRow (id : Z) (base : QString)
  (payloads : list (QString * QByteArray)) : Row :=
  mkRow id
        (fold_right (fun p m => QMap.insert (fst p) (VByteArray (snd p)) m)
                    (QMap.insert mimeBaseName (VString base) QMap.empty)
                    payloads).

Definition bytesOf (s : string) : QByteArray := list_byte_of_string s.

Definition noteAndPicture : list Row :=
  [ itemRow 0 "note" [(mimeText, bytesOf "hello");
                      (mimeHtml, bytesOf "<b>hello</b>")];
    itemRow 1 "pic" [("image/png", bytesOf "PNG")] ].

Definition xmlItem : list Row :=
  [ itemRow 0 "feed" [("text/xml", bytesOf "<a/>")] ].

Definition customItem (bytes : QByteArray) : list Row :=
  [ itemRow 0 "blob" [("application/x-custom", bytes)] ].

Definition emptyDirectory : FileSystem := mkFileSystem [] [] [].

(** ** Invariants of the two passes *)

Unset Implicit Arguments.

(** What direction W keeps of a row: its identity and its base name. *)
Definition sameIdName (r r' : Row) : Prop :=
  rowId r' = rowId r /\ getBaseName (Some r') = getBaseName (Some r).

(** The fields of the watcher the save of a row leaves alone. *)
Definition sameSettings (w w' : FileWatcher) : Prop :=
  m_watcher w' = m_watcher w /\ m_formatSettings w' = m_formatSettings w
  /\ m_path w' = m_path w /\ m_valid w' = m_valid w
  /\ maxItems (m_model w') = maxItems (m_model w).

(** The step of the scanner on a path it keeps, told without the index
    map: the extension joins the first bucket of its base name, or a new
    bucket at the end. *)
Fixpoint addToBucket (b : QString) (e : Ext) (fl : BaseNameExtensionsList)
  : BaseNameExtensionsList :=
  match fl with
  | [] => [mkBaseNameExtensions b [e]]
  | x :: fl' =>
      if String.eqb (baseName x) b
      then mkBaseNameExtensions (baseName x) (exts x ++ [e]) :: fl'
      else x :: addToBucket b e fl'
  end.

Fixpoint indexOfBucket (b : QString) (fl : BaseNameExtensionsList) : option nat :=
  match fl with
  | [] => None
  | x :: fl' =>
      if String.eqb (baseName x) b then Some O
      else option_map S (indexOfBucket b fl')
  end.

(** [fileMap] gives the index of the bucket of every base name. *)
Definition MapInv (fl : BaseNameExtensionsList) (fm : QMap.t Z) : Prop :=
  forall b, QMap.find b fm = option_map Z.of_nat (indexOfBucket b fl).

(** The base name of a row, and the built-in or recorded extension of the
    file of its payload of type [k]. *)
Definition nameOf (r : Row) : QString := getBaseName (Some r).

Definition extOf (r : Row) (k : QString) : Ext :=
  mkExt (extensionFor (extensionMapOf r) k) k.

Section TabFiles.

Variable rows0 : list Row.
Variable dir : QString.
Variable fs0 : FileSystem.

(** [p] is the file of the payload of type [k] of the row [r]. *)
Definition Target (p : QString) (r : Row) (k : QString) : Prop :=
  In r rows0 /\ In k (QMap.keys (rowData r)) /\ userKey k = true
  /\ p = itemFilePath dir (nameOf r) (extensionMapOf r) k.

(** The file [p] holds the payload it is the file of. *)
Definition Done (fs : FileSystem) (p : QString) : Prop :=
  exists r k n,
    Target p r k /\ FS.lookup p (files fs) = Some n
    /\ contents n = payloadOf r k.

(** The directory in the course of direction W, begun on [fs0]: nothing
    hinders writing, every file is a regular file of one of the rows, and the
    file of a payload is as it was or holds the payload. *)
Record FsInv (fs : FileSystem) : Prop := {
  inv_flags : readOnlyDirs fs = [] /\ faulty fs = [];
  inv_regular : forall p n, In (p, n) (files fs) -> regularFile n = true;
  inv_owned :
    forall p n name,
      In (p, n) (files fs) -> FS.nameInDir dir p = Some name ->
      ownedBy rows0 name = true;
  inv_target :
    forall p r k,
      Target p r k ->
      FS.lookup p (files fs) = FS.lookup p (files fs0) \/ Done fs p
}.

(** What the buckets hold once the paths [qs] are scanned. *)
Record Grouped (qs : QStringList) (fl : BaseNameExtensionsList) : Prop := {
  grouped_names : NoDup (map baseName fl);
  grouped_exts :
    forall x, In x fl ->
      exists r, In r rows0 /\ nameOf r = baseName x
                /\ forall e, In e (exts x) ->
                     exists k, In k (QMap.keys (rowData r))
                               /\ userKey k = true
                               /\ e = extOf r k;
  grouped_all :
    forall q r k, In q qs -> Target q r k ->
      exists x, In x fl /\ baseName x = nameOf r
                /\ In (extOf r k) (exts x)
}.

(** A bucket holds the files of the payloads of its row, all of them. *)
Definition BucketOk (x : BaseNameExtensions) : Prop :=
  forall r, In r rows0 -> nameOf r = baseName x ->
    (forall e, In e (exts x) ->
       exists k, In k (QMap.keys (rowData r))
                 /\ userKey k = true
                 /\ e = extOf r k)
    /\ (forall k, In k (QMap.keys (rowData r)) -> userKey k = true ->
          In (extOf r k) (exts x)).

End TabFiles.

(** ** Vocabulary of the further properties *)

(** A character that may stand in a file name: neither a separator of
    directories nor a line break. *)
Definition safeChar (c : ascii) : bool :=
  negb (QStr.isUnsafe c) && negb (QStr.isNewline c).

Fixpoint fileSafe (s : QString) : bool :=
  match s with
  | EmptyString => true
  | String c s' => safeChar c && fileSafe s'
  end.

(** Two rows named [a]: the second becomes [a-1]. *)
Definition twoRowsNamedA : list Row :=
  [ itemRow 0 "a" [(mimeText, bytesOf "x")];
    itemRow 1 "a" [(mimeText, bytesOf "y")] ].

(** What a pass over the rows [first..last] leaves alone in the watcher: the
    identities and the order of the rows, the rows outside the range, the
    properties of the model, the directory, the formats and the watch set. *)
Definition sameOutside (first last : Z) (w w' : FileWatcher) : Prop :=
  map rowId (rows (m_model w')) = map rowId (rows (m_model w))
  /\ (forall j, j < first \/ last < j ->
                ItemModel.index (m_model w') j = ItemModel.index (m_model w) j)
  /\ tabName (m_model w') = tabName (m_model w)
  /\ maxItems (m_model w') = maxItems (m_model w)
  /\ disabled (m_model w') = disabled (m_model w)
  /\ m_path w' = m_path w
  /\ m_formatSettings w' = m_formatSettings w
  /\ m_watcher w' = m_watcher w.

(** The frame of a step inside a pass, which leaves the flag of validity
    alone as well. *)
Definition stepFrame (first last : Z) (w w' : FileWatcher) : Prop :=
  sameOutside first last w w' /\ m_valid w' = m_valid w.

(** What direction W leaves in a row it has saved: an extension map that is
    not empty, and no no-save map. *)
Definition savedRow (r : Row) : Prop :=
  QMap.isEmpty (extensionMapOf r) = false
  /\ QMap.isEmpty (toMap (value (rowData r) mimeNoSave)) = true.

(** Every row of [w'] stands where a row of [w] with the same base name
    stood. *)
Definition sameNames (w w' : FileWatcher) : Prop :=
  forall p r', ItemModel.index (m_model w') p = Some r' ->
               exists r, ItemModel.index (m_model w) p = Some r
                         /\ getBaseName (Some r') = getBaseName (Some r).

(** The scanner keeps the path [q] and settles on [e] for it. *)
Definition kept (fs : FileSystem) (userExts : list Ext) (q : QString) (e : Ext)
  : Prop :=
  skipFile fs q = false /\ resolveExt q userExts = Some e.

(** The base name the scanner gives the path [q] once it has settled on
    [e]. *)
Definition bucketName (q : QString) (e : Ext) : QString :=
  QStr.left (FS.fileName q)
            (QStr.size (FS.fileName q) - QStr.size (extension e)).

(** One turn of the scanner, told without the index map. *)
Definition scanStep (fs : FileSystem) (userExts : list Ext)
  (fl : BaseNameExtensionsList) (q : QString) : BaseNameExtensionsList :=
  if skipFile fs q then fl
  else match resolveExt q userExts with
       | Some e => addToBucket (bucketName q e) e fl
       | None => fl
       end.

Fixpoint noSlash (s : QString) : bool :=
  match s with
  | EmptyString => true
  | String c s' => negb (Ascii.eqb c "/") && noSlash s'
  end.

(** What the buckets hold once the paths [done] are scanned. *)
Record Scanned (fs : FileSystem) (userExts : list Ext) (done : QStringList)
  (fl : BaseNameExtensionsList) : Prop := {
  scanned_names : NoDup (map baseName fl);
  scanned_filled : forall x, In x fl -> exts x <> [];
  scanned_sound :
    forall x e, In x fl -> In e (exts x) ->
                exists q, In q done /\ kept fs userExts q e
                          /\ baseName x = bucketName q e;
  scanned_complete :
    forall q e, In q done -> kept fs userExts q e ->
                exists x, In x fl /\ baseName x = bucketName q e
                          /\ In e (exts x)
}.

(** The part of a path after its last slash, by recursion on the path. *)
Fixpoint afterLastSlash (s : QString) : QString :=
  match s with
  | EmptyString => EmptyString
  | String c s' =>
      if noSlash s' then (if Ascii.eqb c "/" then s' else s)
      else afterLastSlash s'
  end.

(** The watch set [x'] extends [x]: every watched file stays watched, no
    file comes to be watched twice, and the watched directories stay. *)
Definition extendsWatch (x x' : QFileSystemWatcher) : Prop :=
  incl (watchedFiles x) (watchedFiles x')
  /\ (NoDup (watchedFiles x) -> NoDup (watchedFiles x'))
  /\ watchedDirectories x' = watchedDirectories x.

(** [l] is [l'] with some elements left out. *)
Inductive Subseq (A : Type) : list A -> list A -> Prop :=
| Subseq_nil : Subseq A [] []
| Subseq_skip (x : A) (l l' : list A) : Subseq A l l' -> Subseq A l (x :: l')
| Subseq_keep (x : A) (l l' : list A) :
    Subseq A l l' -> Subseq A (x :: l) (x :: l').

(** The identity of a row with its base name. *)
Definition idName (r : Row) : Z * QString := (rowId r, getBaseName (Some r)).

Definition hasFiles (r : Row) : Prop :=
  QMap.isEmpty (extensionMapOf r) = false.

(** The file of the format [fmt] of an item whose files start with [path]
    and whose extension map is [m]. *)
Definition formatFile (path : QString) (m : QVariantMap) (fmt : QString)
  : QString :=
  path +++ toString (value m fmt).

Definition pathsOf (fs : FileSystem) : QStringList := map fst (files fs).

(** A string without line breaks. *)
Fixpoint oneLine (s : QString) : bool :=
  match s with
  | EmptyString => true
  | String c s' => negb (QStr.isNewline c) && oneLine s'
  end.

(** Lines joined by line feeds. *)
Definition joinLines (ls : list QByteArray) : QByteArray :=
  match ls with
  | [] => []
  | l :: rest => l ++ flat_map (fun x => Loader.newline ++ x) rest
  end.

(** ** Vocabulary of the scanner's rules *)

(** [e] is the first extension of [exts], in their order, that the path
    ends with. *)
Definition firstMatch (path : QString) (exts : list Ext) (e : Ext) : Prop :=
  exists before after,
    exts = before ++ e :: after
    /\ Forall (fun x => QStr.endsWith path (extension x) = false) before
    /\ QStr.endsWith path (extension e) = true.

(** Visible files that can be read and written, the least recently modified
    first. *)
Definition plainFiles (l : list (QString * QByteArray)) : FileSystem :=
  mkFileSystem (map (fun e => (fst e, mkFileNode (snd e) false true true)) l)
               [] [].

(** The formats of an example: archives, and after them tarballs that are to
    be ignored. *)
Definition gzipThenIgnoredTarball : list FileFormat :=
  [ mkFileFormat [".gz"] "application/gzip" "";
    mkFileFormat [".tar.gz"] "-" "" ].

(** A watcher of the directory [dir] with the user's formats [fmts], whose
    tab holds [rs]. *)
Definition watcherWith (dir : QString) (fmts : list FileFormat)
  (rs : list Row) : FileWatcher :=
  mkFileWatcher (mkQFileSystemWatcher [] [dir])
                (mkModel rs "tab" 200 false false (Z.of_nat (List.length rs)))
                fmts dir true [].

(** ** Vocabulary of the allocator's split *)

(** The character [c] occurs in [s]. *)
Fixpoint hasChar (c : ascii) (s : QString) : bool :=
  match s with
  | EmptyString => false
  | String a s' => Ascii.eqb a c || hasChar c s'
  end.

(** The last character of [s] is a digit. *)
Fixpoint lastIsDigit (s : QString) : bool :=
  match s with
  | EmptyString => false
  | String c EmptyString => QStr.isDigit c
  | String _ s' => lastIsDigit s'
  end.

(** The name ends with no extension of the format. *)
Definition noExtensionFits (name : QString) (f : FileFormat) : Prop :=
  Forall (fun x => QStr.endsWith name x = false) (extensions f).

(** The extension the allocator takes a name to have: the first extension
    that fits of the first of the user's formats that has one; without such
    a format, the part of the name from its last dot on; without a dot,
    nothing. *)
Inductive ExtensionOf (fmts : list FileFormat) (name : QString)
  : QString -> Prop :=
| ExtensionOfFormat (before after : list FileFormat) (f : FileFormat)
    (pre post : QStringList) (e : QString) :
    fmts = before ++ f :: after ->
    Forall (noExtensionFits name) before ->
    extensions f = pre ++ e :: post ->
    Forall (fun x => QStr.endsWith name x = false) pre ->
    QStr.endsWith name e = true ->
    ExtensionOf fmts name e
| ExtensionFromLastDot (front rest : QString) :
    Forall (noExtensionFits name) fmts ->
    name = front +++ String "." rest ->
    hasChar "." rest = false ->
    ExtensionOf fmts name (String "." rest)
| ExtensionNone :
    Forall (noExtensionFits name) fmts ->
    hasChar "." name = false ->
    ExtensionOf fmts name "".

(** ** Vocabulary of the elision of writes *)

(** The files that were modified before the file at [p], the oldest first:
    the paths that come before [p] in the order of modification. *)
Fixpoint olderPaths (p : QString) (l : list (QString * FileNode))
  : QStringList :=
  match l with
  | [] => []
  | (q, _) :: l' => if String.eqb p q then [] else q :: olderPaths p l'
  end.

(** Nothing was done to the file at [p] between [fs] and [fs']: the path
    holds the same file, or none as before, and a file that is there was not
    modified, no file has come to be older than it. *)
Definition untouched (p : QString) (fs fs' : FileSystem) : Prop :=
  FS.lookup p (files fs') = FS.lookup p (files fs)
  /\ (FS.lookup p (files fs) <> None ->
      incl (olderPaths p (files fs')) (olderPaths p (files fs))).

(** A platform like the stub, whose digest tells short payloads apart: the
    payload itself, cut off or filled up with zeros to 20 bytes. *)
Definition paddingPlatform : Platform := {|
  sha1 := fun bytes => firstn 20 (bytes ++ repeat x00 20);
  serializeData := fun _ => [];
  deserializeData := fun m _ => (false, m);
  localFileUrl := fun path => list_byte_of_string path;
  readString := fun stream => ("", stream);
  readVariantMap := fun stream => (QMap.empty, stream);
  variantToInt := fun v => match v with VInt z => z | _ => 0 end
|}.

Section ElisionVocabulary.

Context {P : Platform}.

(** Direction W saves the payload of type [k] of the row to a file of its
    own: the type is outside the namespace of the plugin, the no-save map of
    the row does not hold the hash of the payload for it, and it has a file
    already or an extension. *)
Definition savedToFile (r : Row) (k : QString) : bool :=
  let noSave := toMap (value (rowData r) mimeNoSave) in
  userKey k
  && negb (QMap.contains noSave k
           && bytes_eqb (toByteArray (value noSave k))
                        (calculateHash (payloadOf r k)))
  && (QMap.contains (extensionMapOf r) k
      || negb (QStr.isEmpty (extensionFor (extensionMapOf r) k))).

End ElisionVocabulary.

(** The paths at which the save of a row can write or remove a file: the
    files of its payloads, its data file, and the files of the formats of its
    extension map. *)
Definition rowTargets (dir : QString) (r : Row) : QStringList :=
  let filePath := FS.absoluteFilePath dir (nameOf r) in
  map (itemFilePath dir (nameOf r) (extensionMapOf r)) (QMap.keys (rowData r))
  ++ [filePath +++ dataFileSuffix]
  ++ map (formatFile filePath (extensionMapOf r))
         (QMap.keys (extensionMapOf r)).

(** Of all that the save of the row [r] can write or remove, only the
    payload of type [k0] has its file at [p]. *)
Record OnlyPayloadAt {P : Platform} (dir : QString) (r : Row)
  (k0 p : QString) : Prop := {
  only_saved : savedToFile r k0 = true;
  only_path : itemFilePath dir (nameOf r) (extensionMapOf r) k0 = p;
  only_key :
    exists kb ka,
      QMap.keys (rowData r) = kb ++ k0 :: ka
      /\ forall k, In k (kb ++ ka) ->
                   itemFilePath dir (nameOf r) (extensionMapOf r) k <> p;
  only_data : FS.absoluteFilePath dir (nameOf r) +++ dataFileSuffix <> p;
  only_format :
    forall fmt, In fmt (QMap.keys (extensionMapOf r)) -> fmt <> k0 ->
                formatFile (FS.absoluteFilePath dir (nameOf r))
                           (extensionMapOf r) fmt <> p
}.

(** The tab of an example: an item that holds a document under two types
    that share the extension .xml. *)
Definition twoXmlPayloads : list Row :=
  [ itemRow 0 "feed" [("application/xml", bytesOf "<a/>");
                      ("text/xml", bytesOf "<b/>")] ].

(** A tab of two items with one text each. *)
Definition twoTexts : list Row :=
  [ itemRow 0 "a" [(mimeText, bytesOf "one")];
    itemRow 1 "b" [(mimeText, bytesOf "two")] ].

(** A platform like the stub, whose decoder takes every data file for the
    data of an item with one text. *)
Definition decodingPlatform : Platform := {|
  sha1 := fun _ => repeat x00 20;
  serializeData := fun _ => [];
  deserializeData :=
    fun m _ => (true, QMap.insert mimeText (VByteArray (bytesOf "decoded")) m);
  localFileUrl := fun path => list_byte_of_string path;
  readString := fun stream => ("", stream);
  readVariantMap := fun stream => (QMap.empty, stream);
  variantToInt := fun v => match v with VInt z => z | _ => 0 end
|}.

(** * Properties *)


(** ** Strings *)

Section StringFacts.

Local Open Scope nat_scope.

Lemma length_append (p t : string) :
  String.length (p +++ t) = String.length p + String.length t.
Proof.
  induction p as [|c p IH]; simpl; [reflexivity | now rewrite IH].
Qed.

Lemma append_nil_r (s : string) : s +++ "" = s.
Proof.
  induction s as [|c s IH]; simpl; [reflexivity | now rewrite IH].
Qed.

Lemma append_assoc (a b c : string) : (a +++ b) +++ c = a +++ b +++ c.
Proof.
  induction a as [|x a IH]; simpl; [reflexivity | now rewrite IH].
Qed.

Lemma substring_0_length (s : string) : substring 0 (String.length s) s = s.
Proof.
  induction s as [|c s IH]; simpl; [reflexivity | now rewrite IH].
Qed.

Lemma substring_0_append (p t : string) :
  substring 0 (String.length p) (p +++ t) = p.
Proof.
  induction p as [|c p IH]; simpl.
  - destruct t; reflexivity.
  - now rewrite IH.
Qed.

Lemma substring_skip_append (p t : string) (n : nat) :
  substring (String.length p) n (p +++ t) = substring 0 n t.
Proof.
  induction p as [|c p IH]; simpl; [reflexivity | exact IH].
Qed.

Lemma substring_split (s : string) (n : nat) :
  n <= String.length s ->
  substring 0 n s +++ substring n (String.length s - n) s = s.
Proof.
  revert n; induction s as [|c s IH]; intros n Hn; simpl in *.
  - destruct n; reflexivity.
  - destruct n as [|n]; simpl.
    + now rewrite substring_0_length.
    + rewrite IH by lia. reflexivity.
Qed.

Lemma length_substring_0 (s : string) (n : nat) :
  n <= String.length s -> String.length (substring 0 n s) = n.
Proof.
  revert n; induction s as [|c s IH]; intros n Hn; simpl in *.
  - destruct n; simpl; lia.
  - destruct n as [|n]; simpl; [reflexivity | rewrite IH; lia].
Qed.

Lemma endsWith_append (p x : string) : QStr.endsWith (p +++ x) x = true.
Proof.
  unfold QStr.endsWith. rewrite length_append.
  replace (String.length p + String.length x - String.length x)
    with (String.length p) by lia.
  rewrite substring_skip_append, substring_0_length, String.eqb_refl.
  rewrite andb_true_r. apply Nat.leb_le. lia.
Qed.

Lemma endsWith_split (s x : string) :
  QStr.endsWith s x = true ->
  substring 0 (String.length s - String.length x) s +++ x = s.
Proof.
  unfold QStr.endsWith. intros H.
  apply andb_true_iff in H. destruct H as [Hle Heq].
  apply Nat.leb_le in Hle. apply String.eqb_eq in Heq.
  pose proof (substring_split s (String.length s - String.length x)) as E.
  replace (String.length s - (String.length s - String.length x))
    with (String.length x) in E by lia.
  rewrite Heq in E. apply E. lia.
Qed.

End StringFacts.

(** ** The base-name allocator *)

Section AllocatorFacts.

Lemma length_substring (s : string) (n m : nat) :
  (n + m <= String.length s)%nat -> String.length (substring n m s) = m.
Proof.
  revert n m; induction s as [|c s IH]; intros n m H; simpl in *.
  - destruct n, m; simpl in *; try reflexivity; lia.
  - destruct n as [|n].
    + destruct m as [|m]; simpl; [reflexivity|]. rewrite IH; simpl; lia.
    + apply IH. lia.
Qed.

Lemma lastIndexOf_from_range (s : QString) (c : ascii) (pos acc : Z) :
  let r := QStr.lastIndexOf_from s c pos acc in
  r = acc \/ (pos <= r < pos + QStr.size s).
Proof.
  unfold QStr.size. revert pos acc.
  induction s as [|a s IH]; intros pos acc; simpl.
  - now left.
  - specialize (IH (pos + 1) (if Ascii.eqb a c then pos else acc)).
    simpl in IH. destruct IH as [E | R].
    + rewrite E. destruct (Ascii.eqb a c); [right; lia | now left].
    + right. lia.
Qed.

Lemma lastIndexOf_range (s : QString) (c : ascii) :
  QStr.lastIndexOf s c = -1 \/ (0 <= QStr.lastIndexOf s c < QStr.size s).
Proof.
  exact (lastIndexOf_from_range s c 0 (-1)).
Qed.

(** [left] gives back what comes before a suffix of known length. *)
Lemma left_mid_join (s : QString) (i : Z) :
  0 <= i < QStr.size s ->
  QStr.left s (QStr.size s - QStr.size (QStr.mid s i)) +++ QStr.mid s i = s.
Proof.
  unfold QStr.left, QStr.mid, QStr.size. intros Hi.
  assert (Hlt : (Z.of_nat (String.length s) <? i) = false)
    by (apply Z.ltb_ge; lia).
  rewrite Hlt.
  rewrite length_substring by lia.
  replace (Z.of_nat (String.length s) - Z.of_nat (String.length s - Z.to_nat i))
    with i by lia.
  replace (i <? 0) with false by (symmetry; apply Z.ltb_ge; lia).
  replace (Z.of_nat (String.length s) <=? i) with false
    by (symmetry; apply Z.leb_gt; lia).
  simpl. apply substring_split. lia.
Qed.

Lemma left_suffix_join (s x : QString) :
  QStr.endsWith s x = true ->
  QStr.left s (QStr.size s - QStr.size x) +++ x = s.
Proof.
  intros H. pose proof (endsWith_split s x H) as E.
  unfold QStr.endsWith in H. apply andb_true_iff in H. destruct H as [Hle _].
  apply Nat.leb_le in Hle.
  unfold QStr.left, QStr.size.
  destruct ((Z.of_nat (String.length s) - Z.of_nat (String.length x) <? 0)
            || (Z.of_nat (String.length s)
                <=? Z.of_nat (String.length s) - Z.of_nat (String.length x)))
    eqn:B.
  - apply orb_true_iff in B. destruct B as [B | B].
    + apply Z.ltb_lt in B. lia.
    + apply Z.leb_le in B.
      assert (String.length x = 0%nat) by lia.
      destruct x; [apply append_nil_r | discriminate].
  - replace (Z.to_nat (Z.of_nat (String.length s) - Z.of_nat (String.length x)))
      with (String.length s - String.length x)%nat by lia.
    exact E.
Qed.

Lemma firstMatchingExtension_endsWith (name : QString) (l : QStringList) (e : QString) :
  firstMatchingExtension name l = Some e -> QStr.endsWith name e = true.
Proof.
  induction l as [|x l IH]; simpl; [discriminate|].
  destruct (QStr.endsWith name x) eqn:E; [|exact IH].
  intros H; injection H as <-; exact E.
Qed.

Lemma getFormatSettings_spec (name : QString) (fmts : list FileFormat) :
  let '(f, e) := getFormatSettingsFromFileName name fmts in
  (isValid f = true /\ QStr.endsWith name e = true)
  \/ (isValid f = false /\ e = "").
Proof.
  induction fmts as [|fmt rest IH]; simpl.
  - right. split; reflexivity.
  - destruct (firstMatchingExtension name (extensions fmt)) as [e|] eqn:E.
    + left. split.
      * unfold isValid. destruct (extensions fmt); [discriminate | reflexivity].
      * eapply firstMatchingExtension_endsWith; eassumption.
    + exact IH.
Qed.

(** The two parts [renameToUnique] splits a name into make up the name. *)
Lemma splitExtension_join (name : QString) (fmts : list FileFormat) :
  fst (splitExtension name fmts) +++ snd (splitExtension name fmts) = name.
Proof.
  unfold splitExtension.
  pose proof (getFormatSettings_spec name fmts) as G.
  destruct (getFormatSettingsFromFileName name fmts) as [f e0].
  set (ext := if negb (isValid f)
              then if negb (QStr.lastIndexOf name "." =? -1)
                   then QStr.mid name (QStr.lastIndexOf name ".") else e0
              else e0).
  assert (J : QStr.left name (QStr.size name - QStr.size ext) +++ ext = name).
  { subst ext. destruct G as [[V E] | [V E]]; rewrite V; simpl.
    - now apply left_suffix_join.
    - destruct (QStr.lastIndexOf name "." =? -1) eqn:I; simpl.
      + subst e0. apply left_suffix_join.
        pose proof (endsWith_append name "") as A.
        now rewrite append_nil_r in A.
      + apply Z.eqb_neq in I.
        destruct (lastIndexOf_range name ".") as [R | R]; [contradiction|].
        now apply left_mid_join. }
  destruct (QStr.endsWith (QStr.left name (QStr.size name - QStr.size ext)) ".")
    eqn:D; simpl.
  - apply endsWith_split in D. simpl in D.
    unfold QStr.chop1.
    set (b := QStr.left name (QStr.size name - QStr.size ext)) in *.
    transitivity (b +++ ext); [|exact J].
    set (a := substring 0 (String.length b - 1) b) in *.
    clearbody a. rewrite <- D. rewrite append_assoc. reflexivity.
  - exact J.
Qed.

Lemma allDigits_append (p t : QString) :
  QStr.allDigits (p +++ t) = QStr.allDigits p && QStr.allDigits t.
Proof.
  induction p as [|c p IH]; simpl; [reflexivity|].
  rewrite IH. apply andb_assoc.
Qed.

(** The run found by [\d+$] is a suffix made of digits, and what precedes it
    does not end in a digit. *)
Lemma trailingDigits_spec (s : QString) :
  exists stem,
    s = stem +++ QStr.trailingDigits s
    /\ QStr.allDigits (QStr.trailingDigits s) = true
    /\ QStr.trailingDigits stem = "".
Proof.
  induction s as [|c s IH].
  - exists "". simpl. repeat split.
  - simpl. destruct (QStr.isDigit c && QStr.allDigits s) eqn:D.
    + exists "". simpl. rewrite D. repeat split.
    + destruct IH as (stem & E & A & M).
      exists (String c stem). simpl. split; [now rewrite <- E|]. split; [exact A|].
      destruct (QStr.isDigit c && QStr.allDigits stem) eqn:D'; [|exact M].
      exfalso. apply andb_true_iff in D'. destruct D' as [Dc Ds].
      rewrite E, allDigits_append, Ds, A, Dc in D. discriminate.
Qed.

Lemma splitCounter_digits (base : QString) :
  QStr.isEmpty (QStr.trailingDigits base) = false ->
  exists stem,
    base = stem +++ QStr.trailingDigits base
    /\ endsWithDigit stem = false
    /\ splitCounter base
       = (stem, QStr.toInt (QStr.trailingDigits base),
          QStr.size (QStr.trailingDigits base)).
Proof.
  intros N. destruct (trailingDigits_spec base) as (stem & E & _ & M).
  exists stem. split; [exact E|]. split.
  - unfold endsWithDigit. now rewrite M.
  - unfold splitCounter. rewrite N. simpl. f_equal. f_equal.
    unfold QStr.mid2, QStr.size.
    rewrite E at 1 3. rewrite length_append.
    replace (Z.to_nat (Z.of_nat (String.length stem
                                 + String.length (QStr.trailingDigits base))
                       - Z.of_nat (String.length (QStr.trailingDigits base))))
      with (String.length stem) by lia.
    simpl. apply substring_0_append.
Qed.

Lemma nextFreeName_spec (stem ext : QString) (w : Z) (used : QStringList) :
  forall (fuel : nat) (i : Z),
    99999 - i < Z.of_nat fuel -> (0 < fuel)%nat ->
    match nextFreeName fuel stem ext w used i with
    | Some n =>
        exists j, i < j <= 99999 /\ n = candidate stem w ext j
                  /\ QStr.contains used n = false
                  /\ (forall k, i < k < j ->
                                QStr.contains used (candidate stem w ext k) = true)
    | None =>
        forall k, i < k <= 99999 ->
                  QStr.contains used (candidate stem w ext k) = true
    end.
Proof.
  induction fuel as [|fuel IH]; intros i Hf Hpos; [lia|].
  simpl. destruct (i >=? 99999) eqn:G.
  - intros k Hk. apply Z.geb_le in G. lia.
  - assert (Hi : i < 99999) by (rewrite Z.geb_leb in G; apply Z.leb_gt in G; lia).
    fold (candidate stem w ext (i + 1)).
    destruct (QStr.contains used (candidate stem w ext (i + 1))) eqn:C.
    + specialize (IH (i + 1)).
      assert (Hf' : 99999 - (i + 1) < Z.of_nat fuel) by lia.
      assert (Hp' : (0 < fuel)%nat) by lia.
      specialize (IH Hf' Hp').
      destruct (nextFreeName fuel stem ext w used (i + 1)) as [n|].
      * destruct IH as (j & Hj & En & Cn & Hk).
        exists j. split; [lia|]. split; [exact En|]. split; [exact Cn|].
        intros k Hk'. destruct (Z.eq_dec k (i + 1)) as [->|Ne];
          [exact C | apply Hk; lia].
      * intros k Hk. destruct (Z.eq_dec k (i + 1)) as [->|Ne];
          [exact C | apply IH; lia].
    + exists (i + 1). split; [lia|]. split; [reflexivity|]. split; [exact C|].
      intros k Hk. lia.
Qed.

Lemma renameToUnique_counter (name : QString) (used : QStringList)
  (fmts : list FileFormat) (stem ext : QString) (i w : Z) :
  QStr.contains used (safeName name) = true ->
  splitCounter (fst (splitExtension (safeName name) fmts)) = (stem, i, w) ->
  snd (splitExtension (safeName name) fmts) = ext ->
  Disambiguated used stem w ext i (renameToUnique name used fmts).
Proof.
  intros Hin Hc He. unfold renameToUnique. rewrite Hin. cbn [negb].
  destruct (splitExtension (safeName name) fmts) as [base e].
  cbn [fst snd] in Hc, He. subst e. rewrite Hc.
  pose proof (nextFreeName_spec stem ext w used
                (S (Z.to_nat (99999 - i))) i) as N.
  assert (H1 : 99999 - i < Z.of_nat (S (Z.to_nat (99999 - i)))) by lia.
  assert (H2 : (0 < S (Z.to_nat (99999 - i)))%nat) by lia.
  specialize (N H1 H2).
  destruct (nextFreeName (S (Z.to_nat (99999 - i))) stem ext w used i) as [n|].
  - destruct N as (j & Hj & -> & Cn & Hk). now apply Renamed.
  - now apply Exhausted.
Qed.

End AllocatorFacts.

(** The two boundary cases of the specification. *)
Example renameToUnique_padded_counter :
  renameToUnique "foo001.txt" ["foo001.txt"] []
  = (true, "foo002.txt", ["foo001.txt"; "foo002.txt"]).
Proof. reflexivity. Qed.

Example renameToUnique_dash_counter :
  renameToUnique "foo.txt" ["foo.txt"] []
  = (true, "foo-1.txt", ["foo.txt"; "foo-1.txt"]).
Proof. vm_compute. reflexivity. Qed.

Example renameToUnique_exhausted :
  renameToUnique "foo99999.txt" ["foo99999.txt"] []
  = (false, "foo99999.txt", ["foo99999.txt"]).
Proof. vm_compute. reflexivity. Qed.

(** ** The manifest *)

(** C7. Reading the manifest of a tab succeeds exactly when the header string
    at the front of the stream is "CopyQ_itemsync_tab" and the version held by
    the map that follows is 1; it fails when the header differs, and it fails
    when the version differs. *)
Theorem readConfig_accepts_header_and_version {P : Platform} (file : QByteArray) :
  (fst (readConfig file) = true
   <-> manifestHeader file = "CopyQ_itemsync_tab" /\ manifestVersion file = 1)
  /\ (manifestHeader file <> "CopyQ_itemsync_tab" -> fst (readConfig file) = false)
  /\ (manifestVersion file <> 1 -> fst (readConfig file) = false).
Proof.
  assert (E : fst (readConfig file)
              = String.eqb (manifestHeader file) dataFileHeader
                && (manifestVersion file =? currentVersion)).
  { unfold readConfig, readConfigHeader, manifestHeader, manifestVersion,
      manifestMap.
    destruct (readString file) as [header rest]. cbn [fst snd].
    destruct (String.eqb header dataFileHeader); cbn [negb andb fst].
    - destruct (readVariantMap rest) as [config rest']. reflexivity.
    - reflexivity. }
  rewrite E. change dataFileHeader with "CopyQ_itemsync_tab".
  change currentVersion with 1.
  rewrite andb_true_iff, String.eqb_eq, Z.eqb_eq.
  split; [reflexivity|]. split.
  - intros H. apply String.eqb_neq in H. now rewrite H.
  - intros H. apply Z.eqb_neq in H. rewrite H. apply andb_false_r.
Qed.

(** ** Saving a tab *)



(** ** Maps *)

Section MapFacts.

Variable V : Type.

Lemma compare_Eq_eqb (a b : QString) :
  String.compare a b = Eq -> String.eqb a b = true.
Proof.
  intros H. apply String.compare_eq_iff in H. now apply String.eqb_eq.
Qed.

Lemma compare_neq_eqb (a b : QString) :
  String.compare a b <> Eq -> String.eqb a b = false.
Proof.
  intros H. apply String.eqb_neq. intros ->. apply H.
  pose proof (String.compare_antisym b b) as A.
  destruct (String.compare b b); [reflexivity | discriminate | discriminate].
Qed.

Lemma find_insert (k k' : QString) (v : V) (m : QMap.t V) :
  QMap.find k (QMap.insert k' v m)
  = if String.eqb k k' then Some v else QMap.find k m.
Proof.
  induction m as [|[k2 v2] m IH]; simpl.
  - reflexivity.
  - destruct (String.compare k' k2) eqn:C; simpl.
    + apply compare_Eq_eqb, String.eqb_eq in C. subst k2.
      destruct (String.eqb k k'); reflexivity.
    + reflexivity.
    + rewrite IH.
      destruct (String.eqb_spec k k2) as [->|N]; [|reflexivity].
      rewrite String.eqb_sym, compare_neq_eqb; [reflexivity|].
      rewrite C. discriminate.
Qed.

Lemma contains_insert (k k' : QString) (v : V) (m : QMap.t V) :
  QMap.contains (QMap.insert k' v m) k
  = String.eqb k k' || QMap.contains m k.
Proof.
  unfold QMap.contains. rewrite find_insert.
  destruct (String.eqb k k'); reflexivity.
Qed.

Lemma find_remove (k k' : QString) (m : QMap.t V) :
  QMap.find k (QMap.remove k' m)
  = if String.eqb k k' then None else QMap.find k m.
Proof.
  induction m as [|[k2 v2] m IH]; simpl.
  - destruct (String.eqb k k'); reflexivity.
  - destruct (String.eqb_spec k' k2) as [->|N]; simpl.
    + rewrite IH. destruct (String.eqb k k2); reflexivity.
    + rewrite IH. destruct (String.eqb_spec k k2) as [->|N2].
      * destruct (String.eqb_spec k2 k') as [E|_]; [now subst|reflexivity].
      * reflexivity.
Qed.

End MapFacts.

(** ** Copying an item to another tab *)

Section CopyItemFacts.

Context {P : Platform}.

(** Decides the comparisons of a key with the constant keys. *)
Ltac case_keys :=
  repeat match goal with
         | |- context [String.eqb ?a ?b] =>
             destruct (String.eqb_spec a b); subst
         | H : context [String.eqb ?a ?b] |- _ =>
             destruct (String.eqb_spec a b); subst
         end.

(** C10, as the code has it.  Copying an item removes no key and changes no
    value but those of the no-save map and of the sync path, which is always
    set to the path of the source tab, over a value the item may already
    carry.  The keys it adds are the sync path, text/plain and text/uri-list
    where the item lacks them, and with any of these two the no-save map,
    which then holds exactly the hashes of the entries just made. *)
Theorem copyItem_frame (tabs : QMap.t QString) (model : Model)
  (item : QVariantMap) :
  let out := Loader.copyItem tabs model item in
  (forall k, QMap.contains item k = true -> QMap.contains out k = true)
  /\ (forall k, k <> mimeNoSave -> k <> mimeSyncPath ->
                QMap.contains item k = true ->
                QMap.find k out = QMap.find k item)
  /\ QMap.find mimeSyncPath out = Some (VString (Loader.tabPath tabs model))
  /\ (forall k, QMap.contains out k = true -> QMap.contains item k = false ->
                k = mimeSyncPath \/ k = mimeNoSave \/ synthesized item k = true)
  /\ (if QMap.contains item mimeText && QMap.contains item mimeUriList
      then QMap.find mimeNoSave out = QMap.find mimeNoSave item
      else exists noSave,
          QMap.find mimeNoSave out = Some (VMap noSave)
          /\ forall k,
              QMap.find k noSave
              = if synthesized item k
                then option_map
                       (fun v => VByteArray (calculateHash (toByteArray v)))
                       (QMap.find k out)
                else None).
Proof.
  unfold Loader.copyItem. cbv zeta.
  rewrite !contains_insert.
  change (String.eqb mimeUriList mimeSyncPath) with false.
  change (String.eqb mimeText mimeSyncPath) with false.
  cbn [orb].
  destruct (fold_left _ _ _) as [uriData textData].
  unfold synthesized.
  destruct (QMap.contains item mimeUriList) eqn:U;
    destruct (QMap.contains item mimeText) eqn:T; cbn [negb orb andb];
    (split; [|split; [|split; [|split]]]).
  all: try (intros k Hk; rewrite !contains_insert, Hk, ?orb_true_r;
            reflexivity).
  all: try (intros k N1 N2 Hk; rewrite !find_insert; case_keys;
            try reflexivity; try contradiction; congruence).
  all: try (rewrite !find_insert; reflexivity).
  all: try (intros k Ho Hi; rewrite !contains_insert in Ho;
            rewrite Hi in Ho |- *; case_keys; cbn [orb andb negb] in *;
            try discriminate; auto).
  all: try (eexists; split; [rewrite !find_insert; reflexivity|];
            intros k; rewrite !find_insert; unfold QMap.contains;
            cbn [QMap.insert QMap.empty QMap.find];
            case_keys; cbn [orb andb negb option_map toByteArray];
            try reflexivity; try discriminate;
            unfold QMap.contains in *;
            repeat match goal with
                   | H : match ?x with _ => _ end = _ |- _ =>
                       destruct x eqn:?; try discriminate
                   end;
            try reflexivity).
Qed.

End CopyItemFacts.

(** C10 as stated fails: an item that already carries a sync path, copied
    from a tab synchronised with another directory, comes out with a different
    value under that key, which is not the no-save key. *)
Lemma copyItem_overwrites_sync_path :
  let item : QVariantMap :=
    [(mimeSyncPath, VString "/A");
     (mimeText, VByteArray (list_byte_of_string "note"));
     (mimeUriList, VByteArray (list_byte_of_string "file:///A/note.txt"))] in
  let out :=
    @Loader.copyItem stubPlatform [("tab", "/B")]
                     (mkModel [] "tab" 200 false false 0) item in
  mimeSyncPath <> mimeNoSave
  /\ QMap.find mimeSyncPath item = Some (VString "/A")
  /\ QMap.find mimeSyncPath out = Some (VString "/B").
Proof.
  cbv zeta. split; [discriminate|]. split; reflexivity.
Qed.

(** ** The directory scanner *)

Section ScannerFacts.

Context {P : Platform}.

(** A path on which the loop of [listFiles] [continue]s adds nothing to the
    buckets. *)
Lemma listFiles_without_skipped (fs : FileSystem) (fmts : list FileFormat)
  (before after : QStringList) (filePath : QString) :
  (forall st, listFilesStep fs (userExtensions fmts) st filePath = st) ->
  listFiles fs (before ++ filePath :: after) fmts
  = listFiles fs (before ++ after) fmts.
Proof.
  intros H. unfold listFiles. rewrite !fold_left_app. cbn [fold_left].
  now rewrite H.
Qed.

(** The rows direction R leaves depend on the listing through the buckets
    only. *)
Lemma updateItemsFrom_model (dir : QString) (files files' : QStringList)
  (w : FileWatcher) (fs : FileSystem) :
  listFiles fs files (m_formatSettings w)
  = listFiles fs files' (m_formatSettings w) ->
  m_model (Watcher.updateItemsFrom dir files w fs)
  = m_model (Watcher.updateItemsFrom dir files' w fs).
Proof.
  intros E. unfold Watcher.updateItemsFrom.
  cbn [m_formatSettings Watcher.setModel Watcher.disconnectModel
       Watcher.setValid].
  rewrite E.
  destruct (Watcher.updateRows _ _ _ _) as [rs [[fileList watcher] idx]].
  destruct (Watcher.createItemsFromFiles _ _ _ _) as [ok w'].
  reflexivity.
Qed.

Lemma skipFile_step (fs : FileSystem) (ue : list Ext) (filePath : QString) :
  skipFile fs filePath = true ->
  forall st, listFilesStep fs ue st filePath = st.
Proof.
  intros H [fileList fileMap]. unfold listFilesStep. now rewrite H.
Qed.

Lemma resolveExt_dash (filePath ext : QString) (ue : list Ext) :
  findByExtension filePath ue = mkExt ext "-" -> ext <> "" ->
  resolveExt filePath ue = None.
Proof.
  intros E N. unfold resolveExt. rewrite E. cbn [extension format].
  destruct ext; [contradiction | reflexivity].
Qed.

Lemma ignored_step (fs : FileSystem) (ue : list Ext) (filePath : QString) :
  resolveExt filePath ue = None ->
  forall st, listFilesStep fs ue st filePath = st.
Proof.
  intros H [fileList fileMap]. unfold listFilesStep. rewrite H.
  destruct (skipFile fs filePath); reflexivity.
Qed.

Lemma dot_file_skipped (fs : FileSystem) (filePath : QString) :
  QStr.startsWith (FS.fileName filePath) "." = true ->
  skipFile fs filePath = true.
Proof.
  intros H. unfold skipFile. rewrite H.
  destruct (FS.lookup filePath (files fs)) as [n|]; [|reflexivity].
  apply orb_true_iff. left. apply orb_true_r.
Qed.

Lemma hidden_file_skipped (fs : FileSystem) (filePath : QString) (n : FileNode) :
  FS.lookup filePath (files fs) = Some n -> hidden n = true ->
  skipFile fs filePath = true.
Proof.
  intros L H. unfold skipFile. rewrite L, H. reflexivity.
Qed.

(** What hydration does with an oversized file that is not a data file. *)
Lemma oversized_file_step (fs : FileSystem) (dir basePath : QString) (ext : Ext)
  (f : FileNode) (dataMap mimeToExtension : QVariantMap)
  (watcher : QFileSystemWatcher) :
  FS.openRead fs (FS.absoluteFilePath dir (basePath +++ extension ext)) = Some f ->
  FS.size f > sizeLimit ->
  QStr.endsWith (basePath +++ extension ext) dataFileSuffix = false ->
  updateDataStep fs dir basePath (dataMap, mimeToExtension, watcher) ext
  = (dataMap, QMap.insert "" (VString "") mimeToExtension,
     watchPath watcher (basePath +++ extension ext)).
Proof.
  intros O S D. unfold updateDataStep. rewrite O, D.
  replace (FS.size f >? sizeLimit) with true
    by (symmetry; apply Z.gtb_lt; lia).
  reflexivity.
Qed.

(** The item made from a bucket that holds one oversized file. *)
Lemma oversized_file_item (fs : FileSystem) (dir : QString) (maxItems : Z)
  (b : BaseNameExtensions) (ext : Ext) (f : FileNode) (w : FileWatcher) :
  exts b = [ext] ->
  FS.openRead fs (FS.absoluteFilePath
                    dir (FS.absoluteFilePath dir (baseName b) +++ extension ext))
  = Some f ->
  FS.size f > sizeLimit ->
  QStr.endsWith (FS.absoluteFilePath dir (baseName b) +++ extension ext)
                dataFileSuffix = false ->
  rows (m_model (snd (Watcher.createItemsLoop fs dir maxItems [b] w)))
  = mkRow (nextRowId (m_model w))
          [(mimeBaseName, VString (FS.fileName (baseName b)));
           (mimeExtensionMap, VMap [("", VString "")])]
    :: rows (m_model w).
Proof.
  intros E O S D. cbn [Watcher.createItemsLoop].
  unfold updateDataAndWatchFile. rewrite E. cbn [fold_left].
  rewrite (oversized_file_step fs dir _ ext f _ _ _ O S D).
  cbn [QMap.insert QMap.empty QMap.isEmpty negb].
  unfold Watcher.createItem, ItemModel.insertRow0.
  cbn [ItemModel.index ItemModel.data ItemModel.setData ItemModel.withRows
       ItemModel.setRowData ItemModel.mergeData rows rowId rowData
       Z.ltb Z.compare Z.to_nat nth_error m_model Watcher.setWatcher
       Watcher.setModel].
  rewrite Z.eqb_refl.
  change (ItemModel.mergeData QMap.empty
            (QMap.insert mimeExtensionMap (VMap [("", VString "")])
               (QMap.insert mimeBaseName
                  (VString (FS.fileName (baseName b))) QMap.empty)))
    with [(mimeBaseName, VString (FS.fileName (baseName b)));
          (mimeExtensionMap, VMap [("", VString "")])].
  cbn [negb ItemModel.index ItemModel.data rows Z.ltb Z.compare Z.to_nat
       nth_error].
  destruct (ItemModel.rowCount _ >=? maxItems); reflexivity.
Qed.

End ScannerFacts.

Lemma size_oversizedContents :
  Z.of_nat (List.length oversizedContents) = 10485761.
Proof.
  unfold oversizedContents. rewrite repeat_length, N_nat_Z. reflexivity.
Qed.

Lemma oversizedContents_over_limit :
  FS.size (mkFileNode oversizedContents false true true) > sizeLimit.
Proof.
  unfold FS.size. cbn [contents]. rewrite size_oversizedContents. reflexivity.
Qed.

Lemma oversized_file_scanned (c : QByteArray) :
  listFiles (oneFile "/sync/big.txt" c) ["/sync/big.txt"] []
  = [mkBaseNameExtensions "big" [mkExt ".txt" mimeText]].
Proof. vm_compute. reflexivity. Qed.

Lemma oversized_file_hydrated {P : Platform} (c : QByteArray) :
  Z.of_nat (List.length c) > sizeLimit ->
  rows (m_model (Watcher.updateItems (watcherOf "/sync" [])
                                     (oneFile "/sync/big.txt" c)))
  = [mkRow 0 [(mimeBaseName, VString "big");
              (mimeExtensionMap, VMap [("", VString "")])]].
Proof.
  intros H. unfold Watcher.updateItems.
  change (nth 0 (watchedDirectories (m_watcher (watcherOf "/sync" []))) "")
    with "/sync".
  replace (map (FS.absoluteFilePath "/sync")
               (FS.entryList (oneFile "/sync/big.txt" c) "/sync"))
    with ["/sync/big.txt"] by (vm_compute; reflexivity).
  unfold Watcher.updateItemsFrom.
  cbn [m_formatSettings Watcher.setModel Watcher.disconnectModel
       Watcher.setValid watcherOf m_model rows Watcher.updateRows
       m_watcher m_indexToBaseName m_path].
  rewrite oversized_file_scanned.
  unfold Watcher.createItemsFromFiles. cbn -[Watcher.createItemsLoop].
  match goal with
  | |- context [Watcher.createItemsLoop ?fs ?dir ?mx ?l ?w] =>
      pose proof (oversized_file_item fs dir mx
                    (mkBaseNameExtensions "big" [mkExt ".txt" mimeText])
                    (mkExt ".txt" mimeText)
                    (mkFileNode c false true true) w eq_refl eq_refl) as I;
      destruct (Watcher.createItemsLoop fs dir mx l w) as [ok w'] eqn:L
  end.
  cbn [snd] in I.
  assert (R : rows (m_model w')
              = [mkRow 0 [(mimeBaseName, VString "big");
                          (mimeExtensionMap, VMap [("", VString "")])]]).
  { apply I; [exact H | reflexivity]. }
  destruct ok; cbn; exact R.
Qed.

(** C2 as stated fails for oversized files: a file of 10 MiB and one byte,
    alone in the directory of an empty tab, is put in a bucket by the scanner
    and direction R makes an item of it. *)
Lemma oversized_file_becomes_item :
  FS.size (mkFileNode oversizedContents false true true) > sizeLimit
  /\ listFiles (oneFile "/sync/big.txt" oversizedContents) ["/sync/big.txt"] []
     = [mkBaseNameExtensions "big" [mkExt ".txt" "text/plain"]]
  /\ rows (m_model (@Watcher.updateItems stubPlatform (watcherOf "/sync" [])
                      (oneFile "/sync/big.txt" oversizedContents)))
     = [mkRow 0 [(mimeBaseName, VString "big");
                 (mimeExtensionMap, VMap [("", VString "")])]].
Proof.
  split; [exact oversizedContents_over_limit|]. split.
  - exact (oversized_file_scanned oversizedContents).
  - apply (@oversized_file_hydrated stubPlatform oversizedContents).
    rewrite size_oversizedContents. reflexivity.
Qed.


(** ** Item files and the elision of writes *)

Section SaveFileFacts.

Context {P : Platform}.

Lemma bytes_eqb_eq (a b : QByteArray) : bytes_eqb a b = true <-> a = b.
Proof.
  revert b; induction a as [|x a IH]; intros [|y b]; simpl;
    try (split; [discriminate | intros E; discriminate E]); [tauto|].
  rewrite andb_true_iff, IH. split.
  - intros [E ->]. apply Byte.byte_dec_bl in E. now subst.
  - intros E. injection E as -> ->. split; [now apply Byte.byte_dec_lb | reflexivity].
Qed.

Lemma contains_In (l : QStringList) (s : QString) :
  QStr.contains l s = true <-> In s l.
Proof.
  unfold QStr.contains. rewrite existsb_exists. split.
  - intros (x & I & E). apply String.eqb_eq in E. now subst.
  - intros I. exists s. split; [exact I | apply String.eqb_refl].
Qed.

Lemma values_In (m : MultiMap) (h : Hash) (path : QString) :
  In path (MMap.values m h) <-> In (h, path) m.
Proof.
  unfold MMap.values. rewrite in_map_iff. split.
  - intros ([h' p] & E & I). simpl in E. subst p.
    apply filter_In in I. destruct I as [I B]. simpl in B.
    apply bytes_eqb_eq in B. now subst.
  - intros I. exists (h, path). split; [reflexivity|].
    apply filter_In. split; [exact I|]. simpl. now apply bytes_eqb_eq.
Qed.

Lemma mmap_remove_incl (m : MultiMap) (h : Hash) (path : QString) :
  incl (MMap.remove h path m) m.
Proof.
  intros e I. unfold MMap.remove in I. apply filter_In in I. tauto.
Qed.

Lemma lookup_last (path : QString) (n : FileNode) (l : list (QString * FileNode)) :
  FS.lookup path (FS.erase path l ++ [(path, n)]) = Some n.
Proof.
  induction l as [|[p x] l IH]; simpl.
  - now rewrite String.eqb_refl.
  - destruct (String.eqb path p) eqn:E; simpl; [exact IH|].
    rewrite E. exact IH.
Qed.

(** A write that succeeds leaves exactly the bytes written in the file. *)
Lemma writeFile_contents (fs : FileSystem) (path : QString) (bytes : QByteArray) :
  fst (FS.writeFile fs path bytes) = true ->
  exists n, FS.lookup path (files (snd (FS.writeFile fs path bytes))) = Some n
            /\ contents n = bytes.
Proof.
  unfold FS.writeFile.
  set (opened := match FS.lookup path (files fs) with
                 | Some n => _
                 | None => _
                 end).
  destruct opened as [n|]; [|discriminate].
  destruct (QStr.contains (faulty fs) path); [discriminate|].
  intros _. cbn [snd files]. eexists. split; [apply lookup_last | reflexivity].
Qed.

Lemma saveItemFile_elides (filePath : QString) (bytes : QByteArray)
  (existing : MultiMap) (fs : FileSystem) :
  In (calculateHash bytes, filePath) existing ->
  saveItemFile filePath bytes existing fs
  = (true, MMap.remove (calculateHash bytes) filePath existing, fs).
Proof.
  intros I. unfold saveItemFile.
  apply values_In, contains_In in I. now rewrite I.
Qed.

Lemma saveItemFile_writes (filePath : QString) (bytes : QByteArray)
  (existing : MultiMap) (fs : FileSystem) :
  ~ In (calculateHash bytes, filePath) existing ->
  saveItemFile filePath bytes existing fs
  = (fst (FS.writeFile fs filePath bytes), existing,
     snd (FS.writeFile fs filePath bytes)).
Proof.
  intros N. unfold saveItemFile.
  destruct (QStr.contains (MMap.values existing (calculateHash bytes)) filePath)
    eqn:C.
  - exfalso. apply N. now apply values_In, contains_In.
  - now destruct (FS.writeFile fs filePath bytes).
Qed.

Lemma forEachWhile_stops (A S : Type) (body : A -> S -> bool * S)
  (before after : list A) (a : A) (s s1 s2 : S) :
  forEachWhile body before s = (true, s1) ->
  body a s1 = (false, s2) ->
  forEachWhile body (before ++ a :: after) s = (false, s2).
Proof.
  revert s. induction before as [|b before IH]; intros s; simpl.
  - intros E; injection E as ->. intros B. now rewrite B.
  - destruct (body b s) as [ok s'] eqn:Eb. destruct ok.
    + apply IH.
    + discriminate.
Qed.

(** C9. A file of the directory larger than 10 MiB enters the multimap of
    hashes under the empty byte sequence and under no other hash.  SHA-1
    digests being 20 bytes long, no payload matches it: as long as the
    multimap holds only pairs of the listing, a save to the path of that file
    is never elided and the file is written, whatever the file system has
    become by then. *)
Theorem oversized_file_is_rewritten (fs : FileSystem) (dir name : QString)
  (f : FileNode) :
  (forall bytes, List.length (sha1 bytes) = 20%nat) ->
  In name (FS.entryList fs dir) ->
  FS.openRead fs (FS.absoluteFilePath dir name) = Some f ->
  FS.size f > sizeLimit ->
  let path := FS.absoluteFilePath dir name in
  In ([], path) (listFilesOfDir fs dir)
  /\ (forall h, In (h, path) (listFilesOfDir fs dir) -> h = [])
  /\ (forall bytes existing fs',
         incl existing (listFilesOfDir fs dir) ->
         saveItemFile path bytes existing fs'
         = (fst (FS.writeFile fs' path bytes), existing,
            snd (FS.writeFile fs' path bytes))).
Proof.
  intros Hsha Hin Hopen Hsize path.
  assert (Hh : calculateHashOfFile f = []).
  { unfold calculateHashOfFile.
    replace (FS.size f >? sizeLimit) with true
      by (symmetry; apply Z.gtb_lt; lia).
    reflexivity. }
  assert (Hall : forall h, In (h, path) (listFilesOfDir fs dir) -> h = []).
  { intros h I. unfold listFilesOfDir in I. apply in_flat_map in I.
    destruct I as (name' & _ & I).
    destruct (FS.openRead fs (FS.absoluteFilePath dir name')) as [f'|] eqn:O;
      [|contradiction].
    destruct I as [E|[]]. injection E as <- E2.
    fold path in Hopen. rewrite E2 in O. rewrite O in Hopen.
    injection Hopen as ->. exact Hh. }
  split; [|split].
  - unfold listFilesOfDir. apply in_flat_map. exists name. split; [exact Hin|].
    rewrite Hopen, Hh. now left.
  - exact Hall.
  - intros bytes existing fs' Hincl. apply saveItemFile_writes.
    intros I. apply Hincl, Hall in I.
    unfold calculateHash in I. specialize (Hsha bytes). rewrite I in Hsha.
    discriminate.
Qed.

End SaveFileFacts.

Lemma oversized_file_is_rewritten_witness :
  In ([], "/sync/big.bin")
     (@listFilesOfDir stubPlatform (oneFile "/sync/big.bin" oversizedContents)
                      "/sync")
  /\ (forall h,
         In (h, "/sync/big.bin")
            (@listFilesOfDir stubPlatform
               (oneFile "/sync/big.bin" oversizedContents) "/sync") ->
         h = [])
  /\ (forall bytes existing fs',
         incl existing
              (@listFilesOfDir stubPlatform
                 (oneFile "/sync/big.bin" oversizedContents) "/sync") ->
         @saveItemFile stubPlatform "/sync/big.bin" bytes existing fs'
         = (fst (FS.writeFile fs' "/sync/big.bin" bytes), existing,
            snd (FS.writeFile fs' "/sync/big.bin" bytes))).
Proof.
  apply (@oversized_file_is_rewritten stubPlatform
           (oneFile "/sync/big.bin" oversizedContents) "/sync" "big.bin"
           (mkFileNode oversizedContents false true true)).
  - intros bytes. reflexivity.
  - change (In "big.bin" ["big.bin"]). left. reflexivity.
  - reflexivity.
  - exact oversizedContents_over_limit.
Defined.

(** A batch of two rows in which the file of the first cannot be written:
    the file is left truncated, the second row is not visited (no file, no
    extension map), and the watcher stays invalid. *)
Example saveItems_aborts_on_write_error :
  let w := watcherOf "/sync"
             [mkRow 0 [(mimeBaseName, VString "a");
                       (mimeText, VByteArray (list_byte_of_string "one"))];
              mkRow 1 [(mimeBaseName, VString "b");
                       (mimeText, VByteArray (list_byte_of_string "two"))]] in
  let fs := mkFileSystem [] [] ["/sync/a.txt"] in
  let '(w', fs') := @Watcher.saveItems stubPlatform 0 1 w fs in
  m_valid w' = false
  /\ rows (m_model w') = rows (m_model w)
  /\ files fs' = [("/sync/a.txt", mkFileNode [] false true true)].
Proof. vm_compute. repeat split. Qed.

(** ** Base names of the rows *)

(** C3 fails on a base name made of line breaks only: the allocator tests
    for the empty name before it removes the line breaks, and accepts the
    empty name that is left.  Direction W on a tab whose only row carries the
    base name LF completes, and leaves the row with an empty base name. *)
Theorem saveItems_leaves_empty_base_name :
  let w := watcherOf "/sync" [mkRow 0 [(mimeBaseName, VString (String "010" ""))]] in
  let '(w', fs') := @Watcher.saveItems stubPlatform 0 0 w (mkFileSystem [] [] []) in
  renameToUnique (String "010" "") [] [] = (true, "", [""])
  /\ m_valid w' = true
  /\ map (fun r => getBaseName (Some r)) (rows (m_model w')) = [""].
Proof. vm_compute. repeat split. Qed.

(** ** The round trip of the two passes *)

Section RoundTripFacts.

Context {P : Platform}.

Lemma contains_keys (V : Type) (m : QMap.t V) (k : QString) :
  QMap.contains m k = true <-> In k (QMap.keys m).
Proof.
  unfold QMap.contains, QMap.keys.
  induction m as [|[k' v] m IH]; simpl.
  - split; [discriminate | tauto].
  - destruct (String.eqb_spec k k') as [->|N].
    + split; [now left | reflexivity].
    + rewrite IH. split; [now right | intros [E|I]; [congruence | exact I]].
Qed.

Lemma rowRange_succ (i : Z) (n : nat) :
  rowRange i (S n) = i :: rowRange (i + 1) n.
Proof. reflexivity. Qed.

Lemma index_middle (m : Model) (pre post : list Row) (r : Row) :
  rows m = pre ++ r :: post ->
  ItemModel.index m (Z.of_nat (List.length pre)) = Some r.
Proof.
  intros E. unfold ItemModel.index.
  replace (Z.of_nat (List.length pre) <? 0) with false
    by (symmetry; apply Z.ltb_ge; lia).
  rewrite Nat2Z.id, E, nth_error_app2 by lia.
  now rewrite Nat.sub_diag.
Qed.

Lemma usedBaseNames_all_in_range (first last : Z) (rs : list Row) (i : Z) :
  first <= i -> i + Z.of_nat (List.length rs) - 1 <= last ->
  Watcher.usedBaseNames first last i rs = [].
Proof.
  revert i. induction rs as [|r rs IH]; intros i H1 H2; simpl; [reflexivity|].
  simpl List.length in H2.
  replace (first <=? i) with true by (symmetry; apply Z.leb_le; lia).
  replace (i <=? last) with true by (symmetry; apply Z.leb_le; lia).
  simpl. apply IH; lia.
Qed.

Lemma renameToUnique_accepts (name : QString) (used : QStringList)
  (fmts : list FileFormat) :
  validBaseName name = true -> ~ In name used ->
  renameToUnique name used fmts = (true, name, used ++ [name]).
Proof.
  unfold validBaseName. intros V N.
  apply andb_true_iff in V. destruct V as [_ V]. apply String.eqb_eq in V.
  unfold renameToUnique. rewrite V.
  destruct (QStr.contains used name) eqn:C; [|reflexivity].
  apply contains_In in C. contradiction.
Qed.

(** On a row with an accepted, unused base name and no sync path, the
    renaming step changes nothing. *)
Lemma renameRow_identity (w : FileWatcher) (fs : FileSystem)
  (pre post : list Row) (r : Row) (used : QStringList) :
  rows (m_model w) = pre ++ r :: post ->
  validBaseName (getBaseName (Some r)) = true ->
  ~ In (getBaseName (Some r)) used ->
  QStr.isEmpty (toString (value (rowData r) mimeSyncPath)) = true ->
  Watcher.renameRow (Z.of_nat (List.length pre)) (used, w, fs)
  = (true, (used ++ [getBaseName (Some r)], w, fs)).
Proof.
  intros E V N S. unfold Watcher.renameRow.
  rewrite (index_middle _ _ _ _ E).
  rewrite (renameToUnique_accepts _ _ _ V N). cbn [negb ItemModel.data].
  rewrite S. cbn [negb andb orb]. now rewrite String.eqb_refl.
Qed.

Lemma recoverableRow_sync_path (dir : QString) (ue : list Ext) (r : Row) :
  recoverableRow dir ue r = true ->
  QStr.isEmpty (toString (value (rowData r) mimeSyncPath)) = true.
Proof.
  unfold recoverableRow. intros H.
  repeat (apply andb_true_iff in H; destruct H as [H ?]). assumption.
Qed.

Lemma renameRows_identity (w : FileWatcher) (fs : FileSystem) (dir : QString)
  (ue : list Ext) :
  forall (post pre : list Row) (used : QStringList),
    rows (m_model w) = pre ++ post ->
    used = map (fun r => getBaseName (Some r)) pre ->
    NoDup (map (fun r => getBaseName (Some r)) (rows (m_model w))) ->
    forallb (fun r => validBaseName (getBaseName (Some r))) post = true ->
    forallb (recoverableRow dir ue) post = true ->
    forEachWhile Watcher.renameRow
                 (rowRange (Z.of_nat (List.length pre)) (List.length post))
                 (used, w, fs)
    = (true, (map (fun r => getBaseName (Some r)) (rows (m_model w)), w, fs)).
Proof.
  induction post as [|r post IH]; intros pre used E U N V R.
  - simpl. rewrite E, app_nil_r, U. reflexivity.
  - cbn [List.length]. rewrite rowRange_succ. cbn [forEachWhile].
    simpl in V, R. apply andb_true_iff in V. destruct V as [Vr V].
    apply andb_true_iff in R. destruct R as [Rr R].
    rewrite (renameRow_identity w fs pre post r used E Vr).
    + replace (Z.of_nat (List.length pre) + 1)
        with (Z.of_nat (List.length (pre ++ [r])))
        by (rewrite length_app; simpl; lia).
      apply IH; try assumption.
      * now rewrite <- app_assoc.
      * rewrite map_app, U. reflexivity.
    + rewrite E, map_app in N. simpl in N. apply NoDup_remove_2 in N.
      rewrite U. intros I. apply N. apply in_or_app. now left.
    + eapply recoverableRow_sync_path; eassumption.
Qed.


Lemma lookup_In (q : QString) (n : FileNode) (l : list (QString * FileNode)) :
  FS.lookup q l = Some n -> In (q, n) l.
Proof.
  induction l as [|[p x] l IH]; simpl; [discriminate|].
  destruct (String.eqb_spec q p) as [->|N].
  - intros E; injection E as ->. now left.
  - intros E. right. now apply IH.
Qed.

Lemma lookup_app (q : QString) (l l' : list (QString * FileNode)) :
  FS.lookup q (l ++ l')
  = match FS.lookup q l with Some n => Some n | None => FS.lookup q l' end.
Proof.
  induction l as [|[p x] l IH]; simpl; [reflexivity|].
  destruct (String.eqb q p); [reflexivity | exact IH].
Qed.

Lemma lookup_erase_ne (p q : QString) (l : list (QString * FileNode)) :
  q <> p -> FS.lookup q (FS.erase p l) = FS.lookup q l.
Proof.
  intros N. induction l as [|[p' x] l IH]; simpl; [reflexivity|].
  destruct (String.eqb_spec p p') as [<-|N']; simpl.
  - destruct (String.eqb_spec q p); [contradiction | exact IH].
  - destruct (String.eqb q p'); [reflexivity | exact IH].
Qed.

Lemma lookup_erase_eq (p : QString) (l : list (QString * FileNode)) :
  FS.lookup p (FS.erase p l) = None.
Proof.
  induction l as [|[p' x] l IH]; simpl; [reflexivity|].
  destruct (String.eqb_spec p p') as [<-|N']; simpl; [exact IH|].
  destruct (String.eqb_spec p p'); [contradiction | exact IH].
Qed.

Lemma erase_incl (p : QString) (l : list (QString * FileNode)) :
  incl (FS.erase p l) l.
Proof.
  intros e I. unfold FS.erase in I. apply filter_In in I. tauto.
Qed.

Lemma append_inj_r (a b x : string) : a +++ x = b +++ x -> a = b.
Proof.
  revert b. induction a as [|c a IH]; intros [|d b] E; simpl in E.
  - reflexivity.
  - exfalso. apply (f_equal String.length) in E. simpl in E.
    rewrite length_append in E. lia.
  - exfalso. apply (f_equal String.length) in E. simpl in E.
    rewrite length_append in E. lia.
  - injection E as -> E. f_equal. now apply IH.
Qed.

Lemma NoDup_map_In_inj (A B : Type) (f : A -> B) (l : list A) (x y : A) :
  NoDup (map f l) -> In x l -> In y l -> f x = f y -> x = y.
Proof.
  induction l as [|a l IH]; simpl; [tauto|].
  intros N Ix Iy E. inversion N as [|? ? Na Nl]; subst.
  destruct Ix as [<-|Ix], Iy as [<-|Iy].
  - reflexivity.
  - exfalso. apply Na. rewrite E. now apply in_map.
  - exfalso. apply Na. rewrite <- E. now apply in_map.
  - now apply IH.
Qed.

(** The parts of [readsBack]. *)
Lemma readsBack_parts (dir : QString) (ue : list Ext) (base : QString)
  (old : QVariantMap) (k : QString) (bytes : QByteArray) :
  readsBack dir ue base old k bytes = true ->
  let ext := extensionFor old k in
  let path := itemFilePath dir base old k in
  (QMap.contains old k || negb (QStr.isEmpty ext) = true)
  /\ QStr.isEmpty k = false
  /\ FS.nameInDir dir path = Some (base +++ ext)
  /\ QStr.startsWith path "/" = true
  /\ QStr.startsWith (base +++ ext) "." = false
  /\ QStr.endsWith path dataFileSuffix = false
  /\ resolveExt path ue = Some (mkExt ext k)
  /\ Z.of_nat (List.length bytes) <= sizeLimit.
Proof.
  unfold readsBack. cbv zeta. intros H.
  repeat (apply andb_true_iff in H; destruct H as [H ?]).
  repeat match goal with
         | H : negb _ = true |- _ => apply negb_true_iff in H
         end.
  repeat split; try assumption.
  - unfold sameName in *.
    destruct (FS.nameInDir dir (itemFilePath dir base old k)); [|discriminate].
    f_equal. now apply String.eqb_eq.
  - unfold sameExt in *.
    destruct (resolveExt (itemFilePath dir base old k) ue) as [[e f]|];
      [|discriminate].
    cbn [extension format] in *.
    match goal with
    | H : _ && _ = true |- _ => apply andb_true_iff in H; destruct H as [E1 E2]
    end.
    apply String.eqb_eq in E1, E2. now subst.
  - now apply Z.leb_le.
Qed.

Section Tab.

Variable rows0 : list Row.
Variable dir : QString.
Variable ue : list Ext.
Variable fs0 : FileSystem.


Hypothesis Hnames : NoDup (map nameOf rows0).
Hypothesis Hrows : forallb (recoverableRow dir ue) rows0 = true.
Hypothesis Hhash :
  forall r k f,
    In r rows0 -> In k (QMap.keys (rowData r)) -> userKey k = true ->
    FS.lookup (itemFilePath dir (nameOf r) (extensionMapOf r) k) (files fs0)
    = Some f ->
    calculateHashOfFile f = calculateHash (payloadOf r k) ->
    contents f = payloadOf r k.

Local Abbreviation Target := (Target rows0 dir).
Local Abbreviation Done := (Done rows0 dir).
Local Abbreviation FsInv := (FsInv rows0 dir fs0).
Local Abbreviation inv_flags := (inv_flags rows0 dir fs0).
Local Abbreviation inv_regular := (inv_regular rows0 dir fs0).
Local Abbreviation inv_owned := (inv_owned rows0 dir fs0).
Local Abbreviation inv_target := (inv_target rows0 dir fs0).

Lemma recoverable_row (r : Row) :
  In r rows0 -> recoverableRow dir ue r = true.
Proof.
  intros I. rewrite forallb_forall in Hrows. now apply Hrows.
Qed.

Lemma target_readsBack (p : QString) (r : Row) (k : QString) :
  Target p r k ->
  readsBack dir ue (nameOf r) (extensionMapOf r) k (payloadOf r k) = true.
Proof.
  intros (Ir & Ik & U & _). pose proof (recoverable_row r Ir) as R.
  unfold recoverableRow in R.
  repeat (apply andb_true_iff in R; destruct R as [R ?]).
  match goal with
  | H : forallb _ (QMap.keys (rowData r)) = true |- _ =>
      rewrite forallb_forall in H; specialize (H k Ik)
  end.
  rewrite U in *. assumption.
Qed.

Lemma target_functional (p : QString) (r r' : Row) (k k' : QString) :
  Target p r k -> Target p r' k' -> r = r' /\ k = k'.
Proof.
  intros T T'.
  pose proof (readsBack_parts _ _ _ _ _ _ (target_readsBack _ _ _ T)) as B.
  pose proof (readsBack_parts _ _ _ _ _ _ (target_readsBack _ _ _ T')) as B'.
  cbv zeta in B, B'.
  destruct T as (Ir & Ik & U & E), T' as (Ir' & Ik' & U' & E').
  rewrite <- E in B. rewrite <- E' in B'.
  destruct B as (_ & _ & N & _ & _ & _ & X & _).
  destruct B' as (_ & _ & N' & _ & _ & _ & X' & _).
  rewrite X in X'. injection X' as Ee Ek.
  rewrite N in N'. injection N' as En. rewrite <- Ee in En.
  apply append_inj_r in En. split; [|exact Ek].
  eapply NoDup_map_In_inj; eassumption.
Qed.

Lemma target_owned (p : QString) (r : Row) (k : QString) (name : QString) :
  Target p r k -> FS.nameInDir dir p = Some name -> ownedBy rows0 name = true.
Proof.
  intros T N.
  pose proof (readsBack_parts _ _ _ _ _ _ (target_readsBack _ _ _ T)) as B.
  cbv zeta in B. destruct T as (Ir & Ik & U & E). rewrite <- E in B.
  destruct B as (_ & _ & N' & _). rewrite N in N'. injection N' as ->.
  unfold ownedBy. apply existsb_exists. exists r. split; [exact Ir|].
  apply existsb_exists. exists k. split; [exact Ik|].
  rewrite U. apply String.eqb_refl.
Qed.

Lemma listFilesOfDir_In (fs : FileSystem) (h : Hash) (p : QString) :
  In (h, p) (listFilesOfDir fs dir) ->
  exists f, FS.lookup p (files fs) = Some f /\ calculateHashOfFile f = h.
Proof.
  unfold listFilesOfDir. intros I. apply in_flat_map in I.
  destruct I as (name & _ & I).
  destruct (FS.openRead fs (FS.absoluteFilePath dir name)) as [f|] eqn:O;
    [|contradiction].
  destruct I as [E|[]]. injection E as <- <-.
  exists f. split; [|reflexivity].
  unfold FS.openRead in O.
  destruct (FS.lookup (FS.absoluteFilePath dir name) (files fs)) as [n|];
    [|discriminate].
  destruct (readable n); [congruence | discriminate].
Qed.

(** Saving the payload of a target succeeds, by elision or by a write, and
    leaves the payload in its file. *)
Lemma saveItemFile_target (fs : FileSystem) (ex : MultiMap) (p : QString)
  (r : Row) (k : QString) :
  FsInv fs -> incl ex (listFilesOfDir fs0 dir) -> Target p r k ->
  exists ex' fs',
    saveItemFile p (payloadOf r k) ex fs = (true, ex', fs')
    /\ FsInv fs' /\ incl ex' (listFilesOfDir fs0 dir)
    /\ Done fs' p
    /\ (forall q, Done fs q -> Done fs' q).
Proof.
  intros I X T.
  destruct (in_dec (fun a b : Hash * QString =>
                      ltac:(decide equality;
                            [apply string_dec
                            | apply (list_eq_dec Byte.byte_eq_dec)]))
                   (calculateHash (payloadOf r k), p) ex) as [E|E].
  - (* the write is elided *)
    exists (MMap.remove (calculateHash (payloadOf r k)) p ex), fs.
    split; [now apply saveItemFile_elides|]. split; [exact I|].
    split; [intros e Ie; apply X; eapply mmap_remove_incl; eassumption|].
    split; [|tauto].
    destruct (inv_target fs I p r k T) as [U|D]; [|exact D].
    destruct (listFilesOfDir_In fs0 _ _ (X _ E)) as (f & L & H).
    exists r, k, f. split; [exact T|]. split; [congruence|].
    destruct T as (Ir & Ik & Uk & ->). eapply Hhash; eassumption.
  - (* the file is written *)
    rewrite (saveItemFile_writes _ _ _ _ E).
    destruct (inv_flags fs I) as [RO FA].
    assert (W : exists n,
               regularFile n = true
               /\ FS.writeFile fs p (payloadOf r k)
                  = (true,
                     mkFileSystem
                       (FS.erase p (files fs)
                        ++ [(p, mkFileNode (payloadOf r k) (hidden n)
                                           (readable n) (writable n))])
                       (readOnlyDirs fs) (faulty fs))).
    { unfold FS.writeFile. rewrite RO, FA. cbn [QStr.contains existsb].
      destruct (FS.lookup p (files fs)) as [n|] eqn:L.
      - pose proof (inv_regular fs I p n (lookup_In _ _ _ L)) as R.
        exists n. split; [exact R|].
        unfold regularFile in R.
        apply andb_true_iff in R. destruct R as [_ Wn]. now rewrite Wn.
      - exists (mkFileNode [] false true true). split; reflexivity. }
    destruct W as (n & Rn & W). rewrite W. cbn [fst snd].
    set (fs' := mkFileSystem _ _ _).
    assert (Lp : FS.lookup p (files fs')
                 = Some (mkFileNode (payloadOf r k) (hidden n) (readable n)
                                    (writable n)))
      by apply lookup_last.
    assert (Lq : forall q, q <> p ->
                           FS.lookup q (files fs') = FS.lookup q (files fs)).
    { intros q N. unfold fs'. cbn [files]. rewrite lookup_app.
      rewrite (lookup_erase_ne p q _ N). cbn [FS.lookup].
      destruct (String.eqb_spec q p); [contradiction|].
      now destruct (FS.lookup q (files fs)). }
    assert (Dp : Done fs' p).
    { exists r, k. eexists. split; [exact T|]. split; [exact Lp | reflexivity]. }
    assert (Pers : forall q, Done fs q -> Done fs' q).
    { intros q (r' & k' & n' & T' & L' & C').
      destruct (string_dec q p) as [->|N]; [exact Dp|].
      exists r', k', n'. split; [exact T'|]. split; [|exact C'].
      now rewrite (Lq q N). }
    exists ex, fs'. split; [reflexivity|]. split; [|tauto].
    constructor.
    + split; assumption.
    + intros q x Iq. unfold fs' in Iq. cbn [files] in Iq.
      apply in_app_or in Iq. destruct Iq as [Iq|[Iq|[]]].
      * eapply inv_regular; [exact I|]. eapply erase_incl; eassumption.
      * injection Iq as <- <-. exact Rn.
    + intros q x name Iq Nq. unfold fs' in Iq. cbn [files] in Iq.
      apply in_app_or in Iq. destruct Iq as [Iq|[Iq|[]]].
      * eapply inv_owned; [exact I| |exact Nq]. eapply erase_incl; eassumption.
      * injection Iq as <- <-. eapply target_owned; eassumption.
    + intros q r' k' T'. destruct (string_dec q p) as [->|N]; [now right|].
      rewrite (Lq q N).
      destruct (inv_target fs I q r' k' T') as [U|D]; [now left|].
      right. now apply Pers.
Qed.


Lemma keys_remove (V : Type) (m : QMap.t V) (k k' : QString) :
  In k (QMap.keys (QMap.remove k' m)) <-> In k (QMap.keys m) /\ k <> k'.
Proof.
  unfold QMap.keys. induction m as [|[k2 v] m IH]; simpl; [tauto|].
  destruct (String.eqb_spec k' k2) as [->|N]; simpl.
  - rewrite IH. split; [tauto|]. intros [[E|I] N]; [congruence | tauto].
  - rewrite IH. split.
    + intros [E|[I N']]; [subst; split; [now left | congruence] | tauto].
    + tauto.
Qed.

(** Removing from a map every key it has empties it. *)
Lemma remove_all_keys (V : Type) (ks : QStringList) :
  forall m : QMap.t V,
    (forall k, In k (QMap.keys m) -> In k ks) ->
    fold_left (fun old fmt => QMap.remove fmt old) ks m = [].
Proof.
  induction ks as [|k ks IH]; intros m H; simpl.
  - destruct m as [|[k v] m]; [reflexivity|].
    exfalso. apply (H k). now left.
  - apply IH. intros k' I. apply keys_remove in I. destruct I as [I N].
    destruct (H k' I) as [E|I']; [congruence | exact I'].
Qed.

Lemma setRowData_middle (id : Z) (d : QVariantMap) (pre post : list Row)
  (r : Row) :
  rowId r = id -> ~ In id (map rowId pre) ->
  ItemModel.setRowData id d (pre ++ r :: post) = pre ++ mkRow id d :: post.
Proof.
  intros E N. induction pre as [|x pre IH]; simpl.
  - rewrite E, Z.eqb_refl. reflexivity.
  - simpl in N. destruct (Z.eqb_spec (rowId x) id) as [Ex|_]; [tauto|].
    rewrite IH by tauto. reflexivity.
Qed.

Section SaveRow.

Variable r : Row.
Hypothesis Hr : In r rows0.

Let data := rowData r.
Let old := extensionMapOf r.
Let filePath := FS.absoluteFilePath dir (nameOf r).

Lemma row_noSave : toMap (value data mimeNoSave) = [].
Proof.
  pose proof (recoverable_row r Hr) as R. unfold recoverableRow in R.
  repeat (apply andb_true_iff in R; destruct R as [R ?]).
  fold data in R. destruct (toMap (value data mimeNoSave)); [reflexivity|].
  discriminate.
Qed.

Lemma saveFormat_user (k : QString) (m2e : QVariantMap) (ex : MultiMap)
  (fs : FileSystem) :
  In k (QMap.keys data) -> userKey k = true ->
  Watcher.saveFormat filePath old [] k (data, m2e, [], ex, fs)
  = let '(ok, ex', fs') :=
      saveItemFile (itemFilePath dir (nameOf r) old k) (payloadOf r k) ex fs in
    (ok, (data, QMap.insert k (VString (extensionFor old k)) m2e, [], ex', fs')).
Proof.
  intros Ik U.
  assert (T : Target (itemFilePath dir (nameOf r) old k) r k)
    by (repeat split; assumption).
  pose proof (readsBack_parts _ _ _ _ _ _ (target_readsBack _ _ _ T)) as B.
  cbv zeta in B. destruct B as (F & _).
  unfold Watcher.saveFormat. unfold userKey in U.
  apply negb_true_iff in U. rewrite U.
  cbn [QMap.contains QMap.find andb].
  fold (extensionFor old k). fold old in F.
  replace (negb (QMap.contains old k) && QStr.isEmpty (extensionFor old k))
    with false.
  - reflexivity.
  - symmetry. apply orb_true_iff in F. destruct F as [F|F].
    + now rewrite F.
    + apply negb_true_iff in F. rewrite F. apply andb_false_r.
Qed.

Lemma saveFormat_internal (k : QString)
  (st : QVariantMap * QVariantMap * QVariantMap * MultiMap * FileSystem) :
  userKey k = false ->
  Watcher.saveFormat filePath old [] k st = (true, st).
Proof.
  intros U. unfold userKey in U. apply negb_false_iff in U.
  destruct st as [[[[a b] c] d] e]. unfold Watcher.saveFormat. now rewrite U.
Qed.

Lemma saveFormats_row (ks : QStringList) :
  forall (m2e : QVariantMap) (ex : MultiMap) (fs : FileSystem),
    incl ks (QMap.keys data) ->
    FsInv fs -> incl ex (listFilesOfDir fs0 dir) ->
    exists m2e' ex' fs',
      forEachWhile (Watcher.saveFormat filePath old []) ks
                   (data, m2e, [], ex, fs)
      = (true, (data, m2e', [], ex', fs'))
      /\ FsInv fs' /\ incl ex' (listFilesOfDir fs0 dir)
      /\ (forall q, Done fs q -> Done fs' q)
      /\ (forall k, In k ks -> userKey k = true ->
                    Done fs' (itemFilePath dir (nameOf r) old k))
      /\ (forall k, In k ks -> userKey k = true ->
                    QMap.contains m2e' k = true)
      /\ (forall k, QMap.contains m2e k = true -> QMap.contains m2e' k = true).
Proof.
  induction ks as [|k ks IH]; intros m2e ex fs Hin I X.
  - exists m2e, ex, fs. simpl. split; [reflexivity|]. split; [exact I|].
    split; [exact X|]. split; [tauto|]. split; [tauto|]. split; tauto.
  - assert (Ik : In k (QMap.keys data)) by (apply Hin; now left).
    assert (Hin' : incl ks (QMap.keys data))
      by (intros x Ix; apply Hin; now right).
    cbn [forEachWhile]. destruct (userKey k) eqn:U.
    + rewrite (saveFormat_user k m2e ex fs Ik U).
      assert (T : Target (itemFilePath dir (nameOf r) old k) r k)
        by (repeat split; assumption).
      destruct (saveItemFile_target fs ex _ r k I X T)
        as (ex1 & fs1 & E1 & I1 & X1 & D1 & P1).
      rewrite E1.
      destruct (IH (QMap.insert k (VString (extensionFor old k)) m2e) ex1 fs1
                   Hin' I1 X1)
        as (m2e' & ex' & fs' & E & I' & X' & P' & D' & C' & M').
      exists m2e', ex', fs'. split; [exact E|]. split; [exact I'|].
      split; [exact X'|]. split; [intros q Dq; apply P', P1, Dq|].
      split; [|split].
      * intros k' [<-|Ik'] U'; [apply P', D1 | now apply D'].
      * intros k' [<-|Ik'] U'; [|now apply C'].
        apply M'. rewrite contains_insert, String.eqb_refl. reflexivity.
      * intros k' C. apply M'. rewrite contains_insert, C. apply orb_true_r.
    + rewrite (saveFormat_internal k _ U).
      destruct (IH m2e ex fs Hin' I X)
        as (m2e' & ex' & fs' & E & I' & X' & P' & D' & C' & M').
      exists m2e', ex', fs'. split; [exact E|]. split; [exact I'|].
      split; [exact X'|]. split; [exact P'|]. split; [|split].
      * intros k' [<-|Ik'] U'; [congruence | now apply D'].
      * intros k' [<-|Ik'] U'; [congruence | now apply C'].
      * exact M'.
Qed.

Lemma row_has_payload : exists k, In k (QMap.keys data) /\ userKey k = true.
Proof.
  pose proof (recoverable_row r Hr) as R. unfold recoverableRow in R.
  repeat (apply andb_true_iff in R; destruct R as [R ?]).
  match goal with
  | H : existsb userKey _ = true |- _ => apply existsb_exists in H; exact H
  end.
Qed.

Lemma row_old_keys (k : QString) :
  In k (QMap.keys old) -> In k (QMap.keys data) /\ userKey k = true.
Proof.
  intros I. pose proof (recoverable_row r Hr) as R. unfold recoverableRow in R.
  repeat (apply andb_true_iff in R; destruct R as [R ?]).
  match goal with
  | H : forallb _ (QMap.keys (extensionMapOf r)) = true |- _ =>
      rewrite forallb_forall in H; specialize (H k I);
      apply andb_true_iff in H; destruct H as [U C]
  end.
  split; [now apply contains_keys | exact U].
Qed.

(** The save of a row of the tab, all else being in order. *)
Lemma saveRow_row (w : FileWatcher) (ex : MultiMap) (fs : FileSystem)
  (pre post : list Row) :
  rows (m_model w) = pre ++ r :: post ->
  ~ In (rowId r) (map rowId pre) ->
  FsInv fs -> incl ex (listFilesOfDir fs0 dir) ->
  exists w' ex' fs' r',
    Watcher.saveRow dir (Z.of_nat (List.length pre)) (w, ex, fs)
    = (true, (w', ex', fs'))
    /\ rows (m_model w') = pre ++ r' :: post
    /\ sameIdName r r' /\ sameSettings w w'
    /\ FsInv fs' /\ incl ex' (listFilesOfDir fs0 dir)
    /\ (forall q, Done fs q -> Done fs' q)
    /\ (forall k, In k (QMap.keys data) -> userKey k = true ->
                  Done fs' (itemFilePath dir (nameOf r) old k)).
Proof.
  intros E N I X. unfold Watcher.saveRow.
  rewrite (index_middle _ _ _ _ E). cbn [ItemModel.data].
  fold data. fold (nameOf r). fold filePath. fold (extensionMapOf r). fold old.
  rewrite row_noSave.
  destruct (saveFormats_row (QMap.keys data) [] ex fs (incl_refl _) I X)
    as (m2e & ex' & fs' & EQ & I' & X' & P' & D' & C' & _).
  change (@QMap.empty QVariant) with (@nil (QString * QVariant)).
  match goal with
  | |- context [forEachWhile ?f ?l ?s] =>
      assert (EQ2 : forEachWhile f l s = (true, (data, m2e, [], ex', fs')))
        by exact EQ;
      rewrite EQ2; clear EQ2
  end.
  cbn [negb QMap.isEmpty orb].
  destruct row_has_payload as (k0 & Ik0 & U0).
  pose proof (C' k0 Ik0 U0) as Ck0.
  destruct m2e as [|e m2e]; [discriminate|].
  cbn [QMap.isEmpty negb].
  set (m := e :: m2e) in *.
  destruct (negb (map_eqb m _)).
  - (* the extension map of the row is replaced *)
    rewrite remove_all_keys.
    2:{ intros k Ik. apply contains_keys.
        destruct (row_old_keys k Ik) as [Ik' U]. now apply C'. }
    cbn [removeFormatFiles QMap.keys map fold_left m_model Watcher.setModel
         ItemModel.setData ItemModel.withRows rows].
    rewrite E, (setRowData_middle _ _ _ _ _ eq_refl N).
    eexists _, ex', fs', _. split; [reflexivity|].
    split; [reflexivity|]. split; [|split; [|tauto]].
    + split; [reflexivity|]. unfold getBaseName, value. cbn [ItemModel.data rowData].
      rewrite find_insert, find_remove. reflexivity.
    + repeat split.
  - exists w, ex', fs', r. split; [reflexivity|]. split; [exact E|].
    split; [split; reflexivity|]. split; [repeat split|]. tauto.
Qed.

End SaveRow.


Lemma sameIdName_ids (l l' : list Row) :
  Forall2 sameIdName l l' -> map rowId l' = map rowId l.
Proof.
  induction 1 as [|x y l l' [E _] _ IH]; simpl; [reflexivity|].
  now rewrite E, IH.
Qed.

Lemma sameSettings_trans (a b c : FileWatcher) :
  sameSettings a b -> sameSettings b c -> sameSettings a c.
Proof.
  unfold sameSettings. intros (A1 & A2 & A3 & A4 & A5) (B1 & B2 & B3 & B4 & B5).
  repeat split; congruence.
Qed.

(** The loop of direction W over the rows of the tab. *)
Lemma saveRows_tab :
  forall (post pre pre' : list Row) (w : FileWatcher) (ex : MultiMap)
         (fs : FileSystem),
    rows0 = pre ++ post ->
    rows (m_model w) = pre' ++ post ->
    Forall2 sameIdName pre pre' ->
    NoDup (map rowId rows0) ->
    FsInv fs -> incl ex (listFilesOfDir fs0 dir) ->
    exists w' ex' fs',
      forEachWhile (Watcher.saveRow dir)
                   (rowRange (Z.of_nat (List.length pre')) (List.length post))
                   (w, ex, fs)
      = (true, (w', ex', fs'))
      /\ Forall2 sameIdName rows0 (rows (m_model w'))
      /\ sameSettings w w'
      /\ FsInv fs'
      /\ (forall q, Done fs q -> Done fs' q)
      /\ (forall r k, In r post -> In k (QMap.keys (rowData r)) ->
                      userKey k = true ->
                      Done fs' (itemFilePath dir (nameOf r) (extensionMapOf r) k)).
Proof.
  induction post as [|r post IH]; intros pre pre' w ex fs E0 E F N I X.
  - exists w, ex, fs. simpl. split; [reflexivity|].
    rewrite app_nil_r in E0, E.
    split; [rewrite E0, E; exact F|]. split; [repeat split|]. split; [exact I|].
    split; [tauto|]. intros r k [].
  - assert (Ir : In r rows0) by (rewrite E0; apply in_or_app; right; now left).
    assert (Nid : ~ In (rowId r) (map rowId pre')).
    { rewrite (sameIdName_ids _ _ F). rewrite E0, map_app in N. simpl in N.
      apply NoDup_remove_2 in N. intros C. apply N, in_or_app. now left. }
    destruct (saveRow_row r Ir w ex fs pre' post E Nid I X)
      as (w1 & ex1 & fs1 & r' & E1 & R1 & S1 & T1 & I1 & X1 & P1 & D1).
    cbn [List.length]. rewrite rowRange_succ. cbn [forEachWhile]. rewrite E1.
    replace (Z.of_nat (List.length pre') + 1)
      with (Z.of_nat (List.length (pre' ++ [r'])))
      by (rewrite length_app; simpl; lia).
    destruct (IH (pre ++ [r]) (pre' ++ [r']) w1 ex1 fs1) as
      (w' & ex' & fs' & E' & F' & T' & I' & P' & D'); try assumption.
    + now rewrite <- app_assoc.
    + now rewrite <- app_assoc.
    + apply Forall2_app; [exact F | constructor; [exact S1 | constructor]].
    + exists w', ex', fs'. split; [exact E'|]. split; [exact F'|].
      split; [eapply sameSettings_trans; eassumption|]. split; [exact I'|].
      split; [intros q Dq; apply P', P1, Dq|].
      intros r2 k [<-|I2] Ik U; [apply P', D1; assumption | now apply D'].
Qed.

End Tab.

Lemma rowsBetween_all (n : nat) :
  rowsBetween 0 (Z.of_nat n - 1) = rowRange 0 n.
Proof.
  unfold rowsBetween. f_equal. lia.
Qed.

Lemma startsWith_nonempty (s p : QString) :
  QStr.startsWith s p = true -> p <> "" -> QStr.isEmpty s = false.
Proof.
  unfold QStr.startsWith. destruct s; simpl; [|reflexivity].
  destruct p; [congruence | discriminate].
Qed.

(** Direction W over all rows of a tab that is ready: the pass completes,
    the rows keep their identities and base names, and every payload is in
    its file. *)
Lemma saveItems_tab (w : FileWatcher) (fs : FileSystem) :
  RoundTripReady w fs ->
  let rows0 := rows (m_model w) in
  let dir := m_path w in
  let ue := userExtensions (m_formatSettings w) in
  exists w1 fs1,
    Watcher.saveItems 0 (ItemModel.rowCount (m_model w) - 1) w fs = (w1, fs1)
    /\ m_valid w1 = true
    /\ Forall2 sameIdName rows0 (rows (m_model w1))
    /\ m_watcher w1 = m_watcher w
    /\ m_formatSettings w1 = m_formatSettings w
    /\ m_path w1 = m_path w
    /\ FsInv rows0 dir fs fs1
    /\ (forall r k, In r rows0 -> In k (QMap.keys (rowData r)) ->
                    userKey k = true ->
                    Done rows0 dir fs1
                         (itemFilePath dir (getBaseName (Some r))
                                       (extensionMapOf r) k)).
Proof.
  intros R rows0 dir ue.
  destruct R as [Rdir Rabs Rids Rnames Rvalid Rrows Rwr Rreg Rown Rhash].
  unfold Watcher.saveItems, Watcher.renameToUnique.
  set (w' := Watcher.disconnectModel w).
  change (rows (m_model w')) with rows0.
  unfold ItemModel.rowCount. fold rows0. rewrite rowsBetween_all.
  rewrite usedBaseNames_all_in_range by lia.
  pose proof (renameRows_identity w' fs dir ue rows0 [] [] eq_refl eq_refl
                Rnames Rvalid Rrows) as A.
  cbn [List.length] in A. change (Z.of_nat 0) with 0 in A. rewrite A.
  cbn [negb]. change (m_path w') with dir.
  rewrite (startsWith_nonempty dir "/" Rabs) by discriminate.
  unfold FS.mkpath. destruct Rwr as [RO FA]. rewrite RO.
  cbn [QStr.contains existsb negb].
  assert (I0 : FsInv rows0 dir fs fs).
  { constructor.
    - split; assumption.
    - intros p n I. rewrite forallb_forall in Rreg.
      exact (Rreg (p, n) I).
    - intros p n name I N. rewrite forallb_forall in Rown.
      specialize (Rown (p, n) I). cbn [fst] in Rown.
      fold dir in Rown. now rewrite N in Rown.
    - intros. now left. }
  destruct (saveRows_tab rows0 dir ue fs Rrows Rhash
              rows0 [] [] w' (listFilesOfDir fs dir) fs eq_refl eq_refl
              (Forall2_nil _) Rids I0 (incl_refl _))
    as (w1 & ex1 & fs1 & E1 & F1 & (S1 & S2 & S3 & S4 & S5) & I1 & P1 & D1).
  cbn [List.length] in E1. change (Z.of_nat 0) with 0 in E1. rewrite E1.
  cbn [negb]. exists (Watcher.connectModel w1), fs1.
  split; [reflexivity|]. split; [reflexivity|]. split; [exact F1|].
  split; [exact S1|]. split; [exact S2|]. split; [exact S3|].
  split; [exact I1|]. exact D1.
Qed.


(** *** Direction R: the listing and the buckets *)

Lemma nameInDir_path (dir p name : QString) :
  FS.nameInDir dir p = Some name ->
  FS.absoluteFilePath dir name = p /\ FS.fileName p = name.
Proof.
  unfold FS.nameInDir.
  destruct (negb (QStr.isEmpty (FS.fileName p))
            && String.eqb (FS.absoluteFilePath dir (FS.fileName p)) p) eqn:B;
    [|discriminate].
  intros E; injection E as <-. apply andb_true_iff in B. destruct B as [_ B].
  apply String.eqb_eq in B. split; [exact B | reflexivity].
Qed.

(** The paths direction R lists are those of the files of the directory that
    pass the filter, in the order of the file system. *)
Lemma listing_paths (fs : FileSystem) (dir : QString) :
  map (FS.absoluteFilePath dir) (FS.entryList fs dir)
  = map fst (filter (fun e => match FS.nameInDir dir (fst e) with
                              | Some _ => FS.itemFileFilter (snd e)
                              | None => false
                              end) (files fs)).
Proof.
  unfold FS.entryList. induction (files fs) as [|[p n] l IH]; simpl;
    [reflexivity|].
  destruct (FS.nameInDir dir p) as [name|] eqn:N; [|exact IH].
  destruct (FS.itemFileFilter n); simpl; [|exact IH].
  rewrite IH. f_equal. now apply nameInDir_path.
Qed.

Lemma appendExtAt_found (b : QString) (e : Ext) (fl : BaseNameExtensionsList)
  (i : nat) :
  indexOfBucket b fl = Some i -> appendExtAt i e fl = addToBucket b e fl.
Proof.
  revert i. induction fl as [|x fl IH]; intros i; simpl; [discriminate|].
  destruct (String.eqb (baseName x) b).
  - intros E; injection E as <-. reflexivity.
  - destruct (indexOfBucket b fl) as [j|]; [|discriminate].
    intros E; injection E as <-. simpl. f_equal. now apply IH.
Qed.

Lemma appendExtAt_new (b : QString) (e : Ext) (fl : BaseNameExtensionsList) :
  indexOfBucket b fl = None ->
  appendExtAt (List.length fl) e (fl ++ [mkBaseNameExtensions b []])
  = addToBucket b e fl.
Proof.
  induction fl as [|x fl IH]; simpl; [reflexivity|].
  destruct (String.eqb (baseName x) b); [discriminate|].
  destruct (indexOfBucket b fl); [discriminate|].
  intros _. f_equal. now apply IH.
Qed.

Lemma indexOfBucket_add (b b' : QString) (e : Ext) (fl : BaseNameExtensionsList) :
  indexOfBucket b' (addToBucket b e fl)
  = match indexOfBucket b' fl with
    | Some i => Some i
    | None => if String.eqb b b' then Some (List.length fl) else None
    end.
Proof.
  induction fl as [|x fl IH]; simpl.
  - destruct (String.eqb b b'); reflexivity.
  - destruct (String.eqb_spec (baseName x) b) as [E|N]; simpl.
    + destruct (String.eqb_spec (baseName x) b') as [E'|N']; [reflexivity|].
      destruct (indexOfBucket b' fl); [reflexivity|].
      destruct (String.eqb_spec b b'); [congruence | reflexivity].
    + destruct (String.eqb (baseName x) b'); [reflexivity|].
      rewrite IH. destruct (indexOfBucket b' fl); simpl; [reflexivity|].
      destruct (String.eqb b b'); reflexivity.
Qed.

Lemma listFilesStep_keeps (fs : FileSystem) (ue : list Ext)
  (fl : BaseNameExtensionsList) (fm : QMap.t Z) (q : QString) (e : Ext) :
  MapInv fl fm ->
  skipFile fs q = false ->
  resolveExt q ue = Some e ->
  let b := QStr.left (FS.fileName q)
                     (QStr.size (FS.fileName q) - QStr.size (extension e)) in
  exists fm',
    listFilesStep fs ue (fl, fm) q = (addToBucket b e fl, fm')
    /\ MapInv (addToBucket b e fl) fm'.
Proof.
  intros M S R b. unfold listFilesStep. rewrite S, R. fold b.
  pose proof (M b) as Mb.
  destruct (indexOfBucket b fl) as [i|] eqn:I; simpl in Mb; rewrite Mb.
  - replace (Z.of_nat i =? -1) with false by (symmetry; apply Z.eqb_neq; lia).
    rewrite Nat2Z.id, (appendExtAt_found b e fl i I).
    exists fm. split; [reflexivity|].
    intros b'. rewrite indexOfBucket_add, (M b').
    destruct (indexOfBucket b' fl) eqn:I'; [reflexivity|].
    destruct (String.eqb_spec b b') as [<-|_]; [congruence | reflexivity].
  - change (-1 =? -1) with true. cbv iota beta.
    rewrite Nat2Z.id, (appendExtAt_new b e fl I).
    eexists. split; [reflexivity|].
    intros b'. rewrite indexOfBucket_add, find_insert, (M b').
    rewrite String.eqb_sym.
    destruct (String.eqb_spec b b') as [<-|_].
    + now rewrite I.
    + destruct (indexOfBucket b' fl); reflexivity.
Qed.

Lemma left_append (a x : QString) :
  QStr.left (a +++ x) (QStr.size (a +++ x) - QStr.size x) = a.
Proof.
  apply (append_inj_r _ _ x). apply left_suffix_join, endsWith_append.
Qed.

Lemma addToBucket_names (b : QString) (e : Ext) (fl : BaseNameExtensionsList) :
  map baseName (addToBucket b e fl)
  = if in_dec string_dec b (map baseName fl)
    then map baseName fl else map baseName fl ++ [b].
Proof.
  induction fl as [|x fl IH]; simpl; [reflexivity|].
  destruct (String.eqb_spec (baseName x) b) as [E|N]; simpl.
  - destruct (string_dec (baseName x) b); [|contradiction].
    reflexivity.
  - destruct (string_dec (baseName x) b); [contradiction|].
    rewrite IH. destruct (in_dec string_dec b (map baseName fl)); reflexivity.
Qed.

Lemma addToBucket_In (b : QString) (e : Ext) (fl : BaseNameExtensionsList)
  (x : BaseNameExtensions) :
  In x (addToBucket b e fl) ->
  In x fl
  \/ (baseName x = b
      /\ (exts x = [e]
          \/ exists x0, In x0 fl /\ baseName x0 = b /\ exts x = exts x0 ++ [e])).
Proof.
  induction fl as [|y fl IH]; simpl.
  - intros [<-|[]]. right. split; [reflexivity | now left].
  - destruct (String.eqb_spec (baseName y) b) as [E|N]; simpl.
    + intros [<-|I]; [|left; now right].
      right. split; [exact E|]. right. exists y. repeat split; tauto.
    + intros [<-|I]; [left; now left|].
      destruct (IH I) as [I'|(Eb & [Ee|(x0 & I0 & E0 & Ee)])].
      * left. now right.
      * right. split; [exact Eb | now left].
      * right. split; [exact Eb|]. right. exists x0. repeat split; tauto.
Qed.

Lemma addToBucket_grows (b : QString) (e : Ext) (fl : BaseNameExtensionsList)
  (x0 : BaseNameExtensions) :
  In x0 fl ->
  exists x, In x (addToBucket b e fl) /\ baseName x = baseName x0
            /\ incl (exts x0) (exts x).
Proof.
  induction fl as [|y fl IH]; simpl; [tauto|].
  intros [<-|I].
  - destruct (String.eqb (baseName y) b).
    + eexists. split; [now left|]. split; [reflexivity|].
      intros z Iz. simpl. apply in_or_app. now left.
    + exists y. split; [now left|]. split; [reflexivity | apply incl_refl].
  - destruct (String.eqb (baseName y) b).
    + exists x0. split; [now right|]. split; [reflexivity | apply incl_refl].
    + destruct (IH I) as (x & Ix & E & Inc).
      exists x. split; [now right|]. tauto.
Qed.

Lemma addToBucket_has (b : QString) (e : Ext) (fl : BaseNameExtensionsList) :
  exists x, In x (addToBucket b e fl) /\ baseName x = b /\ In e (exts x).
Proof.
  induction fl as [|y fl IH]; simpl.
  - eexists. split; [now left|]. split; [reflexivity | now left].
  - destruct (String.eqb_spec (baseName y) b) as [E|N].
    + eexists. split; [now left|]. split; [exact E|].
      simpl. apply in_or_app. right. now left.
    + destruct IH as (x & Ix & E & Ie). exists x. split; [now right|]. tauto.
Qed.


Section Reading.

Variable rows0 : list Row.
Variable dir : QString.
Variable ue : list Ext.
Variable fs0 fs1 : FileSystem.

Let pathOf (r : Row) (k : QString) : QString :=
  itemFilePath dir (nameOf r) (extensionMapOf r) k.

Hypothesis Hnames : NoDup (map nameOf rows0).
Hypothesis Hrows : forallb (recoverableRow dir ue) rows0 = true.
Hypothesis Hinv : FsInv rows0 dir fs0 fs1.
Hypothesis Hdone :
  forall r k, In r rows0 -> In k (QMap.keys (rowData r)) -> userKey k = true ->
              Done rows0 dir fs1 (pathOf r k).

Let listing : QStringList :=
  map (FS.absoluteFilePath dir) (FS.entryList fs1 dir).

Lemma target_parts (q : QString) (r : Row) (k : QString) :
  Target rows0 dir q r k ->
  FS.nameInDir dir q = Some (nameOf r +++ extension (extOf r k))
  /\ QStr.startsWith q "/" = true
  /\ QStr.startsWith (nameOf r +++ extension (extOf r k)) "." = false
  /\ QStr.endsWith q dataFileSuffix = false
  /\ resolveExt q ue = Some (extOf r k)
  /\ Z.of_nat (List.length (payloadOf r k)) <= sizeLimit
  /\ QStr.isEmpty k = false.
Proof.
  intros T.
  pose proof (readsBack_parts _ _ _ _ _ _
                (target_readsBack rows0 dir ue Hrows _ _ _ T)) as B.
  cbv zeta in B. destruct T as (_ & _ & _ & ->). tauto.
Qed.

Lemma target_file (q : QString) (r : Row) (k : QString) :
  Target rows0 dir q r k ->
  exists n, FS.lookup q (files fs1) = Some n
            /\ contents n = payloadOf r k /\ regularFile n = true.
Proof.
  intros T. pose proof T as (Ir & Ik & U & E).
  destruct (Hdone r k Ir Ik U) as (r' & k' & n & T' & L & C).
  unfold pathOf in T', L. rewrite <- E in T', L.
  destruct (target_functional rows0 dir ue Hnames Hrows q r r' k k' T T')
    as [<- <-].
  exists n. split; [exact L|]. split; [exact C|].
  eapply inv_regular; [exact Hinv|]. eapply lookup_In; eassumption.
Qed.

Lemma listed_target (q : QString) :
  In q listing -> exists r k, Target rows0 dir q r k.
Proof.
  unfold listing. rewrite listing_paths. intros I. apply in_map_iff in I.
  destruct I as ([p n] & <- & I). apply filter_In in I. destruct I as [I F].
  cbn [fst snd] in *.
  destruct (FS.nameInDir dir p) as [name|] eqn:N; [|discriminate].
  pose proof (inv_owned _ _ _ _ Hinv p n name I N) as O.
  unfold ownedBy in O. apply existsb_exists in O. destruct O as (r & Ir & O).
  apply existsb_exists in O. destruct O as (k & Ik & O).
  apply andb_true_iff in O. destruct O as [U O]. apply String.eqb_eq in O.
  exists r, k.
  assert (T : Target rows0 dir (pathOf r k) r k) by (repeat split; assumption).
  destruct (target_parts _ _ _ T) as (N' & _).
  apply nameInDir_path in N, N'. destruct N as [N _], N' as [N' _].
  cbn [extOf extension] in N'. fold (nameOf r) in O. rewrite <- O in N'.
  now rewrite <- N, N'.
Qed.

Lemma target_listed (q : QString) (r : Row) (k : QString) :
  Target rows0 dir q r k -> In q listing.
Proof.
  intros T. destruct (target_file q r k T) as (n & L & _ & R).
  destruct (target_parts q r k T) as (N & _).
  unfold listing. rewrite listing_paths. apply in_map_iff.
  exists (q, n). split; [reflexivity|]. apply filter_In.
  split; [now apply lookup_In|]. cbn [fst snd]. rewrite N. exact R.
Qed.

Lemma target_step (q : QString) (r : Row) (k : QString)
  (fl : BaseNameExtensionsList) (fm : QMap.t Z) :
  Target rows0 dir q r k -> MapInv fl fm ->
  exists fm',
    listFilesStep fs1 ue (fl, fm) q = (addToBucket (nameOf r) (extOf r k) fl, fm')
    /\ MapInv (addToBucket (nameOf r) (extOf r k) fl) fm'.
Proof.
  intros T M. destruct (target_file q r k T) as (n & L & _ & R).
  destruct (target_parts q r k T) as (N & _ & D & _ & X & _).
  apply nameInDir_path in N. destruct N as [_ N].
  assert (S : skipFile fs1 q = false).
  { unfold skipFile. rewrite L, N, D. unfold regularFile in R.
    apply andb_true_iff in R. destruct R as [R _].
    apply andb_true_iff in R. destruct R as [H Rd].
    apply negb_true_iff in H. now rewrite H, Rd. }
  pose proof (listFilesStep_keeps fs1 ue fl fm q (extOf r k) M S X) as K.
  cbv zeta in K. rewrite N, left_append in K. exact K.
Qed.

Local Abbreviation Grouped := (Grouped rows0 dir).

Lemma grouped_step (qs : QStringList) (fl : BaseNameExtensionsList)
  (q : QString) (r : Row) (k : QString) :
  Grouped qs fl -> Target rows0 dir q r k ->
  Grouped (qs ++ [q]) (addToBucket (nameOf r) (extOf r k) fl).
Proof.
  intros [G1 G2 G3] T. pose proof T as (Ir & Ik & U & E). constructor.
  - rewrite addToBucket_names.
    destruct (in_dec string_dec (nameOf r) (map baseName fl)) as [I|N];
      [exact G1|].
    apply NoDup_app; [exact G1 | constructor; [tauto | constructor] |].
    intros b Ib [<-|[]]. contradiction.
  - intros x Ix. apply addToBucket_In in Ix.
    destruct Ix as [Ix|(Eb & [Ee|(x0 & I0 & E0 & Ee)])].
    + now apply G2.
    + exists r. split; [exact Ir|]. split; [now rewrite Eb|].
      rewrite Ee. intros e [<-|[]]. exists k. tauto.
    + destruct (G2 x0 I0) as (r0 & Ir0 & En & He).
      assert (r0 = r).
      { eapply NoDup_map_In_inj; [exact Hnames | assumption..|].
        fold (nameOf r0). fold (nameOf r). congruence. }
      subst r0. exists r. split; [exact Ir|]. split; [congruence|].
      rewrite Ee. intros e Ie. apply in_app_or in Ie.
      destruct Ie as [Ie|[<-|[]]]; [now apply He|]. exists k. tauto.
  - intros q' r' k' Iq T'. apply in_app_or in Iq. destruct Iq as [Iq|[<-|[]]].
    + destruct (G3 q' r' k' Iq T') as (x0 & I0 & E0 & Ie).
      destruct (addToBucket_grows (nameOf r) (extOf r k) fl x0 I0)
        as (x & Ix & Ex & Inc).
      exists x. split; [exact Ix|]. split; [congruence | now apply Inc].
    + destruct (target_functional rows0 dir ue Hnames Hrows q r r' k k' T T')
        as [<- <-].
      apply addToBucket_has.
Qed.

Lemma listFiles_fold (qs : QStringList) :
  forall (done : QStringList) (fl : BaseNameExtensionsList) (fm : QMap.t Z),
    (forall q, In q qs -> exists r k, Target rows0 dir q r k) ->
    MapInv fl fm -> Grouped done fl ->
    exists fl' fm',
      fold_left (listFilesStep fs1 ue) qs (fl, fm) = (fl', fm')
      /\ Grouped (done ++ qs) fl'.
Proof.
  induction qs as [|q qs IH]; intros done fl fm H M G.
  - exists fl, fm. rewrite app_nil_r. split; [reflexivity | exact G].
  - destruct (H q (or_introl eq_refl)) as (r & k & T).
    destruct (target_step q r k fl fm T M) as (fm1 & E1 & M1).
    cbn [fold_left]. rewrite E1.
    destruct (IH (done ++ [q]) _ fm1 (fun q' I => H q' (or_intror I)) M1
                 (grouped_step done fl q r k G T)) as (fl' & fm' & E & G').
    exists fl', fm'. split; [exact E|]. now rewrite <- app_assoc in G'.
Qed.

(** The buckets direction R gets from the directory. *)
Lemma listFiles_listing (fmts : list FileFormat) :
  userExtensions fmts = ue ->
  Grouped listing (listFiles fs1 listing fmts).
Proof.
  intros Eue. unfold listFiles. rewrite Eue.
  destruct (listFiles_fold listing [] [] QMap.empty listed_target)
    as (fl & fm & E & G).
  - intros b. reflexivity.
  - constructor; [constructor | intros x [] | intros q r k []].
  - match goal with
    | |- Grouped _ (fst ?t) =>
        replace t with (fl, fm) by (symmetry; exact E)
    end.
    exact G.
Qed.


(** *** Direction R: hydration of the rows *)

Lemma hydrate_step (r : Row) (k : QString) (dm m2e : QVariantMap)
  (wt : QFileSystemWatcher) :
  In r rows0 -> In k (QMap.keys (rowData r)) -> userKey k = true ->
  updateDataStep fs1 dir (FS.absoluteFilePath dir (nameOf r)) (dm, m2e, wt)
                 (extOf r k)
  = (QMap.insert k (VByteArray (payloadOf r k)) dm,
     QMap.insert k (VString (extension (extOf r k))) m2e,
     watchPath wt (pathOf r k)).
Proof.
  intros Ir Ik U.
  assert (T : Target rows0 dir (pathOf r k) r k) by (repeat split; assumption).
  destruct (target_file _ r k T) as (n & L & C & R).
  destruct (target_parts _ r k T) as (_ & A & _ & D & _ & Sz & Ne).
  unfold updateDataStep.
  change (FS.absoluteFilePath dir (nameOf r) +++ extension (extOf r k))
    with (pathOf r k).
  replace (FS.absoluteFilePath dir (pathOf r k)) with (pathOf r k)
    by (unfold FS.absoluteFilePath; now rewrite A).
  unfold FS.openRead. rewrite L.
  unfold regularFile in R. apply andb_true_iff in R. destruct R as [R _].
  apply andb_true_iff in R. destruct R as [_ Rd]. rewrite Rd, D.
  unfold FS.size. rewrite C.
  replace (Z.of_nat (List.length (payloadOf r k)) >? sizeLimit) with false
    by (symmetry; rewrite Z.gtb_ltb; apply Z.ltb_ge; exact Sz).
  cbn [format extOf orb]. rewrite Ne. reflexivity.
Qed.

Lemma insert_not_empty (V : Type) (k : QString) (v : V) (m : QMap.t V) :
  QMap.isEmpty (QMap.insert k v m) = false.
Proof.
  destruct m as [|[k' v'] m]; simpl; [reflexivity|].
  destruct (String.compare k k'); reflexivity.
Qed.

Lemma hydrate_fold (r : Row) (es : list Ext) :
  In r rows0 ->
  (forall e, In e es ->
             exists k, In k (QMap.keys (rowData r)) /\ userKey k = true
                       /\ e = extOf r k) ->
  forall (dm m2e : QVariantMap) (wt : QFileSystemWatcher),
  exists dm' m2e' wt',
    fold_left (updateDataStep fs1 dir (FS.absoluteFilePath dir (nameOf r))) es
              (dm, m2e, wt)
    = (dm', m2e', wt')
    /\ (forall k', QMap.find k' dm'
                   = if existsb (fun e => String.eqb (format e) k') es
                     then Some (VByteArray (payloadOf r k'))
                     else QMap.find k' dm)
    /\ (es <> [] -> QMap.isEmpty m2e' = false)
    /\ (QMap.isEmpty m2e = false -> QMap.isEmpty m2e' = false).
Proof.
  intros Ir. induction es as [|e es IH]; intros H dm m2e wt.
  - exists dm, m2e, wt. simpl. repeat split; tauto.
  - destruct (H e (or_introl eq_refl)) as (k & Ik & U & ->).
    cbn [fold_left]. rewrite (hydrate_step r k dm m2e wt Ir Ik U).
    destruct (IH (fun e' I => H e' (or_intror I))
                 (QMap.insert k (VByteArray (payloadOf r k)) dm)
                 (QMap.insert k (VString (extension (extOf r k))) m2e)
                 (watchPath wt (pathOf r k)))
      as (dm' & m2e' & wt' & E & F & _ & N).
    exists dm', m2e', wt'. split; [exact E|]. split; [|split].
    + intros k'. rewrite F. cbn [existsb format extOf].
      destruct (existsb (fun e => String.eqb (format e) k') es);
        [now rewrite orb_true_r|].
      rewrite orb_false_r, find_insert, String.eqb_sym.
      destruct (String.eqb_spec k k') as [->|_]; reflexivity.
    + intros _. apply N, insert_not_empty.
    + intros _. apply N, insert_not_empty.
Qed.

Lemma takeBucket_spec (name : QString) (fl : BaseNameExtensionsList) :
  match Watcher.takeBucket name fl with
  | Some (x, fl') =>
      baseName x = name
      /\ exists l1 l2, fl = l1 ++ x :: l2 /\ fl' = l1 ++ l2
  | None => ~ In name (map baseName fl)
  end.
Proof.
  induction fl as [|b fl IH]; simpl; [tauto|].
  destruct (String.eqb_spec (baseName b) name) as [E|N].
  - split; [exact E|]. exists [], fl. split; reflexivity.
  - destruct (Watcher.takeBucket name fl) as [[x fl']|].
    + destruct IH as (E & l1 & l2 & -> & ->). split; [exact E|].
      exists (b :: l1), l2. split; reflexivity.
    + tauto.
Qed.

Lemma userKey_not_internal (k : QString) :
  userKey k = true -> k <> mimeBaseName /\ k <> mimeExtensionMap.
Proof.
  intros U. split; intros ->; discriminate U.
Qed.

Local Abbreviation BucketOk := (BucketOk rows0).

Lemma grouped_bucket (fl : BaseNameExtensionsList) (x : BaseNameExtensions) :
  Grouped listing fl -> In x fl -> BucketOk x.
Proof.
  intros [G1 G2 G3] Ix r Ir En.
  destruct (G2 x Ix) as (r0 & Ir0 & En0 & He).
  assert (r0 = r).
  { eapply NoDup_map_In_inj; [exact Hnames | assumption..|].
    fold (nameOf r0). fold (nameOf r). congruence. }
  subst r0. split; [exact He|].
  intros k Ik U.
  assert (T : Target rows0 dir (pathOf r k) r k) by (repeat split; assumption).
  destruct (G3 _ r k (target_listed _ r k T) T) as (x' & Ix' & En' & Ie).
  assert (x' = x).
  { eapply NoDup_map_In_inj; [exact G1 | assumption..|]. congruence. }
  now subst x'.
Qed.

Lemma hydrated_row (r0 r1 : Row) (x : BaseNameExtensions)
  (wt : QFileSystemWatcher) :
  In r0 rows0 -> sameIdName r0 r1 -> baseName x = nameOf r0 -> BucketOk x ->
  exists dm m2e wt',
    updateDataAndWatchFile fs1 dir x (QMap.empty, QMap.empty, wt)
    = (dm, m2e, wt')
    /\ QMap.isEmpty m2e = false
    /\ sameItem r0
         (mkRow (rowId r1)
                (QMap.insert mimeExtensionMap (VMap m2e)
                   (QMap.insert mimeBaseName (VString (getBaseName (Some r1)))
                                dm))).
Proof.
  intros Ir [Eid Ename] Ex B. destruct (B r0 Ir (eq_sym Ex)) as [B1 B2].
  unfold updateDataAndWatchFile. rewrite Ex.
  destruct (hydrate_fold r0 (exts x) Ir B1 QMap.empty QMap.empty wt)
    as (dm & m2e & wt' & E & F & N & _).
  exists dm, m2e, wt'. split; [exact E|].
  assert (Hk : exists k, In k (QMap.keys (rowData r0)) /\ userKey k = true).
  { pose proof (recoverable_row rows0 dir ue Hrows r0 Ir) as R.
    unfold recoverableRow in R.
    repeat (apply andb_true_iff in R; destruct R as [R ?]).
    match goal with
    | H : existsb userKey _ = true |- _ => apply existsb_exists in H; exact H
    end. }
  split.
  - apply N. destruct Hk as (k & Ik & U). intros Z0.
    specialize (B2 k Ik U). now rewrite Z0 in B2.
  - split; [exact Eid|]. split.
    + unfold getBaseName at 1, value. cbn [ItemModel.data rowData].
      rewrite !find_insert. cbn. exact Ename.
    + intros k U. destruct (userKey_not_internal k U) as [N1 N2].
      cbn [rowData]. unfold QMap.contains, value.
      rewrite !find_insert.
      destruct (String.eqb_spec k mimeExtensionMap); [contradiction|].
      destruct (String.eqb_spec k mimeBaseName); [contradiction|].
      rewrite F. cbn [QMap.find QMap.empty].
      destruct (existsb (fun e => String.eqb (format e) k) (exts x)) eqn:X.
      * apply existsb_exists in X. destruct X as (e & Ie & Ee).
        apply String.eqb_eq in Ee.
        destruct (B1 e Ie) as (k' & Ik' & _ & ->). cbn [format extOf] in Ee.
        subst k'. apply contains_keys in Ik'. unfold QMap.contains in Ik'.
        unfold payloadOf, value.
        destruct (QMap.find k (rowData r0)); [|discriminate].
        split; reflexivity.
      * destruct (QMap.find k (rowData r0)) eqn:Fk; [|split; reflexivity].
        exfalso.
        assert (Ik : In k (QMap.keys (rowData r0))).
        { apply contains_keys. unfold QMap.contains. now rewrite Fk. }
        specialize (B2 k Ik U).
        assert (existsb (fun e => String.eqb (format e) k) (exts x) = true).
        { apply existsb_exists. exists (extOf r0 k). split; [exact B2|].
          apply String.eqb_refl. }
        congruence.
Qed.

Lemma updateRows_tab :
  forall (post0 post1 : list Row) (flc : BaseNameExtensionsList)
         (wt : QFileSystemWatcher) (idx : IndexMap),
    Forall2 sameIdName post0 post1 ->
    incl post0 rows0 ->
    NoDup (map nameOf post0) ->
    NoDup (map baseName flc) ->
    (forall x, In x flc ->
               BucketOk x /\ exists r, In r post0 /\ nameOf r = baseName x) ->
    (forall r, In r post0 -> exists x, In x flc /\ baseName x = nameOf r) ->
    exists rs wt' idx',
      Watcher.updateRows fs1 dir post1 (flc, wt, idx) = (rs, ([], wt', idx'))
      /\ Forall2 sameItem post0 rs.
Proof.
  induction post0 as [|r0 post0 IH]; intros post1 flc wt idx F Inc Nn Nb Hb Hr.
  - inversion F; subst. exists [], wt, idx. simpl. split; [|constructor].
    destruct flc as [|x flc]; [reflexivity|].
    destruct (Hb x (or_introl eq_refl)) as (_ & r & [] & _).
  - inversion F as [|? r1 ? post1' S F']; subst. cbn [Watcher.updateRows].
    assert (Ir0 : In r0 rows0) by (apply Inc; now left).
    destruct S as [Eid Ename].
    pose proof (takeBucket_spec (getBaseName (Some r1)) flc) as TB.
    destruct (Watcher.takeBucket (getBaseName (Some r1)) flc) as [[x flc']|].
    2:{ exfalso. destruct (Hr r0 (or_introl eq_refl)) as (x & Ix & Ex).
        apply TB. rewrite Ename. fold (nameOf r0). rewrite <- Ex.
        now apply in_map. }
    destruct TB as (Ex & l1 & l2 & -> & ->).
    assert (Ix : In x (l1 ++ x :: l2)) by (apply in_or_app; right; now left).
    destruct (Hb x Ix) as (Bx & _).
    assert (Ex0 : baseName x = nameOf r0) by (rewrite Ex; exact Ename).
    destruct (hydrated_row r0 r1 x wt Ir0 (conj Eid Ename) Ex0 Bx)
      as (dm & m2e & wt' & E & Nm & SI).
    rewrite E, Nm.
    simpl in Nn. inversion Nn as [|? ? Nn1 Nn2]; subst.
    rewrite map_app in Nb. simpl in Nb.
    pose proof (NoDup_remove_1 _ _ _ Nb) as Nb1.
    pose proof (NoDup_remove_2 _ _ _ Nb) as Nb2.
    rewrite <- map_app in Nb1, Nb2.
    destruct (IH post1' (l1 ++ l2) wt' idx F')
      as (rs & wt2 & idx2 & E2 & F2).
    + intros r I. apply Inc. now right.
    + exact Nn2.
    + exact Nb1.
    + intros y Iy.
      assert (Iy' : In y (l1 ++ x :: l2)).
      { apply in_app_or in Iy. apply in_or_app. simpl. tauto. }
      destruct (Hb y Iy') as (By & r & [<-|Ir] & Er).
      * exfalso. apply Nb2. rewrite Ex0, Er. now apply in_map.
      * split; [exact By|]. exists r. tauto.
    + intros r Ir. destruct (Hr r (or_intror Ir)) as (y & Iy & Ey).
      exists y. split; [|exact Ey].
      apply in_app_or in Iy. apply in_or_app.
      destruct Iy as [Iy|[<-|Iy]]; [now left | | now right].
      exfalso. apply Nn1. fold (nameOf r0). rewrite <- Ex0, Ey.
      now apply in_map.
    + rewrite E2. exists (mkRow (rowId r1)
                            (QMap.insert mimeExtensionMap (VMap m2e)
                               (QMap.insert mimeBaseName
                                  (VString (getBaseName (Some r1))) dm)) :: rs),
                         wt2, idx2.
      split; [reflexivity|]. constructor; assumption.
Qed.

End Reading.

(** Direction R on a directory in which every payload is in its file and
    every file is that of a payload. *)
Lemma updateItems_tab (rows0 : list Row) (w1 : FileWatcher) (fs0 fs1 : FileSystem) :
  let dir := m_path w1 in
  let ue := userExtensions (m_formatSettings w1) in
  nth 0 (watchedDirectories (m_watcher w1)) "" = dir ->
  NoDup (map (fun r => getBaseName (Some r)) rows0) ->
  forallb (recoverableRow dir ue) rows0 = true ->
  Forall2 sameIdName rows0 (rows (m_model w1)) ->
  FsInv rows0 dir fs0 fs1 ->
  (forall r k, In r rows0 -> In k (QMap.keys (rowData r)) -> userKey k = true ->
               Done rows0 dir fs1
                    (itemFilePath dir (getBaseName (Some r)) (extensionMapOf r) k)) ->
  Forall2 sameItem rows0 (rows (m_model (Watcher.updateItems w1 fs1))).
Proof.
  intros dir ue Edir Hn Hr F I D.
  unfold Watcher.updateItems. rewrite Edir. fold dir.
  unfold Watcher.updateItemsFrom.
  cbn [m_formatSettings Watcher.setModel Watcher.disconnectModel
       Watcher.setValid m_model m_watcher m_indexToBaseName rows
       ItemModel.setDisabled].
  pose proof (listFiles_listing rows0 dir ue fs0 fs1 Hn Hr I D
                (m_formatSettings w1) eq_refl) as G.
  set (fl := listFiles fs1 _ _) in *.
  destruct (updateRows_tab rows0 dir ue fs0 fs1 Hn Hr I D rows0
              (rows (m_model w1)) fl (m_watcher w1) (m_indexToBaseName w1) F
              (incl_refl _) Hn (grouped_names _ _ _ _ G))
    as (rs & wt & idx & E & S).
  - intros x Ix. split.
    + eapply grouped_bucket; eassumption.
    + destruct (grouped_exts _ _ _ _ G x Ix) as (r & Ir & En & _).
      exists r. tauto.
  - intros r Ir.
    assert (Hk : exists k, In k (QMap.keys (rowData r)) /\ userKey k = true).
    { pose proof (recoverable_row rows0 dir ue Hr r Ir) as R.
      unfold recoverableRow in R.
      repeat (apply andb_true_iff in R; destruct R as [R ?]).
      match goal with
      | H : existsb userKey _ = true |- _ => apply existsb_exists in H; exact H
      end. }
    destruct Hk as (k & Ik & U).
    assert (T : Target rows0 dir
                  (itemFilePath dir (getBaseName (Some r)) (extensionMapOf r) k)
                  r k) by (repeat split; assumption).
    destruct (grouped_all _ _ _ _ G _ r k
                (target_listed rows0 dir ue fs0 fs1 Hn Hr I D _ r k T) T)
      as (x & Ix & Ex & _).
    exists x. tauto.
  - rewrite E. cbn [Watcher.createItemsFromFiles Watcher.createItemsLoop
                    Watcher.disconnectModel Watcher.connectModel
                    Watcher.setValid Watcher.setWatcher Watcher.setModel
                    Watcher.setIndexToBaseName m_model m_watcher rows
                    ItemModel.withRows ItemModel.setDisabled maxItems].
    exact S.
Qed.


End RoundTripFacts.



(** The item of the data file is not recovered, whatever the services of the
    platform answer: direction W writes blob_copyq.dat, and the scanner of
    direction R passes over it, the built-in entry of that suffix having no
    format. *)
Example data_file_item_is_lost (P : Platform) (bytes : QByteArray) :
  let w := watcherOf "/sync" (customItem bytes) in
  map fst (files (snd (Watcher.saveItems 0 0 w emptyDirectory)))
  = ["/sync/blob_copyq.dat"]
  /\ listFiles (snd (Watcher.saveItems 0 0 w emptyDirectory))
               ["/sync/blob_copyq.dat"] [] = []
  /\ rows (m_model (writeThenRead w emptyDirectory)) = [].
Proof. cbv zeta. repeat split; vm_compute; reflexivity. Qed.
Section AllocatorSafety.

Lemma fileSafe_append (a b : QString) :
  fileSafe (a +++ b) = fileSafe a && fileSafe b.
Proof.
  induction a as [|c a IH]; simpl; [reflexivity|].
  rewrite IH. apply andb_assoc.
Qed.

Lemma removeNewlines_replaceSeparators_safe (s : QString) :
  fileSafe (QStr.removeNewlines (QStr.replaceSeparators s)) = true.
Proof.
  induction s as [|c s IH]; simpl; [reflexivity|].
  destruct (QStr.isUnsafe c) eqn:U.
  - simpl. exact IH.
  - destruct (QStr.isNewline c) eqn:N; [exact IH|].
    simpl. unfold safeChar. now rewrite U, N, IH.
Qed.

Lemma safeName_fileSafe (name : QString) : fileSafe (safeName name) = true.
Proof.
  unfold safeName. destruct name as [|c s]; [reflexivity|].
  cbn [QStr.isEmpty QStr.replaceUnsafe].
  pose proof (removeNewlines_replaceSeparators_safe s) as R.
  destruct (QStr.isUnsafe c || Ascii.eqb c ".") eqn:U.
  - simpl. exact R.
  - apply orb_false_iff in U. destruct U as [U _].
    simpl. destruct (QStr.isNewline c) eqn:N; [exact R|].
    simpl. unfold safeChar. now rewrite U, N, R.
Qed.

Lemma zeros_fileSafe (n : nat) : fileSafe (QStr.zeros n) = true.
Proof. induction n as [|n IH]; simpl; [reflexivity | exact IH]. Qed.

Lemma string_of_uint_fileSafe (d : Decimal.uint) :
  fileSafe (NilEmpty.string_of_uint d) = true.
Proof. induction d; simpl; try reflexivity; exact IHd. Qed.

Lemma arg_fileSafe (i w : Z) : fileSafe (QStr.arg i w) = true.
Proof.
  unfold QStr.arg, QStr.decimal.
  now rewrite fileSafe_append, zeros_fileSafe, string_of_uint_fileSafe.
Qed.

Lemma candidate_fileSafe (stem ext : QString) (w j : Z) :
  fileSafe stem = true -> fileSafe ext = true ->
  fileSafe (candidate stem w ext j) = true.
Proof.
  intros S E. unfold candidate.
  now rewrite !fileSafe_append, S, E, arg_fileSafe.
Qed.

Lemma splitCounter_fileSafe (base : QString) :
  fileSafe base = true -> fileSafe (fst (fst (splitCounter base))) = true.
Proof.
  intros B. destruct (QStr.isEmpty (QStr.trailingDigits base)) eqn:N.
  - unfold splitCounter. rewrite N. cbn [negb fst].
    now rewrite fileSafe_append, B.
  - destruct (splitCounter_digits base N) as (stem & E & _ & ->). cbn [fst].
    rewrite E, fileSafe_append in B. now apply andb_true_iff in B.
Qed.

End AllocatorSafety.

(** X1. Whatever name is proposed, whatever names are used and whatever the
    user's formats, the name the allocator leaves holds no slash, no
    backslash and no line break, whether it succeeds or gives up. *)
Theorem renameToUnique_name_is_file_safe (name : QString) (used : QStringList)
  (fmts : list FileFormat) :
  fileSafe (snd (fst (renameToUnique name used fmts))) = true.
Proof.
  unfold renameToUnique.
  pose proof (safeName_fileSafe name) as S.
  destruct (negb (QStr.contains used (safeName name))); [exact S|].
  pose proof (splitExtension_join (safeName name) fmts) as J.
  destruct (splitExtension (safeName name) fmts) as [base ext].
  cbn [fst snd] in J. rewrite <- J, fileSafe_append in S.
  apply andb_true_iff in S. destruct S as [Sb Se].
  pose proof (splitCounter_fileSafe base Sb) as Ss.
  destruct (splitCounter base) as [[stem i] w]. cbn [fst] in Ss.
  pose proof (nextFreeName_spec stem ext w used (S (Z.to_nat (99999 - i))) i)
    as N.
  assert (H1 : 99999 - i < Z.of_nat (S (Z.to_nat (99999 - i)))) by lia.
  assert (H2 : (0 < S (Z.to_nat (99999 - i)))%nat) by lia.
  specialize (N H1 H2).
  destruct (nextFreeName _ stem ext w used i) as [n|]; cbn [fst snd].
  - destruct N as (j & _ & -> & _). now apply candidate_fileSafe.
  - rewrite <- J, fileSafe_append, Sb, Se. reflexivity.
Qed.
Section ModelFacts.

Lemma index_split (m : Model) (i : Z) (r : Row) :
  ItemModel.index m i = Some r ->
  exists pre post,
    rows m = pre ++ r :: post /\ i = Z.of_nat (List.length pre).
Proof.
  unfold ItemModel.index. destruct (i <? 0) eqn:N; [discriminate|].
  apply Z.ltb_ge in N. intros H.
  destruct (nth_error_split _ _ H) as (pre & post & E & L).
  exists pre, post. split; [exact E | lia].
Qed.

Lemma index_app_other (pre post : list Row) (r r' : Row) (m m' : Model) (p : Z) :
  rows m = pre ++ r :: post -> rows m' = pre ++ r' :: post ->
  p <> Z.of_nat (List.length pre) ->
  ItemModel.index m' p = ItemModel.index m p.
Proof.
  intros E E' N. unfold ItemModel.index. rewrite E, E'.
  destruct (p <? 0) eqn:L; [reflexivity|]. apply Z.ltb_ge in L.
  destruct (Nat.lt_ge_cases (Z.to_nat p) (List.length pre)) as [Lt|Ge].
  - now rewrite !nth_error_app1 by assumption.
  - rewrite !nth_error_app2 by assumption.
    destruct (Z.to_nat p - List.length pre)%nat as [|k] eqn:K; [lia|].
    reflexivity.
Qed.

(** Setting the data of a row of a model whose rows have distinct
    identities touches that row only. *)
Lemma setData_at (m : Model) (i : Z) (r : Row) (d : QVariantMap) :
  NoDup (map rowId (rows m)) -> ItemModel.index m i = Some r ->
  let m' := ItemModel.setData m (Some r) d in
  map rowId (rows m') = map rowId (rows m)
  /\ ItemModel.index m' i = Some (mkRow (rowId r) d)
  /\ (forall p, p <> i -> ItemModel.index m' p = ItemModel.index m p).
Proof.
  intros N I. destruct (index_split m i r I) as (pre & post & E & ->).
  cbv zeta. unfold ItemModel.setData.
  assert (Nr : ~ In (rowId r) (map rowId pre)).
  { rewrite E, map_app in N. simpl in N. apply NoDup_remove_2 in N.
    intros C. apply N, in_or_app. now left. }
  assert (E' : rows (ItemModel.withRows m
                       (ItemModel.setRowData (rowId r) d (rows m)))
               = pre ++ mkRow (rowId r) d :: post).
  { cbn [ItemModel.withRows rows]. rewrite E.
    now apply setRowData_middle. }
  split; [|split].
  - rewrite E', E, !map_app. reflexivity.
  - eapply index_middle. exact E'.
  - intros p Np. eapply index_app_other; eassumption.
Qed.

End ModelFacts.

Section RenameFacts.

(** The allocator never gives a used name, and records the name it gives. *)
Lemma renameToUnique_fresh (name : QString) (used : QStringList)
  (fmts : list FileFormat) (n : QString) (used' : QStringList) :
  renameToUnique name used fmts = (true, n, used') ->
  ~ In n used /\ used' = used ++ [n].
Proof.
  unfold renameToUnique.
  destruct (QStr.contains used (safeName name)) eqn:C; cbn [negb].
  - destruct (splitExtension (safeName name) fmts) as [base ext].
    destruct (splitCounter base) as [[stem i] w].
    pose proof (nextFreeName_spec stem ext w used (S (Z.to_nat (99999 - i))) i)
      as N.
    assert (H1 : 99999 - i < Z.of_nat (S (Z.to_nat (99999 - i)))) by lia.
    assert (H2 : (0 < S (Z.to_nat (99999 - i)))%nat) by lia.
    specialize (N H1 H2).
    destruct (nextFreeName _ stem ext w used i) as [x|]; [|discriminate].
    intros E. injection E as <- <-.
    destruct N as (j & _ & _ & F & _). split; [|reflexivity].
    intros I. apply contains_In in I. congruence.
  - intros E. injection E as <- <-. split; [|reflexivity].
    intros I. apply contains_In in I. congruence.
Qed.

Lemma getBaseName_insert (d : QVariantMap) (name : QString) (id : Z) :
  getBaseName (Some (mkRow id (QMap.insert mimeBaseName (VString name) d)))
  = name.
Proof.
  unfold getBaseName, value. cbn [ItemModel.data rowData].
  now rewrite find_insert, String.eqb_refl.
Qed.

Lemma renameRow_spec (i : Z) (used used' : QStringList) (w w' : FileWatcher)
  (fs fs' : FileSystem) :
  NoDup (map rowId (rows (m_model w))) ->
  Watcher.renameRow i (used, w, fs) = (true, (used', w', fs')) ->
  exists name,
    used' = used ++ [name] /\ ~ In name used
    /\ map rowId (rows (m_model w')) = map rowId (rows (m_model w))
    /\ m_formatSettings w' = m_formatSettings w
    /\ (forall p, p <> i ->
                  ItemModel.index (m_model w') p = ItemModel.index (m_model w) p)
    /\ (forall r', ItemModel.index (m_model w') i = Some r' ->
                   getBaseName (Some r') = name).
Proof.
  intros N. unfold Watcher.renameRow.
  destruct (renameToUnique (getBaseName (ItemModel.index (m_model w) i)) used
                           (m_formatSettings w))
    as [[ok name] used1] eqn:R.
  destruct ok; cbn [negb]; [|discriminate].
  apply renameToUnique_fresh in R. destruct R as [F ->].
  set (index := ItemModel.index (m_model w) i) in *.
  destruct (_ || negb (String.eqb name (getBaseName index))) eqn:B.
  - destruct (if negb (QStr.isEmpty _) then _ else _) as [w0 fs0] eqn:T.
    assert (Ew : m_model w0 = m_model w
                 /\ m_formatSettings w0 = m_formatSettings w).
    { destruct (negb (QStr.isEmpty _)) in T.
      - injection T as <- _. split; reflexivity.
      - injection T as <- _. destruct index; split; reflexivity. }
    destruct Ew as [Em Ef].
    intros E. injection E as <- <- <-. exists name.
    split; [reflexivity|]. split; [exact F|].
    cbn [Watcher.setModel m_model m_formatSettings]. rewrite Em.
    destruct index as [r|] eqn:I.
    + destruct (setData_at (m_model w) i r
                  (QMap.insert mimeBaseName (VString name)
                     (QMap.remove mimeSyncPath (ItemModel.data (Some r)))) N I)
        as (S1 & S2 & S3).
      split; [exact S1|]. split; [exact Ef|]. split; [exact S3|].
      intros r' Ir. rewrite S2 in Ir. injection Ir as <-.
      apply getBaseName_insert.
    + cbn [ItemModel.setData]. split; [reflexivity|]. split; [exact Ef|].
      split; [reflexivity|]. fold index. rewrite I. discriminate.
  - intros E. injection E as <- <- <-. exists name.
    split; [reflexivity|]. split; [exact F|]. split; [reflexivity|].
    split; [reflexivity|]. split; [reflexivity|].
    apply orb_false_iff in B. destruct B as [_ B].
    apply negb_false_iff, String.eqb_eq in B.
    intros r' Ir. fold index in Ir. rewrite B, Ir. reflexivity.
Qed.

Lemma renameRows_spec :
  forall (n : nat) (i : Z) (used used' : QStringList) (w w' : FileWatcher)
         (fs fs' : FileSystem),
    NoDup (map rowId (rows (m_model w))) ->
    forEachWhile Watcher.renameRow (rowRange i n) (used, w, fs)
    = (true, (used', w', fs')) ->
    exists names,
      used' = used ++ names /\ NoDup names
      /\ (forall x, In x names -> ~ In x used)
      /\ map rowId (rows (m_model w')) = map rowId (rows (m_model w))
      /\ (forall p, p < i \/ i + Z.of_nat n <= p ->
                    ItemModel.index (m_model w') p
                    = ItemModel.index (m_model w) p)
      /\ (forall p r', i <= p < i + Z.of_nat n ->
                       ItemModel.index (m_model w') p = Some r' ->
                       nth_error names (Z.to_nat (p - i))
                       = Some (getBaseName (Some r'))).
Proof.
  induction n as [|n IH]; intros i used used' w w' fs fs' N.
  - simpl. intros E. injection E as <- <- <-. exists [].
    rewrite app_nil_r. split; [reflexivity|]. split; [constructor|].
    split; [intros x []|]. split; [reflexivity|]. split; [reflexivity|].
    intros p r' H. lia.
  - rewrite rowRange_succ. cbn [forEachWhile].
    destruct (Watcher.renameRow i (used, w, fs)) as [ok [[used1 w1] fs1]] eqn:R.
    destruct ok; [|discriminate].
    destruct (renameRow_spec i used used1 w w1 fs fs1 N R)
      as (name & -> & F & Ids & _ & Fr & Nm).
    intros E.
    assert (N1 : NoDup (map rowId (rows (m_model w1)))) by now rewrite Ids.
    destruct (IH (i + 1) _ _ _ _ _ _ N1 E)
      as (names & -> & Nd & Fn & Ids' & Fr' & Nm').
    exists (name :: names). rewrite <- app_assoc. split; [reflexivity|].
    split.
    { constructor; [|exact Nd]. intros I. apply (Fn name I).
      apply in_or_app. right. now left. }
    split.
    { intros x [<-|I]; [exact F|]. intros C. apply (Fn x I).
      apply in_or_app. now left. }
    split; [now rewrite Ids'|]. split.
    { intros p Hp. rewrite Fr' by lia. apply Fr. lia. }
    intros p r' Hp Ip. destruct (Z.eq_dec p i) as [->|Ne].
    + rewrite Z.sub_diag. simpl. f_equal. symmetry. apply Nm.
      rewrite <- Fr' by lia. exact Ip.
    + replace (Z.to_nat (p - i)) with (S (Z.to_nat (p - (i + 1)))) by lia.
      simpl. apply Nm'; [lia | exact Ip].
Qed.

Lemma usedBaseNames_outside (first last : Z) (rs : list Row) :
  forall (i : Z) (k : nat) (r : Row),
    nth_error rs k = Some r ->
    i + Z.of_nat k < first \/ last < i + Z.of_nat k ->
    In (getBaseName (Some r)) (Watcher.usedBaseNames first last i rs).
Proof.
  induction rs as [|x rs IH]; intros i k r H O; [destruct k; discriminate|].
  simpl. destruct k as [|k].
  - simpl in H. injection H as ->.
    replace ((first <=? i) && (i <=? last)) with false; [now left|].
    symmetry. apply andb_false_iff.
    destruct O as [O|O]; [left; apply Z.leb_gt | right; apply Z.leb_gt]; lia.
  - simpl in H.
    assert (I : In (getBaseName (Some r))
                   (Watcher.usedBaseNames first last (i + 1) rs))
      by (apply (IH (i + 1) k r H); lia).
    destruct ((first <=? i) && (i <=? last)); [exact I | now right].
Qed.

End RenameFacts.

Lemma renameToUnique_distinct (first last : Z)
  (w w' : FileWatcher) (fs fs' : FileSystem) :
  NoDup (map rowId (rows (m_model w))) ->
  Watcher.renameToUnique first last w fs = (true, w', fs') ->
  map rowId (rows (m_model w')) = map rowId (rows (m_model w))
  /\ (forall j, j < first \/ last < j ->
                ItemModel.index (m_model w') j = ItemModel.index (m_model w) j)
  /\ (forall i j r r',
         first <= i <= last -> i <> j ->
         ItemModel.index (m_model w') i = Some r ->
         ItemModel.index (m_model w') j = Some r' ->
         getBaseName (Some r) <> getBaseName (Some r')).
Proof.
  intros N. unfold Watcher.renameToUnique, rowsBetween.
  destruct (forEachWhile _ _ _) as [ok [[used1 w1] fs1]] eqn:L.
  intros E. injection E as -> -> ->.
  destruct (renameRows_spec _ _ _ _ _ _ _ _ N L)
    as (names & _ & Nd & Fn & Ids & Fr & Nm).
  split; [exact Ids|]. split.
  { intros j Hj. apply Fr. lia. }
  intros i j r r' Hi Nij Ii Ij.
  assert (Hi' : first <= i < first + Z.of_nat (Z.to_nat (last - first + 1)))
    by lia.
  pose proof (Nm i r Hi' Ii) as Ni.
  destruct (Z_lt_le_dec j first) as [Lo|Ge]; [|destruct (Z_lt_le_dec last j) as [Hi2|Le]].
  - assert (O : j < first \/ first + Z.of_nat (Z.to_nat (last - first + 1)) <= j)
      by lia.
    rewrite (Fr j O) in Ij. intros C.
    apply (Fn (getBaseName (Some r))); [eapply nth_error_In; exact Ni|].
    rewrite C. unfold ItemModel.index in Ij.
    destruct (j <? 0) eqn:J; [discriminate|]. apply Z.ltb_ge in J.
    apply (usedBaseNames_outside first last _ 0 (Z.to_nat j) r' Ij). lia.
  - assert (O : j < first \/ first + Z.of_nat (Z.to_nat (last - first + 1)) <= j)
      by lia.
    rewrite (Fr j O) in Ij. intros C.
    apply (Fn (getBaseName (Some r))); [eapply nth_error_In; exact Ni|].
    rewrite C. unfold ItemModel.index in Ij.
    destruct (j <? 0) eqn:J; [discriminate|]. apply Z.ltb_ge in J.
    apply (usedBaseNames_outside first last _ 0 (Z.to_nat j) r' Ij). lia.
  - assert (Hj' : first <= j < first + Z.of_nat (Z.to_nat (last - first + 1)))
      by lia.
    pose proof (Nm j r' Hj' Ij) as Nj. intros C. rewrite <- C in Nj.
    rewrite <- Nj in Ni.
    apply (proj1 (NoDup_nth_error names) Nd) in Ni.
    + lia.
    + apply nth_error_Some. rewrite Ni, Nj. discriminate.
Qed.

(** X2. When the renaming of the rows [first..last] of a tab whose rows
    have distinct identities succeeds, no row is added, removed or moved, the
    rows outside the range are as they were, and the base name of every row
    of the range differs from the base name of every other row of the tab. *)
Theorem renameToUnique_makes_names_distinct (first last : Z)
  (w w' : FileWatcher) (fs fs' : FileSystem) :
  NoDup (map rowId (rows (m_model w))) ->
  Watcher.renameToUnique first last w fs = (true, w', fs') ->
  map rowId (rows (m_model w')) = map rowId (rows (m_model w))
  /\ (forall j, j < first \/ last < j ->
                ItemModel.index (m_model w') j = ItemModel.index (m_model w) j)
  /\ (forall i j r r',
         first <= i <= last -> i <> j ->
         ItemModel.index (m_model w') i = Some r ->
         ItemModel.index (m_model w') j = Some r' ->
         getBaseName (Some r) <> getBaseName (Some r')).
Proof. exact (renameToUnique_distinct first last w w' fs fs'). Qed.

Lemma renameToUnique_makes_names_distinct_witness :
  let w := watcherOf "/sync" twoRowsNamedA in
  let res := Watcher.renameToUnique 0 1 w emptyDirectory in
  map (fun r => getBaseName (Some r)) (rows (m_model (snd (fst res))))
  = ["a"; "a-1"]
  /\ map rowId (rows (m_model (snd (fst res)))) = map rowId (rows (m_model w))
  /\ (forall j, j < 0 \/ 1 < j ->
                ItemModel.index (m_model (snd (fst res))) j
                = ItemModel.index (m_model w) j)
  /\ (forall i j r r',
         0 <= i <= 1 -> i <> j ->
         ItemModel.index (m_model (snd (fst res))) i = Some r ->
         ItemModel.index (m_model (snd (fst res))) j = Some r' ->
         getBaseName (Some r) <> getBaseName (Some r')).
Proof.
  cbv zeta. split; [reflexivity|].
  apply (renameToUnique_makes_names_distinct 0 1
           (watcherOf "/sync" twoRowsNamedA) _ emptyDirectory
           (snd (Watcher.renameToUnique 0 1 (watcherOf "/sync" twoRowsNamedA)
                   emptyDirectory))).
  - repeat constructor; simpl; intuition discriminate.
  - reflexivity.
Defined.

Section FrameFacts.

Context {P : Platform}.

Lemma stepFrame_refl (first last : Z) (w : FileWatcher) :
  stepFrame first last w w.
Proof. repeat split. Qed.

Lemma stepFrame_trans (first last : Z) (a b c : FileWatcher) :
  stepFrame first last a b -> stepFrame first last b c ->
  stepFrame first last a c.
Proof.
  intros [(A1 & A2 & A3 & A4 & A5 & A6 & A7 & A8) Av]
         [(B1 & B2 & B3 & B4 & B5 & B6 & B7 & B8) Bv].
  split; [|congruence].
  split; [congruence|]. split; [intros j H; rewrite B2, A2; auto|].
  repeat split; congruence.
Qed.

Lemma rowRange_In (n : nat) (i a : Z) :
  In a (rowRange i n) -> i <= a < i + Z.of_nat n.
Proof.
  revert i. induction n as [|n IH]; intros i; simpl; [tauto|].
  intros [<-|I]; [lia|]. apply IH in I. lia.
Qed.

Lemma rowsBetween_In (first last i : Z) :
  In i (rowsBetween first last) -> first <= i <= last.
Proof.
  unfold rowsBetween. intros I. apply rowRange_In in I. lia.
Qed.

(** Setting the data of the row at [i], and remembering a name for it,
    stays within the frame of any range that holds [i]. *)
Lemma setData_stepFrame (first last i : Z) (w : FileWatcher)
  (d : QVariantMap) (name : option QString) :
  NoDup (map rowId (rows (m_model w))) -> first <= i <= last ->
  let index := ItemModel.index (m_model w) i in
  let w1 := Watcher.setModel w (ItemModel.setData (m_model w) index d) in
  let w' := match name with
            | Some n => Watcher.rememberBaseName index n w1
            | None => w1
            end in
  stepFrame first last w w'.
Proof.
  intros N Hi. cbv zeta.
  assert (S : stepFrame first last w
                (Watcher.setModel w
                   (ItemModel.setData (m_model w)
                      (ItemModel.index (m_model w) i) d))).
  { destruct (ItemModel.index (m_model w) i) as [r|] eqn:I.
    - destruct (setData_at (m_model w) i r d N I) as (S1 & _ & S3).
      split; [|reflexivity].
      split; [exact S1|]. split; [intros j Hj; apply S3; lia|].
      repeat split.
    - repeat split. }
  destruct name as [n|]; [|exact S].
  destruct (ItemModel.index (m_model w) i); exact S.
Qed.

Lemma renameRow_stepFrame (first last i : Z)
  (s : QStringList * FileWatcher * FileSystem) :
  NoDup (map rowId (rows (m_model (snd (fst s))))) -> first <= i <= last ->
  stepFrame first last (snd (fst s))
            (snd (fst (snd (Watcher.renameRow i s)))).
Proof.
  destruct s as [[used w] fs]. cbn [fst snd].
  intros N Hi. unfold Watcher.renameRow.
  destruct (renameToUnique _ used (m_formatSettings w)) as [[ok name] used1].
  destruct ok; cbn [negb]; [|apply stepFrame_refl].
  set (index := ItemModel.index (m_model w) i).
  destruct (_ || negb (String.eqb name (getBaseName index)));
    [|apply stepFrame_refl].
  destruct (negb (QStr.isEmpty _)); cbn [snd fst].
  - exact (setData_stepFrame first last i w _ None N Hi).
  - destruct index as [r|] eqn:I.
    + cbn [Watcher.rememberBaseName Watcher.setModel Watcher.setIndexToBaseName
           m_model].
      destruct (setData_at (m_model w) i r
                  (QMap.insert mimeBaseName (VString name)
                     (QMap.remove mimeSyncPath (ItemModel.data (Some r)))) N I)
        as (S1 & _ & S3).
      split; [|reflexivity].
      split; [exact S1|]. split; [intros j Hj; apply S3; lia|].
      repeat split.
    + repeat split.
Qed.

Lemma saveRow_stepFrame (dir : QString) (first last i : Z)
  (s : FileWatcher * MultiMap * FileSystem) :
  NoDup (map rowId (rows (m_model (fst (fst s))))) -> first <= i <= last ->
  stepFrame first last (fst (fst s))
            (fst (fst (snd (Watcher.saveRow dir i s)))).
Proof.
  destruct s as [[w ex] fs]. cbn [fst snd].
  intros N Hi. unfold Watcher.saveRow.
  destruct (forEachWhile _ _ _) as [ok [[[[d m2e] unk] ex1] fs1]].
  destruct ok; cbn [negb]; [|apply stepFrame_refl].
  destruct (if negb (QMap.isEmpty unk) then _ else _) as [[[ok m2e'] ex2] fs2].
  destruct ok; cbn [negb]; [|apply stepFrame_refl].
  destruct (_ || _); [|apply stepFrame_refl]. cbn [snd fst].
  exact (setData_stepFrame first last i w _ (Some _) N Hi).
Qed.

(** A loop whose body keeps the frame keeps it. *)
Lemma forEachWhile_stepFrame (S : Type) (watcherOfState : S -> FileWatcher)
  (body : Z -> S -> bool * S) (first last : Z) :
  (forall i s, NoDup (map rowId (rows (m_model (watcherOfState s)))) ->
               first <= i <= last ->
               stepFrame first last (watcherOfState s)
                         (watcherOfState (snd (body i s)))) ->
  forall (l : list Z) (s : S),
    (forall i, In i l -> first <= i <= last) ->
    NoDup (map rowId (rows (m_model (watcherOfState s)))) ->
    stepFrame first last (watcherOfState s)
              (watcherOfState (snd (forEachWhile body l s))).
Proof.
  intros B. induction l as [|i l IH]; intros s Hl N; simpl.
  - apply stepFrame_refl.
  - pose proof (B i s N (Hl i (or_introl eq_refl))) as Bi.
    destruct (body i s) as [ok s1]. cbn [snd] in Bi.
    destruct ok; [|exact Bi].
    eapply stepFrame_trans; [exact Bi|]. apply IH.
    + intros j I. apply Hl. now right.
    + destruct Bi as [[Ids _] _]. now rewrite Ids.
Qed.

Lemma renameToUnique_stepFrame (first last : Z) (w : FileWatcher)
  (fs : FileSystem) :
  NoDup (map rowId (rows (m_model w))) ->
  stepFrame first last w (snd (fst (Watcher.renameToUnique first last w fs))).
Proof.
  intros N. unfold Watcher.renameToUnique.
  pose proof (forEachWhile_stepFrame
                (QStringList * FileWatcher * FileSystem)%type
                (fun s => snd (fst s)) Watcher.renameRow first last
                (fun i s => renameRow_stepFrame first last i s)
                (rowsBetween first last)
                (Watcher.usedBaseNames first last 0 (rows (m_model w)), w, fs)
                (rowsBetween_In first last) N) as L.
  cbn [fst snd] in L.
  destruct (forEachWhile _ _ _) as [ok [[used1 w1] fs1]]. exact L.
Qed.

Lemma saveRows_stepFrame (dir : QString) (first last : Z) (l : list Z)
  (s : FileWatcher * MultiMap * FileSystem) :
  (forall i, In i l -> first <= i <= last) ->
  NoDup (map rowId (rows (m_model (fst (fst s))))) ->
  stepFrame first last (fst (fst s))
            (fst (fst (snd (forEachWhile (Watcher.saveRow dir) l s)))).
Proof.
  exact (forEachWhile_stepFrame
           (FileWatcher * MultiMap * FileSystem)%type
           (fun s => fst (fst s)) (Watcher.saveRow dir) first last
           (fun i s => saveRow_stepFrame dir first last i s) l s).
Qed.

(** The frame of direction W, and how it ran when it ran to its end. *)
Lemma saveItems_outcome (first last : Z) (w : FileWatcher) (fs : FileSystem) :
  NoDup (map rowId (rows (m_model w))) ->
  let w' := fst (Watcher.saveItems first last w fs) in
  sameOutside first last w w'
  /\ (m_valid w' = true ->
      exists w1 fs1 w2 ex2 fs2,
        Watcher.renameToUnique first last (Watcher.disconnectModel w) fs
        = (true, w1, fs1)
        /\ forEachWhile (Watcher.saveRow (m_path w1)) (rowsBetween first last)
                        (w1, listFilesOfDir fs1 (m_path w1), fs1)
           = (true, (w2, ex2, fs2))
        /\ w' = Watcher.connectModel w2).
Proof.
  intros N. cbv zeta. unfold Watcher.saveItems.
  pose proof (renameToUnique_stepFrame first last (Watcher.disconnectModel w)
                fs N) as R.
  destruct (Watcher.renameToUnique first last (Watcher.disconnectModel w) fs)
    as [[ok w1] fs1] eqn:Er. cbn [fst snd] in R.
  destruct R as [R V1].
  assert (R' : sameOutside first last w w1) by exact R.
  assert (V1' : m_valid w1 = false) by exact V1.
  assert (Early : forall Q : Prop,
             sameOutside first last w w1 /\ (m_valid w1 = true -> Q))
    by (intros Q; split; [exact R' | congruence]).
  destruct ok; cbn [negb]; [|apply Early].
  destruct (QStr.isEmpty (m_path w1)); [apply Early|].
  destruct (negb (FS.mkpath fs1 (m_path w1))); [apply Early|].
  clear Early.
  assert (N1 : NoDup (map rowId (rows (m_model w1))))
    by (destruct R' as [Ids _]; now rewrite Ids).
  pose proof (saveRows_stepFrame (m_path w1) first last
                (rowsBetween first last)
                (w1, listFilesOfDir fs1 (m_path w1), fs1)
                (rowsBetween_In first last) N1) as L.
  cbn [fst snd] in L.
  destruct (forEachWhile _ _ _) as [ok [[w2 ex2] fs2]] eqn:E.
  cbn [fst snd] in L. destruct L as [L V2].
  assert (L' : sameOutside first last w w2).
  { destruct R' as (A1 & A2 & A3 & A4 & A5 & A6 & A7 & A8).
    destruct L as (B1 & B2 & B3 & B4 & B5 & B6 & B7 & B8).
    split; [congruence|]. split; [intros j H; rewrite B2, A2; auto|].
    repeat split; congruence. }
  destruct ok; cbn [negb fst].
  - split; [exact L'|]. intros _.
    exists w1, fs1, w2, ex2, fs2. split; [reflexivity|].
    split; [exact E | reflexivity].
  - split; [exact L'|]. congruence.
Qed.

Lemma map_eqb_isEmpty (a b : QVariantMap) :
  map_eqb a b = true -> QMap.isEmpty a = QMap.isEmpty b.
Proof.
  unfold map_eqb. destruct a as [|[k v] a], b as [|[k' v'] b]; simpl;
    try reflexivity; discriminate.
Qed.

(** A row direction W has saved. *)
Lemma saveRow_savedRow (dir : QString) (i : Z) (w w' : FileWatcher)
  (ex ex' : MultiMap) (fs fs' : FileSystem) (r' : Row) :
  NoDup (map rowId (rows (m_model w))) ->
  Watcher.saveRow dir i (w, ex, fs) = (true, (w', ex', fs')) ->
  ItemModel.index (m_model w') i = Some r' ->
  savedRow r'.
Proof.
  intros N. unfold Watcher.saveRow.
  set (index := ItemModel.index (m_model w) i).
  destruct (forEachWhile _ _ _) as [ok [[[[d m2e] unk] ex1] fs1]].
  destruct ok; cbn [negb]; [|discriminate].
  set (m2e1 := if QMap.isEmpty m2e then QMap.insert "" (VString "") m2e
               else m2e).
  assert (M1 : QMap.isEmpty m2e1 = false).
  { subst m2e1. destruct (QMap.isEmpty m2e) eqn:Em; [|exact Em].
    apply insert_not_empty. }
  destruct (if negb (QMap.isEmpty unk) then _ else _)
    as [[[ok m2e'] ex2] fs2] eqn:U.
  assert (M2 : ok = true -> QMap.isEmpty m2e' = false).
  { destruct (negb (QMap.isEmpty unk)).
    - destruct (saveItemFile _ _ _ _) as [[ok3 ex3] fs3].
      injection U as _ <- _ _. intros _. apply insert_not_empty.
    - injection U as _ <- _ _. intros _. exact M1. }
  destruct ok; cbn [negb]; [|discriminate]. specialize (M2 eq_refl).
  destruct (negb (QMap.isEmpty (toMap (value (ItemModel.data index) mimeNoSave)))
            || negb (map_eqb m2e' (toMap (value (ItemModel.data index)
                                            mimeExtensionMap)))) eqn:B.
  - intros E. injection E as <- _ _.
    destruct index as [r|] eqn:I.
    + cbn [Watcher.rememberBaseName Watcher.setIndexToBaseName Watcher.setModel
           m_model].
      destruct (setData_at (m_model w) i r
                  (QMap.insert mimeExtensionMap (VMap m2e')
                     (QMap.remove mimeNoSave d)) N I) as (_ & S2 & _).
      intros Ir. rewrite S2 in Ir. injection Ir as <-.
      unfold savedRow, extensionMapOf, value. cbn [rowData].
      rewrite !find_insert, String.eqb_refl. cbn [toMap].
      split; [exact M2|].
      change (String.eqb mimeNoSave mimeExtensionMap) with false.
      cbv iota. rewrite find_remove, String.eqb_refl. reflexivity.
    + cbn [Watcher.rememberBaseName Watcher.setModel ItemModel.setData m_model].
      fold index. rewrite I. discriminate.
  - intros E. injection E as <- _ _. fold index.
    apply orb_false_iff in B. destruct B as [B1 B2].
    apply negb_false_iff in B1, B2.
    intros Ir. rewrite Ir in B1, B2. cbn [ItemModel.data] in B1, B2.
    split; [|exact B1].
    unfold extensionMapOf. rewrite <- (map_eqb_isEmpty _ _ B2). exact M2.
Qed.

Lemma saveRows_savedRow (dir : QString) :
  forall (n : nat) (i : Z) (w w' : FileWatcher) (ex ex' : MultiMap)
         (fs fs' : FileSystem),
    NoDup (map rowId (rows (m_model w))) ->
    forEachWhile (Watcher.saveRow dir) (rowRange i n) (w, ex, fs)
    = (true, (w', ex', fs')) ->
    forall p r', i <= p < i + Z.of_nat n ->
                 ItemModel.index (m_model w') p = Some r' -> savedRow r'.
Proof.
  induction n as [|n IH]; intros i w w' ex ex' fs fs' N E p r' Hp Ip; [lia|].
  rewrite rowRange_succ in E. cbn [forEachWhile] in E.
  destruct (Watcher.saveRow dir i (w, ex, fs)) as [ok [[w1 ex1] fs1]] eqn:S1.
  destruct ok; [|discriminate].
  pose proof (saveRow_stepFrame dir i i i (w, ex, fs) N ltac:(lia)) as F1.
  rewrite S1 in F1. cbn [fst snd] in F1.
  assert (N1 : NoDup (map rowId (rows (m_model w1))))
    by (destruct F1 as [[Ids _] _]; now rewrite Ids).
  destruct (Z.eq_dec p i) as [->|Ne].
  - pose proof (saveRows_stepFrame dir (i + 1) (i + Z.of_nat (S n))
                  (rowRange (i + 1) n) (w1, ex1, fs1)) as F.
    cbn [fst snd] in F. rewrite E in F. cbn [fst snd] in F.
    destruct F as [[_ [F _]] _]; [|exact N1|].
    + intros j I. apply rowRange_In in I. lia.
    + rewrite F in Ip by lia.
      exact (saveRow_savedRow dir i w w1 ex ex1 fs fs1 r' N S1 Ip).
  - apply (IH (i + 1) w1 w' ex1 ex' fs1 fs' N1 E p r'); [lia | exact Ip].
Qed.

End FrameFacts.

(** X3. Direction W over the rows [first..last] of a tab whose rows have
    distinct identities, whether it completes or breaks off, adds, removes
    and moves no row, leaves the rows outside the range as they were, and
    changes neither the properties of the model nor the directory, the
    formats and the watch set of the watcher. *)
Theorem saveItems_touches_only_its_rows {P : Platform} (first last : Z)
  (w : FileWatcher) (fs : FileSystem) :
  NoDup (map rowId (rows (m_model w))) ->
  sameOutside first last w (fst (Watcher.saveItems first last w fs)).
Proof.
  intros N. exact (proj1 (saveItems_outcome first last w fs N)).
Qed.

Lemma saveItems_touches_only_its_rows_witness :
  sameOutside 1 1 (watcherOf "/sync" noteAndPicture)
    (fst (@Watcher.saveItems stubPlatform 1 1
            (watcherOf "/sync" noteAndPicture) emptyDirectory)).
Proof.
  apply (@saveItems_touches_only_its_rows stubPlatform).
  repeat constructor; simpl; intuition discriminate.
Defined.

(** X4. The watcher is valid after direction W only if the pass ran to its
    end, and then every row of the range carries an extension map that is not
    empty and no no-save map. *)
Theorem saveItems_completed_rows_are_saved {P : Platform} (first last : Z)
  (w : FileWatcher) (fs : FileSystem) :
  NoDup (map rowId (rows (m_model w))) ->
  m_valid (fst (Watcher.saveItems first last w fs)) = true ->
  forall i r,
    first <= i <= last ->
    ItemModel.index (m_model (fst (Watcher.saveItems first last w fs))) i
    = Some r ->
    savedRow r.
Proof.
  intros N V i r Hi Ir.
  destruct (saveItems_outcome first last w fs N) as [_ C]. cbv zeta in C.
  destruct (C V) as (w1 & fs1 & w2 & ex2 & fs2 & Er & E & Ew).
  rewrite Ew in Ir. cbn [Watcher.connectModel Watcher.setValid m_model] in Ir.
  assert (N1 : NoDup (map rowId (rows (m_model w1)))).
  { pose proof (renameToUnique_stepFrame first last
                  (Watcher.disconnectModel w) fs N) as F.
    rewrite Er in F. cbn [fst snd] in F. destruct F as [[Ids _] _].
    rewrite Ids. exact N. }
  unfold rowsBetween in E.
  apply (saveRows_savedRow (m_path w1) _ _ _ _ _ _ _ _ N1 E i r); [lia|].
  exact Ir.
Qed.

Lemma saveItems_completed_rows_are_saved_witness :
  savedRow
    (nth 0 (rows (m_model (fst (@Watcher.saveItems stubPlatform 0 1
                                  (watcherOf "/sync" noteAndPicture)
                                  emptyDirectory))))
         (mkRow 0 [])).
Proof.
  apply (@saveItems_completed_rows_are_saved stubPlatform 0 1
           (watcherOf "/sync" noteAndPicture) emptyDirectory) with (i := 0).
  - repeat constructor; simpl; intuition discriminate.
  - reflexivity.
  - lia.
  - reflexivity.
Defined.

Section SavedNamesFacts.

Context {P : Platform}.

Lemma saveFormat_keeps_baseName (filePath : QString) (old noSave : QVariantMap)
  (fmt : QString)
  (st : QVariantMap * QVariantMap * QVariantMap * MultiMap * FileSystem) :
  let d := fst (fst (fst (fst st))) in
  let d' := fst (fst (fst (fst (snd (Watcher.saveFormat filePath old noSave
                                                         fmt st))))) in
  QMap.find mimeBaseName d' = QMap.find mimeBaseName d.
Proof.
  destruct st as [[[[d m2e] unk] ex] fs]. cbv zeta. cbn [fst].
  unfold Watcher.saveFormat.
  destruct (QStr.startsWith fmt MIME_PREFIX_ITEMSYNC) eqn:S; [reflexivity|].
  destruct (_ && _).
  - cbn [fst snd]. rewrite find_remove.
    destruct (String.eqb_spec mimeBaseName fmt) as [<-|_]; [|reflexivity].
    discriminate S.
  - destruct (_ && _); [reflexivity|].
    destruct (saveItemFile _ _ _ _) as [[ok ex'] fs']. reflexivity.
Qed.

Lemma saveFormats_keep_baseName (filePath : QString)
  (old noSave : QVariantMap) (ks : QStringList) :
  forall st : QVariantMap * QVariantMap * QVariantMap * MultiMap * FileSystem,
    QMap.find mimeBaseName
      (fst (fst (fst (fst (snd (forEachWhile
                                  (Watcher.saveFormat filePath old noSave)
                                  ks st))))))
    = QMap.find mimeBaseName (fst (fst (fst (fst st)))).
Proof.
  induction ks as [|k ks IH]; intros st; [reflexivity|].
  cbn [forEachWhile].
  pose proof (saveFormat_keeps_baseName filePath old noSave k st) as K.
  cbv zeta in K.
  destruct (Watcher.saveFormat filePath old noSave k st) as [ok st1].
  cbn [snd] in K. destruct ok; [|exact K].
  rewrite IH. exact K.
Qed.

Lemma sameNames_refl (w : FileWatcher) : sameNames w w.
Proof. intros p r' I. exists r'. split; [exact I | reflexivity]. Qed.

Lemma sameNames_trans (a b c : FileWatcher) :
  sameNames a b -> sameNames b c -> sameNames a c.
Proof.
  intros A B p r' I. destruct (B p r' I) as (r1 & I1 & E1).
  destruct (A p r1 I1) as (r0 & I0 & E0). exists r0.
  split; [exact I0 | congruence].
Qed.

Lemma saveRow_sameNames (dir : QString) (i : Z)
  (s : FileWatcher * MultiMap * FileSystem) :
  NoDup (map rowId (rows (m_model (fst (fst s))))) ->
  sameNames (fst (fst s)) (fst (fst (snd (Watcher.saveRow dir i s)))).
Proof.
  destruct s as [[w ex] fs]. cbn [fst snd]. intros N.
  unfold Watcher.saveRow.
  set (index := ItemModel.index (m_model w) i).
  pose proof (saveFormats_keep_baseName
                (FS.absoluteFilePath dir (getBaseName index))
                (toMap (value (ItemModel.data index) mimeExtensionMap))
                (toMap (value (ItemModel.data index) mimeNoSave))
                (QMap.keys (ItemModel.data index))
                (ItemModel.data index, QMap.empty, QMap.empty, ex, fs)) as K.
  destruct (forEachWhile _ _ _) as [ok [[[[d m2e] unk] ex1] fs1]].
  cbn [fst snd] in K.
  destruct ok; cbn [negb]; [|apply sameNames_refl].
  destruct (if negb (QMap.isEmpty unk) then _ else _) as [[[ok m2e'] ex2] fs2].
  destruct ok; cbn [negb]; [|apply sameNames_refl].
  destruct (_ || _); [|apply sameNames_refl]. cbn [snd fst].
  destruct index as [r|] eqn:I.
  - cbn [Watcher.rememberBaseName Watcher.setIndexToBaseName Watcher.setModel
         m_model].
    destruct (setData_at (m_model w) i r
                (QMap.insert mimeExtensionMap (VMap m2e')
                   (QMap.remove mimeNoSave d)) N I) as (_ & S2 & S3).
    intros p r' Ip.
    change (ItemModel.index
              (ItemModel.setData (m_model w) (Some r)
                 (QMap.insert mimeExtensionMap (VMap m2e')
                    (QMap.remove mimeNoSave d))) p = Some r') in Ip.
    destruct (Z.eq_dec p i) as [->|Ne].
    + rewrite S2 in Ip. injection Ip as <-. exists r. split; [exact I|].
      unfold getBaseName, value. cbn [ItemModel.data rowData] in *.
      rewrite find_insert, find_remove, K.
      change (String.eqb mimeBaseName mimeExtensionMap) with false.
      change (String.eqb mimeBaseName mimeNoSave) with false.
      reflexivity.
    + rewrite (S3 p Ne) in Ip. exists r'. split; [exact Ip | reflexivity].
  - intros p r' Ip. exists r'. split; [exact Ip | reflexivity].
Qed.

Lemma saveRows_sameNames (dir : QString) (l : list Z) :
  forall s : FileWatcher * MultiMap * FileSystem,
    NoDup (map rowId (rows (m_model (fst (fst s))))) ->
    sameNames (fst (fst s))
              (fst (fst (snd (forEachWhile (Watcher.saveRow dir) l s)))).
Proof.
  induction l as [|i l IH]; intros s N; cbn [forEachWhile].
  - apply sameNames_refl.
  - pose proof (saveRow_sameNames dir i s N) as S1.
    pose proof (saveRow_stepFrame dir i i i s N ltac:(lia)) as F1.
    destruct (Watcher.saveRow dir i s) as [ok s1]. cbn [snd] in S1, F1.
    destruct ok; [|exact S1].
    eapply sameNames_trans; [exact S1|]. apply IH.
    destruct F1 as [[Ids _] _]. now rewrite Ids.
Qed.

End SavedNamesFacts.

Lemma saveItems_completed_names_distinct {P : Platform} (first last : Z)
  (w : FileWatcher) (fs : FileSystem) :
  NoDup (map rowId (rows (m_model w))) ->
  m_valid (fst (Watcher.saveItems first last w fs)) = true ->
  forall i j r r',
    first <= i <= last -> i <> j ->
    ItemModel.index (m_model (fst (Watcher.saveItems first last w fs))) i
    = Some r ->
    ItemModel.index (m_model (fst (Watcher.saveItems first last w fs))) j
    = Some r' ->
    getBaseName (Some r) <> getBaseName (Some r').
Proof.
  intros N V i j r r' Hi Nij Ii Ij.
  destruct (saveItems_outcome first last w fs N) as [_ C]. cbv zeta in C.
  destruct (C V) as (w1 & fs1 & w2 & ex2 & fs2 & Er & E & Ew).
  rewrite Ew in Ii, Ij.
  cbn [Watcher.connectModel Watcher.setValid m_model] in Ii, Ij.
  destruct (renameToUnique_distinct first last (Watcher.disconnectModel w) w1
              fs fs1 N Er) as (Ids & _ & D).
  assert (N1 : NoDup (map rowId (rows (m_model w1)))) by now rewrite Ids.
  pose proof (saveRows_sameNames (m_path w1) (rowsBetween first last)
                (w1, listFilesOfDir fs1 (m_path w1), fs1) N1) as S.
  rewrite E in S. cbn [fst snd] in S.
  destruct (S i r Ii) as (r0 & I0 & E0).
  destruct (S j r' Ij) as (r0' & I0' & E0').
  rewrite E0, E0'. exact (D i j r0 r0' Hi Nij I0 I0').
Qed.

(** X5. After direction W has run to its end over the rows [first..last]
    of a tab whose rows have distinct identities, the base name of every row
    of the range differs from the base name of every other row of the tab;
    over all the rows, no two rows share a base name. *)
Theorem saveItems_completed_names_are_distinct {P : Platform} (first last : Z)
  (w : FileWatcher) (fs : FileSystem) :
  NoDup (map rowId (rows (m_model w))) ->
  m_valid (fst (Watcher.saveItems first last w fs)) = true ->
  forall i j r r',
    first <= i <= last -> i <> j ->
    ItemModel.index (m_model (fst (Watcher.saveItems first last w fs))) i
    = Some r ->
    ItemModel.index (m_model (fst (Watcher.saveItems first last w fs))) j
    = Some r' ->
    getBaseName (Some r) <> getBaseName (Some r').
Proof. exact (saveItems_completed_names_distinct first last w fs). Qed.

Lemma saveItems_completed_names_are_distinct_witness :
  let w' := fst (@Watcher.saveItems stubPlatform 0 1
                   (watcherOf "/sync" twoRowsNamedA) emptyDirectory) in
  map (fun r => getBaseName (Some r)) (rows (m_model w')) = ["a"; "a-1"]
  /\ getBaseName (Some (nth 0 (rows (m_model w')) (mkRow 0 [])))
     <> getBaseName (Some (nth 1 (rows (m_model w')) (mkRow 0 []))).
Proof.
  cbv zeta. split; [reflexivity|].
  apply (@saveItems_completed_names_are_distinct stubPlatform 0 1
           (watcherOf "/sync" twoRowsNamedA) emptyDirectory)
    with (i := 0) (j := 1).
  - repeat constructor; simpl; intuition discriminate.
  - reflexivity.
  - lia.
  - discriminate.
  - reflexivity.
  - reflexivity.
Defined.
Section ScannerFacts.

Variable fs : FileSystem.
Variable ue : list Ext.

Lemma listFilesStep_scanStep (fl : BaseNameExtensionsList) (fm : QMap.t Z)
  (q : QString) :
  MapInv fl fm ->
  exists fm',
    listFilesStep fs ue (fl, fm) q = (scanStep fs ue fl q, fm')
    /\ MapInv (scanStep fs ue fl q) fm'.
Proof.
  intros M. unfold scanStep.
  destruct (skipFile fs q) eqn:S.
  - exists fm. unfold listFilesStep. rewrite S. split; [reflexivity | exact M].
  - destruct (resolveExt q ue) as [e|] eqn:R.
    + exact (listFilesStep_keeps fs ue fl fm q e M S R).
    + exists fm. unfold listFilesStep. rewrite S, R.
      split; [reflexivity | exact M].
Qed.

Lemma listFiles_scanSteps (paths : QStringList) :
  forall (fl : BaseNameExtensionsList) (fm : QMap.t Z),
    MapInv fl fm ->
    fst (fold_left (listFilesStep fs ue) paths (fl, fm))
    = fold_left (scanStep fs ue) paths fl.
Proof.
  induction paths as [|q paths IH]; intros fl fm M; cbn [fold_left];
    [reflexivity|].
  destruct (listFilesStep_scanStep fl fm q M) as (fm' & -> & M').
  now apply IH.
Qed.

Lemma scanned_step (done : QStringList) (fl : BaseNameExtensionsList)
  (q : QString) :
  Scanned fs ue done fl -> Scanned fs ue (done ++ [q]) (scanStep fs ue fl q).
Proof.
  intros [Hn Hf Hs Hc].
  assert (Old : forall q0 e, In q0 (done ++ [q]) -> kept fs ue q0 e ->
                             In q0 done \/ q0 = q).
  { intros q0 e I _. apply in_app_or in I. destruct I as [I|[<-|[]]]; tauto. }
  unfold scanStep. destruct (skipFile fs q) eqn:S;
    [|destruct (resolveExt q ue) as [e|] eqn:R].
  - split; [exact Hn | exact Hf | |].
    + intros x e Ix Ie. destruct (Hs x e Ix Ie) as (q0 & I0 & K & E).
      exists q0. split; [apply in_or_app; now left | tauto].
    + intros q0 e I K. destruct (Old q0 e I K) as [I0| ->]; [now apply Hc|].
      destruct K as [K _]. congruence.
  - set (b := bucketName q e). split.
    + rewrite addToBucket_names.
      destruct (in_dec string_dec b (map baseName fl)) as [I|N]; [exact Hn|].
      apply NoDup_app; [exact Hn | repeat constructor; simpl; tauto|].
      intros x Ix [<-|[]]. contradiction.
    + intros x Ix. apply addToBucket_In in Ix.
      destruct Ix as [Ix|(_ & [E|(x0 & _ & _ & E)])]; [now apply Hf| |];
        rewrite E; [discriminate|]. destruct (exts x0); discriminate.
    + intros x e' Ix Ie. apply addToBucket_In in Ix.
      assert (New : exists q0, In q0 (done ++ [q]) /\ kept fs ue q0 e
                               /\ b = bucketName q0 e).
      { exists q. split; [apply in_or_app; right; now left|].
        split; [split; assumption | reflexivity]. }
      assert (Keep : forall x0, In x0 fl -> In e' (exts x0) ->
                exists q0, In q0 (done ++ [q]) /\ kept fs ue q0 e'
                           /\ baseName x0 = bucketName q0 e').
      { intros x0 I0 Ie0. destruct (Hs x0 e' I0 Ie0) as (q0 & Iq & K & E).
        exists q0. split; [apply in_or_app; now left | tauto]. }
      destruct Ix as [Ix|(Eb & [E|(x0 & I0 & E0 & E)])].
      * now apply Keep.
      * rewrite E in Ie. destruct Ie as [<-|[]]. now rewrite Eb.
      * rewrite E in Ie. apply in_app_or in Ie.
        destruct Ie as [Ie|[<-|[]]]; [|now rewrite Eb].
        rewrite Eb, <- E0. now apply Keep.
    + intros q0 e' I K. destruct (Old q0 e' I K) as [I0| ->].
      * destruct (Hc q0 e' I0 K) as (x0 & Ix0 & E0 & Ie0).
        destruct (addToBucket_grows b e fl x0 Ix0) as (x & Ix & E & Inc).
        exists x. split; [exact Ix|]. split; [congruence | now apply Inc].
      * destruct K as [_ K]. rewrite R in K. injection K as <-.
        apply addToBucket_has.
  - split; [exact Hn | exact Hf | |].
    + intros x e Ix Ie. destruct (Hs x e Ix Ie) as (q0 & I0 & K & E).
      exists q0. split; [apply in_or_app; now left | tauto].
    + intros q0 e I K. destruct (Old q0 e I K) as [I0| ->]; [now apply Hc|].
      destruct K as [_ K]. congruence.
Qed.

Lemma scanned_fold (paths : QStringList) :
  forall (done : QStringList) (fl : BaseNameExtensionsList),
    Scanned fs ue done fl ->
    Scanned fs ue (done ++ paths) (fold_left (scanStep fs ue) paths fl).
Proof.
  induction paths as [|q paths IH]; intros done fl H; simpl.
  - now rewrite app_nil_r.
  - replace (done ++ q :: paths) with ((done ++ [q]) ++ paths)
      by (rewrite <- app_assoc; reflexivity).
    apply IH. now apply scanned_step.
Qed.

End ScannerFacts.

Section FileNameFacts.

Lemma lastIndexOf_from_shift (s : QString) (c : ascii) :
  forall pos acc,
    QStr.lastIndexOf_from s c pos acc
    = if QStr.lastIndexOf s c =? -1 then acc else pos + QStr.lastIndexOf s c.
Proof.
  unfold QStr.lastIndexOf.
  induction s as [|a s IH]; intros pos acc; simpl; [reflexivity|].
  rewrite (IH (pos + 1)), (IH 1).
  pose proof (lastIndexOf_from_range s c 0 (-1)) as R. simpl in R.
  unfold QStr.size in R.
  destruct (QStr.lastIndexOf_from s c 0 (-1) =? -1) eqn:E.
  - destruct (Ascii.eqb a c); simpl; [symmetry; apply Z.add_0_r | reflexivity].
  - apply Z.eqb_neq in E.
    replace (1 + QStr.lastIndexOf_from s c 0 (-1) =? -1) with false
      by (symmetry; apply Z.eqb_neq; clear IH; lia).
    ring.
Qed.

Lemma lastIndexOf_cons (a c : ascii) (s : QString) :
  QStr.lastIndexOf (String a s) c
  = if QStr.lastIndexOf s c =? -1
    then (if Ascii.eqb a c then 0 else -1)
    else 1 + QStr.lastIndexOf s c.
Proof.
  unfold QStr.lastIndexOf at 1. simpl. apply lastIndexOf_from_shift.
Qed.

Lemma noSlash_lastIndexOf (s : QString) :
  noSlash s = (QStr.lastIndexOf s "/" =? -1).
Proof.
  induction s as [|a s IH]; [reflexivity|].
  rewrite lastIndexOf_cons. cbn [noSlash]. rewrite IH.
  destruct (lastIndexOf_range s "/") as [R|R].
  - rewrite R. change (-1 =? -1) with true. cbv iota.
    destruct (Ascii.eqb a "/"); reflexivity.
  - replace (QStr.lastIndexOf s "/" =? -1) with false
      by (symmetry; apply Z.eqb_neq; lia).
    rewrite andb_false_r. symmetry. apply Z.eqb_neq. lia.
Qed.

Lemma mid_0 (s : QString) : QStr.mid s 0 = s.
Proof.
  unfold QStr.mid, QStr.size.
  replace (Z.of_nat (String.length s) <? 0) with false
    by (symmetry; apply Z.ltb_ge; lia).
  simpl. rewrite Nat.sub_0_r. apply substring_0_length.
Qed.

Lemma mid_cons (a : ascii) (s : QString) (n : Z) :
  0 <= n -> QStr.mid (String a s) (n + 1) = QStr.mid s n.
Proof.
  intros Hn. unfold QStr.mid, QStr.size. simpl String.length.
  destruct (Z.of_nat (String.length s) <? n) eqn:L.
  - replace (Z.of_nat (S (String.length s)) <? n + 1) with true
      by (symmetry; apply Z.ltb_lt; apply Z.ltb_lt in L; lia).
    reflexivity.
  - replace (Z.of_nat (S (String.length s)) <? n + 1) with false
      by (symmetry; apply Z.ltb_ge; apply Z.ltb_ge in L; lia).
    replace (Z.to_nat (n + 1)) with (S (Z.to_nat n)) by lia.
    reflexivity.
Qed.

Lemma fileName_afterLastSlash (s : QString) :
  FS.fileName s = afterLastSlash s.
Proof.
  unfold FS.fileName. induction s as [|a s IH]; [reflexivity|].
  simpl afterLastSlash. rewrite lastIndexOf_cons, noSlash_lastIndexOf.
  destruct (lastIndexOf_range s "/") as [R|R].
  - rewrite R. simpl (-1 =? -1).  cbv iota.
    destruct (Ascii.eqb a "/").
    + change (0 + 1) with (0 + 1). rewrite (mid_cons a s 0) by lia.
      apply mid_0.
    + apply mid_0.
  - replace (QStr.lastIndexOf s "/" =? -1) with false
      by (symmetry; apply Z.eqb_neq; lia).
    rewrite <- IH.
    replace (1 + QStr.lastIndexOf s "/" + 1)
      with ((QStr.lastIndexOf s "/" + 1) + 1) by lia.
    apply mid_cons. lia.
Qed.

Lemma endsWith_nil (s : QString) : QStr.endsWith s "" = true.
Proof.
  pose proof (endsWith_append s "") as A. now rewrite append_nil_r in A.
Qed.

Lemma endsWith_cons (a : ascii) (s x : QString) :
  QStr.endsWith (String a s) x = true ->
  x = String a s \/ QStr.endsWith s x = true.
Proof.
  unfold QStr.endsWith. simpl String.length. intros H.
  apply andb_true_iff in H. destruct H as [L E].
  apply Nat.leb_le in L.
  destruct (Nat.eq_dec (String.length x) (S (String.length s))) as [Eq|Ne].
  - left. rewrite Eq, Nat.sub_diag in E. apply String.eqb_eq in E.
    rewrite <- E. exact (substring_0_length (String a s)).
  - right. apply andb_true_iff. split; [apply Nat.leb_le; lia|].
    replace (S (String.length s) - String.length x)%nat
      with (S (String.length s - String.length x)) in E by lia.
    exact E.
Qed.

Lemma afterLastSlash_endsWith (s x : QString) :
  QStr.endsWith s x = true -> noSlash x = true ->
  QStr.endsWith (afterLastSlash s) x = true.
Proof.
  intros E N. induction s as [|a s IH].
  - exact E.
  - simpl. destruct (noSlash s) eqn:Ns.
    + destruct (Ascii.eqb a "/") eqn:A; [|exact E].
      destruct (endsWith_cons a s x E) as [->|E']; [|exact E'].
      simpl in N. rewrite A in N. discriminate.
    + destruct (endsWith_cons a s x E) as [->|E']; [|now apply IH].
      simpl in N. rewrite Ns, andb_false_r in N. discriminate.
Qed.

Lemma findByExtension_spec (q : QString) (l : list Ext) :
  (In (findByExtension q l) l
   /\ QStr.endsWith q (extension (findByExtension q l)) = true)
  \/ findByExtension q l = mkExt "" "".
Proof.
  induction l as [|e l IH]; simpl; [now right|].
  destruct (QStr.endsWith q (extension e)) eqn:E.
  - left. split; [now left | exact E].
  - destruct IH as [[I H]|H]; [left; split; [now right | exact H] | now right].
Qed.

Lemma builtin_noSlash (e : Ext) :
  In e fileExtensionsAndFormats -> noSlash (extension e) = true.
Proof.
  assert (A : forallb (fun e => noSlash (extension e)) fileExtensionsAndFormats
              = true) by reflexivity.
  rewrite forallb_forall in A. exact (A e).
Qed.

Lemma builtin_fileName (q : QString) :
  QStr.endsWith (FS.fileName q)
                (extension (findByExtension q fileExtensionsAndFormats)) = true.
Proof.
  destruct (findByExtension_spec q fileExtensionsAndFormats) as [[I E]| ->].
  - rewrite fileName_afterLastSlash.
    apply afterLastSlash_endsWith; [exact E | now apply builtin_noSlash].
  - apply endsWith_nil.
Qed.

(** The name of a file the scanner keeps is the base name it is given
    followed by the extension settled on. *)
Lemma kept_fileName (fs : FileSystem) (ue : list Ext) (q : QString) (e : Ext) :
  kept fs ue q e -> FS.fileName q = bucketName q e +++ extension e.
Proof.
  intros [_ R]. symmetry. apply left_suffix_join.
  unfold resolveExt in R.
  destruct (QStr.isEmpty (extension (findByExtension q ue))).
  - destruct (QStr.isEmpty (format (findByExtension q fileExtensionsAndFormats)));
      [discriminate|].
    injection R as <-. apply builtin_fileName.
  - destruct (String.eqb (format (findByExtension q ue)) "-"); [discriminate|].
    destruct (QStr.isEmpty (format (findByExtension q ue))).
    + injection R as <-. apply builtin_fileName.
    + injection R as <-. apply endsWith_nil.
Qed.

End FileNameFacts.

(** X6. Whatever the files, the listing and the user's formats, the
    scanner makes one bucket for each base name, every bucket holds at least
    one extension, every extension of a bucket stands for a listed path that
    was not skipped and whose file name is the base name of the bucket
    followed by that extension, and every such path is in a bucket. *)
Theorem listFiles_buckets (fs : FileSystem) (paths : QStringList)
  (fmts : list FileFormat) :
  let fl := listFiles fs paths fmts in
  let ue := userExtensions fmts in
  NoDup (map baseName fl)
  /\ (forall x, In x fl -> exts x <> [])
  /\ (forall x e, In x fl -> In e (exts x) ->
                  exists q, In q paths /\ kept fs ue q e
                            /\ FS.fileName q = baseName x +++ extension e)
  /\ (forall q e, In q paths -> kept fs ue q e ->
                  exists x, In x fl /\ In e (exts x)
                            /\ FS.fileName q = baseName x +++ extension e).
Proof.
  cbv zeta.
  assert (L : listFiles fs paths fmts
              = fold_left (scanStep fs (userExtensions fmts)) paths []).
  { unfold listFiles. apply listFiles_scanSteps. intros b. reflexivity. }
  rewrite L.
  assert (S0 : Scanned fs (userExtensions fmts) [] []).
  { split; [constructor | intros x [] | intros x e [] | intros q e []]. }
  destruct (scanned_fold fs (userExtensions fmts) paths [] [] S0)
    as [Hn Hf Hs Hc].
  cbn [app] in Hs, Hc.
  split; [exact Hn|]. split; [exact Hf|]. split.
  - intros x e Ix Ie. destruct (Hs x e Ix Ie) as (q & Iq & K & E).
    exists q. split; [exact Iq|]. split; [exact K|].
    rewrite E. now apply (kept_fileName fs (userExtensions fmts)).
  - intros q e Iq K. destruct (Hc q e Iq K) as (x & Ix & E & Ie).
    exists x. split; [exact Ix|]. split; [exact Ie|].
    rewrite E. now apply (kept_fileName fs (userExtensions fmts)).
Qed.
Section WatchFacts.

Context {P : Platform}.

Lemma extendsWatch_refl (x : QFileSystemWatcher) : extendsWatch x x.
Proof. split; [apply incl_refl | split; [tauto | reflexivity]]. Qed.

Lemma extendsWatch_trans (x y z : QFileSystemWatcher) :
  extendsWatch x y -> extendsWatch y z -> extendsWatch x z.
Proof.
  intros (A1 & A2 & A3) (B1 & B2 & B3).
  split; [eapply incl_tran; eassumption|]. split; [tauto | congruence].
Qed.

Lemma watchPath_extends (x : QFileSystemWatcher) (path : QString) :
  extendsWatch x (watchPath x path) /\ In path (watchedFiles (watchPath x path)).
Proof.
  unfold watchPath. destruct (QStr.contains (watchedFiles x) path) eqn:C;
    cbn [negb].
  - split; [apply extendsWatch_refl | now apply contains_In].
  - split.
    + split; [apply incl_appl, incl_refl|]. split; [|reflexivity].
      cbn [watchedFiles]. intros N. apply NoDup_app; [exact N | |].
      * repeat constructor. simpl. tauto.
      * intros y Iy [<-|[]]. apply contains_In in Iy. congruence.
    + cbn [watchedFiles]. apply in_or_app. right. now left.
Qed.

Lemma updateDataStep_extends (fs : FileSystem) (dir basePath : QString)
  (st : QVariantMap * QVariantMap * QFileSystemWatcher) (ext : Ext) :
  extendsWatch (snd st) (snd (updateDataStep fs dir basePath st ext)).
Proof.
  destruct st as [[d m] x]. unfold updateDataStep.
  destruct (FS.openRead fs _) as [f|]; [|apply extendsWatch_refl].
  destruct (if QStr.endsWith _ dataFileSuffix then _ else _) as [decoded d'].
  destruct decoded; [apply watchPath_extends|].
  destruct (_ || _); apply watchPath_extends.
Qed.

Lemma updateDataAndWatchFile_extends (fs : FileSystem) (dir : QString)
  (b : BaseNameExtensions)
  (st : QVariantMap * QVariantMap * QFileSystemWatcher) :
  extendsWatch (snd st) (snd (updateDataAndWatchFile fs dir b st)).
Proof.
  unfold updateDataAndWatchFile. revert st.
  induction (exts b) as [|e es IH]; intros st; simpl.
  - apply extendsWatch_refl.
  - eapply extendsWatch_trans; [apply updateDataStep_extends | apply IH].
Qed.

Lemma updateRows_extends (fs : FileSystem) (dir : QString) (rs : list Row) :
  forall (fl : BaseNameExtensionsList) (x : QFileSystemWatcher) (idx : IndexMap),
    extendsWatch x
      (snd (fst (snd (Watcher.updateRows fs dir rs (fl, x, idx))))).
Proof.
  induction rs as [|r rs IH]; intros fl x idx; simpl.
  - apply extendsWatch_refl.
  - destruct (Watcher.takeBucket (getBaseName (Some r)) fl) as [[b fl']|].
    + pose proof (updateDataAndWatchFile_extends fs dir b
                    (QMap.empty, QMap.empty, x)) as U.
      destruct (updateDataAndWatchFile fs dir b (QMap.empty, QMap.empty, x))
        as [[d m] x1]. cbn [snd] in U.
      destruct (QMap.isEmpty m).
      * eapply extendsWatch_trans; [exact U | apply IH].
      * specialize (IH fl' x1 idx).
        destruct (Watcher.updateRows fs dir rs (fl', x1, idx))
          as [rest [[fl2 x2] idx2]]. cbn [fst snd] in *.
        eapply extendsWatch_trans; eassumption.
    + cbn [QMap.isEmpty QMap.empty]. apply IH.
Qed.

Lemma createItem_watcher (d : QVariantMap) (w : FileWatcher) :
  m_watcher (snd (Watcher.createItem d w)) = m_watcher w.
Proof.
  unfold Watcher.createItem, ItemModel.insertRow0. cbn [negb].
  cbv beta iota zeta.
  destruct (ItemModel.index _ 0); reflexivity.
Qed.

Lemma createItemsLoop_extends (fs : FileSystem) (dir : QString) (mx : Z)
  (fl : BaseNameExtensionsList) :
  forall w : FileWatcher,
    extendsWatch (m_watcher w)
      (m_watcher (snd (Watcher.createItemsLoop fs dir mx fl w))).
Proof.
  induction fl as [|b fl IH]; intros w; cbn [Watcher.createItemsLoop].
  - apply extendsWatch_refl.
  - pose proof (updateDataAndWatchFile_extends fs dir b
                  (QMap.empty, QMap.empty, m_watcher w)) as U.
    destruct (updateDataAndWatchFile fs dir b
                (QMap.empty, QMap.empty, m_watcher w)) as [[d m] x1].
    cbn [snd] in U.
    destruct (negb (QMap.isEmpty m)).
    + pose proof (createItem_watcher
                    (QMap.insert mimeExtensionMap (VMap m)
                       (QMap.insert mimeBaseName
                          (VString (FS.fileName (baseName b))) d))
                    (Watcher.setWatcher w x1)) as C.
      destruct (Watcher.createItem _ (Watcher.setWatcher w x1)) as [ok w1].
      cbn [snd Watcher.setWatcher m_watcher] in C.
      destruct ok; cbn [negb snd].
      * destruct (ItemModel.rowCount (m_model w1) >=? mx); cbn [snd].
        -- now rewrite C.
        -- eapply extendsWatch_trans; [|apply IH]. now rewrite C.
      * now rewrite C.
    + eapply extendsWatch_trans; [|apply IH]. exact U.
Qed.

Lemma watchAll_extends (dir : QString) (files : QStringList) :
  forall x : QFileSystemWatcher,
    let x' := fold_left (fun x fileName =>
                           watchPath x (FS.absoluteFilePath dir fileName))
                        files x in
    extendsWatch x x'
    /\ forall q, In q files ->
                 In (FS.absoluteFilePath dir q) (watchedFiles x').
Proof.
  induction files as [|f files IH]; intros x; simpl.
  - split; [apply extendsWatch_refl | tauto].
  - destruct (watchPath_extends x (FS.absoluteFilePath dir f)) as [E I].
    destruct (IH (watchPath x (FS.absoluteFilePath dir f))) as [E' I'].
    split; [eapply extendsWatch_trans; eassumption|].
    intros q [<-|Iq]; [|now apply I'].
    destruct E' as [Inc _]. now apply Inc.
Qed.

End WatchFacts.

(** X7. Direction R only extends the watch set of the watcher: every file
    that was watched stays watched, no file comes to be watched twice, the
    watched directories stay, and every path of the listing is watched in the
    end. *)
Theorem updateItems_watches_listing {P : Platform} (dir : QString)
  (files : QStringList) (w : FileWatcher) (fs : FileSystem) :
  let w' := Watcher.updateItemsFrom dir files w fs in
  extendsWatch (m_watcher w) (m_watcher w')
  /\ forall q, In q files ->
               In (FS.absoluteFilePath dir q) (watchedFiles (m_watcher w')).
Proof.
  cbv zeta. unfold Watcher.updateItemsFrom.
  cbn [Watcher.disconnectModel Watcher.setValid Watcher.setModel m_model
       m_watcher m_formatSettings m_indexToBaseName rows ItemModel.setDisabled].
  pose proof (updateRows_extends fs dir (rows (m_model w))
                (listFiles fs files (m_formatSettings w)) (m_watcher w)
                (m_indexToBaseName w)) as U.
  destruct (Watcher.updateRows fs dir (rows (m_model w)) _)
    as [rs [[fl x] idx]]. cbn [fst snd] in U.
  match goal with
  | |- context [Watcher.createItemsFromFiles fs dir fl ?w0] =>
      pose proof (createItemsLoop_extends fs dir
                    (maxItems (m_model (Watcher.disconnectModel w0))) fl
                    (Watcher.disconnectModel w0)) as C;
      unfold Watcher.createItemsFromFiles;
      destruct (Watcher.createItemsLoop fs dir _ fl (Watcher.disconnectModel w0))
        as [ok w1]
  end.
  cbn [snd Watcher.disconnectModel Watcher.setValid Watcher.setIndexToBaseName
       Watcher.setWatcher Watcher.setModel m_watcher] in C.
  assert (C' : extendsWatch (m_watcher w) (m_watcher w1))
    by (eapply extendsWatch_trans; eassumption).
  assert (K : forall w2 : FileWatcher,
             m_watcher w2 = m_watcher w1 ->
             let w3 := Watcher.connectModel
                         (Watcher.setModel
                            (Watcher.setWatcher w2
                               (fold_left
                                  (fun x0 fileName =>
                                     watchPath x0
                                       (FS.absoluteFilePath dir fileName))
                                  files (m_watcher w2)))
                            (ItemModel.setDisabled
                               (m_model
                                  (Watcher.setWatcher w2
                                     (fold_left
                                        (fun x0 fileName =>
                                           watchPath x0
                                             (FS.absoluteFilePath dir fileName))
                                        files (m_watcher w2))))
                               false)) in
             extendsWatch (m_watcher w) (m_watcher w3)
             /\ forall q, In q files ->
                          In (FS.absoluteFilePath dir q)
                             (watchedFiles (m_watcher w3))).
  { intros w2 E. cbv zeta.
    cbn [Watcher.connectModel Watcher.setValid Watcher.setModel
         Watcher.setWatcher m_watcher].
    rewrite E. destruct (watchAll_extends dir files (m_watcher w1)) as [A B].
    split; [eapply extendsWatch_trans; eassumption | exact B]. }
  destruct ok.
  - apply (K (Watcher.connectModel w1)). reflexivity.
  - apply (K w1). reflexivity.
Qed.

Section ReadRowsFacts.

Context {P : Platform}.

Lemma hydrated_idName (id : Z) (name : QString) (d m : QVariantMap) :
  let r := mkRow id (QMap.insert mimeExtensionMap (VMap m)
                       (QMap.insert mimeBaseName (VString name) d)) in
  idName r = (id, name) /\ extensionMapOf r = m.
Proof.
  cbv zeta. unfold idName, getBaseName, extensionMapOf, value.
  cbn [ItemModel.data rowData rowId].
  rewrite !find_insert, String.eqb_refl.
  change (String.eqb mimeBaseName mimeExtensionMap) with false.
  cbv iota. rewrite String.eqb_refl. split; reflexivity.
Qed.

Lemma updateRows_kept (fs : FileSystem) (dir : QString) (rs : list Row) :
  forall st : BaseNameExtensionsList * QFileSystemWatcher * IndexMap,
    let ks := fst (Watcher.updateRows fs dir rs st) in
    Subseq (Z * QString) (map idName ks) (map idName rs)
    /\ Forall hasFiles ks.
Proof.
  induction rs as [|r rs IH]; intros [[fl x] idx]; cbv zeta.
  - simpl. split; constructor.
  - cbn [Watcher.updateRows map].
    destruct (match Watcher.takeBucket (getBaseName (Some r)) fl with
              | Some (b, fl') => _
              | None => _
              end) as [[[d m] x1] fl1].
    destruct (QMap.isEmpty m) eqn:E.
    + destruct (IH (fl1, x1,
                    match rs with
                    | r' :: _ =>
                        IndexMap.remove (rowId r')
                          (IndexMap.remove (rowId r) idx)
                    | [] => IndexMap.remove (rowId r) idx
                    end)) as [S F].
      split; [now apply Subseq_skip | exact F].
    + destruct (IH (fl1, x1, idx)) as [S F].
      destruct (Watcher.updateRows fs dir rs (fl1, x1, idx)) as [rest st'].
      cbn [fst map] in *.
      destruct (hydrated_idName (rowId r) (getBaseName (Some r)) d m) as [I M].
      cbv zeta in I, M. rewrite I. split.
      * now apply Subseq_keep.
      * constructor; [|exact F]. unfold hasFiles. now rewrite M.
Qed.

Lemma createItem_row (d : QVariantMap) (w : FileWatcher) :
  fst (Watcher.createItem d w) = true
  /\ rows (m_model (snd (Watcher.createItem d w)))
     = mkRow (nextRowId (m_model w)) (ItemModel.mergeData QMap.empty d)
       :: rows (m_model w)
  /\ nextRowId (m_model (snd (Watcher.createItem d w)))
     = nextRowId (m_model w) + 1
  /\ maxItems (m_model (snd (Watcher.createItem d w))) = maxItems (m_model w).
Proof.
  unfold Watcher.createItem, ItemModel.insertRow0. cbv beta iota zeta.
  cbn [ItemModel.index rows Z.ltb Z.compare Z.to_nat nth_error ItemModel.setData
       ItemModel.withRows ItemModel.setRowData rowId ItemModel.data rowData
       tabName maxItems disabled dirty nextRowId].
  rewrite Z.eqb_refl.
  cbn [ItemModel.index rows Z.ltb Z.compare Z.to_nat nth_error
       Watcher.rememberBaseName Watcher.setIndexToBaseName Watcher.setModel
       m_model fst snd nextRowId maxItems].
  repeat split.
Qed.

Lemma createItemsLoop_rows (fs : FileSystem) (dir : QString) (mx : Z)
  (fl : BaseNameExtensionsList) :
  forall w : FileWatcher,
    let w' := snd (Watcher.createItemsLoop fs dir mx fl w) in
    exists created,
      rows (m_model w') = created ++ rows (m_model w)
      /\ map rowId created
         = rev (rowRange (nextRowId (m_model w)) (List.length created))
      /\ nextRowId (m_model w')
         = nextRowId (m_model w) + Z.of_nat (List.length created).
Proof.
  induction fl as [|b fl IH]; intros w; cbv zeta;
    cbn [Watcher.createItemsLoop].
  - exists []. cbn [snd]. repeat split. simpl. lia.
  - destruct (updateDataAndWatchFile fs dir b
                (QMap.empty, QMap.empty, m_watcher w)) as [[d m] x1].
    assert (Skip : forall w0 : FileWatcher,
               m_model w0 = m_model w ->
               exists created,
                 rows (m_model (snd (Watcher.createItemsLoop fs dir mx fl w0)))
                 = created ++ rows (m_model w)
                 /\ map rowId created
                    = rev (rowRange (nextRowId (m_model w))
                                    (List.length created))
                 /\ nextRowId
                      (m_model (snd (Watcher.createItemsLoop fs dir mx fl w0)))
                    = nextRowId (m_model w) + Z.of_nat (List.length created)).
    { intros w0 E. specialize (IH w0). cbv zeta in IH. now rewrite E in IH. }
    destruct (negb (QMap.isEmpty m)); [|now apply Skip].
    set (d' := QMap.insert mimeExtensionMap (VMap m)
                 (QMap.insert mimeBaseName
                    (VString (FS.fileName (baseName b))) d)).
    destruct (createItem_row d' (Watcher.setWatcher w x1)) as (Ok & R & Nx & _).
    destruct (Watcher.createItem d' (Watcher.setWatcher w x1)) as [ok w1].
    cbn [fst snd Watcher.setWatcher m_model] in Ok, R, Nx. subst ok.
    cbn [negb].
    assert (One : exists created,
               rows (m_model w1) = created ++ rows (m_model w)
               /\ map rowId created
                  = rev (rowRange (nextRowId (m_model w))
                                  (List.length created))
               /\ nextRowId (m_model w1)
                  = nextRowId (m_model w) + Z.of_nat (List.length created)).
    { eexists [_]. split; [exact R|]. split; [reflexivity|]. simpl. lia. }
    destruct (ItemModel.rowCount (m_model w1) >=? mx); [exact One|].
    destruct (IH w1) as (created & Rc & Ic & Nc). cbv zeta in Rc, Ic, Nc.
    exists (created ++ [mkRow (nextRowId (m_model w))
                          (ItemModel.mergeData QMap.empty d')]).
    split; [rewrite Rc, R, <- app_assoc; reflexivity|]. split.
    + rewrite map_app, Ic, Nx, length_app, Nat.add_comm. cbn [List.length].
      rewrite rowRange_succ. cbn [rev map rowId]. reflexivity.
    + rewrite Nc, Nx, length_app. cbn [List.length]. lia.
Qed.

End ReadRowsFacts.

(** X8. Direction R leaves the rows it keeps in their order, each with the
    identity and the base name it had and with an extension map that is not
    empty, and puts the rows it makes before them, with identities the model
    had not given out. *)
Theorem updateItems_keeps_rows_in_order {P : Platform} (dir : QString)
  (files : QStringList) (w : FileWatcher) (fs : FileSystem) :
  let w' := Watcher.updateItemsFrom dir files w fs in
  exists created kept,
    rows (m_model w') = created ++ kept
    /\ Subseq (Z * QString) (map idName kept) (map idName (rows (m_model w)))
    /\ Forall hasFiles kept
    /\ map rowId created
       = rev (rowRange (nextRowId (m_model w)) (List.length created)).
Proof.
  cbv zeta. unfold Watcher.updateItemsFrom.
  cbn [Watcher.disconnectModel Watcher.setValid Watcher.setModel m_model
       m_watcher m_formatSettings m_indexToBaseName rows ItemModel.setDisabled].
  destruct (updateRows_kept fs dir (rows (m_model w))
              (listFiles fs files (m_formatSettings w), m_watcher w,
               m_indexToBaseName w)) as [S F].
  destruct (Watcher.updateRows fs dir (rows (m_model w)) _)
    as [kept [[fl x] idx]]. cbn [fst] in S, F.
  unfold Watcher.createItemsFromFiles.
  match goal with
  | |- context [Watcher.createItemsLoop fs dir ?mx fl ?w0] =>
      destruct (createItemsLoop_rows fs dir mx fl w0) as (created & R & I & _);
      destruct (Watcher.createItemsLoop fs dir mx fl w0) as [ok w1]
  end.
  cbn [snd Watcher.disconnectModel Watcher.setValid Watcher.setIndexToBaseName
       Watcher.setWatcher Watcher.setModel m_model ItemModel.withRows rows
       nextRowId] in R, I.
  exists created, kept.
  destruct ok;
    cbn [Watcher.connectModel Watcher.setValid Watcher.setModel
         Watcher.setWatcher m_model ItemModel.setDisabled rows];
    (split; [exact R|]); (split; [exact S|]); (split; [exact F | exact I]).
Qed.

Section DroppedRowsFacts.

Context {P : Platform}.

Lemma updateRows_kept_from (fs : FileSystem) (dir : QString) (rs : list Row) :
  forall (fl : BaseNameExtensionsList) (x : QFileSystemWatcher) (idx : IndexMap)
         (k : Row),
    In k (fst (Watcher.updateRows fs dir rs (fl, x, idx))) ->
    exists r0, In r0 rs /\ rowId k = rowId r0
               /\ In (getBaseName (Some r0)) (map baseName fl).
Proof.
  induction rs as [|r rs IH]; intros fl x idx k; [intros []|].
  cbn [Watcher.updateRows].
  pose proof (takeBucket_spec (getBaseName (Some r)) fl) as T.
  assert (Rest : forall fl' x' idx',
             incl (map baseName fl') (map baseName fl) ->
             In k (fst (Watcher.updateRows fs dir rs (fl', x', idx'))) ->
             exists r0, In r0 (r :: rs) /\ rowId k = rowId r0
                        /\ In (getBaseName (Some r0)) (map baseName fl)).
  { intros fl' x' idx' Inc I. destruct (IH fl' x' idx' k I) as (r0 & I0 & E & N).
    exists r0. split; [now right|]. split; [exact E | now apply Inc]. }
  destruct (Watcher.takeBucket (getBaseName (Some r)) fl) as [[b fl']|].
  - destruct T as (Eb & l1 & l2 & Efl & Efl').
    assert (Inc : incl (map baseName fl') (map baseName fl)).
    { rewrite Efl, Efl', !map_app. intros n I. apply in_app_or in I.
      apply in_or_app. destruct I as [I|I]; [now left | right; now right]. }
    destruct (updateDataAndWatchFile fs dir b (QMap.empty, QMap.empty, x))
      as [[d m] x1].
    destruct (QMap.isEmpty m); [now apply Rest|].
    destruct (Watcher.updateRows fs dir rs (fl', x1, idx)) as [rest st'] eqn:U.
    cbn [fst]. intros [<-|I].
    + exists r. split; [now left|]. split; [reflexivity|].
      rewrite <- Eb, Efl, map_app. apply in_or_app. right. now left.
    + assert (I' : In k (fst (Watcher.updateRows fs dir rs (fl', x1, idx))))
        by (rewrite U; exact I).
      exact (Rest fl' x1 idx Inc I').
  - cbn [QMap.isEmpty QMap.empty]. apply Rest. apply incl_refl.
Qed.

End DroppedRowsFacts.

(** X9. A row whose base name is the base name of no bucket of the scan
    is not in the tab after direction R, when the rows have distinct
    identities that the model has given out. *)
Theorem updateItems_drops_rows_without_files {P : Platform} (dir : QString)
  (files : QStringList) (w : FileWatcher) (fs : FileSystem) (r : Row) :
  NoDup (map rowId (rows (m_model w))) ->
  (forall r0, In r0 (rows (m_model w)) -> rowId r0 < nextRowId (m_model w)) ->
  In r (rows (m_model w)) ->
  ~ In (getBaseName (Some r))
       (map baseName (listFiles fs files (m_formatSettings w))) ->
  ~ In (rowId r)
       (map rowId (rows (m_model (Watcher.updateItemsFrom dir files w fs)))).
Proof.
  intros N Lt Ir Nb. unfold Watcher.updateItemsFrom.
  cbn [Watcher.disconnectModel Watcher.setValid Watcher.setModel m_model
       m_watcher m_formatSettings m_indexToBaseName rows ItemModel.setDisabled].
  pose proof (updateRows_kept_from fs dir (rows (m_model w))
                (listFiles fs files (m_formatSettings w)) (m_watcher w)
                (m_indexToBaseName w)) as K.
  destruct (Watcher.updateRows fs dir (rows (m_model w)) _)
    as [kept [[fl x] idx]]. cbn [fst] in K.
  unfold Watcher.createItemsFromFiles.
  match goal with
  | |- context [Watcher.createItemsLoop fs dir ?mx fl ?w0] =>
      destruct (createItemsLoop_rows fs dir mx fl w0) as (created & R & I & _);
      destruct (Watcher.createItemsLoop fs dir mx fl w0) as [ok w1]
  end.
  cbn [snd Watcher.disconnectModel Watcher.setValid Watcher.setIndexToBaseName
       Watcher.setWatcher Watcher.setModel m_model ItemModel.withRows rows
       nextRowId] in R, I.
  assert (Goal' : ~ In (rowId r) (map rowId (rows (m_model w1)))).
  { rewrite R, map_app. intros C. apply in_app_or in C. destruct C as [C|C].
    - rewrite I in C. rewrite <- in_rev in C. apply rowRange_In in C.
      cbn [ItemModel.setDisabled nextRowId] in C. specialize (Lt r Ir). lia.
    - apply in_map_iff in C. destruct C as (k & Ek & Ik).
      destruct (K k Ik) as (r0 & I0 & E0 & N0).
      assert (r0 = r).
      { eapply NoDup_map_In_inj; [exact N | exact I0 | exact Ir | congruence]. }
      subst r0. contradiction. }
  destruct ok; exact Goal'.
Qed.

Lemma updateItems_drops_rows_without_files_witness :
  let w := watcherOf "/sync" noteAndPicture in
  rows (m_model (@Watcher.updateItemsFrom stubPlatform "/sync" [] w
                   emptyDirectory)) = []
  /\ ~ In 1 (map rowId
               (rows (m_model (@Watcher.updateItemsFrom stubPlatform "/sync" []
                                 w emptyDirectory)))).
Proof.
  cbv zeta. split; [reflexivity|].
  apply (@updateItems_drops_rows_without_files stubPlatform "/sync" []
           (watcherOf "/sync" noteAndPicture) emptyDirectory
           (itemRow 1 "pic" [("image/png", bytesOf "PNG")])).
  - repeat constructor; simpl; intuition discriminate.
  - intros r0 [<-|[<-|[]]]; reflexivity.
  - right. left. reflexivity.
  - simpl. tauto.
Defined.

Section MaxItemsFacts.

Context {P : Platform}.

Lemma createItemsLoop_count (fs : FileSystem) (dir : QString) (mx : Z)
  (fl : BaseNameExtensionsList) :
  forall w : FileWatcher,
    let c := ItemModel.rowCount (m_model w) in
    let c' := ItemModel.rowCount
                (m_model (snd (Watcher.createItemsLoop fs dir mx fl w))) in
    c <= c' <= Z.max mx (c + 1).
Proof.
  induction fl as [|b fl IH]; intros w; cbv zeta;
    cbn [Watcher.createItemsLoop].
  - cbn [snd]. lia.
  - destruct (updateDataAndWatchFile fs dir b
                (QMap.empty, QMap.empty, m_watcher w)) as [[d m] x1].
    destruct (negb (QMap.isEmpty m)).
    + set (d' := QMap.insert mimeExtensionMap (VMap m)
                   (QMap.insert mimeBaseName
                      (VString (FS.fileName (baseName b))) d)).
      destruct (createItem_row d' (Watcher.setWatcher w x1)) as (Ok & R & _).
      destruct (Watcher.createItem d' (Watcher.setWatcher w x1)) as [ok w1].
      cbn [fst snd Watcher.setWatcher m_model] in Ok, R. subst ok.
      cbn [negb].
      assert (C1 : ItemModel.rowCount (m_model w1)
                   = ItemModel.rowCount (m_model w) + 1).
      { unfold ItemModel.rowCount. rewrite R. cbn [List.length]. lia. }
      destruct (ItemModel.rowCount (m_model w1) >=? mx) eqn:G; cbn [snd].
      * lia.
      * specialize (IH w1). cbv zeta in IH.
        assert (ItemModel.rowCount (m_model w1) < mx).
        { rewrite Z.geb_leb in G. apply Z.leb_gt in G. exact G. }
        lia.
    + specialize (IH (Watcher.setWatcher w x1)). cbv zeta in IH.
      cbn [Watcher.setWatcher m_model] in IH. exact IH.
Qed.

End MaxItemsFacts.

(** X10. Making items from files removes no row and stops at the limit of
    the tab: a tab below its limit of items is not taken beyond it, and a tab
    at or beyond its limit gets one row at most. *)
Theorem createItemsFromFiles_respects_maxItems {P : Platform}
  (fs : FileSystem) (dir : QString) (fl : BaseNameExtensionsList)
  (w : FileWatcher) :
  let c := ItemModel.rowCount (m_model w) in
  let c' := ItemModel.rowCount
              (m_model (snd (Watcher.createItemsFromFiles fs dir fl w))) in
  c <= c' <= Z.max (maxItems (m_model w)) (c + 1).
Proof.
  cbv zeta. unfold Watcher.createItemsFromFiles.
  pose proof (createItemsLoop_count fs dir
                (maxItems (m_model (Watcher.disconnectModel w))) fl
                (Watcher.disconnectModel w)) as C.
  cbv zeta in C.
  destruct (Watcher.createItemsLoop fs dir _ fl (Watcher.disconnectModel w))
    as [ok w1].
  cbn [snd Watcher.disconnectModel Watcher.setValid m_model] in C.
  destruct ok; cbn [snd Watcher.connectModel Watcher.setValid m_model]; exact C.
Qed.

Section ConstructorFacts.

Context {P : Platform}.

Lemma rowRange_NoDup (n : nat) (i : Z) : NoDup (rowRange i n).
Proof.
  revert i. induction n as [|n IH]; intros i; simpl; constructor.
  - intros C. apply rowRange_In in C. lia.
  - apply IH.
Qed.

Lemma distinct_names_NoDup (rs : list Row) :
  (forall (i j : nat) (r r' : Row),
      i <> j -> nth_error rs i = Some r -> nth_error rs j = Some r' ->
      getBaseName (Some r) <> getBaseName (Some r')) ->
  NoDup (map (fun r => getBaseName (Some r)) rs).
Proof.
  intros D. apply NoDup_nth_error. intros i j Li E.
  rewrite length_map in Li.
  destruct (Nat.eq_dec i j) as [->|Ne]; [reflexivity|]. exfalso.
  rewrite !nth_error_map in E.
  destruct (nth_error rs i) as [r|] eqn:Ei;
    [|apply nth_error_None in Ei; lia].
  destruct (nth_error rs j) as [r'|] eqn:Ej; [|discriminate].
  injection E as E. exact (D i j r r' Ne Ei Ej E).
Qed.

Lemma index_nth_error (m : Model) (i : nat) :
  ItemModel.index m (Z.of_nat i) = nth_error (rows m) i.
Proof.
  unfold ItemModel.index.
  replace (Z.of_nat i <? 0) with false by (symmetry; apply Z.ltb_ge; lia).
  now rewrite Nat2Z.id.
Qed.

End ConstructorFacts.

(** X11. A watcher that its constructor leaves valid watches a tab in
    which no two rows share a base name, when the rows of the tab it was
    given had distinct identities that the model had given out. *)
Theorem create_valid_names_are_distinct {P : Platform} (path : QString)
  (paths : QStringList) (model : Model) (fmts : list FileFormat)
  (fs : FileSystem) :
  NoDup (map rowId (rows model)) ->
  (forall r, In r (rows model) -> rowId r < nextRowId model) ->
  m_valid (fst (Watcher.create path paths model fmts fs)) = true ->
  NoDup (map (fun r => getBaseName (Some r))
             (rows (m_model (fst (Watcher.create path paths model fmts fs))))).
Proof.
  intros N Lt. unfold Watcher.create.
  unfold Watcher.createItemsFromFiles.
  match goal with
  | |- context [Watcher.createItemsLoop fs path ?mx ?fl ?w0] =>
      destruct (createItemsLoop_rows fs path mx fl w0) as (created & R & I & _);
      destruct (Watcher.createItemsLoop fs path mx fl w0) as [ok w1]
  end.
  cbn [snd Watcher.disconnectModel Watcher.connectModel Watcher.setValid
       m_model rows nextRowId] in R, I.
  assert (N1 : NoDup (map rowId (rows (m_model w1)))).
  { rewrite R, map_app, I. apply NoDup_app.
    - apply NoDup_rev, rowRange_NoDup.
    - exact N.
    - intros x Ix Io. rewrite <- in_rev in Ix. apply rowRange_In in Ix.
      apply in_map_iff in Io. destruct Io as (r & <- & Ir).
      specialize (Lt r Ir). lia. }
  assert (K : forall w2 : FileWatcher,
             m_model w2 = m_model w1 ->
             m_valid (fst (if ItemModel.rowCount (m_model w2) >? 0
                           then Watcher.saveItems 0
                                  (ItemModel.rowCount (m_model w2) - 1) w2 fs
                           else (w2, fs))) = true ->
             NoDup (map (fun r => getBaseName (Some r))
                        (rows (m_model
                                 (fst (if ItemModel.rowCount (m_model w2) >? 0
                                       then Watcher.saveItems 0
                                              (ItemModel.rowCount (m_model w2)
                                               - 1) w2 fs
                                       else (w2, fs))))))).
  { intros w2 E2.
    destruct (ItemModel.rowCount (m_model w2) >? 0) eqn:G.
    - intros V.
      assert (N2 : NoDup (map rowId (rows (m_model w2)))) by now rewrite E2.
      destruct (saveItems_outcome 0 (ItemModel.rowCount (m_model w2) - 1) w2 fs
                  N2) as [[Ids _] _].
      apply distinct_names_NoDup. intros i j r r' Ne Ei Ej.
      assert (Li : (i < List.length (rows (m_model w2)))%nat).
      { apply (f_equal (@List.length Z)) in Ids. rewrite !length_map in Ids.
        rewrite <- Ids. apply nth_error_Some. rewrite Ei. discriminate. }
      rewrite <- index_nth_error in Ei, Ej.
      apply (saveItems_completed_names_distinct 0
               (ItemModel.rowCount (m_model w2) - 1) w2 fs N2 V
               (Z.of_nat i) (Z.of_nat j) r r'); [|lia|exact Ei|exact Ej].
      unfold ItemModel.rowCount. lia.
    - intros _. cbn [fst]. destruct (rows (m_model w2)) as [|r rs] eqn:Er;
        [constructor|].
      unfold ItemModel.rowCount in G. rewrite Er in G.
      rewrite Z.gtb_ltb in G. apply Z.ltb_ge in G.
      cbn [List.length] in G. lia. }
  destruct ok.
  - apply K. reflexivity.
  - apply K. reflexivity.
Qed.

Lemma create_valid_names_are_distinct_witness :
  let model := mkModel [itemRow 0 "a" [(mimeText, bytesOf "x")]] "tab" 200
                       false false 1 in
  let w := fst (@Watcher.create stubPlatform "/sync" ["/sync/a.txt"] model []
                  (oneFile "/sync/a.txt" (bytesOf "y"))) in
  map (fun r => getBaseName (Some r)) (rows (m_model w)) = ["a"; "a-1"]
  /\ NoDup (map (fun r => getBaseName (Some r)) (rows (m_model w))).
Proof.
  cbv zeta. split; [reflexivity|].
  apply (@create_valid_names_are_distinct stubPlatform).
  - repeat constructor; simpl; intuition discriminate.
  - intros r [<-|[]]. reflexivity.
  - reflexivity.
Defined.
Section FormatFileFacts.

Lemma lookup_erase (p q : QString) (l : list (QString * FileNode)) :
  FS.lookup q (FS.erase p l) = if String.eqb q p then None else FS.lookup q l.
Proof.
  destruct (String.eqb_spec q p) as [->|N].
  - apply lookup_erase_eq.
  - now apply lookup_erase_ne.
Qed.

Lemma removeAll_lookup (path : QString) (m : QVariantMap) (ks : QStringList) :
  forall (fs : FileSystem) (p : QString),
    FS.lookup p
      (files (fold_left (fun fs fmt => FS.remove fs (formatFile path m fmt))
                        ks fs))
    = if QStr.contains (map (formatFile path m) ks) p then None
      else FS.lookup p (files fs).
Proof.
  induction ks as [|k ks IH]; intros fs p; simpl; [reflexivity|].
  rewrite IH. cbn [FS.remove files]. rewrite lookup_erase.
  destruct (QStr.contains (map (formatFile path m) ks) p);
    [now rewrite orb_true_r|].
  rewrite orb_false_r. reflexivity.
Qed.

Lemma removeAll_flags (path : QString) (m : QVariantMap) (ks : QStringList) :
  forall fs : FileSystem,
    let fs' := fold_left (fun fs fmt => FS.remove fs (formatFile path m fmt))
                         ks fs in
    readOnlyDirs fs' = readOnlyDirs fs /\ faulty fs' = faulty fs
    /\ incl (files fs') (files fs).
Proof.
  induction ks as [|k ks IH]; intros fs; simpl.
  - repeat split. apply incl_refl.
  - destruct (IH (FS.remove fs (formatFile path m k))) as (A & B & C).
    cbn [FS.remove readOnlyDirs faulty files] in A, B, C.
    split; [exact A|]. split; [exact B|].
    eapply incl_tran; [exact C | apply erase_incl].
Qed.

Lemma lookup_None (p : QString) (l : list (QString * FileNode)) :
  FS.lookup p l = None <-> ~ In p (map fst l).
Proof.
  induction l as [|[q n] l IH]; simpl; [tauto|].
  destruct (String.eqb_spec p q) as [->|N].
  - split; [discriminate | intros C; exfalso; apply C; now left].
  - rewrite IH. split; [intros H [E|I]; [congruence | tauto] | tauto].
Qed.

Lemma renameIn_nodes (o n : QString) (l : list (QString * FileNode)) :
  map snd (FS.renameIn o n l) = map snd l.
Proof.
  induction l as [|[p x] l IH]; simpl; [reflexivity|].
  destruct (String.eqb o p); simpl; [reflexivity | now rewrite IH].
Qed.

Lemma renameIn_paths (o n : QString) (l : list (QString * FileNode)) (p : QString) :
  In p (map fst (FS.renameIn o n l)) -> p = n \/ In p (map fst l).
Proof.
  induction l as [|[q x] l IH]; simpl; [tauto|].
  destruct (String.eqb o q); simpl; [intuition auto|].
  intros [E|I]; [tauto|]. destruct (IH I); tauto.
Qed.

Lemma renameIn_NoDup (o n : QString) (l : list (QString * FileNode)) :
  ~ In n (map fst l) -> NoDup (map fst l) ->
  NoDup (map fst (FS.renameIn o n l)).
Proof.
  induction l as [|[q x] l IH]; simpl; [constructor|].
  intros Nn Nd. inversion Nd as [|? ? Nq Nl]; subst.
  destruct (String.eqb o q); simpl.
  - constructor; [tauto | exact Nl].
  - constructor; [|apply IH; tauto].
    intros I. apply renameIn_paths in I. destruct I as [->|I]; tauto.
Qed.

(** What [QFile::rename] and [QFile::copy] keep of a file system. *)
Lemma rename_keeps (fs : FileSystem) (o n : QString) :
  let fs' := FS.rename fs o n in
  map snd (files fs') = map snd (files fs)
  /\ (NoDup (pathsOf fs) -> NoDup (pathsOf fs'))
  /\ (forall p, In p (pathsOf fs') -> p = n \/ In p (pathsOf fs))
  /\ readOnlyDirs fs' = readOnlyDirs fs /\ faulty fs' = faulty fs.
Proof.
  cbv zeta. unfold FS.rename, pathsOf.
  destruct (FS.lookup o (files fs)); [|repeat split; tauto].
  destruct (FS.lookup n (files fs)) eqn:Ln; [repeat split; tauto|].
  cbn [files readOnlyDirs faulty].
  split; [apply renameIn_nodes|]. split.
  - apply renameIn_NoDup. now apply lookup_None.
  - split; [apply renameIn_paths | split; reflexivity].
Qed.

Lemma copy_keeps (fs : FileSystem) (o n : QString) :
  let fs' := FS.copy fs o n in
  exists added,
    files fs' = files fs ++ added
    /\ (forall e, In e added -> fst e = n /\ In (snd e) (map snd (files fs)))
    /\ (NoDup (pathsOf fs) -> NoDup (pathsOf fs'))
    /\ readOnlyDirs fs' = readOnlyDirs fs /\ faulty fs' = faulty fs.
Proof.
  cbv zeta. unfold FS.copy, pathsOf.
  assert (None_ : exists added,
             files fs = files fs ++ added
             /\ (forall e, In e added ->
                           fst e = n /\ In (snd e) (map snd (files fs)))
             /\ (NoDup (map fst (files fs)) -> NoDup (map fst (files fs)))
             /\ readOnlyDirs fs = readOnlyDirs fs /\ faulty fs = faulty fs).
  { exists []. rewrite app_nil_r. repeat split; try tauto; destruct H. }
  destruct (FS.openRead fs o) as [x|] eqn:O; [|exact None_].
  destruct (FS.lookup n (files fs)) eqn:Ln; [exact None_|].
  destruct (QStr.contains (readOnlyDirs fs) (FS.parentDir n)); [exact None_|].
  cbn [files readOnlyDirs faulty]. exists [(n, x)].
  split; [reflexivity|]. split.
  - intros e [<-|[]]. split; [reflexivity|]. cbn [snd].
    unfold FS.openRead in O. destruct (FS.lookup o (files fs)) as [y|] eqn:Lo;
      [|discriminate].
    destruct (readable y); [|discriminate]. injection O as <-.
    apply lookup_In in Lo. apply (in_map snd) in Lo. exact Lo.
  - split; [|split; reflexivity].
    intros Nd. rewrite map_app. apply NoDup_app; [exact Nd | |].
    + repeat constructor. simpl. tauto.
    + intros p Ip [<-|[]]. apply lookup_None in Ln. contradiction.
Qed.

End FormatFileFacts.

(** X12. Removing the files of the formats of an item removes, for every
    format of the extension map, the file at the path followed by its
    extension, [QFile::remove] being taken to carry out every removal; the
    other files are as they were, no file is made, and the directories that
    refuse writing and the files that fail stay. *)
Theorem removeFormatFiles_removes_exactly (path : QString) (m : QVariantMap)
  (fs : FileSystem) :
  let fs' := removeFormatFiles path m fs in
  (forall fmt, In fmt (QMap.keys m) ->
               FS.lookup (formatFile path m fmt) (files fs') = None)
  /\ (forall p, ~ In p (map (formatFile path m) (QMap.keys m)) ->
                FS.lookup p (files fs') = FS.lookup p (files fs))
  /\ incl (files fs') (files fs)
  /\ readOnlyDirs fs' = readOnlyDirs fs /\ faulty fs' = faulty fs.
Proof.
  cbv zeta. unfold removeFormatFiles.
  change (fun fs0 fmt => FS.remove fs0 (path +++ toString (value m fmt)))
    with (fun fs0 fmt => FS.remove fs0 (formatFile path m fmt)).
  destruct (removeAll_flags path m (QMap.keys m) fs) as (A & B & C).
  split; [|split; [|split; [exact C | split; [exact A | exact B]]]].
  - intros fmt I. rewrite removeAll_lookup.
    replace (QStr.contains (map (formatFile path m) (QMap.keys m))
                           (formatFile path m fmt)) with true; [reflexivity|].
    symmetry. apply contains_In. now apply in_map.
  - intros p N. rewrite removeAll_lookup.
    destruct (QStr.contains (map (formatFile path m) (QMap.keys m)) p) eqn:Cn;
      [|reflexivity].
    apply contains_In in Cn. contradiction.
Qed.

(** X13. Moving the files of the formats of an item renames files: the
    files, in their order and with their contents, are those there were, and
    a path that was not there is the new path followed by an extension of the
    map.  Copying them leaves every file as it was and adds, after them,
    copies of files that were there, each at the new path followed by an
    extension of the map.  Neither gives two files the same path. *)
Theorem move_and_copy_lose_no_file (oldPath newPath : QString)
  (m : QVariantMap) (fs : FileSystem) :
  (let fs' := moveFormatFiles oldPath newPath m fs in
   map snd (files fs') = map snd (files fs)
   /\ (NoDup (pathsOf fs) -> NoDup (pathsOf fs'))
   /\ (forall p, In p (pathsOf fs') ->
                 In p (pathsOf fs)
                 \/ In p (map (formatFile newPath m) (QMap.keys m))))
  /\ (let fs' := copyFormatFiles oldPath newPath m fs in
      exists added,
        files fs' = files fs ++ added
        /\ (NoDup (pathsOf fs) -> NoDup (pathsOf fs'))
        /\ (forall e, In e added ->
                      In (fst e) (map (formatFile newPath m) (QMap.keys m))
                      /\ In (snd e) (map snd (files fs)))).
Proof.
  unfold moveFormatFiles, copyFormatFiles. cbv zeta.
  generalize (QMap.keys m) as ks. intros ks. split.
  - revert fs. induction ks as [|k ks IH]; intros fs; simpl.
    + repeat split; tauto.
    + destruct (rename_keeps fs (oldPath +++ toString (value m k))
                  (newPath +++ toString (value m k))) as (A & B & C & _).
      cbv zeta in A, B, C.
      destruct (IH (FS.rename fs (oldPath +++ toString (value m k))
                      (newPath +++ toString (value m k)))) as (A' & B' & C').
      split; [congruence|]. split; [tauto|].
      intros p I. destruct (C' p I) as [I'|I']; [|right; now right].
      destruct (C p I') as [->|I'']; [right; now left | now left].
  - revert fs. induction ks as [|k ks IH]; intros fs; simpl.
    + exists []. rewrite app_nil_r. repeat split; try tauto; destruct H.
    + destruct (copy_keeps fs (oldPath +++ toString (value m k))
                  (newPath +++ toString (value m k)))
        as (a1 & A & B & C & _). cbv zeta in A, B, C.
      destruct (IH (FS.copy fs (oldPath +++ toString (value m k))
                      (newPath +++ toString (value m k))))
        as (a2 & A' & C' & B').
      exists (a1 ++ a2). split; [rewrite A', A, app_assoc; reflexivity|].
      split; [tauto|].
      intros e I. apply in_app_or in I. destruct I as [I|I].
      * destruct (B e I) as [E S]. split; [left; now rewrite E | exact S].
      * destruct (B' e I) as [E S]. split; [now right|].
        rewrite A, map_app in S. apply in_app_or in S.
        destruct S as [S|S]; [exact S|].
        apply in_map_iff in S. destruct S as (e' & <- & I').
        now apply B.
Qed.

Section RemovedItemsFacts.

Variable tabs : QMap.t QString.

Lemma removeFilesOfItem_shrinks (fs : FileSystem)
  (index : option (Model * Row)) :
  let fs' := Loader.removeFilesOfItem tabs fs index in
  incl (files fs') (files fs)
  /\ readOnlyDirs fs' = readOnlyDirs fs /\ faulty fs' = faulty fs.
Proof.
  cbv zeta. unfold Loader.removeFilesOfItem.
  assert (Same : incl (files fs) (files fs)
                 /\ readOnlyDirs fs = readOnlyDirs fs /\ faulty fs = faulty fs)
    by (split; [apply incl_refl | split; reflexivity]).
  destruct index as [[model r]|]; [|exact Same].
  destruct (QStr.isEmpty (Loader.tabPath tabs model)); [exact Same|].
  destruct (QStr.isEmpty (getBaseName (Some r))); [exact Same|].
  destruct (negb (negb (existsb _ (rows model)))); [exact Same|].
  destruct (QMap.isEmpty _).
  - cbn [FS.remove files readOnlyDirs faulty].
    split; [apply erase_incl | split; reflexivity].
  - destruct (removeAll_flags
                (Loader.tabPath tabs model +++ "/" +++ getBaseName (Some r))
                (toMap (value (rowData r) mimeExtensionMap))
                (QMap.keys (toMap (value (rowData r) mimeExtensionMap))) fs)
      as (A & B & C).
    split; [exact C | split; [exact A | exact B]].
Qed.

Lemma itemsRemovedByUser_shrinks (indexList : list (option (Model * Row))) :
  forall fs : FileSystem,
    let fs' := Loader.itemsRemovedByUser tabs indexList fs in
    incl (files fs') (files fs)
    /\ readOnlyDirs fs' = readOnlyDirs fs /\ faulty fs' = faulty fs.
Proof.
  unfold Loader.itemsRemovedByUser.
  induction indexList as [|i l IH]; intros fs; cbv zeta; simpl.
  - split; [apply incl_refl | split; reflexivity].
  - destruct (removeFilesOfItem_shrinks fs i) as (A & B & C).
    destruct (IH (Loader.removeFilesOfItem tabs fs i)) as (A' & B' & C').
    cbv zeta in A, B, C, A', B', C'.
    split; [eapply incl_tran; eassumption | split; congruence].
Qed.

Lemma lookup_None_incl (p : QString) (l l' : list (QString * FileNode)) :
  incl l' l -> FS.lookup p l = None -> FS.lookup p l' = None.
Proof.
  intros I N. apply lookup_None. apply lookup_None in N.
  intros C. apply N. apply in_map_iff in C. destruct C as (e & <- & Ie).
  apply in_map. now apply I.
Qed.

(** The files of an item whose base name no other row of its tab
    carries. *)
Lemma removeFilesOfItem_removes (fs : FileSystem) (model : Model) (r : Row) :
  Loader.tabPath tabs model <> "" ->
  getBaseName (Some r) <> "" ->
  (forall r2, In r2 (rows model) -> rowId r2 <> rowId r ->
              getBaseName (Some r2) <> getBaseName (Some r)) ->
  let fs' := Loader.removeFilesOfItem tabs fs (Some (model, r)) in
  let basePath := Loader.tabPath tabs model +++ "/" +++ getBaseName (Some r) in
  (forall fmt, In fmt (QMap.keys (extensionMapOf r)) ->
               FS.lookup (formatFile basePath (extensionMapOf r) fmt)
                         (files fs') = None)
  /\ (QMap.isEmpty (extensionMapOf r) = true ->
      FS.lookup basePath (files fs') = None).
Proof.
  intros Hp Hb Hu. cbv zeta. unfold Loader.removeFilesOfItem.
  destruct (Loader.tabPath tabs model) as [|c p] eqn:Ep; [contradiction|].
  destruct (getBaseName (Some r)) as [|c' b] eqn:Eb; [contradiction|].
  cbn [QStr.isEmpty].
  replace (existsb _ (rows model)) with false.
  - cbn [negb]. fold (extensionMapOf r).
    destruct (QMap.isEmpty (extensionMapOf r)) eqn:Em.
    + split.
      * destruct (extensionMapOf r); [intros fmt [] | discriminate].
      * intros _. cbn [FS.remove files]. apply lookup_erase_eq.
    + split; [|discriminate].
      intros fmt I. unfold removeFormatFiles.
      change (fun fs0 fmt0 =>
                FS.remove fs0 (?p +++ toString (value ?m fmt0)))
        with (fun fs0 fmt0 => FS.remove fs0 (formatFile p m fmt0)).
      rewrite removeAll_lookup.
      replace (QStr.contains _ _) with true; [reflexivity|].
      symmetry. apply contains_In. now apply in_map.
  - symmetry. apply not_true_is_false. intros E.
    apply existsb_exists in E. destruct E as (r2 & I2 & B).
    apply andb_true_iff in B. destruct B as [B1 B2].
    apply negb_true_iff, Z.eqb_neq in B1. apply String.eqb_eq in B2.
    apply (Hu r2 I2 B1). now symmetry.
Qed.

End RemovedItemsFacts.

(** X14. When the user removes items, no file is made or changed and the
    files left are among those there were.  The files of a removed item of a
    synchronised tab, one for each format of its extension map, or the file
    named by its base name when the map is empty, are gone afterwards
    ([QFile::remove] being taken to carry out every removal),
    provided the item has a base name that no other row of its tab carries;
    when another row carries it, as after a move by drag and drop, the files
    of the item are left alone. *)
Theorem itemsRemovedByUser_removes_files_of_items (tabs : QMap.t QString)
  (indexList : list (option (Model * Row))) (fs : FileSystem) :
  let fs' := Loader.itemsRemovedByUser tabs indexList fs in
  (incl (files fs') (files fs)
   /\ readOnlyDirs fs' = readOnlyDirs fs /\ faulty fs' = faulty fs)
  /\ (forall model r,
         In (Some (model, r)) indexList ->
         Loader.tabPath tabs model <> "" ->
         getBaseName (Some r) <> "" ->
         (forall r2, In r2 (rows model) -> rowId r2 <> rowId r ->
                     getBaseName (Some r2) <> getBaseName (Some r)) ->
         let basePath :=
           Loader.tabPath tabs model +++ "/" +++ getBaseName (Some r) in
         (forall fmt, In fmt (QMap.keys (extensionMapOf r)) ->
                      FS.lookup (formatFile basePath (extensionMapOf r) fmt)
                                (files fs') = None)
         /\ (QMap.isEmpty (extensionMapOf r) = true ->
             FS.lookup basePath (files fs') = None))
  /\ (forall model r r2 fs0,
         In r2 (rows model) -> rowId r2 <> rowId r ->
         getBaseName (Some r2) = getBaseName (Some r) ->
         Loader.removeFilesOfItem tabs fs0 (Some (model, r)) = fs0).
Proof.
  cbv zeta. split; [apply itemsRemovedByUser_shrinks|]. split.
  - intros model r I Hp Hb Hu.
    apply in_split in I. destruct I as (before & after & ->).
    unfold Loader.itemsRemovedByUser. rewrite fold_left_app. cbn [fold_left].
    set (fs1 := fold_left (Loader.removeFilesOfItem tabs) before fs).
    destruct (removeFilesOfItem_removes tabs fs1 model r Hp Hb Hu) as [A B].
    cbv zeta in A, B.
    destruct (itemsRemovedByUser_shrinks tabs after
                (Loader.removeFilesOfItem tabs fs1 (Some (model, r))))
      as (Inc & _). cbv zeta in Inc. unfold Loader.itemsRemovedByUser in Inc.
    split.
    + intros fmt If. eapply lookup_None_incl; [exact Inc | now apply A].
    + intros E. eapply lookup_None_incl; [exact Inc | now apply B].
  - intros model r r2 fs0 I2 Nid Eb. unfold Loader.removeFilesOfItem.
    destruct (QStr.isEmpty (Loader.tabPath tabs model)); [reflexivity|].
    destruct (QStr.isEmpty (getBaseName (Some r))); [reflexivity|].
    replace (existsb _ (rows model)) with true; [reflexivity|].
    symmetry. apply existsb_exists. exists r2. split; [exact I2|].
    apply andb_true_iff. split.
    + apply negb_true_iff, Z.eqb_neq. exact Nid.
    + apply String.eqb_eq. now symmetry.
Qed.
(** X15. The text [copyItem] writes for a path holds no line break, so that
    the paths of an item stay one to a line, and two paths never give the same
    text. *)
Theorem escapePath_one_line_and_injective (s : QString) :
  oneLine (Loader.escapePath s) = true
  /\ forall t, Loader.escapePath s = Loader.escapePath t -> s = t.
Proof.
  split.
  - induction s as [|c s IH]; [reflexivity|]. simpl.
    destruct (Ascii.eqb_spec c "\") as [->|N1]; [exact IH|].
    destruct (Ascii.eqb_spec c "010") as [->|N2]; [exact IH|].
    destruct (Ascii.eqb_spec c "013") as [->|N3]; [exact IH|].
    simpl. unfold QStr.isNewline.
    destruct (Ascii.eqb_spec c "010"); [contradiction|].
    destruct (Ascii.eqb_spec c "013"); [contradiction|].
    exact IH.
  - induction s as [|c s IH]; intros t.
    + destruct t as [|d t]; [reflexivity|]. simpl.
      destruct (Ascii.eqb d "\"); [discriminate|].
      destruct (Ascii.eqb d "010"); [discriminate|].
      destruct (Ascii.eqb d "013"); discriminate.
    + destruct t as [|d t]; simpl.
      * destruct (Ascii.eqb c "\"); [discriminate|].
        destruct (Ascii.eqb c "010"); [discriminate|].
        destruct (Ascii.eqb c "013"); discriminate.
      * destruct (Ascii.eqb_spec c "\") as [->|C1];
          [|destruct (Ascii.eqb_spec c "010") as [->|C2];
            [|destruct (Ascii.eqb_spec c "013") as [->|C3]]];
        (destruct (Ascii.eqb_spec d "\") as [->|D1];
          [|destruct (Ascii.eqb_spec d "010") as [->|D2];
            [|destruct (Ascii.eqb_spec d "013") as [->|D3]]]);
        intros E; try discriminate E;
        try (injection E as E; f_equal; now apply IH);
        try (injection E as E1 E; congruence).
        injection E as -> E. f_equal. now apply IH.
Qed.

Ltac eqb_consts :=
  repeat match goal with
         | |- context [String.eqb ?a ?b] =>
             let v := eval vm_compute in (String.eqb a b) in
             lazymatch v with
             | true => change (String.eqb a b) with true
             | false => change (String.eqb a b) with false
             end
         end;
  cbv iota.

(** X16. Direction W does not save what [copyItem] made up.  When the
    format [k] of the copy of an item was synthesised by [copyItem], the step
    of direction W on [k] with the no-save map of the copy, on item data that
    still hold the entry of the copy for [k], removes the entry from the item
    data and writes no file. *)
Theorem saveFormat_drops_synthesized {P : Platform} (tabs : QMap.t QString)
  (model : Model) (item : QVariantMap) (k filePath : QString)
  (old d m2e unk : QVariantMap) (ex : MultiMap) (fs : FileSystem) :
  synthesized item k = true ->
  let out := Loader.copyItem tabs model item in
  QMap.find k d = QMap.find k out ->
  Watcher.saveFormat filePath old (toMap (value out mimeNoSave)) k
                     (d, m2e, unk, ex, fs)
  = (true, (QMap.remove k d, m2e, unk, ex, fs)).
Proof.
  intros S. cbv zeta.
  assert (Hash : forall x, bytes_eqb (calculateHash x) (calculateHash x) = true)
    by (intros x; now apply bytes_eqb_eq).
  unfold synthesized in S. apply andb_true_iff in S. destruct S as [K A].
  apply negb_true_iff in A.
  unfold Loader.copyItem. cbv zeta. rewrite !contains_insert.
  change (String.eqb mimeUriList mimeSyncPath) with false.
  change (String.eqb mimeText mimeSyncPath) with false.
  cbn [orb].
  destruct (fold_left _ _ _) as [uriData textData].
  assert (Step : forall (k : QString) (bytes : QByteArray) (ns : QVariantMap),
             QStr.startsWith k MIME_PREFIX_ITEMSYNC = false ->
             QMap.find k d = Some (VByteArray bytes) ->
             QMap.find k ns = Some (VByteArray (calculateHash bytes)) ->
             Watcher.saveFormat filePath old ns k (d, m2e, unk, ex, fs)
             = (true, (QMap.remove k d, m2e, unk, ex, fs))).
  { intros k0 bytes ns Pk Dk Nk. unfold Watcher.saveFormat. rewrite Pk.
    unfold QMap.contains, value. rewrite Dk, Nk. cbn [toByteArray andb].
    now rewrite Hash. }
  apply orb_true_iff in K. destruct K as [K|K]; apply String.eqb_eq in K;
    subst k; rewrite A.
  - destruct (QMap.contains item mimeUriList); cbn [negb orb];
      unfold value; rewrite !find_insert; eqb_consts; cbn [toMap];
      intros E; apply (Step mimeText textData); try reflexivity; try exact E;
      rewrite ?find_insert; eqb_consts; reflexivity.
  - destruct (QMap.contains item mimeText); cbn [negb orb];
      unfold value; rewrite !find_insert; eqb_consts; cbn [toMap];
      intros E; apply (Step mimeUriList uriData); try reflexivity; try exact E;
      rewrite ?find_insert; eqb_consts; reflexivity.
Qed.

Lemma saveFormat_drops_synthesized_witness :
  let item : QVariantMap :=
    [(mimeBaseName, VString "note");
     (mimeExtensionMap, VMap [("text/html", VString ".html")]);
     ("text/html", VByteArray (bytesOf "<b>x</b>"))] in
  let out :=
    @Loader.copyItem stubPlatform [("tab", "/A")]
                     (mkModel [] "tab" 200 false false 0) item in
  @Watcher.saveFormat stubPlatform "/B/note" QMap.empty
    (toMap (value out mimeNoSave)) mimeText
    (out, QMap.empty, QMap.empty, [], emptyDirectory)
  = (true, (QMap.remove mimeText out, QMap.empty, QMap.empty, [],
            emptyDirectory)).
Proof.
  cbv zeta.
  apply (@saveFormat_drops_synthesized stubPlatform); reflexivity.
Defined.

Section CopiedTextFacts.

Context {P : Platform}.

Lemma escapePath_nonempty (s : QString) :
  s <> "" -> list_byte_of_string (Loader.escapePath s) <> [].
Proof.
  destruct s as [|c s]; [contradiction|]. intros _. simpl.
  destruct (Ascii.eqb c "\"); [discriminate|].
  destruct (Ascii.eqb c "010"); [discriminate|].
  destruct (Ascii.eqb c "013"); discriminate.
Qed.

Lemma append_slash_nonempty (a b c : QString) : a +++ "/" +++ b +++ c <> "".
Proof. destruct a; discriminate. Qed.

Lemma joinLines_snoc (ls : list QByteArray) (l : QByteArray) :
  ls <> [] -> joinLines (ls ++ [l]) = joinLines ls ++ Loader.newline ++ l.
Proof.
  destruct ls as [|x ls]; [contradiction|]. intros _.
  cbn [joinLines app]. rewrite flat_map_app. cbn [flat_map].
  now rewrite app_nil_r, <- app_assoc.
Qed.

Lemma joinLines_empty (ls : list QByteArray) :
  Forall (fun l => l <> []) ls -> joinLines ls = [] -> ls = [].
Proof.
  destruct ls as [|x ls]; [reflexivity|]. intros F E.
  inversion F as [|? ? Hx _]; subst. cbn [joinLines] in E.
  destruct x; [contradiction | discriminate].
Qed.

(** The text the loop of [copyItem] gathers. *)
Lemma copyItem_text_fold (updateUri : bool) (basePath : QString)
  (m : QVariantMap) (ks : QStringList) :
  forall (done : QStringList) (uriData : QByteArray),
    let line fmt :=
      list_byte_of_string (Loader.escapePath (formatFile basePath m fmt)) in
    Forall (fun l => l <> []) (map line (done ++ ks)) ->
    snd (fold_left (Loader.copyItemStep updateUri true basePath m) ks
                   (uriData, joinLines (map line done)))
    = joinLines (map line (done ++ ks)).
Proof.
  induction ks as [|k ks IH]; intros done uriData; cbv zeta; intros F.
  - now rewrite app_nil_r.
  - cbn [fold_left]. unfold Loader.copyItemStep at 2.
    fold (formatFile basePath m k).
    set (line := fun fmt =>
           list_byte_of_string (Loader.escapePath (formatFile basePath m fmt)))
      in *.
    specialize (IH (done ++ [k])). cbv zeta in IH. fold line in IH.
    rewrite <- app_assoc in IH. cbn [app] in IH.
    assert (E : match joinLines (map line done) with
                | [] => joinLines (map line done)
                | _ :: _ => joinLines (map line done) ++ Loader.newline
                end ++ line k
                = joinLines (map line (done ++ [k]))).
    { rewrite map_app. cbn [map]. destruct done as [|d done].
      - cbn [map joinLines app flat_map]. now rewrite app_nil_r.
      - rewrite joinLines_snoc by discriminate.
        destruct (joinLines (map line (d :: done))) eqn:J.
        + apply joinLines_empty in J; [discriminate|].
          rewrite map_app in F. apply Forall_app in F. tauto.
        + now rewrite <- app_assoc. }
    fold (line k). rewrite E. apply IH. exact F.
Qed.

End CopiedTextFacts.

(** X17. The text [copyItem] gives an item that has none lists the files
    of the item: the paths of the source tab followed by the base name of the
    item and, for each format of its extension map in turn, the extension of
    the format, each path escaped and the paths joined by line feeds. *)
Theorem copyItem_text_lists_files {P : Platform} (tabs : QMap.t QString)
  (model : Model) (item : QVariantMap) :
  QMap.contains item mimeText = false ->
  let m := toMap (value item mimeExtensionMap) in
  let basePath :=
    Loader.tabPath tabs model +++ "/" +++ toString (value item mimeBaseName) in
  value (Loader.copyItem tabs model item) mimeText
  = VByteArray
      (joinLines
         (map (fun fmt =>
                 list_byte_of_string
                   (Loader.escapePath (formatFile basePath m fmt)))
              (QMap.keys m))).
Proof.
  intros A. cbv zeta. unfold Loader.copyItem. cbv zeta.
  rewrite !contains_insert.
  change (String.eqb mimeUriList mimeSyncPath) with false.
  change (String.eqb mimeText mimeSyncPath) with false.
  cbn [orb]. rewrite A. cbn [negb]. rewrite orb_true_r.
  pose proof (copyItem_text_fold
                (negb (QMap.contains item mimeUriList))
                (Loader.tabPath tabs model +++ "/"
                 +++ toString (value item mimeBaseName))
                (toMap (value item mimeExtensionMap))
                (QMap.keys (toMap (value item mimeExtensionMap))) [] []) as F.
  cbv zeta in F. cbn [app map joinLines] in F.
  destruct (fold_left _ _ _) as [uriData textData]. cbn [snd] in F.
  rewrite F.
  - destruct (negb (QMap.contains item mimeUriList));
      unfold value; rewrite !find_insert; eqb_consts; reflexivity.
  - apply Forall_forall. intros l I. apply in_map_iff in I.
    destruct I as (fmt & <- & _). apply escapePath_nonempty.
    unfold formatFile. rewrite !append_assoc. apply append_slash_nonempty.
Qed.

Lemma copyItem_text_lists_files_witness :
  let item : QVariantMap :=
    [(mimeBaseName, VString "note");
     (mimeExtensionMap, VMap [("image/png", VString ".png");
                              ("text/html", VString ".html")]);
     ("image/png", VByteArray (bytesOf "PNG"));
     ("text/html", VByteArray (bytesOf "<b>x</b>"))] in
  value (@Loader.copyItem stubPlatform [("tab", "/A")]
           (mkModel [] "tab" 200 false false 0) item) mimeText
  = VByteArray (bytesOf "/A/note.png" ++ Loader.newline
                ++ bytesOf "/A/note.html").
Proof.
  cbv zeta.
  apply (@copyItem_text_lists_files stubPlatform [("tab", "/A")]
           (mkModel [] "tab" 200 false false 0)).
  reflexivity.
Defined.
Section SettingsFacts.

Lemma insertTabPaths_pairs (table : list (QString * QString)) :
  forall (tail : QStringList) (m : QMap.t QString),
    Loader.insertTabPaths
      (flat_map (fun row => [fst row; snd row]) table ++ tail) m
    = Loader.insertTabPaths tail
        (fold_left (fun m row => QMap.insert (fst row) (snd row) m) table m).
Proof.
  induction table as [|[name path] table IH]; intros tail m; [reflexivity|].
  cbn [flat_map fst snd app fold_left Loader.insertTabPaths].
  apply IH.
Qed.

Lemma applyTabPaths_fold (table : list (QString * QString)) :
  forall (tabPaths : QStringList) (m : QMap.t QString),
    let named := filter (fun row => negb (QStr.isEmpty (fst row))) table in
    fold_left (fun (st : QStringList * QMap.t QString)
                   (row : QString * QString) =>
                 let '(tabPaths, m_tabPaths) := st in
                 let '(tabName, tabPath) := row in
                 if negb (QStr.isEmpty tabName)
                 then (tabPaths ++ [tabName; tabPath],
                       QMap.insert tabName tabPath m_tabPaths)
                 else st)
              table (tabPaths, m)
    = (tabPaths ++ flat_map (fun row => [fst row; snd row]) named,
       fold_left (fun m row => QMap.insert (fst row) (snd row) m) named m).
Proof.
  induction table as [|[name path] table IH]; intros tabPaths m; cbv zeta.
  - simpl. now rewrite app_nil_r.
  - cbn [fold_left filter fst].
    destruct (negb (QStr.isEmpty name)).
    + rewrite IH. cbn [flat_map fold_left fst snd app].
      now rewrite <- app_assoc.
    + apply IH.
Qed.

End SettingsFacts.

(** X18. The paths of the synchronised tabs survive the settings: what
    [loadSettings] reads from the settings [applySettings] has written is the
    map of tab paths [applySettings] has built.  In it every row with a name
    among the rows [applySettings] visits, which are the first half of the
    rows of the table, gives its tab the path of the row, a later row taking
    over from an earlier one of the same name; rows without name count for
    nothing. *)
Theorem loadSettings_reads_applied_tab_paths (table : list (QString * QString))
  (m_settings : QVariantMap) :
  let '(settings, m_tabPaths) := Loader.applyTabPaths table m_settings in
  Loader.loadTabPaths settings = m_tabPaths
  /\ m_tabPaths
     = fold_left (fun m row => QMap.insert (fst row) (snd row) m)
                 (filter (fun row => negb (QStr.isEmpty (fst row)))
                         (firstn (Nat.div2 (S (List.length table))) table))
                 QMap.empty.
Proof.
  unfold Loader.applyTabPaths. fold (Loader.visitedRows table).
  generalize (Loader.visitedRows table) as visited. intros visited.
  match goal with
  | |- context [fold_left ?f visited ?s] =>
      assert (F : fold_left f visited s
                  = (flat_map (fun row => [fst row; snd row])
                       (filter (fun row => negb (QStr.isEmpty (fst row)))
                               visited),
                     fold_left (fun m row => QMap.insert (fst row) (snd row) m)
                       (filter (fun row => negb (QStr.isEmpty (fst row)))
                               visited)
                       QMap.empty))
        by exact (applyTabPaths_fold visited [] QMap.empty);
      rewrite F
  end.
  split; [|reflexivity].
  unfold Loader.loadTabPaths, value. rewrite find_insert, String.eqb_refl.
  cbn [toStringList].
  pose proof (insertTabPaths_pairs
                (filter (fun row => negb (QStr.isEmpty (fst row))) visited)
                [] QMap.empty) as I.
  rewrite app_nil_r in I. exact I.
Qed.

(** X19. After [fixUserExtensions] every extension starts with a dot; an
    extension that did is as it was, any other has a dot put before it; the
    list keeps its length and its order, and fixing it once more changes
    nothing. *)
Theorem fixUserExtensions_dots (exts : QStringList) :
  Forall (fun ext => QStr.startsWith ext "." = true) (fixUserExtensions exts)
  /\ Forall2 (fun ext ext' =>
                ext' = if QStr.startsWith ext "." then ext else String "." ext)
             exts (fixUserExtensions exts)
  /\ fixUserExtensions (fixUserExtensions exts) = fixUserExtensions exts.
Proof.
  unfold fixUserExtensions. induction exts as [|e exts (A & B & C)]; simpl.
  - repeat split; constructor.
  - destruct (QStr.startsWith e ".") eqn:S; cbn [negb].
    + rewrite S. cbn [negb]. split; [constructor; assumption|].
      split; [constructor; [now rewrite S | assumption]|]. now rewrite C.
    + split; [constructor; [destruct e; reflexivity | assumption]|].
      split; [constructor; [now rewrite S | assumption]|].
      replace (QStr.startsWith (String "." e) ".") with true
        by (destruct e; reflexivity).
      cbn [negb]. now rewrite C.
Qed.

Section SuffixFacts.

Lemma endsWith_iff (s x : QString) :
  QStr.endsWith s x = true <-> exists p, s = p +++ x.
Proof.
  split.
  - intros H. eexists. symmetry. apply endsWith_split. exact H.
  - intros (p & ->). apply endsWith_append.
Qed.

Lemma append_eq_split (a b c d : string) :
  a +++ b = c +++ d -> (String.length d <= String.length b)%nat ->
  exists e, b = e +++ d /\ c = a +++ e.
Proof.
  revert c. induction a as [|h a IH]; intros c E L; simpl in E.
  - exists c. split; [exact E | reflexivity].
  - destruct c as [|h' c]; simpl in E.
    + exfalso. apply (f_equal String.length) in E. simpl in E.
      rewrite length_append in E. lia.
    + injection E as -> E. destruct (IH c E L) as (e & Eb & Ec).
      exists e. split; [exact Eb|]. simpl. now rewrite Ec.
Qed.

(** Whether a name made of [b] and a suffix [x] ends with [y]. *)
Lemma endsWith_append_cases (b x y : QString) :
  QStr.endsWith (b +++ x) y
  = if (String.length y <=? String.length x)%nat then QStr.endsWith x y
    else if QStr.endsWith y x
         then QStr.endsWith b
                (substring 0 (String.length y - String.length x) y)
         else false.
Proof.
  destruct (String.length y <=? String.length x)%nat eqn:L.
  - apply Nat.leb_le in L. apply eq_true_iff_eq. rewrite !endsWith_iff. split.
    + intros (p & E). destruct (append_eq_split b x p y E L) as (e & -> & _).
      now exists e.
    + intros (e & ->). exists (b +++ e). now rewrite append_assoc.
  - apply Nat.leb_gt in L. destruct (QStr.endsWith y x) eqn:Y.
    + pose proof (endsWith_split y x Y) as Ey.
      set (y1 := substring 0 (String.length y - String.length x) y) in *.
      rewrite <- Ey. apply eq_true_iff_eq. rewrite !endsWith_iff. split.
      * intros (p & E). rewrite <- append_assoc in E.
        apply append_inj_r in E. now exists p.
      * intros (p & ->). exists p. now rewrite append_assoc.
    + apply not_true_is_false. intros H. apply endsWith_iff in H.
      destruct H as (p & E). symmetry in E.
      destruct (append_eq_split p y b x E ltac:(lia)) as (e & -> & _).
      rewrite endsWith_append in Y. discriminate.
Qed.

End SuffixFacts.

(** X20. The table of built-in extensions reads back what it writes.  For
    a built-in format other than text/xml, the extension the table gives the
    format is found again, with the format, from any path that ends with the
    extension, provided that for text/plain the path before the extension
    does not end in [_note].  For text/xml the path is taken for
    application/xml, which has the same extension and comes first. *)
Theorem builtin_extensions_read_back (fmt p : QString) :
  In fmt (map format fileExtensionsAndFormats) -> fmt <> "" ->
  (fmt = mimeText -> QStr.endsWith p "_note" = false) ->
  let e := findByFormat fmt fileExtensionsAndFormats QMap.empty in
  format e = fmt
  /\ findByExtension (p +++ extension e) fileExtensionsAndFormats
     = if String.eqb fmt "text/xml" then mkExt ".xml" "application/xml" else e.
Proof.
  intros I N T. cbv zeta. cbn in I.
  repeat (destruct I as [<-|I];
          [first [now (exfalso; apply N) |
           split; [reflexivity|];
           try specialize (T eq_refl);
           match goal with
           | |- context [findByFormat ?f ?l ?m] =>
               let v := eval vm_compute in (findByFormat f l m) in
               change (findByFormat f l m) with v
           end;
           cbn [extension]; unfold fileExtensionsAndFormats;
           cbn [findByExtension extension];
           rewrite !endsWith_append_cases;
           try (change (substring 0 (String.length "_note.txt"
                                     - String.length ".txt") "_note.txt")
                  with "_note"; rewrite T);
           repeat match goal with
                  | |- context [QStr.endsWith p ?z] =>
                      let t := fresh "t" in
                      remember (QStr.endsWith p z) as t
                  end;
           vm_compute; reflexivity]
          |]).
  contradiction.
Qed.

Lemma builtin_extensions_read_back_witness :
  format (findByFormat "text/plain" fileExtensionsAndFormats QMap.empty)
  = "text/plain"
  /\ findByExtension
       ("/sync/note"
        +++ extension (findByFormat "text/plain" fileExtensionsAndFormats
                                    QMap.empty))
       fileExtensionsAndFormats
     = mkExt ".txt" "text/plain".
Proof.
  apply (builtin_extensions_read_back "text/plain" "/sync/note").
  - cbn. tauto.
  - discriminate.
  - reflexivity.
Defined.

Section FormatSettingsFacts.

Lemma firstMatchingExtension_first (name : QString) (l : QStringList) :
  match firstMatchingExtension name l with
  | Some e =>
      exists pre post,
        l = pre ++ e :: post /\ QStr.endsWith name e = true
        /\ Forall (fun x => QStr.endsWith name x = false) pre
  | None => Forall (fun x => QStr.endsWith name x = false) l
  end.
Proof.
  induction l as [|x l IH]; simpl; [constructor|].
  destruct (QStr.endsWith name x) eqn:E.
  - exists [], l. repeat split; [exact E | constructor].
  - destruct (firstMatchingExtension name l) as [e|].
    + destruct IH as (pre & post & -> & Ee & F).
      exists (x :: pre), post. repeat split; [exact Ee | now constructor].
    + now constructor.
Qed.

End FormatSettingsFacts.

(** X21. The format found for a file name is the first of the user's
    formats, in their order, that has an extension the name ends with, and
    the extension found is the first such extension of that format; when no
    extension of any format fits, the format found is the invalid one and no
    extension is reported. *)
Theorem getFormatSettingsFromFileName_first_match (name : QString)
  (fmts : list FileFormat) :
  let noMatch (f : FileFormat) :=
    Forall (fun x => QStr.endsWith name x = false) (extensions f) in
  match getFormatSettingsFromFileName name fmts with
  | (f, e) =>
      (exists before after pre post,
          fmts = before ++ f :: after
          /\ extensions f = pre ++ e :: post
          /\ QStr.endsWith name e = true
          /\ Forall (fun x => QStr.endsWith name x = false) pre
          /\ Forall noMatch before
          /\ isValid f = true)
      \/ (f = noFileFormat /\ e = "" /\ isValid f = false
          /\ Forall noMatch fmts)
  end.
Proof.
  cbv zeta. induction fmts as [|g fmts IH]; simpl.
  - right. repeat split. constructor.
  - pose proof (firstMatchingExtension_first name (extensions g)) as F.
    destruct (firstMatchingExtension name (extensions g)) as [e|].
    + left. destruct F as (pre & post & E & Ee & Fp).
      exists [], fmts, pre, post. repeat split; try assumption;
        [constructor|].
      unfold isValid. rewrite E. destruct pre; reflexivity.
    + destruct (getFormatSettingsFromFileName name fmts) as [f e].
      destruct IH as [(before & after & pre & post & -> & E & Ee & Fp & Fb & V)
                     |(-> & -> & V & Fa)].
      * left. exists (g :: before), after, pre, post.
        repeat split; try assumption. now constructor.
      * right. repeat split. now constructor.
Qed.
(** * The rules of the scanner *)

Section IgnoreRuleFacts.

Context {P : Platform}.

Lemma firstMatch_findByExtension (path : QString) (l : list Ext) (e : Ext) :
  firstMatch path l e -> findByExtension path l = e.
Proof.
  intros (before & after & -> & F & E).
  induction before as [|x before IH]; cbn [app findByExtension].
  - now rewrite E.
  - inversion F as [|? ? Hx F']; subst. rewrite Hx. now apply IH.
Qed.

(** A path the scanner keeps is in a bucket. *)
Lemma kept_bucketed (fs : FileSystem) (fmts : list FileFormat)
  (paths : QStringList) (q : QString) (e : Ext) :
  In q paths -> kept fs (userExtensions fmts) q e ->
  exists x, In x (listFiles fs paths fmts) /\ In e (exts x)
            /\ FS.fileName q = baseName x +++ extension e.
Proof.
  intros Iq K.
  assert (L : listFiles fs paths fmts
              = fold_left (scanStep fs (userExtensions fmts)) paths []).
  { unfold listFiles. apply listFiles_scanSteps. intros b. reflexivity. }
  rewrite L.
  assert (S0 : Scanned fs (userExtensions fmts) [] []).
  { split; [constructor | intros x [] | intros x e0 [] | intros q0 e0 []]. }
  destruct (scanned_fold fs (userExtensions fmts) paths [] [] S0)
    as [_ _ _ Hc].
  cbn [app] in Hc.
  destruct (Hc q e Iq K) as (x & Ix & E & Ie).
  exists x. split; [exact Ix|]. split; [exact Ie|].
  rewrite E. now apply (kept_fileName fs (userExtensions fmts)).
Qed.

End IgnoreRuleFacts.

(** C8, as the code has it.  The scanner decides by the first extension of
    the user's formats, in their order, that the path of a file ends with.
    When that extension is not empty and its MIME type is "-", the file is
    skipped: the buckets are those of the listing without the file, and so is
    the model that direction R leaves.  When it is not empty and its MIME
    type is another one, the file is not ignored, whatever extensions with
    the type "-" its path ends with further down the list: unless the
    scanner skips it as hidden, dot-named, unreadable or missing, it is in a
    bucket, under the type of that first extension, or under the built-in
    extension for its path when that type is empty. *)
Theorem listFiles_ignores_dash_formats {P : Platform} :
  (forall (fs : FileSystem) (fmts : list FileFormat)
          (before after : QStringList) (filePath ext : QString),
      firstMatch filePath (userExtensions fmts) (mkExt ext "-") ->
      ext <> "" ->
      listFiles fs (before ++ filePath :: after) fmts
      = listFiles fs (before ++ after) fmts
      /\ forall dir w,
          m_formatSettings w = fmts ->
          m_model (Watcher.updateItemsFrom dir (before ++ filePath :: after)
                                           w fs)
          = m_model (Watcher.updateItemsFrom dir (before ++ after) w fs))
  /\ (forall (fs : FileSystem) (fmts : list FileFormat) (paths : QStringList)
             (filePath : QString) (e : Ext),
         firstMatch filePath (userExtensions fmts) e ->
         extension e <> "" -> format e <> "-" ->
         In filePath paths -> skipFile fs filePath = false ->
         let e' := if QStr.isEmpty (format e)
                   then findByExtension filePath fileExtensionsAndFormats
                   else mkExt "" (format e) in
         exists x, In x (listFiles fs paths fmts) /\ In e' (exts x)
                   /\ FS.fileName filePath = baseName x +++ extension e').
Proof.
  split.
  - intros fs fmts before after filePath ext M N.
    apply firstMatch_findByExtension in M.
    assert (L : listFiles fs (before ++ filePath :: after) fmts
                = listFiles fs (before ++ after) fmts).
    { apply listFiles_without_skipped, ignored_step.
      eapply resolveExt_dash; eassumption. }
    split; [exact L|].
    intros dir w F. apply updateItemsFrom_model. now rewrite F.
  - intros fs fmts paths filePath e M Ne Nd I S. cbv zeta.
    apply firstMatch_findByExtension in M.
    apply kept_bucketed; [exact I|].
    split; [exact S|]. unfold resolveExt. rewrite M.
    destruct (extension e) as [|c s] eqn:Ee; [contradiction|].
    cbn [QStr.isEmpty].
    destruct (String.eqb_spec (format e) "-") as [D|D]; [contradiction|].
    destruct (QStr.isEmpty (format e)); reflexivity.
Qed.

(** C8 as stated fails: the name of the file x.tar.gz ends with the
    extension .tar.gz, registered with the MIME type "-", but the extension
    .gz is registered before it.  The scanner puts the file in a bucket and
    direction R makes an item of it. *)
Lemma later_dash_format_is_not_ignored :
  In (mkExt ".tar.gz" "-") (userExtensions gzipThenIgnoredTarball)
  /\ QStr.endsWith "/sync/x.tar.gz" ".tar.gz" = true
  /\ listFiles (plainFiles [("/sync/x.tar.gz", bytesOf "data")])
               ["/sync/x.tar.gz"] gzipThenIgnoredTarball
     = [mkBaseNameExtensions "x.tar.gz" [mkExt "" "application/gzip"]]
  /\ rows (m_model
             (@Watcher.updateItems stubPlatform
                (watcherWith "/sync" gzipThenIgnoredTarball [])
                (plainFiles [("/sync/x.tar.gz", bytesOf "data")])))
     = [mkRow 0 [("application/gzip", VByteArray (bytesOf "data"));
                 (mimeBaseName, VString "x.tar.gz");
                 (mimeExtensionMap,
                  VMap [("application/gzip", VString "")])]].
Proof.
  split; [right; left; reflexivity|].
  split; [reflexivity|].
  split; vm_compute; reflexivity.
Qed.

(** A text file is ignored once the extension .txt is registered with the
    type "-", and is in a bucket without that; a tarball is in a bucket when
    .gz is registered before .tar.gz. *)
Lemma listFiles_ignores_dash_formats_witness :
  let fs := plainFiles [("/sync/a.txt", bytesOf "text");
                        ("/sync/b.png", bytesOf "PNG")] in
  let ignoreTexts := [mkFileFormat [".txt"] "-" ""] in
  (listFiles fs (["/sync/b.png"] ++ "/sync/a.txt" :: []) ignoreTexts
   = listFiles fs (["/sync/b.png"] ++ []) ignoreTexts
   /\ m_model (@Watcher.updateItemsFrom stubPlatform "/sync"
                 (["/sync/b.png"] ++ "/sync/a.txt" :: [])
                 (watcherWith "/sync" ignoreTexts []) fs)
      = m_model (@Watcher.updateItemsFrom stubPlatform "/sync"
                   (["/sync/b.png"] ++ [])
                   (watcherWith "/sync" ignoreTexts []) fs))
  /\ listFiles fs ["/sync/b.png"; "/sync/a.txt"] ignoreTexts
     = [mkBaseNameExtensions "b" [mkExt ".png" "image/png"]]
  /\ listFiles fs ["/sync/b.png"; "/sync/a.txt"] []
     = [mkBaseNameExtensions "b" [mkExt ".png" "image/png"];
        mkBaseNameExtensions "a" [mkExt ".txt" "text/plain"]]
  /\ (exists x,
         In x (listFiles (plainFiles [("/sync/x.tar.gz", bytesOf "data")])
                         ["/sync/x.tar.gz"] gzipThenIgnoredTarball)
         /\ In (mkExt "" "application/gzip") (exts x)
         /\ FS.fileName "/sync/x.tar.gz" = baseName x +++ "").
Proof.
  cbv zeta.
  destruct (@listFiles_ignores_dash_formats stubPlatform) as [T1 T2].
  split; [|split; [|split]].
  - destruct (T1 (plainFiles [("/sync/a.txt", bytesOf "text");
                              ("/sync/b.png", bytesOf "PNG")])
                 [mkFileFormat [".txt"] "-" ""] ["/sync/b.png"] []
                 "/sync/a.txt" ".txt") as [L M].
    + exists [], []. repeat split. constructor.
    + discriminate.
    + split; [exact L|]. apply M. reflexivity.
  - vm_compute. reflexivity.
  - vm_compute. reflexivity.
  - apply (T2 (plainFiles [("/sync/x.tar.gz", bytesOf "data")])
              gzipThenIgnoredTarball ["/sync/x.tar.gz"] "/sync/x.tar.gz"
              (mkExt ".gz" "application/gzip")).
    + exists [], [mkExt ".tar.gz" "-"]. repeat split. constructor.
    + discriminate.
    + discriminate.
    + left. reflexivity.
    + reflexivity.
Defined.

Section SizeFacts.

Context {P : Platform}.

(** The scanner asks the file system for nothing but what [skipFile]
    tests. *)
Lemma listFiles_skipFile_only (fs fs' : FileSystem) (fmts : list FileFormat)
  (paths : QStringList) :
  (forall q, In q paths -> skipFile fs' q = skipFile fs q) ->
  listFiles fs' paths fmts = listFiles fs paths fmts.
Proof.
  unfold listFiles. generalize (@nil BaseNameExtensions, @QMap.empty Z).
  induction paths as [|q paths IH]; intros st H; [reflexivity|].
  cbn [fold_left].
  assert (E : listFilesStep fs' (userExtensions fmts) st q
              = listFilesStep fs (userExtensions fmts) st q).
  { destruct st as [fl fm]. unfold listFilesStep.
    now rewrite (H q (or_introl eq_refl)). }
  rewrite E. apply IH. intros q' I. apply H. now right.
Qed.

(** What hydration does with an oversized file whose path ends with the
    suffix of the data files. *)
Lemma oversized_data_file_step (fs : FileSystem) (dir basePath : QString)
  (ext : Ext) (f : FileNode) (dataMap mimeToExtension : QVariantMap)
  (watcher : QFileSystemWatcher) :
  FS.openRead fs (FS.absoluteFilePath dir (basePath +++ extension ext)) = Some f ->
  FS.size f > sizeLimit ->
  QStr.endsWith (basePath +++ extension ext) dataFileSuffix = true ->
  updateDataStep fs dir basePath (dataMap, mimeToExtension, watcher) ext
  = (snd (deserializeData dataMap (contents f)),
     QMap.insert "" (VString (if fst (deserializeData dataMap (contents f))
                              then dataFileSuffix else ""))
                 mimeToExtension,
     watchPath watcher (basePath +++ extension ext)).
Proof.
  intros O S D. unfold updateDataStep. rewrite O, D.
  destruct (deserializeData dataMap (contents f)) as [decoded dm].
  cbn [fst snd]. destruct decoded; [reflexivity|].
  replace (FS.size f >? sizeLimit) with true
    by (symmetry; apply Z.gtb_lt; lia).
  reflexivity.
Qed.

(** What hydration does with a file within the size limit that is not a
    data file and has a MIME type. *)
Lemma small_file_step (fs : FileSystem) (dir basePath : QString) (ext : Ext)
  (f : FileNode) (dataMap mimeToExtension : QVariantMap)
  (watcher : QFileSystemWatcher) :
  FS.openRead fs (FS.absoluteFilePath dir (basePath +++ extension ext)) = Some f ->
  FS.size f <= sizeLimit ->
  QStr.endsWith (basePath +++ extension ext) dataFileSuffix = false ->
  format ext <> "" ->
  updateDataStep fs dir basePath (dataMap, mimeToExtension, watcher) ext
  = (QMap.insert (format ext) (VByteArray (contents f)) dataMap,
     QMap.insert (format ext) (VString (extension ext)) mimeToExtension,
     watchPath watcher (basePath +++ extension ext)).
Proof.
  intros O S D N. unfold updateDataStep. rewrite O, D.
  replace (FS.size f >? sizeLimit) with false
    by (symmetry; rewrite Z.gtb_ltb; apply Z.ltb_ge; lia).
  destruct (format ext); [contradiction | reflexivity].
Qed.

(** Every file that opens leaves an entry in the extension map. *)
Lemma updateDataStep_marks (fs : FileSystem) (dir basePath : QString)
  (st : QVariantMap * QVariantMap * QFileSystemWatcher) (ext : Ext) :
  (QMap.isEmpty (snd (fst st)) = false ->
   QMap.isEmpty (snd (fst (updateDataStep fs dir basePath st ext))) = false)
  /\ (FS.openRead fs (FS.absoluteFilePath dir (basePath +++ extension ext))
      <> None ->
      QMap.isEmpty (snd (fst (updateDataStep fs dir basePath st ext))) = false).
Proof.
  destruct st as [[d m] x]. cbn [fst snd]. unfold updateDataStep.
  destruct (FS.openRead fs _) as [f|]; [|split; [tauto | congruence]].
  destruct (if QStr.endsWith _ _ then _ else _) as [decoded d'].
  destruct decoded; [cbn [fst snd]; split; intros _; apply insert_not_empty|].
  destruct (_ || _); cbn [fst snd]; split; intros _; apply insert_not_empty.
Qed.

Lemma updateDataAndWatchFile_marks (fs : FileSystem) (dir : QString)
  (b : BaseNameExtensions) (ext : Ext)
  (st : QVariantMap * QVariantMap * QFileSystemWatcher) :
  In ext (exts b) ->
  FS.openRead fs (FS.absoluteFilePath
                    dir (FS.absoluteFilePath dir (baseName b) +++ extension ext))
  <> None ->
  QMap.isEmpty (snd (fst (updateDataAndWatchFile fs dir b st))) = false.
Proof.
  unfold updateDataAndWatchFile.
  set (basePath := FS.absoluteFilePath dir (baseName b)).
  generalize (exts b) as es.
  assert (Keep : forall es st,
             QMap.isEmpty (snd (fst st)) = false ->
             QMap.isEmpty
               (snd (fst (fold_left (updateDataStep fs dir basePath) es st)))
             = false).
  { induction es as [|e es IH]; intros st0 H; [exact H|].
    cbn [fold_left]. apply IH.
    now apply (proj1 (updateDataStep_marks fs dir basePath st0 e)). }
  intros es. revert st.
  induction es as [|e es IH]; intros st I O; [destruct I|].
  cbn [fold_left]. destruct I as [->|I].
  - apply Keep. now apply (proj2 (updateDataStep_marks fs dir basePath st ext)).
  - now apply IH.
Qed.

(** The item direction R makes of a bucket one of whose files opens. *)
Lemma opened_bucket_item (fs : FileSystem) (dir : QString) (maxItems : Z)
  (b : BaseNameExtensions) (ext : Ext) (w : FileWatcher) :
  In ext (exts b) ->
  FS.openRead fs (FS.absoluteFilePath
                    dir (FS.absoluteFilePath dir (baseName b) +++ extension ext))
  <> None ->
  let '(d, m, _) :=
    updateDataAndWatchFile fs dir b (QMap.empty, QMap.empty, m_watcher w) in
  QMap.isEmpty m = false
  /\ rows (m_model (snd (Watcher.createItemsLoop fs dir maxItems [b] w)))
     = mkRow (nextRowId (m_model w))
             (ItemModel.mergeData QMap.empty
                (QMap.insert mimeExtensionMap (VMap m)
                   (QMap.insert mimeBaseName
                      (VString (FS.fileName (baseName b))) d)))
       :: rows (m_model w).
Proof.
  intros I O. cbn [Watcher.createItemsLoop].
  pose proof (updateDataAndWatchFile_marks fs dir b ext
                (QMap.empty, QMap.empty, m_watcher w) I O) as M.
  destruct (updateDataAndWatchFile fs dir b _) as [[d m] x].
  cbn [fst snd] in M. split; [exact M|]. rewrite M. cbn [negb].
  match goal with
  | |- context [Watcher.createItem ?dm ?w0] =>
      destruct (createItem_row dm w0) as (C1 & C2 & _);
      destruct (Watcher.createItem dm w0) as [ok w1]
  end.
  cbn [fst snd] in C1, C2. subst ok. cbn [negb].
  destruct (ItemModel.rowCount (m_model w1) >=? maxItems); cbn [snd];
    exact C2.
Qed.

End SizeFacts.

(** C2, as the code has it.  A file that is hidden or whose name starts with
    a dot is left out of the bucket scan and never becomes an item: the
    buckets, and the model direction R leaves, are those of the listing
    without it.  The size limit is 10 MiB.  The scan looks at no size: its
    buckets are the same for two file systems that agree on which paths are
    hidden, dot-named, unreadable or missing, and a file larger than the
    limit that is none of these and whose extension the scanner resolves is
    in the bucket of its base name like any other.  When the bucket is
    hydrated, a file whose path does not end with the suffix of the data
    files is read into the item under its MIME type when it is within the
    limit, and when it is larger it is not read and only leaves the presence
    marker in the extension map; an oversized file whose path ends with that
    suffix is handed to the decoder of item data whatever its size, and
    leaves the suffix in the extension map when it decodes and the marker
    when it does not.  Either way the extension map is not empty and an item
    is made for the bucket. *)
Theorem scan_skips_hidden_marks_oversized {P : Platform} :
  (forall fs fmts before after filePath,
      (QStr.startsWith (FS.fileName filePath) "." = true
       \/ exists n, FS.lookup filePath (files fs) = Some n /\ hidden n = true) ->
      listFiles fs (before ++ filePath :: after) fmts
      = listFiles fs (before ++ after) fmts
      /\ forall dir w,
          m_formatSettings w = fmts ->
          m_model (Watcher.updateItemsFrom dir (before ++ filePath :: after) w fs)
          = m_model (Watcher.updateItemsFrom dir (before ++ after) w fs))
  /\ sizeLimit = 10 * 1024 * 1024
  /\ (forall fs fs' fmts paths,
         (forall q, In q paths -> skipFile fs' q = skipFile fs q) ->
         listFiles fs' paths fmts = listFiles fs paths fmts)
  /\ (forall fs fmts paths filePath n e,
         In filePath paths ->
         FS.lookup filePath (files fs) = Some n ->
         FS.size n > sizeLimit ->
         hidden n = false -> readable n = true ->
         QStr.startsWith (FS.fileName filePath) "." = false ->
         resolveExt filePath (userExtensions fmts) = Some e ->
         exists x, In x (listFiles fs paths fmts) /\ In e (exts x)
                   /\ FS.fileName filePath = baseName x +++ extension e)
  /\ (forall fs dir basePath ext f dataMap mimeToExtension watcher,
         FS.openRead fs (FS.absoluteFilePath dir (basePath +++ extension ext))
         = Some f ->
         FS.size f <= sizeLimit ->
         QStr.endsWith (basePath +++ extension ext) dataFileSuffix = false ->
         format ext <> "" ->
         updateDataStep fs dir basePath (dataMap, mimeToExtension, watcher) ext
         = (QMap.insert (format ext) (VByteArray (contents f)) dataMap,
            QMap.insert (format ext) (VString (extension ext)) mimeToExtension,
            watchPath watcher (basePath +++ extension ext)))
  /\ (forall fs dir basePath ext f dataMap mimeToExtension watcher,
         FS.openRead fs (FS.absoluteFilePath dir (basePath +++ extension ext))
         = Some f ->
         FS.size f > sizeLimit ->
         updateDataStep fs dir basePath (dataMap, mimeToExtension, watcher) ext
         = if QStr.endsWith (basePath +++ extension ext) dataFileSuffix
           then (snd (deserializeData dataMap (contents f)),
                 QMap.insert ""
                   (VString (if fst (deserializeData dataMap (contents f))
                             then dataFileSuffix else ""))
                   mimeToExtension,
                 watchPath watcher (basePath +++ extension ext))
           else (dataMap, QMap.insert "" (VString "") mimeToExtension,
                 watchPath watcher (basePath +++ extension ext)))
  /\ (forall fs dir maxItems b ext f w,
         In ext (exts b) ->
         FS.openRead fs (FS.absoluteFilePath
                           dir (FS.absoluteFilePath dir (baseName b)
                                +++ extension ext))
         = Some f ->
         FS.size f > sizeLimit ->
         let '(d, m, _) :=
           updateDataAndWatchFile fs dir b
                                  (QMap.empty, QMap.empty, m_watcher w) in
         QMap.isEmpty m = false
         /\ rows (m_model (snd (Watcher.createItemsLoop fs dir maxItems [b] w)))
            = mkRow (nextRowId (m_model w))
                    (ItemModel.mergeData QMap.empty
                       (QMap.insert mimeExtensionMap (VMap m)
                          (QMap.insert mimeBaseName
                             (VString (FS.fileName (baseName b))) d)))
              :: rows (m_model w)).
Proof.
  split; [|split; [|split; [|split; [|split; [|split]]]]].
  - intros fs fmts before after filePath H.
    assert (S : skipFile fs filePath = true).
    { destruct H as [H | (n & L & H)];
        [now apply dot_file_skipped | eapply hidden_file_skipped; eassumption]. }
    assert (L : listFiles fs (before ++ filePath :: after) fmts
                = listFiles fs (before ++ after) fmts)
      by (apply listFiles_without_skipped, skipFile_step, S).
    split; [exact L|].
    intros dir w F. apply updateItemsFrom_model. now rewrite F.
  - reflexivity.
  - intros fs fs' fmts paths H. now apply listFiles_skipFile_only.
  - intros fs fmts paths filePath n e I L _ Hh Hr Hd R.
    apply kept_bucketed; [exact I|]. split; [|exact R].
    unfold skipFile. now rewrite L, Hh, Hd, Hr.
  - intros fs dir basePath ext f dataMap mimeToExtension watcher O S D N.
    now apply (small_file_step fs dir basePath ext f).
  - intros fs dir basePath ext f dataMap mimeToExtension watcher O S.
    destruct (QStr.endsWith (basePath +++ extension ext) dataFileSuffix) eqn:D.
    + exact (oversized_data_file_step fs dir basePath ext f _ _ _ O S D).
    + exact (oversized_file_step fs dir basePath ext f _ _ _ O S D).
  - intros fs dir maxItems b ext f w I O _.
    apply (opened_bucket_item fs dir maxItems b ext w I). congruence.
Qed.

(** A hidden text file and one whose name starts with a dot are left out,
    where the same file, not hidden, is in a bucket; a text file of 10 MiB
    and one byte is in a bucket, leaves the marker when its bucket is
    hydrated, where a small one is read, and an item is made of it; a data
    file of that size goes to the decoder. *)
Lemma scan_skips_hidden_marks_oversized_witness :
  let hiddenText :=
    mkFileSystem [("/sync/h.txt", mkFileNode (bytesOf "x") true true true);
                  ("/sync/.b.txt", mkFileNode (bytesOf "y") false true true);
                  ("/sync/a.txt", mkFileNode (bytesOf "z") false true true)]
                 [] [] in
  let big := oneFile "/sync/big.txt" oversizedContents in
  let bigData := oneFile "/sync/x_copyq.dat" oversizedContents in
  (listFiles hiddenText ([] ++ "/sync/h.txt" :: ["/sync/a.txt"]) []
   = listFiles hiddenText ([] ++ ["/sync/a.txt"]) []
   /\ listFiles hiddenText ([] ++ "/sync/.b.txt" :: ["/sync/a.txt"]) []
      = listFiles hiddenText ([] ++ ["/sync/a.txt"]) []
   /\ listFiles hiddenText ["/sync/a.txt"] []
      = [mkBaseNameExtensions "a" [mkExt ".txt" "text/plain"]]
   /\ listFiles (plainFiles [("/sync/h.txt", bytesOf "x");
                             ("/sync/a.txt", bytesOf "z")])
                ["/sync/h.txt"; "/sync/a.txt"] []
      = [mkBaseNameExtensions "h" [mkExt ".txt" "text/plain"];
         mkBaseNameExtensions "a" [mkExt ".txt" "text/plain"]])
  /\ listFiles big ["/sync/big.txt"] []
     = listFiles (oneFile "/sync/big.txt" (bytesOf "small")) ["/sync/big.txt"] []
  /\ (exists x, In x (listFiles big ["/sync/big.txt"] [])
                /\ In (mkExt ".txt" "text/plain") (exts x)
                /\ FS.fileName "/sync/big.txt" = baseName x +++ ".txt")
  /\ @updateDataStep stubPlatform
       (oneFile "/sync/big.txt" (bytesOf "small")) "/sync" "/sync/big"
       (QMap.empty, QMap.empty, mkQFileSystemWatcher [] [])
       (mkExt ".txt" mimeText)
     = (QMap.insert mimeText (VByteArray (bytesOf "small")) QMap.empty,
        QMap.insert mimeText (VString ".txt") QMap.empty,
        watchPath (mkQFileSystemWatcher [] []) "/sync/big.txt")
  /\ @updateDataStep stubPlatform big "/sync" "/sync/big"
       (QMap.empty, QMap.empty, mkQFileSystemWatcher [] [])
       (mkExt ".txt" mimeText)
     = (QMap.empty, QMap.insert "" (VString "") QMap.empty,
        watchPath (mkQFileSystemWatcher [] []) "/sync/big.txt")
  /\ @updateDataStep decodingPlatform bigData "/sync" "/sync/x"
       (QMap.empty, QMap.empty, mkQFileSystemWatcher [] [])
       (mkExt "_copyq.dat" "")
     = (QMap.insert mimeText (VByteArray (bytesOf "decoded")) QMap.empty,
        QMap.insert "" (VString dataFileSuffix) QMap.empty,
        watchPath (mkQFileSystemWatcher [] []) "/sync/x_copyq.dat")
  /\ rows (m_model (snd (@Watcher.createItemsLoop stubPlatform big "/sync" 200
                           [mkBaseNameExtensions "big" [mkExt ".txt" mimeText]]
                           (watcherOf "/sync" []))))
     = [mkRow 0 [(mimeBaseName, VString "big");
                 (mimeExtensionMap, VMap [("", VString "")])]].
Proof.
  cbv zeta.
  destruct (@scan_skips_hidden_marks_oversized stubPlatform)
    as (T1 & _ & T2 & T3 & T6 & T4 & T5).
  destruct (@scan_skips_hidden_marks_oversized decodingPlatform)
    as (_ & _ & _ & _ & _ & D4 & _).
  split; [|split; [|split; [|split; [|split; [|split]]]]].
  - split; [|split; [|split]].
    + apply T1. right. eexists. split; reflexivity.
    + apply T1. left. reflexivity.
    + vm_compute. reflexivity.
    + vm_compute. reflexivity.
  - apply T2. intros q [<-|[]]. reflexivity.
  - apply (T3 (oneFile "/sync/big.txt" oversizedContents) [] ["/sync/big.txt"]
              "/sync/big.txt" (mkFileNode oversizedContents false true true)
              (mkExt ".txt" "text/plain"));
      [left; reflexivity | reflexivity | exact oversizedContents_over_limit
       | reflexivity | reflexivity | reflexivity | reflexivity].
  - apply (T6 (oneFile "/sync/big.txt" (bytesOf "small")) "/sync" "/sync/big"
              (mkExt ".txt" mimeText)
              (mkFileNode (bytesOf "small") false true true));
      [reflexivity | vm_compute; discriminate | reflexivity | discriminate].
  - apply (T4 (oneFile "/sync/big.txt" oversizedContents) "/sync" "/sync/big"
              (mkExt ".txt" mimeText)
              (mkFileNode oversizedContents false true true));
      [reflexivity | exact oversizedContents_over_limit].
  - apply (D4 (oneFile "/sync/x_copyq.dat" oversizedContents) "/sync" "/sync/x"
              (mkExt "_copyq.dat" "")
              (mkFileNode oversizedContents false true true));
      [reflexivity | exact oversizedContents_over_limit].
  - pose proof (T5 (oneFile "/sync/big.txt" oversizedContents) "/sync" 200
                   (mkBaseNameExtensions "big" [mkExt ".txt" mimeText])
                   (mkExt ".txt" mimeText)
                   (mkFileNode oversizedContents false true true)
                   (watcherOf "/sync" []) (or_introl eq_refl) eq_refl
                   oversizedContents_over_limit) as I.
    assert (H : @updateDataAndWatchFile stubPlatform
                  (oneFile "/sync/big.txt" oversizedContents) "/sync"
                  (mkBaseNameExtensions "big" [mkExt ".txt" mimeText])
                  (QMap.empty, QMap.empty, m_watcher (watcherOf "/sync" []))
                = (QMap.empty, QMap.insert "" (VString "") QMap.empty,
                   watchPath (mkQFileSystemWatcher [] ["/sync"])
                             "/sync/big.txt")).
    { unfold updateDataAndWatchFile. cbn [exts fold_left baseName].
      apply (T4 (oneFile "/sync/big.txt" oversizedContents) "/sync"
                "/sync/big" (mkExt ".txt" mimeText)
                (mkFileNode oversizedContents false true true));
        [reflexivity | exact oversizedContents_over_limit]. }
    rewrite H in I. destruct I as [_ I]. rewrite I. reflexivity.
Defined.
(** * How the allocator splits a name *)

Section SplitFacts.

Lemma getFormatSettings_first (name : QString) (fmts : list FileFormat) :
  match getFormatSettingsFromFileName name fmts with
  | (f, e) =>
      (exists before after pre post,
          fmts = before ++ f :: after
          /\ Forall (noExtensionFits name) before
          /\ extensions f = pre ++ e :: post
          /\ Forall (fun x => QStr.endsWith name x = false) pre
          /\ QStr.endsWith name e = true
          /\ isValid f = true)
      \/ (isValid f = false /\ e = "" /\ Forall (noExtensionFits name) fmts)
  end.
Proof.
  induction fmts as [|g fmts IH]; cbn [getFormatSettingsFromFileName].
  - right. repeat split. constructor.
  - pose proof (firstMatchingExtension_first name (extensions g)) as F.
    destruct (firstMatchingExtension name (extensions g)) as [e|].
    + left. destruct F as (pre & post & E & Ee & Fp).
      exists [], fmts, pre, post. repeat split; try assumption;
        [constructor|].
      unfold isValid. rewrite E. destruct pre; reflexivity.
    + destruct (getFormatSettingsFromFileName name fmts) as [f e].
      destruct IH as [(before & after & pre & post & -> & Fb & E & Fp & Ee & V)
                     |(V & -> & Fa)].
      * left. exists (g :: before), after, pre, post.
        repeat split; try assumption. now constructor.
      * right. repeat split; [exact V | now constructor].
Qed.

Lemma hasChar_lastIndexOf (c : ascii) (s : QString) :
  hasChar c s = negb (QStr.lastIndexOf s c =? -1).
Proof.
  induction s as [|a s IH]; [reflexivity|].
  cbn [hasChar]. rewrite lastIndexOf_cons, IH.
  destruct (lastIndexOf_range s c) as [E | R].
  - rewrite E. cbn. destruct (Ascii.eqb a c); reflexivity.
  - replace (QStr.lastIndexOf s c =? -1) with false
      by (symmetry; apply Z.eqb_neq; lia).
    cbn [negb]. rewrite orb_true_r.
    symmetry. apply negb_true_iff, Z.eqb_neq. lia.
Qed.

(** The part of a name from its last dot on. *)
Lemma mid_lastIndexOf (c : ascii) (s : QString) :
  QStr.lastIndexOf s c <> -1 ->
  exists rest,
    QStr.mid s (QStr.lastIndexOf s c) = String c rest
    /\ hasChar c rest = false.
Proof.
  induction s as [|a s IH]; [intros H; now contradiction H|].
  rewrite lastIndexOf_cons.
  destruct (QStr.lastIndexOf s c =? -1) eqn:E.
  - destruct (Ascii.eqb_spec a c) as [->|N]; [|intros H; now contradiction H].
    intros _. exists s. rewrite mid_0. split; [reflexivity|].
    rewrite hasChar_lastIndexOf, E. reflexivity.
  - intros _. apply Z.eqb_neq in E. destruct (IH E) as (rest & M & H).
    exists rest. split; [|exact H].
    destruct (lastIndexOf_range s c) as [R | R]; [contradiction|].
    replace (1 + QStr.lastIndexOf s c) with (QStr.lastIndexOf s c + 1) by lia.
    rewrite mid_cons by lia. exact M.
Qed.

Lemma lastIsDigit_trailingDigits (s : QString) :
  lastIsDigit s = negb (QStr.isEmpty (QStr.trailingDigits s)).
Proof.
  induction s as [|c s IH]; [reflexivity|].
  cbn [lastIsDigit QStr.trailingDigits].
  destruct s as [|c' s].
  - cbn. destruct (QStr.isDigit c); reflexivity.
  - rewrite IH. clear IH.
    destruct (QStr.isDigit c && QStr.allDigits (String c' s)) eqn:D;
      [|reflexivity].
    cbn [QStr.isEmpty negb]. apply andb_true_iff in D. destruct D as [_ D].
    cbn [QStr.trailingDigits]. cbn [QStr.allDigits] in D. rewrite D.
    reflexivity.
Qed.

(** How the allocator splits a name that is taken. *)
Lemma splitExtension_spec (name : QString) (fmts : list FileFormat) :
  exists e0 base0,
    ExtensionOf fmts name e0
    /\ name = base0 +++ e0
    /\ splitExtension name fmts
       = if QStr.endsWith base0 "."
         then (QStr.chop1 base0, String "." e0)
         else (base0, e0).
Proof.
  unfold splitExtension.
  pose proof (getFormatSettings_first name fmts) as G.
  destruct (getFormatSettingsFromFileName name fmts) as [f e].
  destruct G as [(before & after & pre & post & Ef & Fb & Ee & Fp & M & V)
                |(V & -> & Fa)]; rewrite V; cbn [negb].
  - exists e, (QStr.left name (QStr.size name - QStr.size e)).
    split; [eapply ExtensionOfFormat; eassumption|].
    split; [symmetry; now apply left_suffix_join | reflexivity].
  - destruct (QStr.lastIndexOf name "." =? -1) eqn:I; cbn [negb].
    + exists "", name. split.
      * apply ExtensionNone; [exact Fa|].
        rewrite hasChar_lastIndexOf, I. reflexivity.
      * split; [now rewrite append_nil_r|].
        replace (QStr.left name (QStr.size name - QStr.size ""))
          with name; [reflexivity|].
        unfold QStr.left, QStr.size. cbn [String.length].
        replace (Z.of_nat (String.length name)
                 <=? Z.of_nat (String.length name) - Z.of_nat 0) with true
          by (symmetry; apply Z.leb_le; lia).
        now rewrite orb_true_r.
    + apply Z.eqb_neq in I.
      destruct (mid_lastIndexOf "." name I) as (rest & M & H).
      destruct (lastIndexOf_range name ".") as [R | R]; [contradiction|].
      pose proof (left_mid_join name _ R) as J. rewrite M in J |- *.
      exists (String "." rest),
             (QStr.left name (QStr.size name - QStr.size (String "." rest))).
      split; [|split; [now symmetry | reflexivity]].
      eapply ExtensionFromLastDot; [exact Fa | symmetry; exact J | exact H].
Qed.

Lemma chop1_dot (s : QString) :
  QStr.endsWith s "." = true -> s = QStr.chop1 s +++ ".".
Proof.
  intros D. apply endsWith_split in D. unfold QStr.chop1.
  cbn [String.length] in D. now symmetry.
Qed.

End SplitFacts.

Section SafeNameFacts.

Lemma replaceSeparators_safe (s : QString) :
  fileSafe s = true -> QStr.replaceSeparators s = s.
Proof.
  induction s as [|c s IH]; [reflexivity|].
  cbn [fileSafe QStr.replaceSeparators]. intros H.
  apply andb_true_iff in H. destruct H as [Hc Hs].
  unfold safeChar in Hc. apply andb_true_iff in Hc. destruct Hc as [Hu _].
  apply negb_true_iff in Hu. rewrite Hu, IH by exact Hs. reflexivity.
Qed.

Lemma removeNewlines_safe (s : QString) :
  fileSafe s = true -> QStr.removeNewlines s = s.
Proof.
  induction s as [|c s IH]; [reflexivity|].
  cbn [fileSafe QStr.removeNewlines]. intros H.
  apply andb_true_iff in H. destruct H as [Hc Hs].
  unfold safeChar in Hc. apply andb_true_iff in Hc. destruct Hc as [_ Hn].
  apply negb_true_iff in Hn. rewrite Hn, IH by exact Hs. reflexivity.
Qed.

(** A name that is safe already is left as it is. *)
Lemma safeName_safe (name : QString) :
  name <> "" -> fileSafe name = true -> QStr.startsWith name "." = false ->
  safeName name = name.
Proof.
  intros N S D. unfold safeName. destruct name as [|c s]; [contradiction|].
  cbn [QStr.isEmpty]. 
  assert (R : QStr.replaceUnsafe (String c s) = String c s).
  { cbn [QStr.replaceUnsafe]. cbn [fileSafe] in S.
    apply andb_true_iff in S. destruct S as [Hc Hs].
    unfold safeChar in Hc. apply andb_true_iff in Hc. destruct Hc as [Hu _].
    apply negb_true_iff in Hu. rewrite Hu, replaceSeparators_safe by exact Hs.
    cbn [orb].
    destruct (Ascii.eqb_spec c ".") as [->|_]; [|reflexivity].
    unfold QStr.startsWith in D. cbn in D. destruct s; discriminate. }
  rewrite R. now apply removeNewlines_safe.
Qed.

End SafeNameFacts.



(** * The elision of writes over a pass *)

Section ElisionFacts.

Context {P : Platform}.

Lemma untouched_refl (p : QString) (fs : FileSystem) : untouched p fs fs.
Proof. split; [reflexivity | intros _; apply incl_refl]. Qed.

Lemma untouched_trans (p : QString) (a b c : FileSystem) :
  untouched p a b -> untouched p b c -> untouched p a c.
Proof.
  intros [A1 A2] [B1 B2]. split; [congruence|].
  intros N. eapply incl_tran; [apply B2; congruence | now apply A2].
Qed.

Lemma olderPaths_erase (p q : QString) (l : list (QString * FileNode)) :
  q <> p -> incl (olderPaths p (FS.erase q l)) (olderPaths p l).
Proof.
  intros N. induction l as [|[a n] l IH]; [apply incl_refl|].
  unfold FS.erase. cbn [filter fst olderPaths].
  destruct (String.eqb_spec q a) as [E|E]; cbn [negb].
  - subst a. destruct (String.eqb_spec p q) as [E'|_]; [now subst|].
    now apply incl_tl.
  - cbn [olderPaths]. destruct (String.eqb p a); [apply incl_refl|].
    intros x [->|I]; [now left | right; now apply IH].
Qed.

Lemma olderPaths_app (p : QString) (l l' : list (QString * FileNode)) :
  FS.lookup p l <> None -> olderPaths p (l ++ l') = olderPaths p l.
Proof.
  induction l as [|[a n] l IH]; cbn [FS.lookup olderPaths app];
    [intros H; now contradiction H|].
  destruct (String.eqb p a); [reflexivity|].
  intros H. now rewrite IH.
Qed.

Lemma writeFile_untouched (p q : QString) (bytes : QByteArray)
  (fs : FileSystem) :
  q <> p -> untouched p fs (snd (FS.writeFile fs q bytes)).
Proof.
  intros N. unfold FS.writeFile.
  set (opened := match FS.lookup q (files fs) with
                 | Some n => _
                 | None => _
                 end).
  assert (A : forall n,
             untouched p fs
               (mkFileSystem (FS.erase q (files fs) ++ [(q, n)])
                             (readOnlyDirs fs) (faulty fs))).
  { intros n. split; cbn [files].
    - rewrite lookup_app, lookup_erase_ne by congruence.
      destruct (FS.lookup p (files fs)); [reflexivity|].
      cbn [FS.lookup]. destruct (String.eqb_spec p q); congruence.
    - intros H. rewrite olderPaths_app
        by (rewrite lookup_erase_ne by congruence; exact H).
      now apply olderPaths_erase. }
  destruct opened as [n|]; [|apply untouched_refl].
  destruct (QStr.contains (faulty fs) q); apply A.
Qed.

Lemma remove_untouched (p q : QString) (fs : FileSystem) :
  q <> p -> untouched p fs (FS.remove fs q).
Proof.
  intros N. split; cbn [FS.remove files].
  - apply lookup_erase_ne. congruence.
  - intros _. now apply olderPaths_erase.
Qed.

Lemma removeFormatFiles_untouched (path p : QString) (m : QVariantMap) :
  (forall fmt, In fmt (QMap.keys m) -> formatFile path m fmt <> p) ->
  forall fs, untouched p fs (removeFormatFiles path m fs).
Proof.
  unfold removeFormatFiles. generalize (QMap.keys m) as ks.
  induction ks as [|k ks IH]; intros H fs; [apply untouched_refl|].
  cbn [fold_left]. eapply untouched_trans.
  - apply (remove_untouched p (formatFile path m k)). apply H. now left.
  - apply IH. intros fmt I. apply H. now right.
Qed.

(** A save to another path leaves the file at [p] alone, and the pairs of
    [p] in the multimap. *)
Lemma saveItemFile_untouched (p q : QString) (bytes : QByteArray)
  (ex : MultiMap) (fs : FileSystem) :
  q <> p ->
  untouched p fs (snd (saveItemFile q bytes ex fs))
  /\ forall h, In (h, p) ex -> In (h, p) (snd (fst (saveItemFile q bytes ex fs))).
Proof.
  intros N. unfold saveItemFile.
  destruct (QStr.contains (MMap.values ex (calculateHash bytes)) q).
  - cbn [fst snd]. split; [apply untouched_refl|].
    intros h I. unfold MMap.remove. apply filter_In. split; [exact I|].
    cbn [fst snd]. destruct (String.eqb_spec p q) as [E|_]; [congruence|].
    now rewrite andb_false_r.
  - pose proof (writeFile_untouched p q bytes fs N) as W.
    destruct (FS.writeFile fs q bytes) as [ok fs']. cbn [fst snd] in *.
    split; [exact W | tauto].
Qed.

Section FormatLoop.

Variables (filePath p : QString) (old noSave : QVariantMap).

(** The state of the loop over the formats of a row. *)
Let LoopState : Type :=
  (QVariantMap * QVariantMap * QVariantMap * MultiMap * FileSystem)%type.

Let fsOf (s : LoopState) : FileSystem := snd s.
Let exOf (s : LoopState) : MultiMap := snd (fst s).
Let dataOf (s : LoopState) : QVariantMap := fst (fst (fst (fst s))).
Let mapOf (s : LoopState) : QVariantMap := snd (fst (fst (fst s))).

(** What a turn of the loop on a format whose file is not at [p] keeps. *)
Lemma saveFormat_untouched (k : QString) (s : LoopState) :
  filePath +++ extensionFor old k <> p ->
  let s' := snd (Watcher.saveFormat filePath old noSave k s) in
  untouched p (fsOf s) (fsOf s')
  /\ (forall h, In (h, p) (exOf s) -> In (h, p) (exOf s'))
  /\ (forall k', k' <> k ->
                 QMap.find k' (dataOf s') = QMap.find k' (dataOf s))
  /\ (forall k', QMap.contains (mapOf s) k' = true ->
                 QMap.contains (mapOf s') k' = true).
Proof.
  intros N. destruct s as [[[[d m] u] ex] fs]. cbv zeta.
  unfold Watcher.saveFormat, fsOf, exOf, dataOf, mapOf.
  destruct (QStr.startsWith k MIME_PREFIX_ITEMSYNC);
    [cbn [fst snd]; split; [apply untouched_refl | tauto]|].
  destruct (_ && bytes_eqb _ _).
  { cbn [fst snd]. split; [apply untouched_refl|]. split; [tauto|].
    split; [|tauto]. intros k' Nk. rewrite find_remove.
    destruct (String.eqb_spec k' k); [contradiction | reflexivity]. }
  fold (extensionFor old k).
  destruct (negb (QMap.contains old k) && QStr.isEmpty (extensionFor old k));
    [cbn [fst snd]; split; [apply untouched_refl | tauto]|].
  destruct (saveItemFile_untouched p (filePath +++ extensionFor old k)
              (toByteArray (value d k)) ex fs N) as [U X].
  destruct (saveItemFile _ _ ex fs) as [[ok ex'] fs']. cbn [fst snd] in *.
  split; [exact U|]. split; [exact X|]. split; [tauto|].
  intros k' C. rewrite contains_insert, C. apply orb_true_r.
Qed.

Lemma saveFormats_untouched (ks : QStringList) :
  (forall k, In k ks -> filePath +++ extensionFor old k <> p) ->
  forall s : LoopState,
    let s' := snd (forEachWhile (Watcher.saveFormat filePath old noSave) ks s) in
    untouched p (fsOf s) (fsOf s')
    /\ (forall h, In (h, p) (exOf s) -> In (h, p) (exOf s'))
    /\ (forall k', ~ In k' ks ->
                   QMap.find k' (dataOf s') = QMap.find k' (dataOf s))
    /\ (forall k', QMap.contains (mapOf s) k' = true ->
                   QMap.contains (mapOf s') k' = true).
Proof.
  induction ks as [|k ks IH]; intros H s; cbv zeta.
  - cbn [forEachWhile snd]. split; [apply untouched_refl | tauto].
  - cbn [forEachWhile].
    destruct (saveFormat_untouched k s (H k (or_introl eq_refl)))
      as (U & X & D & M).
    destruct (Watcher.saveFormat filePath old noSave k s) as [ok s1].
    cbn [snd] in U, X, D, M.
    destruct ok.
    + destruct (IH (fun k' I => H k' (or_intror I)) s1) as (U' & X' & D' & M').
      split; [eapply untouched_trans; eassumption|].
      split; [auto|]. split; [|auto].
      intros k' Nk. rewrite D' by (intros I; apply Nk; now right).
      apply D. intros ->. apply Nk. now left.
    + cbn [snd]. split; [exact U|]. split; [exact X|]. split; [|exact M].
      intros k' Nk. apply D. intros ->. apply Nk. now left.
Qed.

End FormatLoop.

End ElisionFacts.

Section ElisionRowFacts.

Context {P : Platform}.

Lemma forEachWhile_app (A S : Type) (body : A -> S -> bool * S)
  (l l' : list A) (s : S) :
  forEachWhile body (l ++ l') s
  = let '(ok, s1) := forEachWhile body l s in
    if ok then forEachWhile body l' s1 else (false, s1).
Proof.
  revert s. induction l as [|a l IH]; intros s; cbn [app forEachWhile].
  - reflexivity.
  - destruct (body a s) as [ok s1]. destruct ok; [apply IH | reflexivity].
Qed.

(** The formats whose files direction W removes are formats of the old
    extension map, with the extensions they had there, that the new map has
    not. *)
Lemma removed_formats (ks : QStringList) :
  forall (old : QVariantMap) (fmt : QString),
    In fmt (QMap.keys (fold_left (fun old fmt => QMap.remove fmt old) ks old)) ->
    In fmt (QMap.keys old) /\ ~ In fmt ks
    /\ value (fold_left (fun old fmt => QMap.remove fmt old) ks old) fmt
       = value old fmt.
Proof.
  induction ks as [|k ks IH]; intros old fmt I; cbn [fold_left] in *.
  - repeat split; [exact I | tauto].
  - destruct (IH _ _ I) as (I1 & N & V). apply keys_remove in I1.
    destruct I1 as [I1 Nk]. split; [exact I1|]. split.
    + intros [E|I2]; [now subst | contradiction].
    + rewrite V. unfold value. rewrite find_remove.
      destruct (String.eqb_spec fmt k); [contradiction | reflexivity].
Qed.

Lemma removeFormatFiles_remaining (path p : QString) (old : QVariantMap)
  (ks : QStringList) (fs : FileSystem) :
  (forall fmt, In fmt (QMap.keys old) -> ~ In fmt ks ->
               formatFile path old fmt <> p) ->
  untouched p fs
    (removeFormatFiles path
       (fold_left (fun old fmt => QMap.remove fmt old) ks old) fs).
Proof.
  intros H. apply removeFormatFiles_untouched. intros fmt I.
  destruct (removed_formats ks old fmt I) as (I1 & N & V).
  unfold formatFile. rewrite V. now apply H.
Qed.

(** The save of a row that has nothing at [p] leaves the file at [p] alone,
    and the pairs of [p] in the multimap. *)
Lemma saveRow_avoids (dir p : QString) (i : Z) (w : FileWatcher)
  (ex : MultiMap) (fs : FileSystem) :
  let index := ItemModel.index (m_model w) i in
  let filePath := FS.absoluteFilePath dir (getBaseName index) in
  let old := toMap (value (ItemModel.data index) mimeExtensionMap) in
  (forall k, In k (QMap.keys (ItemModel.data index)) ->
             filePath +++ extensionFor old k <> p) ->
  (QMap.keys (ItemModel.data index) = [] \/ filePath +++ dataFileSuffix <> p) ->
  (forall fmt, In fmt (QMap.keys old) -> formatFile filePath old fmt <> p) ->
  untouched p fs (snd (snd (Watcher.saveRow dir i (w, ex, fs))))
  /\ forall h, In (h, p) ex ->
               In (h, p) (snd (fst (snd (Watcher.saveRow dir i (w, ex, fs))))).
Proof.
  cbv zeta. intros H1 H2 H3. unfold Watcher.saveRow.
  set (index := ItemModel.index (m_model w) i) in *.
  set (filePath := FS.absoluteFilePath dir (getBaseName index)) in *.
  set (old := toMap (value (ItemModel.data index) mimeExtensionMap)) in *.
  set (noSave := toMap (value (ItemModel.data index) mimeNoSave)).
  pose proof (saveFormats_untouched filePath p old noSave
                (QMap.keys (ItemModel.data index)) H1
                (ItemModel.data index, QMap.empty, QMap.empty, ex, fs)) as L.
  cbv zeta in L.
  assert (U0 : QMap.keys (ItemModel.data index) = [] ->
               snd (fst (fst (snd (forEachWhile
                         (Watcher.saveFormat filePath old noSave)
                         (QMap.keys (ItemModel.data index))
                         (ItemModel.data index, QMap.empty, QMap.empty, ex, fs)))))
               = QMap.empty)
    by (intros E; rewrite E; reflexivity).
  destruct (forEachWhile _ _ _) as [ok [[[[d m] u] ex1] fs1]].
  cbn [fst snd] in L, U0. destruct L as (U & X & _ & _).
  destruct ok; cbn [negb]; [|cbn [fst snd]; split; assumption].
  set (m1 := if QMap.isEmpty m then QMap.insert "" (VString "") m else m).
  assert (S : let r := (if negb (QMap.isEmpty u)
                        then
                          let '(ok, existingFiles, fs0) :=
                            saveItemFile (filePath +++ dataFileSuffix)
                                         (serializeData u) ex1 fs1 in
                          (ok, QMap.insert "" (VString dataFileSuffix) m1,
                           existingFiles, fs0)
                        else (true, m1, ex1, fs1)) in
              untouched p fs (snd r)
              /\ forall h, In (h, p) ex -> In (h, p) (snd (fst r))).
  { cbv zeta. destruct (QMap.isEmpty u) eqn:Eu; cbn [negb].
    - cbn [fst snd]. split; assumption.
    - assert (N : filePath +++ dataFileSuffix <> p).
      { destruct H2 as [E|N]; [|exact N].
        rewrite (U0 E) in Eu. discriminate. }
      destruct (saveItemFile_untouched p _ (serializeData u) ex1 fs1 N)
        as [U' X'].
      destruct (saveItemFile _ _ ex1 fs1) as [[ok2 ex2] fs2].
      cbn [fst snd] in *. split; [eapply untouched_trans; eassumption | auto]. }
  cbv zeta in S.
  destruct (if negb (QMap.isEmpty u) then _ else _) as [[[ok2 m2] ex2] fs2].
  cbn [fst snd] in S. destruct S as [U2 X2].
  destruct ok2; cbn [negb]; [|cbn [fst snd]; split; assumption].
  destruct (_ || _); cbn [fst snd]; [|split; assumption].
  split; [|exact X2].
  eapply untouched_trans; [exact U2|].
  apply removeFormatFiles_remaining. intros fmt I _. now apply H3.
Qed.

Lemma saveRow_avoids_row (dir p : QString) (i : Z) (w : FileWatcher)
  (ex : MultiMap) (fs : FileSystem) :
  (forall r, ItemModel.index (m_model w) i = Some r ->
             ~ In p (rowTargets dir r)) ->
  untouched p fs (snd (snd (Watcher.saveRow dir i (w, ex, fs))))
  /\ forall h, In (h, p) ex ->
               In (h, p) (snd (fst (snd (Watcher.saveRow dir i (w, ex, fs))))).
Proof.
  intros H. apply saveRow_avoids.
  - destruct (ItemModel.index (m_model w) i) as [r|]; [|intros k []].
    intros k I E. apply (H r eq_refl). unfold rowTargets.
    apply in_or_app. left. apply in_map_iff. exists k. split; [exact E | exact I].
  - destruct (ItemModel.index (m_model w) i) as [r|]; [|now left].
    right. intros E. apply (H r eq_refl). unfold rowTargets.
    apply in_or_app. right. left. exact E.
  - destruct (ItemModel.index (m_model w) i) as [r|]; [|intros fmt []].
    intros fmt I E. apply (H r eq_refl). unfold rowTargets.
    apply in_or_app. right. right. apply in_map_iff.
    exists fmt. split; [exact E | exact I].
Qed.

End ElisionRowFacts.

Section ElisionPassFacts.

Context {P : Platform}.

(** The turn of the loop on a payload that is saved to a file and whose
    pair is in the multimap. *)
Lemma saveFormat_elided (filePath : QString) (old noSave : QVariantMap)
  (k : QString) (d m u : QVariantMap) (ex : MultiMap) (fs : FileSystem) :
  userKey k = true ->
  QMap.contains noSave k
  && bytes_eqb (toByteArray (value noSave k))
               (calculateHash (toByteArray (value d k))) = false ->
  QMap.contains old k || negb (QStr.isEmpty (extensionFor old k)) = true ->
  In (calculateHash (toByteArray (value d k)),
      filePath +++ extensionFor old k) ex ->
  Watcher.saveFormat filePath old noSave k (d, m, u, ex, fs)
  = (true, (d, QMap.insert k (VString (extensionFor old k)) m, u,
            MMap.remove (calculateHash (toByteArray (value d k)))
                        (filePath +++ extensionFor old k) ex, fs)).
Proof.
  intros U N F I. unfold Watcher.saveFormat.
  unfold userKey in U. apply negb_true_iff in U. rewrite U, N.
  fold (extensionFor old k).
  replace (negb (QMap.contains old k) && QStr.isEmpty (extensionFor old k))
    with false.
  - now rewrite (saveItemFile_elides _ _ _ fs I).
  - symmetry. apply orb_true_iff in F. destruct F as [F|F].
    + now rewrite F.
    + apply negb_true_iff in F. rewrite F. apply andb_false_r.
Qed.

(** The save of a row in which only one payload has its file at [p], and
    the pair of that payload is in the multimap. *)
Lemma saveRow_elides (dir p : QString) (i : Z) (w : FileWatcher)
  (ex : MultiMap) (fs : FileSystem) (r : Row) (k0 : QString) :
  ItemModel.index (m_model w) i = Some r ->
  OnlyPayloadAt dir r k0 p ->
  In (calculateHash (payloadOf r k0), p) ex ->
  untouched p fs (snd (snd (Watcher.saveRow dir i (w, ex, fs)))).
Proof.
  intros Ir [Sv Pa (kb & ka & Ek & Ho) Hd Hf] Ip.
  unfold Watcher.saveRow. rewrite Ir. cbn [ItemModel.data].
  fold (nameOf r). fold (extensionMapOf r).
  set (filePath := FS.absoluteFilePath dir (nameOf r)) in *.
  set (old := extensionMapOf r) in *.
  set (noSave := toMap (value (rowData r) mimeNoSave)).
  assert (T : forall k, itemFilePath dir (nameOf r) old k
                        = filePath +++ extensionFor old k) by reflexivity.
  rewrite Ek, forEachWhile_app.
  (* the formats before [k0] *)
  pose proof (saveFormats_untouched filePath p old noSave kb
                (fun k I => eq_ind _ (fun q => q <> p)
                              (Ho k (in_or_app _ _ _ (or_introl I))) _ (T k))
                (rowData r, QMap.empty, QMap.empty, ex, fs)) as Lb.
  cbv zeta in Lb.
  destruct (forEachWhile _ kb _) as [ok [[[[d1 m1] u1] ex1] fs1]].
  cbn [fst snd] in Lb. destruct Lb as (Ub & Xb & Db & _).
  destruct ok; [|cbn [negb fst snd]; exact Ub].
  assert (Nk : ~ In k0 kb).
  { intros I. apply (Ho k0 (in_or_app _ _ _ (or_introl I))). exact Pa. }
  assert (V : value d1 k0 = value (rowData r) k0)
    by (unfold value; now rewrite (Db k0 Nk)).
  (* the turn on [k0] *)
  unfold savedToFile in Sv. cbv zeta in Sv.
  apply andb_true_iff in Sv. destruct Sv as [Sv S3].
  apply andb_true_iff in Sv. destruct Sv as [S1 S2].
  apply negb_true_iff in S2. pose proof (Xb _ Ip) as Ip1.
  unfold payloadOf in S2, Ip1. rewrite <- V in S2, Ip1.
  rewrite <- Pa, T in Ip1.
  cbn [forEachWhile].
  rewrite (saveFormat_elided filePath old noSave k0 d1 m1 u1 ex1 fs1
             S1 S2 S3 Ip1).
  (* the formats after it *)
  pose proof (saveFormats_untouched filePath p old noSave ka
                (fun k I => eq_ind _ (fun q => q <> p)
                              (Ho k (in_or_app _ _ _ (or_intror I))) _ (T k))
                (d1, QMap.insert k0 (VString (extensionFor old k0)) m1, u1,
                 MMap.remove (calculateHash (toByteArray (value d1 k0)))
                             (filePath +++ extensionFor old k0) ex1, fs1)) as La.
  cbv zeta in La.
  destruct (forEachWhile _ ka _) as [ok [[[[d m] u] ex2] fs2]].
  cbn [fst snd] in La. destruct La as (Ua & _ & _ & Ma).
  assert (U : untouched p fs fs2) by (eapply untouched_trans; eassumption).
  assert (C : QMap.contains m k0 = true).
  { apply Ma. rewrite contains_insert, String.eqb_refl. reflexivity. }
  destruct ok; cbn [negb]; [|cbn [fst snd]; exact U].
  set (m' := if QMap.isEmpty m then QMap.insert "" (VString "") m else m).
  assert (C' : QMap.contains m' k0 = true).
  { subst m'. destruct (QMap.isEmpty m); [|exact C].
    rewrite contains_insert, C. apply orb_true_r. }
  assert (S : let x := (if negb (QMap.isEmpty u)
                        then
                          let '(ok, existingFiles, fs0) :=
                            saveItemFile (filePath +++ dataFileSuffix)
                                         (serializeData u) ex2 fs2 in
                          (ok, QMap.insert "" (VString dataFileSuffix) m',
                           existingFiles, fs0)
                        else (true, m', ex2, fs2)) in
              untouched p fs (snd x)
              /\ QMap.contains (snd (fst (fst x))) k0 = true).
  { cbv zeta. destruct (QMap.isEmpty u); cbn [negb].
    - cbn [fst snd]. split; assumption.
    - destruct (saveItemFile_untouched p _ (serializeData u) ex2 fs2 Hd)
        as [U' _].
      destruct (saveItemFile _ _ ex2 fs2) as [[ok2 ex3] fs3].
      cbn [fst snd] in *. split; [eapply untouched_trans; eassumption|].
      rewrite contains_insert, C'. apply orb_true_r. }
  cbv zeta in S.
  destruct (if negb (QMap.isEmpty u) then _ else _) as [[[ok2 m2] ex3] fs3].
  cbn [fst snd] in S. destruct S as [U2 C2].
  destruct ok2; cbn [negb]; [|cbn [fst snd]; exact U2].
  destruct (negb (QMap.isEmpty noSave) || _); cbn [fst snd]; [|exact U2].
  eapply untouched_trans; [exact U2|].
  apply removeFormatFiles_remaining. intros fmt I N. apply Hf; [exact I|].
  intros ->. apply N. now apply contains_keys.
Qed.

(** Rows that have nothing at [p]. *)
Lemma saveRows_avoid (dir p : QString) (rs : list Z) :
  forall (w : FileWatcher) (ex : MultiMap) (fs : FileSystem),
    NoDup (map rowId (rows (m_model w))) -> NoDup rs ->
    (forall j r, In j rs -> ItemModel.index (m_model w) j = Some r ->
                 ~ In p (rowTargets dir r)) ->
    let s' := snd (forEachWhile (Watcher.saveRow dir) rs (w, ex, fs)) in
    untouched p fs (snd s')
    /\ (forall h, In (h, p) ex -> In (h, p) (snd (fst s')))
    /\ NoDup (map rowId (rows (m_model (fst (fst s')))))
    /\ (forall j, ~ In j rs ->
                  ItemModel.index (m_model (fst (fst s'))) j
                  = ItemModel.index (m_model w) j).
Proof.
  induction rs as [|i rs IH]; intros w ex fs N D H; cbv zeta.
  - cbn [forEachWhile fst snd]. split; [apply untouched_refl | tauto].
  - cbn [forEachWhile].
    destruct (saveRow_avoids_row dir p i w ex fs
                (fun r => H i r (or_introl eq_refl))) as [U X].
    pose proof (saveRow_stepFrame dir i i i (w, ex, fs) N ltac:(lia)) as F.
    destruct (Watcher.saveRow dir i (w, ex, fs)) as [ok [[w1 ex1] fs1]].
    cbn [fst snd] in U, X, F. destruct F as [(Ids & Out & _) _].
    assert (N1 : NoDup (map rowId (rows (m_model w1)))) by now rewrite Ids.
    assert (O : forall j, j <> i ->
                ItemModel.index (m_model w1) j = ItemModel.index (m_model w) j)
      by (intros j Nj; apply Out; lia).
    inversion D as [|? ? Ni D']; subst.
    destruct ok.
    + destruct (IH w1 ex1 fs1 N1 D') as (U' & X' & N' & O').
      { intros j r Ij Ir. apply (H j r (or_intror Ij)).
        rewrite <- O; [exact Ir|]. intros ->. contradiction. }
      split; [eapply untouched_trans; eassumption|]. split; [auto|].
      split; [exact N'|].
      intros j Nj. rewrite O' by (intros I; apply Nj; now right).
      apply O. intros ->. apply Nj. now left.
    + cbn [fst snd]. split; [exact U|]. split; [exact X|]. split; [exact N1|].
      intros j Nj. apply O. intros ->. apply Nj. now left.
Qed.

(** The loop over the rows when only one payload of one row has its file at
    [p], and its pair is in the multimap. *)
Lemma saveRows_elide (dir p : QString) (rb ra : list Z) (i0 : Z)
  (w : FileWatcher) (ex : MultiMap) (fs : FileSystem) (r : Row)
  (k0 : QString) :
  NoDup (map rowId (rows (m_model w))) ->
  NoDup (rb ++ i0 :: ra) ->
  ItemModel.index (m_model w) i0 = Some r ->
  OnlyPayloadAt dir r k0 p ->
  In (calculateHash (payloadOf r k0), p) ex ->
  (forall j r', In j (rb ++ ra) -> ItemModel.index (m_model w) j = Some r' ->
                ~ In p (rowTargets dir r')) ->
  untouched p fs
    (snd (snd (forEachWhile (Watcher.saveRow dir) (rb ++ i0 :: ra)
                            (w, ex, fs)))).
Proof.
  intros N D Ir O Ip H.
  assert (Db : NoDup rb) by (apply NoDup_app_remove_r in D; exact D).
  assert (Di : ~ In i0 rb /\ ~ In i0 ra /\ NoDup ra
               /\ forall j, In j ra -> ~ In j rb).
  { apply NoDup_remove in D. destruct D as [D Ni].
    split; [intros I; apply Ni, in_or_app; now left|].
    split; [intros I; apply Ni, in_or_app; now right|].
    split; [apply NoDup_app_remove_l in D; exact D|].
    intros j Ia Ib. clear - D Ia Ib.
    induction rb as [|b rb IH]; [destruct Ib|].
    cbn [app] in D. inversion D as [|? ? Nb D']; subst.
    destruct Ib as [->|Ib]; [apply Nb, in_or_app; now right | now apply IH]. }
  destruct Di as (Nib & Nia & Da & Dab).
  rewrite forEachWhile_app.
  destruct (saveRows_avoid dir p rb w ex fs N Db) as (Ub & Xb & Nb & Ob).
  { intros j r' Ij. apply H, in_or_app. now left. }
  destruct (forEachWhile (Watcher.saveRow dir) rb (w, ex, fs))
    as [ok [[w1 ex1] fs1]].
  cbn [fst snd] in Ub, Xb, Nb, Ob.
  destruct ok; [|cbn [snd]; exact Ub].
  cbn [forEachWhile].
  assert (Ir1 : ItemModel.index (m_model w1) i0 = Some r)
    by (rewrite Ob; assumption).
  pose proof (saveRow_elides dir p i0 w1 ex1 fs1 r k0 Ir1 O (Xb _ Ip)) as Ui.
  pose proof (saveRow_stepFrame dir i0 i0 i0 (w1, ex1, fs1) Nb ltac:(lia)) as F.
  destruct (Watcher.saveRow dir i0 (w1, ex1, fs1)) as [ok [[w2 ex2] fs2]].
  cbn [fst snd] in Ui, F. destruct F as [(Ids & Out & _) _].
  assert (U2 : untouched p fs fs2) by (eapply untouched_trans; eassumption).
  destruct ok; [|cbn [snd]; exact U2].
  destruct (saveRows_avoid dir p ra w2 ex2 fs2) as (Ua & _); [| exact Da | |].
  - now rewrite Ids.
  - intros j r' Ij Ir'. apply (H j r'); [apply in_or_app; now right|].
    rewrite <- Ob by now apply Dab.
    rewrite <- Out; [exact Ir'|].
    assert (j <> i0) by (intros ->; contradiction). lia.
  - cbv zeta in Ua. eapply untouched_trans; eassumption.
Qed.

End ElisionPassFacts.

Section AbortFacts.

Context {P : Platform}.

Lemma forEachWhile_keeps (A S B : Type) (body : A -> S -> bool * S)
  (f : S -> B) :
  (forall a s, f (snd (body a s)) = f s) ->
  forall l s, f (snd (forEachWhile body l s)) = f s.
Proof.
  intros H. induction l as [|a l IH]; intros s; cbn [forEachWhile];
    [reflexivity|].
  specialize (H a s). destruct (body a s) as [ok s1]. cbn [snd] in H.
  destruct ok; [now rewrite IH | exact H].
Qed.

Lemma renameRow_valid (i : Z) (s : QStringList * FileWatcher * FileSystem) :
  m_valid (snd (fst (snd (Watcher.renameRow i s)))) = m_valid (snd (fst s)).
Proof.
  destruct s as [[used w] fs]. unfold Watcher.renameRow.
  destruct (renameToUnique _ used (m_formatSettings w)) as [[ok name] used1].
  destruct ok; cbn [negb]; [|reflexivity].
  destruct (_ || negb (String.eqb name _)); [|reflexivity].
  destruct (negb (QStr.isEmpty _)); cbn [fst snd]; [reflexivity|].
  destruct (ItemModel.index (m_model w) i); reflexivity.
Qed.

Lemma saveRow_valid (dir : QString) (i : Z)
  (s : FileWatcher * MultiMap * FileSystem) :
  m_valid (fst (fst (snd (Watcher.saveRow dir i s)))) = m_valid (fst (fst s)).
Proof.
  destruct s as [[w ex] fs]. unfold Watcher.saveRow.
  destruct (forEachWhile _ _ _) as [ok [[[[d m2e] unk] ex1] fs1]].
  destruct ok; cbn [negb]; [|reflexivity].
  destruct (if negb (QMap.isEmpty unk) then _ else _) as [[[ok m2e'] ex2] fs2].
  destruct ok; cbn [negb]; [|reflexivity].
  destruct (negb (QMap.isEmpty _) || _); [|reflexivity]. cbn [fst snd].
  destruct (ItemModel.index (m_model w) i); reflexivity.
Qed.

(** A write that fails while a row is saved fails the save of the row: the
    watcher is left as it was, and nothing is done after the write. *)
Lemma saveRow_write_error (dir : QString) (row : Z) (w : FileWatcher)
  (ex : MultiMap) (fs : FileSystem) (kb ka : QStringList) (k : QString)
  (d m u : QVariantMap) (ex1 : MultiMap) (fs1 : FileSystem) :
  let index := ItemModel.index (m_model w) row in
  let itemData := ItemModel.data index in
  let filePath := FS.absoluteFilePath dir (getBaseName index) in
  let old := toMap (value itemData mimeExtensionMap) in
  let noSave := toMap (value itemData mimeNoSave) in
  QMap.keys itemData = kb ++ k :: ka ->
  forEachWhile (Watcher.saveFormat filePath old noSave) kb
               (itemData, QMap.empty, QMap.empty, ex, fs)
  = (true, (d, m, u, ex1, fs1)) ->
  let bytes := toByteArray (value d k) in
  let path := filePath +++ extensionFor old k in
  userKey k = true ->
  QMap.contains noSave k
  && bytes_eqb (toByteArray (value noSave k)) (calculateHash bytes) = false ->
  QMap.contains old k || negb (QStr.isEmpty (extensionFor old k)) = true ->
  ~ In (calculateHash bytes, path) ex1 ->
  fst (FS.writeFile fs1 path bytes) = false ->
  Watcher.saveRow dir row (w, ex, fs)
  = (false, (w, ex1, snd (FS.writeFile fs1 path bytes))).
Proof.
  cbv zeta. intros Ek Eb U N F X W. unfold Watcher.saveRow.
  rewrite Ek, forEachWhile_app, Eb. cbn [forEachWhile].
  unfold Watcher.saveFormat at 1.
  unfold userKey in U. apply negb_true_iff in U. rewrite U, N.
  fold (extensionFor (toMap (value (ItemModel.data
                                      (ItemModel.index (m_model w) row))
                                   mimeExtensionMap)) k).
  match goal with
  | |- context [negb (QMap.contains ?o k) && QStr.isEmpty ?e] =>
      replace (negb (QMap.contains o k) && QStr.isEmpty e) with false
  end.
  - rewrite (saveItemFile_writes _ _ _ fs1 X), W. reflexivity.
  - symmetry. apply orb_true_iff in F. destruct F as [F|F].
    + now rewrite F.
    + apply negb_true_iff in F. rewrite F. apply andb_false_r.
Qed.

(** Direction W when the save of a row fails. *)
Lemma saveItems_row_fails (first last : Z) (w w1 w2 : FileWatcher)
  (fs fs1 fs2 : FileSystem) (before after : list Z) (row : Z)
  (st1 : FileWatcher * MultiMap * FileSystem) (ex2 : MultiMap) :
  Watcher.renameToUnique first last (Watcher.disconnectModel w) fs
  = (true, w1, fs1) ->
  QStr.isEmpty (m_path w1) = false ->
  FS.mkpath fs1 (m_path w1) = true ->
  rowsBetween first last = before ++ row :: after ->
  forEachWhile (Watcher.saveRow (m_path w1)) before
               (w1, listFilesOfDir fs1 (m_path w1), fs1) = (true, st1) ->
  Watcher.saveRow (m_path w1) row st1 = (false, (w2, ex2, fs2)) ->
  Watcher.saveItems first last w fs = (w2, fs2) /\ m_valid w2 = false.
Proof.
  intros Er Ep Em El Eb Es.
  assert (V1 : m_valid w1 = false).
  { unfold Watcher.renameToUnique in Er.
    pose proof (forEachWhile_keeps Z (QStringList * FileWatcher * FileSystem)%type
                  bool Watcher.renameRow (fun s => m_valid (snd (fst s)))
                  renameRow_valid (rowsBetween first last)
                  (Watcher.usedBaseNames first last 0
                     (rows (m_model (Watcher.disconnectModel w))),
                   Watcher.disconnectModel w, fs)) as K.
    destruct (forEachWhile Watcher.renameRow _ _) as [ok [[used w'] fs']].
    cbn [fst snd] in K. injection Er as _ <- _. exact K. }
  assert (V2 : m_valid w2 = false).
  { pose proof (forEachWhile_keeps Z (FileWatcher * MultiMap * FileSystem)%type
                  bool (Watcher.saveRow (m_path w1))
                  (fun s => m_valid (fst (fst s)))
                  (saveRow_valid (m_path w1)) before
                  (w1, listFilesOfDir fs1 (m_path w1), fs1)) as K.
    rewrite Eb in K. cbn [fst snd] in K.
    pose proof (saveRow_valid (m_path w1) row st1) as K2.
    rewrite Es in K2. cbn [fst snd] in K2. congruence. }
  split; [|exact V2].
  unfold Watcher.saveItems. rewrite Er. cbn [negb]. rewrite Ep, Em. cbn [negb].
  rewrite El, (forEachWhile_stops _ _ _ before after row _ st1 (w2, ex2, fs2) Eb Es).
  reflexivity.
Qed.

End AbortFacts.

Section ListingFacts.

Context {P : Platform}.

(** The pairs of the multimap of a directory. *)
Lemma listFilesOfDir_pairs (fs : FileSystem) (dir : QString) (h : Hash)
  (path : QString) :
  In (h, path) (listFilesOfDir fs dir)
  <-> exists name f,
        In name (FS.entryList fs dir)
        /\ path = FS.absoluteFilePath dir name
        /\ FS.openRead fs path = Some f
        /\ h = if FS.size f >? sizeLimit then [] else calculateHash (contents f).
Proof.
  unfold listFilesOfDir. rewrite in_flat_map. split.
  - intros (name & I & H).
    destruct (FS.openRead fs (FS.absoluteFilePath dir name)) as [f|] eqn:O;
      [|destruct H].
    destruct H as [E|[]]. injection E as <- <-.
    exists name, f. repeat split; assumption.
  - intros (name & f & I & -> & O & ->). exists name. split; [exact I|].
    rewrite O. left. reflexivity.
Qed.

(** A write of the data file that fails fails the save of the row. *)
Lemma saveRow_data_file_error (dir : QString) (row : Z) (w : FileWatcher)
  (ex : MultiMap) (fs : FileSystem) (d m u : QVariantMap) (ex1 : MultiMap)
  (fs1 : FileSystem) :
  let index := ItemModel.index (m_model w) row in
  let itemData := ItemModel.data index in
  let filePath := FS.absoluteFilePath dir (getBaseName index) in
  let old := toMap (value itemData mimeExtensionMap) in
  let noSave := toMap (value itemData mimeNoSave) in
  forEachWhile (Watcher.saveFormat filePath old noSave) (QMap.keys itemData)
               (itemData, QMap.empty, QMap.empty, ex, fs)
  = (true, (d, m, u, ex1, fs1)) ->
  let bytes := serializeData u in
  let path := filePath +++ dataFileSuffix in
  QMap.isEmpty u = false ->
  ~ In (calculateHash bytes, path) ex1 ->
  fst (FS.writeFile fs1 path bytes) = false ->
  Watcher.saveRow dir row (w, ex, fs)
  = (false, (w, ex1, snd (FS.writeFile fs1 path bytes))).
Proof.
  cbv zeta. intros El U X W. unfold Watcher.saveRow.
  rewrite El. cbn [negb]. rewrite U. cbn [negb].
  rewrite (saveItemFile_writes _ _ _ fs1 X), W. reflexivity.
Qed.

End ListingFacts.

Section PassFacts.

Context {P : Platform}.

(** Direction W, once the rows are renamed, when only one payload of one row
    of the range has its file at [p], and its pair is in the multimap of the
    directory. *)
Lemma saveItems_elides (first last i0 : Z) (w w1 : FileWatcher)
  (fs fs1 : FileSystem) (r : Row) (k0 p : QString) :
  NoDup (map rowId (rows (m_model w))) ->
  Watcher.renameToUnique first last (Watcher.disconnectModel w) fs
  = (true, w1, fs1) ->
  first <= i0 <= last ->
  ItemModel.index (m_model w1) i0 = Some r ->
  OnlyPayloadAt (m_path w1) r k0 p ->
  In (calculateHash (payloadOf r k0), p) (listFilesOfDir fs1 (m_path w1)) ->
  (forall j r', first <= j <= last -> j <> i0 ->
                ItemModel.index (m_model w1) j = Some r' ->
                ~ In p (rowTargets (m_path w1) r')) ->
  untouched p fs1 (snd (Watcher.saveItems first last w fs)).
Proof.
  intros N0 Er Hi Ir O Ip H.
  assert (N : NoDup (map rowId (rows (m_model w1)))).
  { pose proof (renameToUnique_stepFrame first last (Watcher.disconnectModel w)
                  fs N0) as F.
    rewrite Er in F. cbn [fst snd] in F. destruct F as [[Ids _] _].
    now rewrite Ids. }
  unfold Watcher.saveItems. rewrite Er. cbn [negb].
  destruct (QStr.isEmpty (m_path w1)); [apply untouched_refl|].
  destruct (negb (FS.mkpath fs1 (m_path w1))); [apply untouched_refl|].
  assert (I0 : In i0 (rowsBetween first last)).
  { unfold rowsBetween.
    assert (G : forall n a, a <= i0 < a + Z.of_nat n -> In i0 (rowRange a n)).
    { induction n as [|n IH]; intros a Ha; [lia|].
      cbn [rowRange]. destruct (Z.eq_dec a i0) as [->|Ne]; [now left|].
      right. apply IH. lia. }
    apply G. lia. }
  destruct (in_split _ _ I0) as (rb & ra & E).
  assert (D : NoDup (rb ++ i0 :: ra))
    by (rewrite <- E; apply rowRange_NoDup).
  pose proof (saveRows_elide (m_path w1) p rb ra i0 w1
                (listFilesOfDir fs1 (m_path w1)) fs1 r k0 N D Ir O Ip) as U.
  rewrite <- E in U.
  destruct (forEachWhile (Watcher.saveRow (m_path w1)) (rowsBetween first last)
                         (w1, listFilesOfDir fs1 (m_path w1), fs1))
    as [ok [[w2 ex2] fs2]].
  cbn [fst snd] in U.
  assert (U' : untouched p fs1 fs2).
  { apply U. intros j r' Ij. 
    assert (Ij' : In j (rowsBetween first last))
      by (rewrite E; apply in_app_or in Ij; apply in_or_app;
          destruct Ij; [now left | right; now right]).
    apply rowsBetween_In in Ij'. apply H; [exact Ij'|].
    intros ->. apply NoDup_remove_2 in D. contradiction. }
  destruct ok; exact U'.
Qed.

End PassFacts.


(** Two payloads of a row that have the same file, whatever the digest, as
    long as it tells the two payloads apart: the file holds the second
    payload, and direction W writes the first one to it. *)
Lemma sibling_payload_rewrites_file_for_every_digest {P : Platform} :
  sha1 (bytesOf "<a/>") <> sha1 (bytesOf "<b/>") ->
  let w := watcherOf "/sync" twoXmlPayloads in
  let fs := plainFiles [("/sync/feed.xml", bytesOf "<b/>")] in
  In (calculateHash (bytesOf "<b/>"), "/sync/feed.xml")
     (listFilesOfDir fs "/sync")
  /\ m_valid (fst (Watcher.saveItems 0 0 w fs)) = true
  /\ files (snd (Watcher.saveItems 0 0 w fs))
     = [("/sync/feed.xml", mkFileNode (bytesOf "<a/>") false true true)].
Proof.
  intros N. cbv zeta.
  assert (Eba : bytes_eqb (sha1 (bytesOf "<b/>")) (sha1 (bytesOf "<a/>"))
                = false).
  { destruct (bytes_eqb _ _) eqn:E; [|reflexivity].
    apply bytes_eqb_eq in E. symmetry in E. contradiction. }
  assert (Ebb : bytes_eqb (sha1 (bytesOf "<b/>")) (sha1 (bytesOf "<b/>"))
                = true)
    by now apply bytes_eqb_eq.
  remember (sha1 (bytesOf "<a/>")) as ha eqn:Ha.
  remember (sha1 (bytesOf "<b/>")) as hb eqn:Hb.
  assert (La : sha1 [x3c; x61; x2f; x3e] = ha) by (rewrite Ha; reflexivity).
  assert (Lb : sha1 [x3c; x62; x2f; x3e] = hb) by (rewrite Hb; reflexivity).
  split.
  { left. cbv -[sha1]. rewrite Lb. reflexivity. }
  cbv -[sha1 bytes_eqb]. rewrite ?La, ?Lb, ?Eba, ?Ebb.
  cbv -[sha1 bytes_eqb]. rewrite ?La, ?Lb, ?Eba, ?Ebb.
  cbv -[sha1 bytes_eqb]. split; reflexivity.
Qed.


